(** * x402 payment agent: challenge parsing, payment construction,
      header encoding and the purchase flow

    Shallow embedding of the TypeScript sources
    - [x402-handler.ts]  ([X402PaymentHandler]: [parseChallenge],
      [getUsdcTokenAccount], [getUsdcBalance], [createPayment],
      [getSolBalance]),
    - [wallet.ts]        ([AgentWallet], [loadOrCreateWallet]),
    - [api-client.ts]    (the [X402Challenge] interface, [PinspireClient]),
    - [agent.ts]         ([PinspireAgent]: [purchaseImage], [run],
      [runInteractive], the discovery phases, [printSummary]),
    - [index.ts]         (the configuration and the balance notices of
      [main]).

    JavaScript strings are sequences of UTF-16 code units, numbers are
    IEEE-754 binary64 values, bigints are unbounded integers.  Exceptions
    are values of type [Error] carried by a small exception monad. *)

From Stdlib Require Import ZArith List Bool Lia String Ascii.
From Stdlib Require Import DecimalZ.
From Stdlib Require Import Floats.SpecFloat.
Import ListNotations.
Open Scope Z_scope.

(** ** JavaScript strings *)

Module JS.

(** A string is the list of its UTF-16 code units. *)
Definition jsstring := list Z.

(** Code units of an ASCII literal. *)
Definition str (s : string) : jsstring :=
  map (fun a => Z.of_N (N_of_ascii a)) (list_ascii_of_string s).

Definition code_unit (c : Z) : Prop := 0 <= c < 65536.

Definition isHighSurrogate (c : Z) : bool := (55296 <=? c) && (c <=? 56319).
Definition isLowSurrogate (c : Z) : bool := (56320 <=? c) && (c <=? 57343).
Definition isSurrogate (c : Z) : bool := (55296 <=? c) && (c <=? 57343).

Fixpoint eqb_list (a b : list Z) : bool :=
  match a, b with
  | [], [] => true
  | x :: a', y :: b' => (x =? y) && eqb_list a' b'
  | _, _ => false
  end.

(** [StrWhiteSpaceChar]: WhiteSpace and LineTerminator of ECMA-262. *)
Definition isWhiteSpace (c : Z) : bool :=
  existsb (Z.eqb c)
    [9; 10; 11; 12; 13; 32; 160; 5760; 8192; 8193; 8194; 8195; 8196; 8197;
     8198; 8199; 8200; 8201; 8202; 8232; 8233; 8239; 8287; 12288; 65279].

Fixpoint trimStart (s : jsstring) : jsstring :=
  match s with
  | c :: s' => if isWhiteSpace c then trimStart s' else s
  | [] => []
  end.

Definition trimEnd (s : jsstring) : jsstring := rev (trimStart (rev s)).

Definition trim (s : jsstring) : jsstring := trimEnd (trimStart s).

(** Value of a code unit as a digit: [0-9], [a-z], [A-Z] give 0..35. *)
Definition digitValue (c : Z) : option Z :=
  if (48 <=? c) && (c <=? 57) then Some (c - 48)
  else if (97 <=? c) && (c <=? 122) then Some (c - 87)
  else if (65 <=? c) && (c <=? 90) then Some (c - 55)
  else None.

Definition radixDigit (R c : Z) : option Z :=
  match digitValue c with
  | Some d => if d <? R then Some d else None
  | None => None
  end.

(** The longest prefix of radix-[R] digits, read as a number; [acc] is the
    value read so far and [seen] tells whether a digit was read. *)
Fixpoint digitsPrefix (R : Z) (s : jsstring) (acc : Z) (seen : bool) : option Z :=
  match s with
  | c :: s' =>
      match radixDigit R c with
      | Some d => digitsPrefix R s' (acc * R + d) true
      | None => if seen then Some acc else None
      end
  | [] => if seen then Some acc else None
  end.

(** A non-empty string made of radix-[R] digits only, read as a number. *)
Fixpoint digitsAll (R : Z) (s : jsstring) (acc : Z) (seen : bool) : option Z :=
  match s with
  | c :: s' =>
      match radixDigit R c with
      | Some d => digitsAll R s' (acc * R + d) true
      | None => None
      end
  | [] => if seen then Some acc else None
  end.

(** ** Numbers: IEEE-754 binary64 *)

Definition number := spec_float.

Definition prec : Z := 53.
Definition emax : Z := 1024.

(** The Number value for a mathematical integer: round to nearest, ties to
    even. *)
Definition ofInt (z : Z) : number := binary_normalize prec emax z 0 false.

Definition NaN : number := S754_nan.

Definition div (x y : number) : number := SFdiv prec emax x y.

(** The [<] operator on numbers; any comparison with NaN is false. *)
Definition lt (x y : number) : bool := SFltb x y.

(** The radix a two-character prefix [0x], [0o] or [0b] announces
    (either case). *)
Definition prefixRadix (c x : Z) : option Z :=
  if c =? 48 then
    if (x =? 120) || (x =? 88) then Some 16
    else if (x =? 111) || (x =? 79) then Some 8
    else if (x =? 98) || (x =? 66) then Some 2
    else None
  else None.

(** [parseInt(string)] with no radix argument: leading white space, a
    sign, [0x] for radix 16, then the longest run of digits; what follows
    the digits is ignored. *)
Definition parseInt (input : jsstring) : number :=
  let S0 := trimStart input in
  let '(sign, S1) :=
    match S0 with
    | c :: r =>
        if c =? 45 then (true, r)
        else if c =? 43 then (false, r)
        else (false, S0)
    | [] => (false, S0)
    end in
  let '(R, S2) :=
    match S1 with
    | c :: x :: r =>
        match prefixRadix c x with
        | Some 16 => (16, r)
        | _ => (10, S1)
        end
    | _ => (10, S1)
    end in
  match digitsPrefix R S2 0 false with
  | None => NaN
  | Some n =>
      if n =? 0 then S754_zero sign
      else ofInt (if sign then - n else n)
  end.

(** [parseInt(v)] for a value that is a string or [undefined]: the
    argument is first converted with ToString. *)
Definition parseIntOf (v : option jsstring) : number :=
  match v with
  | Some s => parseInt s
  | None => parseInt (str "undefined")
  end.

(** A decimal literal with an optional sign. *)
Definition signedDecimal (s : jsstring) : option Z :=
  match s with
  | c :: r =>
      if c =? 45 then option_map Z.opp (digitsAll 10 r 0 false)
      else if c =? 43 then digitsAll 10 r 0 false
      else digitsAll 10 s 0 false
  | [] => None
  end.

(** [BigInt(string)]: StringToBigInt; [None] is the SyntaxError.  White
    space is trimmed at both ends, the empty string is [0n], a prefixed
    literal takes no sign. *)
Definition stringToBigInt (input : jsstring) : option Z :=
  match trim input with
  | [] => Some 0
  | c :: x :: r =>
      match prefixRadix c x with
      | Some R => digitsAll R r 0 false
      | None => signedDecimal (c :: x :: r)
      end
  | s => signedDecimal s
  end.

(** Truthiness of a value that is a string or [undefined]. *)
Definition truthy (v : option jsstring) : bool :=
  match v with
  | Some (_ :: _) => true
  | _ => false
  end.

End JS.

(** ** Exceptions *)

(** The exceptions the modelled code can raise.  The two [throw]
    statements of [x402-handler.ts] are named after the error taxonomy of
    the design; the others are raised by the runtime, the SDK or the
    network. *)
Inductive Error :=
| MalformedChallenge       (* Error("No payment option in x402 challenge") *)
| InsufficientFunds        (* Error("Insufficient USDC balance. Have: ..., Need: ...") *)
| TypeError                (* property access or conversion of undefined *)
| SyntaxError              (* BigInt of a string that is no integer literal *)
| NonBase58Character       (* bs58.decode *)
| InvalidPublicKeyInput    (* new PublicKey: not 32 bytes *)
| TokenOwnerOffCurveError  (* getAssociatedTokenAddress *)
| RpcError                 (* a failed request to the ledger node *)
| TransactionError         (* compiling, signing or serialising *)
| HttpError.               (* a failed or rejected marketplace request *)

Inductive Result (A : Type) :=
| Ok (a : A)
| Throw (e : Error).

Arguments Ok {A} a.
Arguments Throw {A} e.

Definition bind {A B} (c : Result A) (k : A -> Result B) : Result B :=
  match c with
  | Ok a => k a
  | Throw e => Throw e
  end.

Declare Scope js_scope.
Delimit Scope js_scope with js.
Notation "x <- c ;; k" := (bind c (fun x => k))
  (at level 61, c at next level, right associativity) : js_scope.
Open Scope js_scope.

(** A library call that throws is modelled by [None]; [orThrow] names the
    exception. *)
Definition orThrow {A} (e : Error) (o : option A) : Result A :=
  match o with
  | Some a => Ok a
  | None => Throw e
  end.

(** ** Base58 and public keys ([bs58], [PublicKey] of web3.js) *)

Module Base58.
Import JS.

Definition alphabet : jsstring :=
  Eval cbv in str "123456789ABCDEFGHJKLMNPQRSTUVWXYZabcdefghijkmnopqrstuvwxyz".

Fixpoint indexOf (c : Z) (l : list Z) (i : Z) : option Z :=
  match l with
  | [] => None
  | x :: l' => if x =? c then Some i else indexOf c l' (i + 1)
  end.

(** The number written by a base-58 string; [None] on a character that is
    not in the alphabet. *)
Fixpoint value (s : jsstring) (acc : Z) : option Z :=
  match s with
  | [] => Some acc
  | c :: s' =>
      match indexOf c alphabet 0 with
      | Some d => value s' (acc * 58 + d)
      | None => None
      end
  end.

(** Each leading ['1'] stands for one leading zero byte. *)
Fixpoint leadingOnes (s : jsstring) : Z :=
  match s with
  | c :: s' => if c =? 49 then 1 + leadingOnes s' else 0
  | [] => 0
  end.

Definition byteLength (n : Z) : Z :=
  if n <=? 0 then 0 else Z.log2 n / 8 + 1.

(** Number of bytes [bs58.decode] returns, with the number they spell. *)
Definition decode (s : jsstring) : option (Z * Z) :=
  match value s 0 with
  | Some n => Some (leadingOnes s + byteLength n, n)
  | None => None
  end.

End Base58.

(** A public key is the 256-bit number held in its [_bn] field. *)
Definition PublicKey := Z.

Definition PUBLIC_KEY_LENGTH : Z := 32.

(** [new PublicKey(value)] for [value] a string or [undefined]. *)
Definition newPublicKey (v : option JS.jsstring) : Result PublicKey :=
  match v with
  | None => Throw TypeError
  | Some s =>
      match Base58.decode s with
      | Some (len, bn) =>
          if len =? PUBLIC_KEY_LENGTH then Ok bn else Throw InvalidPublicKeyInput
      | None => Throw NonBase58Character
      end
  end.

(** ** UTF-8 ([Buffer.from(string)]) *)

Module Utf8.
Import JS.

(** U+FFFD, written for a surrogate that has no partner. *)
Definition replacement : list Z := [239; 191; 189].

Fixpoint encode (s : jsstring) : list Z :=
  match s with
  | [] => []
  | c :: s' =>
      if c <? 128 then c :: encode s'
      else if c <? 2048 then
        (192 + c / 64) :: (128 + c mod 64) :: encode s'
      else if isHighSurrogate c then
        match s' with
        | d :: s'' =>
            if isLowSurrogate d then
              let cp := 65536 + (c - 55296) * 1024 + (d - 56320) in
              (240 + cp / 262144) :: (128 + (cp / 4096) mod 64)
                :: (128 + (cp / 64) mod 64) :: (128 + cp mod 64) :: encode s''
            else replacement ++ encode s'
        | [] => replacement
        end
      else if isLowSurrogate c then replacement ++ encode s'
      else
        (224 + c / 4096) :: (128 + (c / 64) mod 64) :: (128 + c mod 64)
          :: encode s'
  end.

Definition isContinuation (b : Z) : bool := (128 <=? b) && (b <? 192).

Definition consOpt {A} (xs : list A) (o : option (list A)) : option (list A) :=
  match o with
  | Some l => Some (xs ++ l)
  | None => None
  end.

(** Modelled from the spec: the receiving side of the payment header is
    not part of the repository; decoding is the inverse of [encode], a
    strict UTF-8 decoder producing UTF-16 code units. *)
Fixpoint decode (bs : list Z) : option jsstring :=
  match bs with
  | [] => Some []
  | b0 :: r0 =>
      if (0 <=? b0) && (b0 <? 128) then consOpt [b0] (decode r0)
      else if (192 <=? b0) && (b0 <? 224) then
        match r0 with
        | b1 :: r1 =>
            let cp := (b0 - 192) * 64 + (b1 - 128) in
            if isContinuation b1 && (128 <=? cp)
            then consOpt [cp] (decode r1) else None
        | _ => None
        end
      else if (224 <=? b0) && (b0 <? 240) then
        match r0 with
        | b1 :: b2 :: r2 =>
            let cp := (b0 - 224) * 4096 + (b1 - 128) * 64 + (b2 - 128) in
            if isContinuation b1 && isContinuation b2 && (2048 <=? cp)
               && negb (isSurrogate cp)
            then consOpt [cp] (decode r2) else None
        | _ => None
        end
      else if (240 <=? b0) && (b0 <? 248) then
        match r0 with
        | b1 :: b2 :: b3 :: r3 =>
            let cp := (b0 - 240) * 262144 + (b1 - 128) * 4096
                      + (b2 - 128) * 64 + (b3 - 128) in
            if isContinuation b1 && isContinuation b2 && isContinuation b3
               && (65536 <=? cp) && (cp <=? 1114111)
            then consOpt [55296 + (cp - 65536) / 1024;
                          56320 + (cp - 65536) mod 1024] (decode r3)
            else None
        | _ => None
        end
      else None
  end.

End Utf8.

(** ** Base64 ([Buffer.toString("base64")]) *)

Module Base64.
Import JS.

Definition alphabet : jsstring :=
  Eval cbv in
    str "ABCDEFGHIJKLMNOPQRSTUVWXYZabcdefghijklmnopqrstuvwxyz0123456789+/".

Definition char (i : Z) : Z := nth (Z.to_nat i) alphabet 0.

Definition pad : Z := 61.

Fixpoint encode (bs : list Z) : jsstring :=
  match bs with
  | [] => []
  | a :: [] => [char (a / 4); char ((a mod 4) * 16); pad; pad]
  | a :: b :: [] =>
      [char (a / 4); char ((a mod 4) * 16 + b / 16); char ((b mod 16) * 4);
       pad]
  | a :: b :: c :: r =>
      char (a / 4) :: char ((a mod 4) * 16 + b / 16)
        :: char ((b mod 16) * 4 + c / 64) :: char (c mod 64) :: encode r
  end.

Definition index (c : Z) : option Z :=
  if (65 <=? c) && (c <=? 90) then Some (c - 65)
  else if (97 <=? c) && (c <=? 122) then Some (c - 71)
  else if (48 <=? c) && (c <=? 57) then Some (c + 4)
  else if c =? 43 then Some 62
  else if c =? 47 then Some 63
  else None.

(** Modelled from the spec: the receiving side of the payment header is
    not part of the repository; decoding is the inverse of [encode], a
    base64 decoder over the standard alphabet with [=] padding. *)
Fixpoint decode (s : jsstring) : option (list Z) :=
  match s with
  | [] => Some []
  | c0 :: c1 :: c2 :: c3 :: r =>
      match index c0, index c1 with
      | Some i0, Some i1 =>
          let b0 := i0 * 4 + i1 / 16 in
          if c2 =? pad then
            if (c3 =? pad) then
              match r with [] => Some [b0] | _ => None end
            else None
          else
            match index c2 with
            | Some i2 =>
                let b1 := (i1 mod 16) * 16 + i2 / 4 in
                if c3 =? pad then
                  match r with [] => Some [b0; b1] | _ => None end
                else
                  match index c3 with
                  | Some i3 =>
                      Utf8.consOpt [b0; b1; (i2 mod 4) * 64 + i3] (decode r)
                  | None => None
                  end
            | None => None
            end
      | _, _ => None
      end
  | _ => None
  end.

End Base64.

(** ** JSON ([JSON.stringify], [JSON.parse]) *)

Module JSON.
Import JS.

(** JavaScript values that JSON handles.  Numbers are the integer-valued
    ones, which print in plain decimal (magnitude below 10^21); an object
    is the list of its own properties in insertion order. *)
#[warnings="-register-all"]
Inductive JSValue :=
| JUndefined
| JNull
| JBool (b : bool)
| JNumber (n : Z)
| JString (s : jsstring)
| JArray (l : list JSValue)
| JObject (l : list (jsstring * JSValue)).

Definition hexDigit (d : Z) : Z := if d <? 10 then 48 + d else 87 + d.

(** The six-character escape [\uXXXX], lower-case hexadecimal. *)
Definition escapeU (c : Z) : jsstring :=
  [92; 117; hexDigit (c / 4096); hexDigit ((c / 256) mod 16);
   hexDigit ((c / 16) mod 16); hexDigit (c mod 16)].

(** The two-character escapes of QuoteJSONString. *)
Definition shortEscape (c : Z) : option Z :=
  if c =? 8 then Some 98
  else if c =? 9 then Some 116
  else if c =? 10 then Some 110
  else if c =? 12 then Some 102
  else if c =? 13 then Some 114
  else if c =? 34 then Some 34
  else if c =? 92 then Some 92
  else None.

(** QuoteJSONString without the surrounding quotes: short escapes, [\u]
    escapes for control characters and for surrogates without a partner,
    everything else unchanged. *)
Fixpoint quoteBody (s : jsstring) : jsstring :=
  match s with
  | [] => []
  | c :: s' =>
      match shortEscape c with
      | Some e => 92 :: e :: quoteBody s'
      | None =>
          if c <? 32 then escapeU c ++ quoteBody s'
          else if isHighSurrogate c then
            match s' with
            | d :: s'' =>
                if isLowSurrogate d then c :: d :: quoteBody s''
                else escapeU c ++ quoteBody s'
            | [] => escapeU c
            end
          else if isLowSurrogate c then escapeU c ++ quoteBody s'
          else c :: quoteBody s'
      end
  end.

Definition quote (s : jsstring) : jsstring := 34 :: quoteBody s ++ [34].

Fixpoint uintToString (u : Decimal.uint) : jsstring :=
  match u with
  | Decimal.Nil => []
  | Decimal.D0 u' => 48 :: uintToString u'
  | Decimal.D1 u' => 49 :: uintToString u'
  | Decimal.D2 u' => 50 :: uintToString u'
  | Decimal.D3 u' => 51 :: uintToString u'
  | Decimal.D4 u' => 52 :: uintToString u'
  | Decimal.D5 u' => 53 :: uintToString u'
  | Decimal.D6 u' => 54 :: uintToString u'
  | Decimal.D7 u' => 55 :: uintToString u'
  | Decimal.D8 u' => 56 :: uintToString u'
  | Decimal.D9 u' => 57 :: uintToString u'
  end.

(** Number::toString for an integer. *)
Definition numberToString (n : Z) : jsstring :=
  match Z.to_int n with
  | Decimal.Pos u => uintToString u
  | Decimal.Neg u => 45 :: uintToString u
  end.

Fixpoint joinComma (parts : list jsstring) : jsstring :=
  match parts with
  | [] => []
  | [p] => p
  | p :: rest => p ++ 44 :: joinComma rest
  end.

(** SerializeJSONProperty with no replacer and no indentation; [None] is
    [undefined]. *)
Fixpoint stringify (v : JSValue) : option jsstring :=
  match v with
  | JUndefined => None
  | JNull => Some (str "null")
  | JBool true => Some (str "true")
  | JBool false => Some (str "false")
  | JNumber n => Some (numberToString n)
  | JString s => Some (quote s)
  | JArray l =>
      Some (91 :: joinComma
                    (map (fun x => match stringify x with
                                   | Some t => t
                                   | None => str "null"
                                   end) l) ++ [93])
  | JObject l =>
      Some (123 :: joinComma
                     (flat_map (fun kx => match stringify (snd kx) with
                                          | Some t => [quote (fst kx) ++ 58 :: t]
                                          | None => []
                                          end) l) ++ [125])
  end.

(** *** Parsing *)

Definition isJsonWs (c : Z) : bool :=
  (c =? 32) || (c =? 9) || (c =? 10) || (c =? 13).

Fixpoint skipWs (s : jsstring) : jsstring :=
  match s with
  | c :: s' => if isJsonWs c then skipWs s' else s
  | [] => []
  end.

Definition hexValue (c : Z) : option Z :=
  if (48 <=? c) && (c <=? 57) then Some (c - 48)
  else if (97 <=? c) && (c <=? 102) then Some (c - 87)
  else if (65 <=? c) && (c <=? 70) then Some (c - 55)
  else None.

Definition hex4 (a b c d : Z) : option Z :=
  match hexValue a, hexValue b, hexValue c, hexValue d with
  | Some x, Some y, Some z, Some w => Some (x * 4096 + y * 256 + z * 16 + w)
  | _, _, _, _ => None
  end.

Definition unescape (e : Z) : option Z :=
  if e =? 34 then Some 34
  else if e =? 92 then Some 92
  else if e =? 47 then Some 47
  else if e =? 98 then Some 8
  else if e =? 102 then Some 12
  else if e =? 110 then Some 10
  else if e =? 114 then Some 13
  else if e =? 116 then Some 9
  else None.

Definition consFst {A} (c : Z) (o : option (jsstring * A)) : option (jsstring * A) :=
  match o with
  | Some (s, r) => Some (c :: s, r)
  | None => None
  end.

(** The characters of a string literal after its opening quote, up to and
    including the closing quote; returns the string and what follows. *)
Fixpoint parseStringBody (s : jsstring) : option (jsstring * jsstring) :=
  match s with
  | [] => None
  | c :: r =>
      if c =? 34 then Some ([], r)
      else if c =? 92 then
        match r with
        | e :: r' =>
            if e =? 117 then
              match r' with
              | h1 :: h2 :: h3 :: h4 :: r'' =>
                  match hex4 h1 h2 h3 h4 with
                  | Some u => consFst u (parseStringBody r'')
                  | None => None
                  end
              | _ => None
              end
            else
              match unescape e with
              | Some u => consFst u (parseStringBody r')
              | None => None
              end
        | [] => None
        end
      else if c <? 32 then None
      else consFst c (parseStringBody r)
  end.

Definition decimalDigit (c : Z) : option (Decimal.uint -> Decimal.uint) :=
  if c =? 48 then Some Decimal.D0
  else if c =? 49 then Some Decimal.D1
  else if c =? 50 then Some Decimal.D2
  else if c =? 51 then Some Decimal.D3
  else if c =? 52 then Some Decimal.D4
  else if c =? 53 then Some Decimal.D5
  else if c =? 54 then Some Decimal.D6
  else if c =? 55 then Some Decimal.D7
  else if c =? 56 then Some Decimal.D8
  else if c =? 57 then Some Decimal.D9
  else None.

(** The longest run of decimal digits at the head of [s]. *)
Fixpoint parseDigits (s : jsstring) : Decimal.uint * jsstring :=
  match s with
  | c :: r =>
      match decimalDigit c with
      | Some d => let '(u, rest) := parseDigits r in (d u, rest)
      | None => (Decimal.Nil, s)
      end
  | [] => (Decimal.Nil, [])
  end.

(** The integer part of a JSON number has no superfluous leading zero. *)
Definition intPart (u : Decimal.uint) : bool :=
  match u with
  | Decimal.Nil => false
  | Decimal.D0 Decimal.Nil => true
  | Decimal.D0 _ => false
  | _ => true
  end.

(** A fraction or an exponent would follow: outside the integers modelled
    here. *)
Definition startsFraction (s : jsstring) : bool :=
  match s with
  | c :: _ => (c =? 46) || (c =? 101) || (c =? 69)
  | [] => false
  end.

Definition parseNumber (s : jsstring) : option (Z * jsstring) :=
  let '(neg, s1) := match s with
                    | c :: r => if c =? 45 then (true, r) else (false, s)
                    | [] => (false, s)
                    end in
  let '(u, rest) := parseDigits s1 in
  if intPart u && negb (startsFraction rest)
  then Some (Z.of_int (if neg then Decimal.Neg u else Decimal.Pos u), rest)
  else None.

Fixpoint dropPrefix (p s : jsstring) : option jsstring :=
  match p, s with
  | [], _ => Some s
  | x :: p', y :: s' => if x =? y then dropPrefix p' s' else None
  | _ :: _, [] => None
  end.

(** CreateDataProperty: a repeated key keeps its place and takes the new
    value. *)
Fixpoint setProperty (o : list (jsstring * JSValue)) (k : jsstring) (v : JSValue)
  : list (jsstring * JSValue) :=
  match o with
  | [] => [(k, v)]
  | (k', v') :: o' =>
      if eqb_list k' k then (k', v) :: o' else (k', v') :: setProperty o' k v
  end.

Fixpoint parseValue (fuel : nat) (s : jsstring) : option (JSValue * jsstring) :=
  match fuel with
  | O => None
  | S fuel' =>
      match skipWs s with
      | [] => None
      | c :: r =>
          if c =? 123 then
            match skipWs r with
            | 125 :: r' => Some (JObject [], r')
            | _ => parseMembers fuel' r []
            end
          else if c =? 91 then
            match skipWs r with
            | 93 :: r' => Some (JArray [], r')
            | _ => parseElements fuel' r []
            end
          else if c =? 34 then
            match parseStringBody r with
            | Some (t, rest) => Some (JString t, rest)
            | None => None
            end
          else if c =? 116 then
            option_map (pair (JBool true)) (dropPrefix (str "rue") r)
          else if c =? 102 then
            option_map (pair (JBool false)) (dropPrefix (str "alse") r)
          else if c =? 110 then
            option_map (pair JNull) (dropPrefix (str "ull") r)
          else
            match parseNumber (c :: r) with
            | Some (n, rest) => Some (JNumber n, rest)
            | None => None
            end
      end
  end
with parseMembers (fuel : nat) (s : jsstring) (acc : list (jsstring * JSValue))
  : option (JSValue * jsstring) :=
  match fuel with
  | O => None
  | S fuel' =>
      match skipWs s with
      | 34 :: r =>
          match parseStringBody r with
          | Some (k, r1) =>
              match skipWs r1 with
              | 58 :: r2 =>
                  match parseValue fuel' r2 with
                  | Some (v, r3) =>
                      match skipWs r3 with
                      | 44 :: r4 => parseMembers fuel' r4 (setProperty acc k v)
                      | 125 :: r4 => Some (JObject (setProperty acc k v), r4)
                      | _ => None
                      end
                  | None => None
                  end
              | _ => None
              end
          | None => None
          end
      | _ => None
      end
  end
with parseElements (fuel : nat) (s : jsstring) (acc : list JSValue)
  : option (JSValue * jsstring) :=
  match fuel with
  | O => None
  | S fuel' =>
      match parseValue fuel' s with
      | Some (v, r1) =>
          match skipWs r1 with
          | 44 :: r2 => parseElements fuel' r2 (acc ++ [v])
          | 93 :: r2 => Some (JArray (acc ++ [v]), r2)
          | _ => None
          end
      | None => None
      end
  end.

(** Modelled from the spec: the receiving side of the payment header is
    not part of the repository; decoding is the inverse of [stringify], a
    JSON parser (integers for numbers) that accepts a single value
    surrounded by optional white space. *)
Definition parse (text : jsstring) : option JSValue :=
  match parseValue (S (List.length text)) text with
  | Some (v, rest) => match skipWs rest with [] => Some v | _ => None end
  | None => None
  end.

End JSON.

Import JS.

(** ** api-client.ts: the challenge sent with a 402 response *)

(** The body is server JSON cast to the interface without validation, so
    every field may be absent ([undefined], here [None]).  The numbers
    [x402Version] and [maxTimeoutSeconds] are integers.  An element of
    [accepts] is an option or a falsy value ([null], [false], [0], [""]),
    here [None]; a truthy value that is no object reads as an option with
    every field absent, and a value of [accepts] that is no array as the
    list of its elements by index. *)
Module Accept.
Record Extra := { feePayer : option jsstring }.

Record t := {
  scheme : option jsstring;
  network : option jsstring;
  maxAmountRequired : option jsstring;
  resource : option jsstring;
  description : option jsstring;
  mimeType : option jsstring;
  payTo : option jsstring;
  maxTimeoutSeconds : option Z;
  asset : option jsstring;
  extra : option Extra;
}.
End Accept.

Record X402Challenge := {
  x402Version : option Z;
  error : option jsstring;
  accepts : option (list (option Accept.t));
}.

(** ** SDK and network interfaces *)

Record Keypair := {
  publicKey : PublicKey;
  secretKey : list Z;
}.

Inductive Instruction :=
| SetComputeUnitPrice (microLamports : Z)
| SetComputeUnitLimit (units : Z)
| TransferChecked (source mint destination owner : PublicKey)
    (amount : Z) (decimals : Z) (multiSigners : list PublicKey)
    (programId : PublicKey).

Record TransactionMessage := {
  payerKey : PublicKey;
  recentBlockhash : jsstring;
  instructions : list Instruction;
}.

(** The parts of [@solana/web3.js] and [@solana/spl-token] that are
    cryptography or wire format: the derivation of an associated token
    address from (mint, owner), which throws for an owner off the curve,
    and compiling, signing and serialising a message to bytes. *)
Record Sdk := {
  getAssociatedTokenAddress : PublicKey -> PublicKey -> option PublicKey;
  signAndSerialize : Keypair -> TransactionMessage -> option (list Z);
}.

(** The ledger node behind [Connection]: [getAccount] gives the [amount]
    of a token account, [None] when the request throws. *)
Record Connection := {
  getAccount : PublicKey -> option Z;
  getLatestBlockhash : option jsstring;
}.

(** ** x402-handler.ts *)

Definition USDC_DEVNET_MINT : PublicKey :=
  Eval vm_compute in
    match newPublicKey (Some (str "4zMMC9srt5Ri5X14GAgXhaHii3GnPAEERYPJgZJDncDU")) with
    | Ok k => k
    | Throw _ => 0
    end.

Definition TOKEN_PROGRAM_ID : PublicKey :=
  Eval vm_compute in
    match newPublicKey (Some (str "TokenkegQfeZyiNwAJbNbGKPFXCWuBvf9Ss623VQ5DA")) with
    | Ok k => k
    | Throw _ => 0
    end.

Record PaymentProof := {
  header : jsstring;
  transactionHash : jsstring;
}.

Module Parsed.
Record t := {
  payTo : option jsstring;
  amount : number;
  amountRaw : option jsstring;
  network : option jsstring;
  asset : option jsstring;
  resource : option jsstring;
  scheme : option jsstring;
  maxTimeoutSeconds : option Z;
  x402Version : option Z;
  feePayer : option jsstring;
}.
End Parsed.

Definition million : number := ofInt 1000000.

(** [parseChallenge]: [challenge.accepts[0]] throws a TypeError when
    [accepts] is absent; [!accept] holds when the list is empty (element 0
    is [undefined]) and when element 0 is falsy. *)
Definition parseChallenge (challenge : X402Challenge) : Result Parsed.t :=
  match accepts challenge with
  | None => Throw TypeError
  | Some [] => Throw MalformedChallenge
  | Some (None :: _) => Throw MalformedChallenge
  | Some (Some accept :: _) =>
      Ok {| Parsed.payTo := Accept.payTo accept;
            Parsed.amount := div (parseIntOf (Accept.maxAmountRequired accept)) million;
            Parsed.amountRaw := Accept.maxAmountRequired accept;
            Parsed.network := Accept.network accept;
            Parsed.asset := Accept.asset accept;
            Parsed.resource := Accept.resource accept;
            Parsed.scheme := Accept.scheme accept;
            Parsed.maxTimeoutSeconds := Accept.maxTimeoutSeconds accept;
            Parsed.x402Version := x402Version challenge;
            Parsed.feePayer :=
              match Accept.extra accept with
              | Some e => Accept.feePayer e
              | None => None
              end |}
  end.

(** The number of hexadecimal digits of a positive integer. *)
Definition hexLength (n : Z) : Z := Z.log2 n / 4 + 1.

(** The amount field of the instruction data is a [u64], written by
    [toBufferLE(amount, 8)] of bigint-buffer: the hexadecimal digits of the
    amount, padded in front to 16 and cut after the 16th.  Below 2^64 that
    is the amount; from 2^64 on, its leading 16 digits.  The text of a
    negative amount gives fewer than 8 bytes, which the layout refuses
    with a TypeError. *)
Definition u64 (amount : Z) : Result Z :=
  if amount <? 0 then Throw TypeError
  else if amount <? 2 ^ 64 then Ok amount
  else Ok (amount / 16 ^ (hexLength amount - 16)).

(** [createTransferCheckedInstruction] of spl-token; the instruction holds
    the amount as its data does. *)
Definition createTransferCheckedInstruction
  (source mint destination owner : PublicKey) (amount decimals : Z)
  (multiSigners : list PublicKey) (programId : PublicKey)
  : Result Instruction :=
  amount64 <- u64 amount ;;
  Ok (TransferChecked source mint destination owner amount64 decimals
        multiSigners programId).

Section Handler.
Variable sdk : Sdk.
Variable connection : Connection.

Definition getUsdcTokenAccount (owner : PublicKey) : Result PublicKey :=
  orThrow TokenOwnerOffCurveError
    (getAssociatedTokenAddress sdk USDC_DEVNET_MINT owner).

(** Any exception inside the [try] block gives balance [0]. *)
Definition getUsdcBalance (owner : PublicKey) : number :=
  match getUsdcTokenAccount owner with
  | Ok tokenAccount =>
      match getAccount connection tokenAccount with
      | Some amount => div (ofInt amount) million
      | None => ofInt 0
      end
  | Throw _ => ofInt 0
  end.

(** The first part of [createPayment], from the balance check to the
    [TransactionMessage] handed to [compileToV0Message]. *)
Definition createPayment_message (keypair : Keypair) (parsed : Parsed.t)
  : Result TransactionMessage :=
  let balance := getUsdcBalance (publicKey keypair) in
  if lt balance (Parsed.amount parsed) then Throw InsufficientFunds
  else
    senderTokenAccount <- getUsdcTokenAccount (publicKey keypair) ;;
    recipientPubkey <- newPublicKey (Parsed.payTo parsed) ;;
    recipientTokenAccount <-
      orThrow TokenOwnerOffCurveError
        (getAssociatedTokenAddress sdk USDC_DEVNET_MINT recipientPubkey) ;;
    amountInBaseUnits <-
      match Parsed.amountRaw parsed with
      | None => Throw TypeError
      | Some raw => orThrow SyntaxError (stringToBigInt raw)
      end ;;
    feePayerPubkey <-
      (if truthy (Parsed.feePayer parsed)
       then newPublicKey (Parsed.feePayer parsed)
       else Ok (publicKey keypair)) ;;
    let computeBudgetIx := SetComputeUnitPrice 1 in
    let computeLimitIx := SetComputeUnitLimit 100000 in
    transferIx <-
      createTransferCheckedInstruction senderTokenAccount USDC_DEVNET_MINT
        recipientTokenAccount (publicKey keypair) amountInBaseUnits 6 []
        TOKEN_PROGRAM_ID ;;
    blockhash <- orThrow RpcError (getLatestBlockhash connection) ;;
    Ok {| payerKey := feePayerPubkey;
          recentBlockhash := blockhash;
          instructions := [computeLimitIx; computeBudgetIx; transferIx] |}.

Definition optionalNumber (v : option Z) : JSON.JSValue :=
  match v with
  | Some n => JSON.JNumber n
  | None => JSON.JUndefined
  end.

Definition optionalString (v : option jsstring) : JSON.JSValue :=
  match v with
  | Some s => JSON.JString s
  | None => JSON.JUndefined
  end.

(** The object literal [paymentPayload]. *)
Definition paymentPayload (parsed : Parsed.t) (serializedTx : jsstring)
  : JSON.JSValue :=
  JSON.JObject
    [(str "x402Version", optionalNumber (Parsed.x402Version parsed));
     (str "scheme", optionalString (Parsed.scheme parsed));
     (str "network", optionalString (Parsed.network parsed));
     (str "payload",
      JSON.JObject [(str "transaction", JSON.JString serializedTx)])].

(** [Buffer.from(JSON.stringify(v)).toString("base64")]. *)
Definition encodeHeader (v : JSON.JSValue) : Result jsstring :=
  match JSON.stringify v with
  | Some text => Ok (Base64.encode (Utf8.encode text))
  | None => Throw TypeError
  end.

Definition createPayment (keypair : Keypair) (challenge : X402Challenge)
  : Result PaymentProof :=
  parsed <- parseChallenge challenge ;;
  message <- createPayment_message keypair parsed ;;
  signed <- orThrow TransactionError (signAndSerialize sdk keypair message) ;;
  let serializedTx := Base64.encode signed in
  paymentHeader <- encodeHeader (paymentPayload parsed serializedTx) ;;
  Ok {| header := paymentHeader;
        transactionHash := str "pending-settlement" |}.

End Handler.

(** Modelled from the spec: the receiving side of the payment header is
    not part of the repository; decoding is the inverse of the encoding
    above, base64-decode then JSON-parse. *)
Definition decodeHeader (h : jsstring) : option JSON.JSValue :=
  match Base64.decode h with
  | Some bytes =>
      match Utf8.decode bytes with
      | Some text => JSON.parse text
      | None => None
      end
  | None => None
  end.

(** ** wallet.ts *)

Record AgentWallet := {
  keypair : Keypair;
}.

Definition getKeypair (w : AgentWallet) : Keypair := keypair w.

(** [sign(message)] returns [this.keypair.secretKey]. *)
Definition sign (w : AgentWallet) (message : list Z) : list Z :=
  secretKey (keypair w).

(** ** api-client.ts: the marketplace client *)

(** Replies are kept to what [purchaseImage] reads.  A request that
    throws (network failure, a body that is not JSON, a reply that is not
    [ok] where the client checks it) is a [Throw]. *)
Module Reply.
Record Image := { title : option jsstring; creator : option jsstring;
                  url : option jsstring }.
Record Purchase := { amount : option jsstring }.
Record Creator := { earnedThisSale : option Z }.

Record ImageInfo := {
  info_image : option Image;
  info_purchase : option Purchase;
}.

Record PurchaseResult := {
  result_image : option Image;
  result_creator : option Creator;
}.
End Reply.

(** [initiatePurchase] returns the status with the body, which
    [purchaseImage] reads as a challenge. *)
Record PinspireClient := {
  getImageInfo : Z -> Result Reply.ImageInfo;
  initiatePurchase : Z -> Result (Z * X402Challenge);
  completePurchase : Z -> jsstring -> Result Reply.PurchaseResult;
}.

(** ** agent.ts *)

Record PurchaseOutcome := {
  success : bool;
  txHash : option jsstring;
}.

Record PurchaseRecord := {
  rec_id : Z;
  rec_title : option jsstring;
  rec_success : bool;
  rec_txHash : option jsstring;
}.

(** The fields of the agent that a purchase changes. *)
Record PinspireAgent := {
  purchaseCount : Z;
  purchasedImages : list PurchaseRecord;
}.

(** What a purchase does that can be seen from outside: the requests it
    sends, the call to the payment handler, and the console line that
    tells how it ended. *)
Inductive Event :=
| GetImageInfo (imageId : Z)
| InitiatePurchase (imageId : Z)
| CreatePayment (challenge : X402Challenge)
| CompletePurchase (imageId : Z) (paymentHeader : jsstring)
| LogChallengeReceived        (* "Received x402 payment challenge" *)
| LogPurchaseComplete         (* "PURCHASE COMPLETE!" *)
| LogNoPaymentNeeded          (* "Purchase completed (no payment needed)" *)
| LogUnexpectedResponse (status : Z)  (* "Unexpected response: ${status}" *)
| LogPurchaseFailed (e : Error).      (* "Purchase failed: ${error.message}" *)

Section Agent.
Variable sdk : Sdk.
Variable connection : Connection.
Variable client : PinspireClient.
Variable wallet : AgentWallet.

Definition countPurchase (a : PinspireAgent) : PinspireAgent :=
  {| purchaseCount := purchaseCount a + 1;
     purchasedImages := purchasedImages a |}.

(** Step 3a: the reply is read for [image.title], [image.creator] and
    [purchase.amount]. *)
Definition readImageInfo (info : Reply.ImageInfo) : Result unit :=
  match Reply.info_image info, Reply.info_purchase info with
  | Some _, Some _ => Ok tt
  | _, _ => Throw TypeError
  end.

(** Step 3d, inside the inner [try], once "PURCHASE COMPLETE!" is
    printed: the reply is read for [image.url] and
    [creator.earnedThisSale]. *)
Definition readPurchaseResult (result : Reply.PurchaseResult) : Result unit :=
  match Reply.result_image result, Reply.result_creator result with
  | Some _, Some _ => Ok tt
  | _, _ => Throw TypeError
  end.

Definition purchaseImage (a : PinspireAgent) (imageId : Z)
  : PurchaseOutcome * PinspireAgent * list Event :=
  let failed e log :=
    ({| success := false; txHash := None |}, a, log ++ [LogPurchaseFailed e]) in
  match bind (getImageInfo client imageId) readImageInfo with
  | Throw e => failed e [GetImageInfo imageId]
  | Ok _ =>
      match initiatePurchase client imageId with
      | Throw e => failed e [GetImageInfo imageId; InitiatePurchase imageId]
      | Ok (status, data) =>
          let log := [GetImageInfo imageId; InitiatePurchase imageId] in
          if status =? 402 then
            let challenge := data in
            let log := log ++ [LogChallengeReceived; CreatePayment challenge] in
            match createPayment sdk connection (getKeypair wallet) challenge with
            | Throw e => failed e log
            | Ok paymentProof =>
                let log := log ++ [CompletePurchase imageId (header paymentProof)] in
                let rejected e log :=
                  ({| success := false;
                      txHash := Some (transactionHash paymentProof) |},
                   a, log ++ [LogPurchaseFailed e]) in
                match completePurchase client imageId (header paymentProof) with
                | Throw e => rejected e log
                | Ok result =>
                    let log := log ++ [LogPurchaseComplete] in
                    match readPurchaseResult result with
                    | Ok _ =>
                        ({| success := true;
                            txHash := Some (transactionHash paymentProof) |},
                         countPurchase a, log)
                    | Throw e => rejected e log
                    end
                end
            end
          else if status =? 200 then
            ({| success := true; txHash := None |}, countPurchase a,
             log ++ [LogNoPaymentNeeded])
          else
            ({| success := false; txHash := None |}, a,
             log ++ [LogUnexpectedResponse status])
      end
  end.

(** The purchase step of [runInteractive]: the outcome is pushed on
    [purchasedImages] with the id and title of the selected image. *)
Definition purchaseAndRecord (a : PinspireAgent) (imageId : Z)
  (title : option jsstring) : PinspireAgent * list Event :=
  let '(result, a', log) := purchaseImage a imageId in
  ({| purchaseCount := purchaseCount a';
      purchasedImages :=
        purchasedImages a' ++
          [{| rec_id := imageId; rec_title := title;
              rec_success := success result;
              rec_txHash := txHash result |}] |}, log).

End Agent.

(** ** Auxiliary definitions for the statements *)

(** The unsigned transaction [createPayment] builds for a challenge. *)
Definition unsignedTransaction (sdk : Sdk) (connection : Connection)
  (keypair : Keypair) (challenge : X402Challenge) : Result TransactionMessage :=
  parsed <- parseChallenge challenge ;;
  createPayment_message sdk connection keypair parsed.

Inductive InstructionKind := PriorityFee | ComputeLimit | AssetTransfer.

Definition instructionKind (i : Instruction) : InstructionKind :=
  match i with
  | SetComputeUnitPrice _ => PriorityFee
  | SetComputeUnitLimit _ => ComputeLimit
  | TransferChecked _ _ _ _ _ _ _ _ => AssetTransfer
  end.

Definition isNone {A} (o : option A) : bool :=
  match o with
  | None => true
  | Some _ => false
  end.

(** An option lacks its payee address, amount, asset or scheme. *)
Definition missingRequiredField (a : Accept.t) : bool :=
  isNone (Accept.payTo a) || isNone (Accept.maxAmountRequired a)
  || isNone (Accept.asset a) || isNone (Accept.scheme a).

Definition withAccepts (c : X402Challenge) (l : list (option Accept.t))
  : X402Challenge :=
  {| x402Version := x402Version c; error := error c; accepts := Some l |}.

Definition withAsset (a : Accept.t) (m : option jsstring) : Accept.t :=
  {| Accept.scheme := Accept.scheme a;
     Accept.network := Accept.network a;
     Accept.maxAmountRequired := Accept.maxAmountRequired a;
     Accept.resource := Accept.resource a;
     Accept.description := Accept.description a;
     Accept.mimeType := Accept.mimeType a;
     Accept.payTo := Accept.payTo a;
     Accept.maxTimeoutSeconds := Accept.maxTimeoutSeconds a;
     Accept.asset := m;
     Accept.extra := Accept.extra a |}.

Definition withExtra (a : Accept.t) (e : option Accept.Extra) : Accept.t :=
  {| Accept.scheme := Accept.scheme a;
     Accept.network := Accept.network a;
     Accept.maxAmountRequired := Accept.maxAmountRequired a;
     Accept.resource := Accept.resource a;
     Accept.description := Accept.description a;
     Accept.mimeType := Accept.mimeType a;
     Accept.payTo := Accept.payTo a;
     Accept.maxTimeoutSeconds := Accept.maxTimeoutSeconds a;
     Accept.asset := Accept.asset a;
     Accept.extra := e |}.

(** The fee payer an option carries. *)
Definition optionFeePayer (a : Accept.t) : option jsstring :=
  match Accept.extra a with
  | Some e => Accept.feePayer e
  | None => None
  end.

(** An [extra] that supplies no fee payer: absent, without [feePayer], or
    with an empty one. *)
Definition suppliesNone (e : option Accept.Extra) : Prop :=
  e = None \/ e = Some {| Accept.feePayer := None |}
  \/ e = Some {| Accept.feePayer := Some [] |}.

(** Element 0 of the list is missing or falsy. *)
Definition noFirstOption (l : list (option Accept.t)) : Prop :=
  match l with
  | Some _ :: _ => False
  | _ => True
  end.

(** A non-empty string of decimal digits and the integer it spells. *)
Definition isDecimalDigit (c : Z) : bool := (48 <=? c) && (c <=? 57).

Definition decimalString (s : jsstring) : Prop :=
  s <> [] /\ forallb isDecimalDigit s = true.

Definition decimalValue (s : jsstring) : Z :=
  fold_left (fun acc c => acc * 10 + (c - 48)) s 0.

(** An object of the envelope's shape under arbitrary key names. *)
Definition envelopeWith (kVersion kScheme kNetwork kPayload kTransaction : jsstring)
  (version : Z) (scheme network transaction : jsstring) : JSON.JSValue :=
  JSON.JObject
    [(kVersion, JSON.JNumber version);
     (kScheme, JSON.JString scheme);
     (kNetwork, JSON.JString network);
     (kPayload, JSON.JObject [(kTransaction, JSON.JString transaction)])].

(** The payment envelope [{x402Version, scheme, network,
    payload: {transaction}}]. *)
Definition envelope : Z -> jsstring -> jsstring -> jsstring -> JSON.JSValue :=
  envelopeWith (str "x402Version") (str "scheme") (str "network")
    (str "payload") (str "transaction").

Definition codeUnits (s : jsstring) : Prop := Forall code_unit s.

Definition safeInteger (n : Z) : Prop := - 2 ^ 53 < n < 2 ^ 53.

(** Source and destination token accounts of the transfer, when the
    message has the three-instruction shape. *)
Definition tokenAccounts (m : TransactionMessage)
  : option (PublicKey * PublicKey) :=
  match instructions m with
  | [_; _; TransferChecked src _ dst _ _ _ _ _] => Some (src, dst)
  | _ => None
  end.

Definition byte (b : Z) : Prop := 0 <= b < 256.

(** The [n]-th character of the base64 alphabet decodes to [n] and is not
    the padding character. *)
Definition sextetOk (n : nat) : bool :=
  match Base64.index (Base64.char (Z.of_nat n)) with
  | Some j => (j =? Z.of_nat n) && negb (Base64.char (Z.of_nat n) =? Base64.pad)
  | None => false
  end.

(** Well-formed UTF-16: every surrogate is half of a pair. *)
Inductive WellFormed : jsstring -> Prop :=
| wf_nil : WellFormed []
| wf_unit (c : Z) (s : jsstring) :
    code_unit c -> isSurrogate c = false -> WellFormed s ->
    WellFormed (c :: s)
| wf_pair (h l : Z) (s : jsstring) :
    isHighSurrogate h = true -> isLowSurrogate l = true -> WellFormed s ->
    WellFormed (h :: l :: s).

Definition ascii7 (c : Z) : Prop := 0 <= c < 128.

(** The text of one object member, key first, followed by [X]. *)
Definition memberText (k X : jsstring) : jsstring :=
  34 :: JSON.quoteBody k ++ 34 :: 58 :: X.

(** The text of a string value, followed by [X]. *)
Definition stringText (s X : jsstring) : jsstring :=
  34 :: JSON.quoteBody s ++ 34 :: X.

(** The JSON text of an object of the envelope's shape, written from left
    to right. *)
Definition envelopeTextWith
  (kVersion kScheme kNetwork kPayload kTransaction : jsstring)
  (version : Z) (scheme network transaction : jsstring) : jsstring :=
  123 :: memberText kVersion
    (JSON.numberToString version ++ 44 ::
     memberText kScheme
       (stringText scheme (44 ::
        memberText kNetwork
          (stringText network (44 ::
           memberText kPayload
             (123 :: memberText kTransaction
                       (stringText transaction [125; 125]))))))).

Definition envelopeText : Z -> jsstring -> jsstring -> jsstring -> jsstring :=
  envelopeTextWith (str "x402Version") (str "scheme") (str "network")
    (str "payload") (str "transaction").

(** The mantissa of the double 1e6, which is [1e6 * 2^33 * 2^-33]. *)
Definition millionMantissa : positive := 8589934592000000.

(** 2^33 * 10^6 base units: below it, amounts scaled by 1e6 stay apart as
    doubles. *)
Definition exactLimit : Z := 8589934592000000.

(** The last stage of [binary_round_aux]: a second alignment, then the
    overflow test. *)
Definition finish (s : bool) (m : Z) (e : Z) : spec_float :=
  let '(mrs, e') := shr_fexp prec emax m e loc_Exact in
  match shr_m mrs with
  | Z0 => S754_zero s
  | Zpos m' => if e' <=? emax - prec then S754_finite s m' e' else S754_infinity s
  | Zneg _ => S754_nan
  end.

Definition isExact (l : location) : bool :=
  match l with
  | loc_Exact => true
  | _ => false
  end.

(** The base units [getUsdcBalance] reads: the amount of the owner's USDC
    token account, [0] when the address or the account cannot be had. *)
Definition baseUnits (sdk : Sdk) (connection : Connection) (owner : PublicKey)
  : Z :=
  match getAssociatedTokenAddress sdk USDC_DEVNET_MINT owner with
  | Some tokenAccount =>
      match getAccount connection tokenAccount with
      | Some amount => amount
      | None => 0
      end
  | None => 0
  end.

(** ** A concrete setting to run the model *)

Module Fixture.

(** The field and the constant [d] of the curve
    [- x^2 + y^2 = 1 + d x^2 y^2] of ed25519. *)
Definition fieldPrime : Z := 2 ^ 255 - 19.

Definition curveD : Z :=
  37095705934669439343138083508754565189542113879843219016388785533085940283555.

Fixpoint powMod (b : Z) (e : positive) (n : Z) : Z :=
  match e with
  | xH => b mod n
  | xO e' => let r := powMod b e' n in (r * r) mod n
  | xI e' => let r := powMod b e' n in (r * r * b) mod n
  end.

(** The bytes of a key, most significant first, read least significant
    first. *)
Fixpoint littleEndian (bytes : nat) (key acc : Z) : Z :=
  match bytes with
  | O => acc
  | S bytes' => littleEndian bytes' (key / 256) (acc * 256 + key mod 256)
  end.

(** First coordinates of the points whose second coordinate is one of
    the keys below: with them the test runs without an exponentiation. *)
Definition knownRoots : list Z :=
  [24616073890100915143079447430988269034569278499318000048530758472698931131724;
   26792475231812393369634665343086959216051516861418130058146937122226126011093;
   51833669625517615581738146137317915240409025571391342704495966068725126978397].

(** [PublicKey.isOnCurve]: the 32 bytes hold a coordinate [y] below the
    field prime and a sign bit for which the curve has a point: [x^2],
    which is [u / v] with [u = y^2 - 1] and [v = d y^2 + 1], is a square,
    and [x = 0] goes with sign 0 only.  That [u / v] is a square is seen
    on a known root, or else by Euler's criterion on [u v]. *)
Definition isOnCurve (key : PublicKey) : bool :=
  let le := littleEndian 32 key 0 in
  let sign := le / 2 ^ 255 in
  let y := le mod 2 ^ 255 in
  let u := (y * y - 1) mod fieldPrime in
  let v := (curveD * y * y + 1) mod fieldPrime in
  if y <? fieldPrime then
    if u =? 0 then sign =? 0
    else if existsb (fun x => (v * x * x - u) mod fieldPrime =? 0) knownRoots
         then true
         else powMod (u * v) (Z.to_pos ((fieldPrime - 1) / 2)) fieldPrime =? 1
  else false.

(** Stand-ins for the cryptographic parts of the SDK: the token address is
    an arithmetic mix of mint and owner (the real one is a hashed program
    address), refused as the real one is for an owner off the curve; the
    serialised transaction is a few bytes read off the message. *)
Definition sdk : Sdk :=
  {| getAssociatedTokenAddress :=
       fun mint owner =>
         if isOnCurve owner then Some ((mint + 31 * owner) mod 2 ^ 256)
         else None;
     signAndSerialize :=
       fun kp m =>
         Some [1; payerKey m mod 256; Z.of_nat (List.length (instructions m));
               publicKey kp mod 256] |}.

(** A node on which every token account holds [balance] base units. *)
Definition connection (balance : Z) : Connection :=
  {| getAccount := fun _ => Some balance;
     getLatestBlockhash := Some (str "EkSnNWid2cvwEVnVx9aBqawnmiCNiDgp3gUdkDPTKN1N") |}.

Definition keyOf (s : string) : PublicKey :=
  match newPublicKey (Some (str s)) with
  | Ok k => k
  | Throw _ => 0
  end.

(** The key pair of the seed made of 32 bytes 1: the secret key is the
    seed followed by the public key. *)
Definition payer : Keypair :=
  {| publicKey := keyOf "AKnL4NNf3DGWZJS6cPknBuEGnVsV4A4m5tgebLHaRSZ9";
     secretKey :=
       repeat 1 32
       ++ [138; 136; 227; 221; 116; 9; 241; 149; 253; 82; 219; 45; 60; 186;
           93; 114; 202; 103; 9; 191; 29; 148; 18; 27; 243; 116; 136; 1; 180;
           15; 111; 92] |}.

Definition wallet : AgentWallet := {| keypair := payer |}.

Definition usdc : string := "4zMMC9srt5Ri5X14GAgXhaHii3GnPAEERYPJgZJDncDU".
Definition wrappedSol : string := "So11111111111111111111111111111111111111112".
(** The address of the key pair of the seed made of 32 bytes 2. *)
Definition payee : string := "9hSR6S7WPtxmTojgo6GG3k4yDPecgJY292j7xrsUGWBu".
(** An address off the curve. *)
Definition offCurve : string := "Vote111111111111111111111111111111111111111".
Definition facilitator : string := "Stake11111111111111111111111111111111111111".

Definition accept (scheme amount asset : string) (feePayer : option string)
  : Accept.t :=
  {| Accept.scheme := Some (str scheme);
     Accept.network := Some (str "solana-devnet");
     Accept.maxAmountRequired := Some (str amount);
     Accept.resource := Some (str "/api/agent/buy?imageId=1");
     Accept.description := Some (str "image");
     Accept.mimeType := Some (str "image/png");
     Accept.payTo := Some (str payee);
     Accept.maxTimeoutSeconds := Some 60;
     Accept.asset := Some (str asset);
     Accept.extra :=
       Some {| Accept.feePayer := option_map str feePayer |} |}.

Definition challenge (l : list Accept.t) : X402Challenge :=
  {| x402Version := Some 1;
     error := Some (str "X-PAYMENT header is required");
     accepts := Some (map Some l) |}.

(** An option with every field absent. *)
Definition blank : Accept.t :=
  {| Accept.scheme := None; Accept.network := None;
     Accept.maxAmountRequired := None; Accept.resource := None;
     Accept.description := None; Accept.mimeType := None;
     Accept.payTo := None; Accept.maxTimeoutSeconds := None;
     Accept.asset := None; Accept.extra := None |}.

Definition image : Reply.Image :=
  {| Reply.title := Some (str "Sunset"); Reply.creator := Some (str "ana");
     Reply.url := Some (str "/img/1.png") |}.

(** A marketplace that answers the first purchase request with [status]
    and [body], and a request carrying a payment header with [settlement]. *)
Definition answering (status : Z) (body : X402Challenge)
  (settlement : Result Reply.PurchaseResult) : PinspireClient :=
  {| getImageInfo := fun _ =>
       Ok {| Reply.info_image := Some image;
             Reply.info_purchase := Some {| Reply.amount := Some (str "0.5") |} |};
     initiatePurchase := fun _ => Ok (status, body);
     completePurchase := fun _ _ => settlement |}.

Definition delivered : Reply.PurchaseResult :=
  {| Reply.result_image := Some image;
     Reply.result_creator := Some {| Reply.earnedThisSale := Some 1 |} |}.

(** A reply to the settlement that is JSON, but not of a purchase. *)
Definition unreadable : Reply.PurchaseResult :=
  {| Reply.result_image := None; Reply.result_creator := None |}.

(** The settlement is accepted with the image delivered, or rejected. *)
Definition client (status : Z) (body : X402Challenge) (settled : bool)
  : PinspireClient :=
  answering status body (if settled then Ok delivered else Throw HttpError).

Definition agent : PinspireAgent :=
  {| purchaseCount := 0; purchasedImages := [] |}.

End Fixture.

(** * The rest of the program *)

(** ** More of the JavaScript runtime *)

(** [parseInt(string, 10)]: as [parseInt(string)], except that with the
    radix given no [0x] prefix is recognised. *)
Definition parseInt10 (input : jsstring) : number :=
  let S0 := trimStart input in
  let '(sign, S1) :=
    match S0 with
    | c :: r =>
        if c =? 45 then (true, r)
        else if c =? 43 then (false, r)
        else (false, S0)
    | [] => (false, S0)
    end in
  match digitsPrefix 10 S1 0 false with
  | None => NaN
  | Some n =>
      if n =? 0 then S754_zero sign
      else ofInt (if sign then - n else n)
  end.

Definition isNaN (x : number) : bool :=
  match x with
  | S754_nan => true
  | _ => false
  end.

(** [===] on numbers. *)
Definition strictEquals (x y : number) : bool := SFeqb x y.

Definition sub (x y : number) : number := SFsub prec emax x y.

(** The Number value of a decimal literal [mantissa / 10^scale] with
    [mantissa] and [10^scale] below 2^53: the double nearest to the
    quotient, which is what the correctly rounded division gives. *)
Definition literal (mantissa scale : Z) : number :=
  div (ofInt mantissa) (ofInt (10 ^ scale)).

(** The array index a number denotes as a property key: a non-negative
    integer; [-0] is [0]. *)
Definition toIndex (x : number) : option Z :=
  match x with
  | S754_zero _ => Some 0
  | S754_finite false m e =>
      if 0 <=? e then Some (Zpos m * 2 ^ e)
      else if Zpos m mod 2 ^ (- e) =? 0 then Some (Zpos m / 2 ^ (- e))
      else None
  | _ => None
  end.

(** [array[x]] for a number [x]; [None] is [undefined]. *)
Definition elementAt {A} (array : list A) (x : number) : option A :=
  match toIndex x with
  | Some i => nth_error array (Z.to_nat i)
  | None => None
  end.

(** ** Numbers as text ([`${x}`]) *)

Module Number.

(** The number of decimal digits of a positive integer. *)
Definition decimalLength (v : Z) : Z :=
  Z.of_nat (List.length (JSON.numberToString v)).

(** The decimal reads back as the double that holds [v]. *)
Definition readsBack (v c : Z) : bool := SFeqb (ofInt c) (ofInt v).

(** Of the decimals with [k] digits followed by zeros up to the length of
    [v], the one that reads back as the double of [v] and is nearest to
    [v]; of two as near, the one with the last digit even. *)
Definition nearestWith (v k : Z) : option Z :=
  let p := decimalLength v - k in
  if p <=? 0 then Some v
  else
    let lo := v / 10 ^ p * 10 ^ p in
    let hi := lo + 10 ^ p in
    if readsBack v lo && readsBack v hi then
      Some (if v - lo <? hi - v then lo
            else if hi - v <? v - lo then hi
            else if Z.even (lo / 10 ^ p) then lo else hi)
    else if readsBack v lo then Some lo
    else if readsBack v hi then Some hi
    else None.

Fixpoint shortestFrom (fuel : nat) (v k : Z) : Z :=
  match fuel with
  | O => v
  | S fuel' =>
      match nearestWith v k with
      | Some c => c
      | None => shortestFrom fuel' v (k + 1)
      end
  end.

(** The decimal with the fewest digits that reads back as the double
    holding [v]; 17 digits always do. *)
Definition shortest (v : Z) : Z := shortestFrom 17 v 1.

Fixpoint dropZeros (s : jsstring) : jsstring :=
  match s with
  | c :: s' => if c =? 48 then dropZeros s' else s
  | [] => []
  end.

(** A positive integer of up to 21 digits is written in full; a longer
    one as its digits without the zeros at the end, a point after the
    first, and the exponent. *)
Definition render (c : Z) : jsstring :=
  let text := JSON.numberToString c in
  let n := Z.of_nat (List.length text) in
  if n <=? 21 then text
  else
    match rev (dropZeros (rev text)) with
    | [] => text
    | [d] => d :: str "e+" ++ JSON.numberToString (n - 1)
    | d :: more => d :: 46 :: more ++ str "e+" ++ JSON.numberToString (n - 1)
    end.

(** Number::toString for the Number nearest to the integer [z].  Below
    2^53 in magnitude the Number is [z], written in full. *)
Definition toString (z : Z) : jsstring :=
  if Z.abs z <? 2 ^ 53 then JSON.numberToString z
  else
    match ofInt z with
    | S754_finite s m e =>
        (if s then [45] else []) ++ render (shortest (Zpos m * 2 ^ e))
    | S754_infinity s => (if s then [45] else []) ++ str "Infinity"
    | S754_zero _ => str "0"
    | S754_nan => str "NaN"
    end.

End Number.

(** [s.startsWith(p)]. *)
Fixpoint startsWith (s p : jsstring) : bool :=
  match p, s with
  | [], _ => true
  | x :: p', y :: s' => (x =? y) && startsWith s' p'
  | _ :: _, [] => false
  end.

(** [v || d] for [v] a string or [undefined]. *)
Definition orElse (v : option jsstring) (d : jsstring) : jsstring :=
  match v with
  | Some (c :: s) => c :: s
  | _ => d
  end.

(** ** wallet.ts: keys as text ([bs58], [PublicKey.toBase58]) *)

Module Bs58.

(** The number a byte string spells, most significant byte first. *)
Definition ofBytes (bs : list Z) : Z :=
  fold_left (fun acc b => acc * 256 + b) bs 0.

Fixpoint leadingZeros (bs : list Z) : nat :=
  match bs with
  | b :: bs' => if b =? 0 then S (leadingZeros bs') else O
  | [] => O
  end.

(** The digits of [n] in base [B], most significant first, put in front
    of [acc]; [0] has no digit. *)
Fixpoint digitsFrom (fuel : nat) (B n : Z) (acc : list Z) : list Z :=
  match fuel with
  | O => acc
  | S fuel' =>
      if n <=? 0 then acc
      else digitsFrom fuel' B (n / B) (n mod B :: acc)
  end.

(** A number has at most as many digits as it has bits. *)
Definition digits (B n : Z) : list Z :=
  digitsFrom (S (Z.to_nat (Z.log2 n))) B n [].

Definition char (d : Z) : Z := nth (Z.to_nat d) Base58.alphabet 0.

(** [bs58.encode]: one ['1'] for each leading zero byte, then the base-58
    digits of the number the bytes spell. *)
Definition encode (bs : list Z) : jsstring :=
  repeat 49 (leadingZeros bs) ++ map char (digits 58 (ofBytes bs)).

(** [bs58.decode]: one zero byte for each leading ['1'], then the bytes of
    the number the string spells; [None] on a character outside the
    alphabet. *)
Definition decode (s : jsstring) : option (list Z) :=
  match Base58.value s 0 with
  | Some n =>
      Some (repeat 0 (Z.to_nat (Base58.leadingOnes s)) ++ digits 256 n)
  | None => None
  end.

End Bs58.

(** [PublicKey.toBytes]: the number on 32 bytes, zero-padded in front. *)
Definition toBytes (k : PublicKey) : list Z :=
  let b := Bs58.digits 256 k in
  repeat 0 (Z.to_nat PUBLIC_KEY_LENGTH - List.length b) ++ b.

(** [PublicKey.toBase58]. *)
Definition toBase58 (k : PublicKey) : jsstring := Bs58.encode (toBytes k).

(** The two static methods of [Keypair]: [fromSecretKey], which throws on
    bytes that are no key pair, and the key pair that [generate] returns
    when it is called. *)
Record KeypairSdk := {
  fromSecretKey : list Z -> Result Keypair;
  generate : Keypair;
}.

(** [connection.getBalance]: the lamports of an account, [None] when the
    request throws. *)
Definition Lamports := PublicKey -> option Z.

Definition LAMPORTS_PER_SOL : number := ofInt 1000000000.

Module Wallet.

(** The getter [publicKeyObj]. *)
Definition publicKeyObj (w : AgentWallet) : PublicKey := publicKey (keypair w).

(** The getter [publicKey]. *)
Definition publicKey (w : AgentWallet) : jsstring := toBase58 (publicKeyObj w).

(** The getter [privateKeyBase58]. *)
Definition privateKeyBase58 (w : AgentWallet) : jsstring :=
  Bs58.encode (secretKey (keypair w)).

(** [new AgentWallet(privateKeyBase58?)]. *)
Definition new (keys : KeypairSdk) (privateKeyBase58 : option jsstring)
  : Result AgentWallet :=
  if truthy privateKeyBase58 then
    match privateKeyBase58 with
    | Some text =>
        secretKey <- orThrow NonBase58Character (Bs58.decode text) ;;
        kp <- fromSecretKey keys secretKey ;;
        Ok {| keypair := kp |}
    | None => Throw TypeError
    end
  else Ok {| keypair := generate keys |}.

Definition getBalance (lamports : Lamports) (w : AgentWallet) : Result number :=
  balance <- orThrow RpcError (lamports (publicKeyObj w)) ;;
  Ok (div (ofInt balance) LAMPORTS_PER_SOL).

(** Any exception inside the [try] block gives balance [0]. *)
Definition getUsdcBalance (sdk : Sdk) (connection : Connection)
  (w : AgentWallet) : number :=
  match getAssociatedTokenAddress sdk USDC_DEVNET_MINT (publicKeyObj w) with
  | Some tokenAccount =>
      match getAccount connection tokenAccount with
      | Some amount => div (ofInt amount) (ofInt 1000000)
      | None => ofInt 0
      end
  | None => ofInt 0
  end.

End Wallet.

(** [loadOrCreateWallet], given [process.env.AGENT_PRIVATE_KEY]. *)
Definition loadOrCreateWallet (keys : KeypairSdk)
  (AGENT_PRIVATE_KEY : option jsstring) : Result AgentWallet :=
  let privateKey := AGENT_PRIVATE_KEY in
  if truthy privateKey
     && match privateKey with
        | Some text => 0 <? Z.of_nat (List.length text)
        | None => false
        end
  then Wallet.new keys privateKey
  else Wallet.new keys None.

(** ** x402-handler.ts: the balance in SOL *)

Definition getSolBalance (lamports : Lamports) (publicKey : PublicKey)
  : Result number :=
  balance <- orThrow RpcError (lamports publicKey) ;;
  Ok (div (ofInt balance) (ofInt 1000000000)).

(** ** api-client.ts: requests and replies *)

Module Http.

(** What the global [fetch] is called with. *)
Record Request := {
  url : jsstring;
  method : option jsstring;
  headers : list (jsstring * jsstring);
}.

(** What it resolves to: the status, and what [response.json()] gives,
    which throws on a body that is not JSON. *)
Record Response (J : Type) := {
  status : Z;
  json : Result J;
}.

Arguments status {J} r.
Arguments json {J} r.

(** [response.ok]. *)
Definition ok {J} (r : Response J) : bool :=
  (200 <=? status r) && (status r <=? 299).

End Http.

(** The [options] argument of the private method [fetch], as its callers
    use it. *)
Record RequestInit := {
  init_method : option jsstring;
  init_headers : option (list (jsstring * jsstring));
}.

Module Client.

Record t := {
  baseUrl : jsstring;
  agentId : jsstring;
}.

(** [s.replace(/\/$/, "")]: a slash at the very end is removed. *)
Definition removeTrailingSlash (s : jsstring) : jsstring :=
  match rev s with
  | c :: r => if c =? 47 then rev r else s
  | [] => s
  end.

(** The constructor; [agentId] has a default. *)
Definition new (baseUrl : jsstring) (agentId : option jsstring) : t :=
  {| baseUrl := removeTrailingSlash baseUrl;
     agentId := match agentId with
                | Some a => a
                | None => str "autonomous-agent-v1"
                end |}.

(** A property is set on an object literal: a key already there keeps its
    place and takes the new value. *)
Fixpoint setHeader (o : list (jsstring * jsstring)) (k v : jsstring)
  : list (jsstring * jsstring) :=
  match o with
  | [] => [(k, v)]
  | (k', v') :: o' =>
      if eqb_list k' k then (k', v) :: o' else (k', v') :: setHeader o' k v
  end.

(** [{...o, ...more}]. *)
Definition spread (o more : list (jsstring * jsstring))
  : list (jsstring * jsstring) :=
  fold_left (fun acc kv => setHeader acc (fst kv) (snd kv)) more o.

Definition getHeader (o : list (jsstring * jsstring)) (k : jsstring)
  : option jsstring :=
  option_map snd (find (fun kv => eqb_list (fst kv) k) o).

(** The request the private method [fetch] makes. *)
Definition request (c : t) (endpoint : jsstring) (options : option RequestInit)
  : Http.Request :=
  {| Http.url := baseUrl c ++ endpoint;
     Http.method := match options with
                    | Some o => init_method o
                    | None => None
                    end;
     Http.headers :=
       spread [(str "Content-Type", str "application/json");
               (str "x-agent-address", agentId c)]
         match options with
         | Some o => match init_headers o with
                     | Some h => h
                     | None => []
                     end
         | None => []
         end |}.

Section Methods.
Variable J : Type.
(** The global [fetch]: the server and the network in between; a request
    that fails throws. *)
Variable server : Http.Request -> Result (Http.Response J).
Variable c : t.

Definition fetch (endpoint : jsstring) (options : option RequestInit)
  : Result (Http.Response J) :=
  server (request c endpoint options).

Definition getMarketplaceInfo : Result J :=
  response <- fetch (str "/api/agent/info") None ;;
  if negb (Http.ok response) then Throw HttpError
  else Http.json response.

Definition browseImages : Result J :=
  response <- fetch (str "/api/agent/info?action=browse") None ;;
  if negb (Http.ok response) then Throw HttpError
  else Http.json response.

(** The id goes into the URL as [`${imageId}`] prints it. *)
Definition getImageInfo (imageId : Z) : Result J :=
  response <-
    fetch (str "/api/agent/info?imageId=" ++ Number.toString imageId)
      None ;;
  if negb (Http.ok response) then Throw HttpError
  else Http.json response.

Definition initiatePurchase (imageId : Z) : Result (Z * J) :=
  response <-
    fetch (str "/api/agent/buy?imageId=" ++ Number.toString imageId)
      (Some {| init_method := Some (str "POST"); init_headers := None |}) ;;
  data <- Http.json response ;;
  Ok (Http.status response, data).

Definition completePurchase (imageId : Z) (paymentHeader : jsstring)
  : Result J :=
  response <-
    fetch (str "/api/agent/buy?imageId=" ++ Number.toString imageId)
      (Some {| init_method := Some (str "POST");
               init_headers := Some [(str "X-PAYMENT", paymentHeader)] |}) ;;
  if negb (Http.ok response) then
    error <- Http.json response ;;
    Throw HttpError
  else Http.json response.

End Methods.
End Client.

(** ** agent.ts: discovery, the two ways to run, the summary *)

Record AgentConfig := {
  apiUrl : jsstring;
  agentId : jsstring;
  maxPurchases : option Z;
}.

(** The client the constructor builds,
    [new PinspireClient(config.apiUrl, config.agentId)], with the replies
    as [purchaseImage] reads them: a JSON body [J] is read as the type a
    method casts it to. *)
Section Constructor.
Variable J : Type.
Variable asImageInfo : J -> Reply.ImageInfo.
Variable asChallenge : J -> X402Challenge.
Variable asPurchaseResult : J -> Reply.PurchaseResult.
Variable server : Http.Request -> Result (Http.Response J).

Definition clientOf (config : AgentConfig) : PinspireClient :=
  let c := Client.new (apiUrl config) (Some (agentId config)) in
  {| getImageInfo := fun imageId =>
       body <- Client.getImageInfo J server c imageId ;;
       Ok (asImageInfo body);
     initiatePurchase := fun imageId =>
       reply <- Client.initiatePurchase J server c imageId ;;
       Ok (fst reply, asChallenge (snd reply));
     completePurchase := fun imageId paymentHeader =>
       body <- Client.completePurchase J server c imageId paymentHeader ;;
       Ok (asPurchaseResult body) |}.

End Constructor.

(** An entry of the browse reply; price, number of purchases and buy
    endpoint are only printed. *)
Record ImageItem := {
  item_id : Z;
  item_title : option jsstring;
}.

Record BrowseResult := {
  totalImages : option Z;
  images : option (list ImageItem);
}.

(** Of the marketplace information only [features] is more than
    printed: its [length] is read. *)
Record MarketplaceInfo := {
  features : option (list jsstring);
}.

(** The two methods of [PinspireClient] that the discovery phases call. *)
Record Discovery := {
  getMarketplaceInfo : Result MarketplaceInfo;
  browseImages : Result BrowseResult;
}.

(** Phase 1: what is caught is thrown again. *)
Definition discoverMarketplace (d : Discovery) : Result unit :=
  info <- getMarketplaceInfo d ;;
  match features info with
  | Some _ => Ok tt
  | None => Throw TypeError
  end.

(** Phase 2: any exception, a reply without [images] included, gives
    [null]. *)
Definition browseAvailableImages (d : Discovery) : option BrowseResult :=
  match browseImages d with
  | Ok result =>
      match images result with
      | Some _ => Some result
      | None => None
      end
  | Throw _ => None
  end.

(** [!images || images.totalImages === 0]. *)
Definition nothingToBuy (browsed : option BrowseResult) : bool :=
  match browsed with
  | None => true
  | Some result =>
      match totalImages result with
      | Some n => n =? 0
      | None => false
      end
  end.

(** The numbers [printSummary] prints. *)
Record Summary := {
  attempted : nat;
  successful : nat;
  failed : nat;
}.

Definition printSummary (a : PinspireAgent) : Summary :=
  let successfulPurchases := filter (fun p => rec_success p) (purchasedImages a) in
  let failedPurchases := filter (fun p => negb (rec_success p)) (purchasedImages a) in
  {| attempted := List.length (purchasedImages a);
     successful := List.length successfulPurchases;
     failed := List.length failedPurchases |}.

(** How a run ends: with the summary printed, at the early return, with
    the next question unanswered, or with an exception. *)
Inductive Ending :=
| Finished (s : Summary)
| NoImages
| AwaitingInput
| Thrown (e : Error).

(** The ledger node and the marketplace as they answer one purchase. *)
Record World := {
  ledger : Connection;
  marketplace : PinspireClient;
}.

(** How the purchase loop ends. *)
Inductive LoopEnd :=
| LoopDone
| LoopAwaitingInput
| LoopThrown (e : Error).

Section Runs.
Variable sdk : Sdk.
Variable wallet : AgentWallet.
Variable config : AgentConfig.
Variable discovery : Discovery.

(** [run]: the first image of the list is bought; the outcome is not
    pushed on [purchasedImages]. *)
Definition run (world : World) (a : PinspireAgent)
  : PinspireAgent * list Event * Ending :=
  match discoverMarketplace discovery with
  | Throw e => (a, [], Thrown e)
  | Ok _ =>
      let images := browseAvailableImages discovery in
      if nothingToBuy images then (a, [], NoImages)
      else
        match images with
        | Some {| images := Some (targetImage :: _) |} =>
            let '(_, a', log) :=
              purchaseImage sdk (ledger world) (marketplace world) wallet a
                (item_id targetImage) in
            (a', log, Finished (printSummary a'))
        | _ => (a, [], Thrown TypeError)
        end
  end.

(** [String.prototype.toLowerCase]. *)
Variable toLowerCase : jsstring -> jsstring.

(** [answer.toLowerCase() !== 'y' && answer.toLowerCase() !== 'yes'],
    negated. *)
Definition saysYes (answer : jsstring) : bool :=
  eqb_list (toLowerCase answer) (str "y")
  || eqb_list (toLowerCase answer) (str "yes").

(** [this.config.maxPurchases || 10]. *)
Definition purchaseLimit : Z :=
  match maxPurchases config with
  | Some n => if n =? 0 then 10 else n
  | None => 10
  end.

(** The ledger node and the marketplace at each purchase of the run,
    numbered from 0. *)
Variable world : nat -> World.

(** The loop of [runInteractive] over the answers [askQuestion] gives, in
    the order they are asked for; [n] purchases were made before. *)
Fixpoint purchaseLoop (images : list ImageItem) (answers : list jsstring)
  (n : nat) (a : PinspireAgent) : PinspireAgent * list Event * LoopEnd :=
  match answers with
  | [] => (a, [], LoopAwaitingInput)
  | answer :: answers1 =>
      let selection := parseInt10 answer in
      if isNaN selection then purchaseLoop images answers1 n a
      else if strictEquals selection (ofInt 0) then (a, [], LoopDone)
      else if lt selection (ofInt 1)
              || lt (ofInt (Z.of_nat (List.length images))) selection
      then purchaseLoop images answers1 n a
      else
        match elementAt images (sub selection (ofInt 1)) with
        | None => (a, [], LoopThrown TypeError)
        | Some selectedImage =>
            match answers1 with
            | [] => (a, [], LoopAwaitingInput)
            | confirm :: answers2 =>
                if negb (saysYes confirm) then purchaseLoop images answers2 n a
                else
                  let '(a1, log) :=
                    purchaseAndRecord sdk (ledger (world n))
                      (marketplace (world n)) wallet a
                      (item_id selectedImage) (item_title selectedImage) in
                  if purchaseLimit <=? purchaseCount a1 then (a1, log, LoopDone)
                  else
                    match answers2 with
                    | [] => (a1, log, LoopAwaitingInput)
                    | another :: answers3 =>
                        if negb (saysYes another) then (a1, log, LoopDone)
                        else
                          let '(a2, log2, ending) :=
                            purchaseLoop images answers3 (S n) a1 in
                          (a2, log ++ log2, ending)
                    end
            end
        end
  end.

Definition runInteractive (answers : list jsstring) (a : PinspireAgent)
  : PinspireAgent * list Event * Ending :=
  match discoverMarketplace discovery with
  | Throw e => (a, [], Thrown e)
  | Ok _ =>
      let images := browseAvailableImages discovery in
      if nothingToBuy images then (a, [], NoImages)
      else
        match images with
        | Some {| images := Some items |} =>
            match purchaseLoop items answers 0 a with
            | (a', log, LoopDone) => (a', log, Finished (printSummary a'))
            | (a', log, LoopAwaitingInput) => (a', log, AwaitingInput)
            | (a', log, LoopThrown e) => (a', log, Thrown e)
            end
        | _ => (a, [], Thrown TypeError)
        end
  end.

End Runs.

(** ** index.ts *)

(** [askQuestion] resolves to the trimmed answer. *)
Definition askQuestion (line : jsstring) : jsstring := trim line.

Record Env := {
  AGENT_PRIVATE_KEY : option jsstring;
  PINSPIRE_API_URL : option jsstring;
  AGENT_ID : option jsstring;
}.

(** [process.argv.includes("--auto")]. *)
Definition autoMode (argv : list jsstring) : bool :=
  existsb (eqb_list (str "--auto")) argv.

(** [process.argv.slice(2).filter(arg => !arg.startsWith("--"))]. *)
Definition args (argv : list jsstring) : list jsstring :=
  filter (fun arg => negb (startsWith arg (str "--"))) (skipn 2 argv).

(** The configuration [main] hands to the agent. *)
Definition agentConfig (argv : list jsstring) (env : Env) : AgentConfig :=
  {| apiUrl := orElse (hd_error (args argv))
                 (orElse (PINSPIRE_API_URL env) (str "http://localhost:3000"));
     agentId := orElse (AGENT_ID env) (str "autonomous-buyer-v1");
     maxPurchases := Some 10 |}.

(** What [main] prints after the balances. *)
Inductive Notice :=
| LowSol            (* "Low SOL balance. You need SOL for transaction fees." *)
| LowUsdc           (* "Low USDC balance. You need USDC to purchase images." *)
| BalanceUnknown.   (* "Could not check balance (network issue?)" *)

Definition balanceNotices (sdk : Sdk) (connection : Connection)
  (lamports : Lamports) (wallet : AgentWallet) : list Notice :=
  match Wallet.getBalance lamports wallet with
  | Throw _ => [BalanceUnknown]
  | Ok solBalance =>
      let usdcBalance := Wallet.getUsdcBalance sdk connection wallet in
      (if lt solBalance (literal 1 3) then [LowSol] else [])
      ++ (if lt usdcBalance (literal 1 2) then [LowUsdc] else [])
  end.

(** ** Auxiliary definitions for the statements *)

(** Digits of base [B] with no leading zero. *)
Definition canonical (B : Z) (ds : list Z) : Prop :=
  Forall (fun d => 0 <= d < B) ds /\
  match ds with
  | d :: _ => d <> 0
  | [] => True
  end.

Definition valueOf (B : Z) (ds : list Z) : Z :=
  fold_left (fun acc d => acc * B + d) ds 0.

(** The [n]-th character of the base-58 alphabet stands for [n], and is
    ['1'] only for [n = 0]. *)
Definition digit58Ok (n : nat) : bool :=
  match Base58.indexOf (Bs58.char (Z.of_nat n)) Base58.alphabet 0 with
  | Some j =>
      (j =? Z.of_nat n)
      && Bool.eqb (Bs58.char (Z.of_nat n) =? 49) (Nat.eqb n 0)
  | None => false
  end.

(** The string is empty or white space only. *)
Definition isBlank (s : jsstring) : bool :=
  match trim s with
  | [] => true
  | _ => false
  end.

(** The string, trimmed, starts with [0b] or [0o] (either case). *)
Definition binaryOrOctal (s : jsstring) : bool :=
  match trim s with
  | c :: x :: _ =>
      match prefixRadix c x with
      | Some 16 => false
      | Some _ => true
      | None => false
      end
  | _ => false
  end.

(** The string, trimmed, starts with a minus sign. *)
Definition startsWithMinus (s : jsstring) : bool :=
  match trim s with
  | c :: _ => c =? 45
  | [] => false
  end.

(** What [parseInt] reads in a string in which [BigInt] reads [n]. *)
Definition checkedNumber (raw : jsstring) (n : Z) : number :=
  if isBlank raw then NaN
  else if binaryOrOctal raw then S754_zero false
  else if n =? 0 then S754_zero (startsWithMinus raw)
  else ofInt n.

(** Where a run of radix-[R] digits stops: at the end, or at a character
    that is no digit. *)
Definition stops (R : Z) (w : jsstring) : Prop :=
  match w with
  | c :: _ => radixDigit R c = None
  | [] => True
  end.

(** A character of base64 text: one of the 64 of the alphabet, or the
    padding character. *)
Definition isBase64Char (c : Z) : bool :=
  match Base64.index c with
  | Some _ => true
  | None => c =? Base64.pad
  end.

(** A string-valued field that is absent or holds code units. *)
Definition optionalCodeUnits (v : option jsstring) : Prop :=
  match v with
  | Some s => codeUnits s
  | None => True
  end.

(** The base URL ends with a slash. *)
Definition endsWithSlash (s : jsstring) : bool :=
  match rev s with
  | c :: _ => c =? 47
  | [] => false
  end.

(** The records a run has pushed on [purchasedImages]. *)
Definition successes (l : list PurchaseRecord) : Z :=
  Z.of_nat (List.length (filter (fun p => rec_success p) l)).

(** The record is that of an entry of the list. *)
Definition recordOf (images : list ImageItem) (r : PurchaseRecord) : Prop :=
  exists image,
    In image images /\ rec_id r = item_id image /\
    rec_title r = item_title image.

(** No transaction hash, or the placeholder of [createPayment]. *)
Definition noRealHash (h : option jsstring) : Prop :=
  h = None \/ h = Some (str "pending-settlement").

(** The list of images the browse phase makes available; empty when
    there is none. *)
Definition listed (d : Discovery) : list ImageItem :=
  match browseAvailableImages d with
  | Some {| images := Some items |} => items
  | _ => []
  end.

(** 2^23 * 10^9 lamports: below it, amounts scaled by 1e9 stay apart as
    doubles. *)
Definition lamportsLimit : Z := 8388608000000000.

(** The request is for [endpoint] of the marketplace of the
    configuration, in the name of its agent, and carries [payment] as
    payment header. *)
Definition requestTo (config : AgentConfig) (endpoint : jsstring)
  (method : option jsstring) (payment : option jsstring)
  (r : Http.Request) : Prop :=
  Http.url r = Client.removeTrailingSlash (apiUrl config) ++ endpoint /\
  Http.method r = method /\
  Client.getHeader (Http.headers r) (str "x-agent-address")
  = Some (agentId config) /\
  Client.getHeader (Http.headers r) (str "X-PAYMENT") = payment.

(** The two endpoints of a purchase. *)
Definition infoEndpoint (imageId : Z) : jsstring :=
  str "/api/agent/info?imageId=" ++ Number.toString imageId.

Definition buyEndpoint (imageId : Z) : jsstring :=
  str "/api/agent/buy?imageId=" ++ Number.toString imageId.

(** What a run of the purchase loop keeps, from agent [a] to agent [a']
    with events [log]: it appends records, counts the successful ones,
    buys from the list only, records no hash but the placeholder, buys at
    most once for each of the [confirmations], respects the [limit],
    stops after one purchase when it starts at the limit, and changes
    nothing when it buys nothing. *)
Definition kept (images : list ImageItem) (limit : Z) (confirmations : nat)
  (a a' : PinspireAgent) (log : list Event) : Prop :=
  exists new,
    purchasedImages a' = purchasedImages a ++ new /\
    purchaseCount a' = purchaseCount a + successes new /\
    Forall (recordOf images) new /\
    Forall (fun r => noRealHash (rec_txHash r)) new /\
    (List.length new <= confirmations)%nat /\
    (purchaseCount a < limit -> purchaseCount a' <= limit) /\
    (limit <= purchaseCount a -> (List.length new <= 1)%nat) /\
    (new = [] -> log = [] /\ a' = a).

(** ** More of the concrete setting *)

Module Scenario.

(** The key pair of the seed made of 32 bytes 2. *)
Definition fresh : Keypair :=
  {| publicKey := Fixture.keyOf Fixture.payee;
     secretKey :=
       repeat 2 32
       ++ [129; 57; 119; 14; 168; 125; 23; 95; 86; 163; 84; 102; 195; 76; 126;
           204; 203; 141; 138; 145; 180; 238; 55; 162; 93; 246; 15; 91; 143;
           201; 179; 148] |}.

(** A stand-in for [Keypair].  [fromSecretKey] wants 64 bytes, a seed
    followed by its public key, which it reads off the last 32; the real
    one derives the public key from the seed to compare, the stand-in
    knows the key pairs of this file only. *)
Definition keys : KeypairSdk :=
  {| fromSecretKey := fun bs =>
       if negb (Z.of_nat (List.length bs) =? 64) then Throw TransactionError
       else if existsb (eqb_list bs)
                 [secretKey Fixture.payer; secretKey fresh]
       then Ok {| publicKey := Bs58.ofBytes (skipn 32 bs); secretKey := bs |}
       else Throw TransactionError;
     generate := fresh |}.

(** Lower case for the letters A to Z. *)
Definition toLowerCase (s : jsstring) : jsstring :=
  map (fun c => if (65 <=? c) && (c <=? 90) then c + 32 else c) s.

Definition items : list ImageItem :=
  [{| item_id := 11; item_title := Some (str "Sunset") |};
   {| item_id := 12; item_title := Some (str "Harbour") |};
   {| item_id := 13; item_title := None |}].

Definition discovery : Discovery :=
  {| getMarketplaceInfo := Ok {| features := Some [str "x402"] |};
     browseImages := Ok {| totalImages := Some 3; images := Some items |} |}.

Definition config (limit : option Z) : AgentConfig :=
  {| apiUrl := str "http://localhost:3000";
     agentId := str "autonomous-buyer-v1";
     maxPurchases := limit |}.

Definition challenge : X402Challenge :=
  Fixture.challenge [Fixture.accept "exact" "500000" Fixture.usdc None].

(** The first purchase is answered with a challenge and settled, every
    later one is rejected at settlement. *)
Definition world (n : nat) : World :=
  {| ledger := Fixture.connection 900000;
     marketplace := Fixture.client 402 challenge (Nat.eqb n 0) |}.

(** A server that answers every request with [status] and echoes the
    request as the body. *)
Definition echo (status : Z) (r : Http.Request)
  : Result (Http.Response Http.Request) :=
  Ok {| Http.status := status; Http.json := Ok r |}.

(** A marketplace that cannot be reached. *)
Definition unreachable : Discovery :=
  {| getMarketplaceInfo := Throw HttpError;
     browseImages := Throw HttpError |}.

(** JSON bodies, kept to the three kinds the marketplace sends. *)
Inductive Json :=
| InfoBody (info : Reply.ImageInfo)
| ChallengeBody (c : X402Challenge)
| ResultBody (r : Reply.PurchaseResult).

Definition asImageInfo (j : Json) : Reply.ImageInfo :=
  match j with
  | InfoBody info => info
  | _ => {| Reply.info_image := None; Reply.info_purchase := None |}
  end.

Definition asChallenge (j : Json) : X402Challenge :=
  match j with
  | ChallengeBody c => c
  | _ => {| x402Version := None; error := None; accepts := None |}
  end.

Definition asPurchaseResult (j : Json) : Reply.PurchaseResult :=
  match j with
  | ResultBody r => r
  | _ => {| Reply.result_image := None; Reply.result_creator := None |}
  end.

(** A marketplace that describes every image, asks for payment on a POST
    without payment header and delivers on a POST with one. *)
Definition server (r : Http.Request) : Result (Http.Response Json) :=
  match Http.method r with
  | None =>
      Ok {| Http.status := 200;
            Http.json :=
              Ok (InfoBody
                    {| Reply.info_image := Some Fixture.image;
                       Reply.info_purchase :=
                         Some {| Reply.amount := Some (str "0.5") |} |}) |}
  | Some _ =>
      match Client.getHeader (Http.headers r) (str "X-PAYMENT") with
      | None =>
          Ok {| Http.status := 402;
                Http.json := Ok (ChallengeBody challenge) |}
      | Some _ =>
          Ok {| Http.status := 201;
                Http.json :=
                  Ok (ResultBody
                        {| Reply.result_image := Some Fixture.image;
                           Reply.result_creator :=
                             Some {| Reply.earnedThisSale := Some 1 |} |}) |}
      end
  end.

(** The third instruction of the transaction built for an amount string,
    with nothing on the token account. *)
Definition transferFor (amount : string) : Result (option Instruction) :=
  m <- unsignedTransaction Fixture.sdk (Fixture.connection 0) Fixture.payer
         (Fixture.challenge [Fixture.accept "exact" amount Fixture.usdc None]) ;;
  Ok (nth_error (instructions m) 2).

(** A marketplace that describes every image and answers every POST
    with [reply]. *)
Definition answering (reply : Http.Response Json) (r : Http.Request)
  : Result (Http.Response Json) :=
  match Http.method r with
  | None => server r
  | Some _ => Ok reply
  end.

End Scenario.

(** * Properties *)

(** Run the model on a concrete input: the value the expression
    evaluates to is the witness. *)
Ltac exists_value :=
  lazymatch goal with
  | |- exists m, ?f = Ok m /\ _ =>
      let v := eval vm_compute in f in
      lazymatch v with
      | Ok ?m => exists m; split; [vm_compute; reflexivity|]
      end
  end.

(** ** Inversion of the payment construction *)

Lemma bind_Ok {A B} (c : Result A) (k : A -> Result B) (b : B) :
  bind c k = Ok b -> exists a, c = Ok a /\ k a = Ok b.
Proof.
  destruct c as [a|e]; simpl; intros H; [eauto | discriminate].
Qed.

Lemma bind_Throw {A B} (c : Result A) (k : A -> Result B) (e : Error) :
  bind c k = Throw e ->
  c = Throw e \/ exists a, c = Ok a /\ k a = Throw e.
Proof.
  destruct c as [a|e']; simpl; intros H; [right; eauto | left; congruence].
Qed.

Lemma orThrow_Ok {A} (e : Error) (o : option A) (a : A) :
  orThrow e o = Ok a -> o = Some a.
Proof.
  destruct o; simpl; congruence.
Qed.

Lemma orThrow_Throw {A} (e e' : Error) (o : option A) :
  orThrow e o = Throw e' -> e' = e.
Proof.
  destruct o; simpl; congruence.
Qed.

Lemma newPublicKey_Throw (v : option jsstring) (e : Error) :
  newPublicKey v = Throw e ->
  e = TypeError \/ e = InvalidPublicKeyInput \/ e = NonBase58Character.
Proof.
  unfold newPublicKey. destruct v as [s|]; [|intros [= <-]; auto].
  destruct (Base58.decode s) as [[len bn]|]; [|intros [= <-]; auto].
  destruct (len =? PUBLIC_KEY_LENGTH); [discriminate | intros [= <-]; auto].
Qed.

Section HandlerFacts.
Variable sdk : Sdk.
Variable connection : Connection.
Variable kp : Keypair.

(** What a successful run of the first part of [createPayment] went
    through, step by step. *)
Lemma createPayment_message_inv (p : Parsed.t) (m : TransactionMessage) :
  createPayment_message sdk connection kp p = Ok m ->
  lt (getUsdcBalance sdk connection (publicKey kp)) (Parsed.amount p) = false /\
  exists src payee dst raw amt fee amount bh,
    getAssociatedTokenAddress sdk USDC_DEVNET_MINT (publicKey kp) = Some src /\
    newPublicKey (Parsed.payTo p) = Ok payee /\
    getAssociatedTokenAddress sdk USDC_DEVNET_MINT payee = Some dst /\
    Parsed.amountRaw p = Some raw /\ stringToBigInt raw = Some amt /\
    (if truthy (Parsed.feePayer p)
     then newPublicKey (Parsed.feePayer p) = Ok fee
     else fee = publicKey kp) /\
    u64 amt = Ok amount /\
    getLatestBlockhash connection = Some bh /\
    m = {| payerKey := fee;
           recentBlockhash := bh;
           instructions :=
             [SetComputeUnitLimit 100000; SetComputeUnitPrice 1;
              TransferChecked src USDC_DEVNET_MINT dst (publicKey kp) amount
                6 [] TOKEN_PROGRAM_ID] |}.
Proof.
  unfold createPayment_message, createTransferCheckedInstruction.
  destruct (lt _ _) eqn:Hlt; [discriminate|].
  intros H. split; [reflexivity|].
  apply bind_Ok in H as (src & Hsrc & H).
  apply bind_Ok in H as (payee & Hpayee & H).
  apply bind_Ok in H as (dst & Hdst & H).
  apply bind_Ok in H as (amt & Hamt & H).
  apply bind_Ok in H as (fee & Hfee & H).
  apply bind_Ok in H as (ix & Hix & H).
  apply bind_Ok in Hix as (amount & Hamount & Hix).
  apply bind_Ok in H as (bh & Hbh & H).
  apply orThrow_Ok in Hsrc, Hdst, Hbh.
  destruct (Parsed.amountRaw p) as [raw|] eqn:Hraw; [|discriminate].
  apply orThrow_Ok in Hamt.
  exists src, payee, dst, raw, amt, fee, amount, bh.
  repeat split; try assumption.
  - destruct (truthy (Parsed.feePayer p)); congruence.
  - congruence.
Qed.

Lemma u64_Throw (amount : Z) (e : Error) :
  u64 amount = Throw e -> e = TypeError /\ amount < 0.
Proof.
  unfold u64. destruct (Z.ltb_spec amount 0) as [Hneg|_].
  - intros [= <-]. split; [reflexivity | exact Hneg].
  - destruct (amount <? 2 ^ 64); discriminate.
Qed.

(** What the field holds when the amount is taken. *)
Lemma u64_Ok (n carried : Z) :
  u64 n = Ok carried ->
  0 <= n /\
  (n < 2 ^ 64 -> carried = n) /\
  (2 ^ 64 <= n -> carried = n / 16 ^ (hexLength n - 16)).
Proof.
  unfold u64. destruct (Z.ltb_spec n 0) as [Hneg|Hpos]; [discriminate|].
  destruct (Z.ltb_spec n (2 ^ 64)) as [Hs|Hl]; intros [= <-];
    (split; [exact Hpos|]); split; intros H; try reflexivity; lia.
Qed.

(** Below 2^64 the field holds the amount. *)
Lemma u64_small (amount : Z) :
  0 <= amount < 2 ^ 64 -> u64 amount = Ok amount.
Proof.
  intros [H0 H1]. unfold u64.
  destruct (Z.ltb_spec amount 0); [lia|].
  destruct (Z.ltb_spec amount (2 ^ 64)); [reflexivity | lia].
Qed.

(** The first part of [createPayment] raises [InsufficientFunds] only at
    the balance check. *)
Lemma createPayment_message_insufficient (p : Parsed.t) :
  createPayment_message sdk connection kp p = Throw InsufficientFunds <->
  lt (getUsdcBalance sdk connection (publicKey kp)) (Parsed.amount p) = true.
Proof.
  unfold createPayment_message.
  destruct (lt _ _) eqn:Hlt; split; try reflexivity; try discriminate.
  intros H. exfalso.
  apply bind_Throw in H as [H|(src & _ & H)];
    [apply orThrow_Throw in H; discriminate|].
  apply bind_Throw in H as [H|(payee & _ & H)];
    [apply newPublicKey_Throw in H as [H|[H|H]]; discriminate|].
  apply bind_Throw in H as [H|(dst & _ & H)];
    [apply orThrow_Throw in H; discriminate|].
  apply bind_Throw in H as [H|(amt & _ & H)].
  { destruct (Parsed.amountRaw p); [apply orThrow_Throw in H|]; discriminate. }
  apply bind_Throw in H as [H|(fee & _ & H)].
  { destruct (truthy (Parsed.feePayer p)); [|discriminate].
    apply newPublicKey_Throw in H as [H|[H|H]]; discriminate. }
  apply bind_Throw in H as [H|(ix & _ & H)].
  { unfold createTransferCheckedInstruction in H.
    apply bind_Throw in H as [H|(amount & _ & H)];
      [apply u64_Throw in H as [H _]|]; discriminate. }
  apply bind_Throw in H as [H|(bh & _ & H)];
    [apply orThrow_Throw in H|]; discriminate.
Qed.

(** [createPayment] raises [InsufficientFunds] exactly when its first part
    does. *)
Lemma createPayment_insufficient (c : X402Challenge) :
  createPayment sdk connection kp c = Throw InsufficientFunds <->
  unsignedTransaction sdk connection kp c = Throw InsufficientFunds.
Proof.
  unfold createPayment, unsignedTransaction.
  destruct (parseChallenge c) as [p|e]; simpl;
    [|split; intros [= ->]; reflexivity].
  destruct (createPayment_message sdk connection kp p) as [m|e]; simpl;
    [|split; intros [= ->]; reflexivity].
  split; [|discriminate].
  intros H.
  apply bind_Throw in H as [H|(signed & _ & H)];
    [apply orThrow_Throw in H; discriminate|].
  unfold encodeHeader in H. simpl in H. discriminate.
Qed.

End HandlerFacts.

Lemma parseChallenge_first (c : X402Challenge) (a : Accept.t) (rest : list (option Accept.t)) :
  accepts c = Some (Some a :: rest) ->
  exists p, parseChallenge c = Ok p /\
    Parsed.payTo p = Accept.payTo a /\
    Parsed.amount p = div (parseIntOf (Accept.maxAmountRequired a)) million /\
    Parsed.amountRaw p = Accept.maxAmountRequired a /\
    Parsed.scheme p = Accept.scheme a /\
    Parsed.network p = Accept.network a /\
    Parsed.x402Version p = x402Version c /\
    Parsed.feePayer p = optionFeePayer a.
Proof.
  intros H. unfold parseChallenge. rewrite H.
  eexists. split; [reflexivity|]. simpl. repeat split.
Qed.

(** ** Decimal strings under [parseInt] and [BigInt] *)

Lemma digit_range (c : Z) : isDecimalDigit c = true -> 48 <= c <= 57.
Proof.
  unfold isDecimalDigit. intros H.
  apply andb_true_iff in H as [H1 H2].
  apply Z.leb_le in H1, H2. lia.
Qed.

Lemma digit_not_whitespace (c : Z) :
  isDecimalDigit c = true -> isWhiteSpace c = false.
Proof.
  intros H. apply digit_range in H. unfold isWhiteSpace. simpl.
  repeat (rewrite (proj2 (Z.eqb_neq c _)) by lia; simpl).
  reflexivity.
Qed.

Lemma digit_radix10 (c : Z) :
  isDecimalDigit c = true -> radixDigit 10 c = Some (c - 48).
Proof.
  intros H. unfold radixDigit, digitValue.
  fold (isDecimalDigit c). rewrite H.
  apply digit_range in H.
  destruct (c - 48 <? 10) eqn:E; [reflexivity|].
  apply Z.ltb_ge in E. lia.
Qed.

Lemma digit_not_sign (c : Z) :
  isDecimalDigit c = true -> (c =? 45) = false /\ (c =? 43) = false.
Proof.
  intros H. apply digit_range in H. split; apply Z.eqb_neq; lia.
Qed.

Lemma digit_no_prefix (c x : Z) :
  isDecimalDigit x = true -> prefixRadix c x = None.
Proof.
  intros H. apply digit_range in H. unfold prefixRadix.
  destruct (c =? 48); [|reflexivity].
  repeat (rewrite (proj2 (Z.eqb_neq x _)) by lia; simpl).
  reflexivity.
Qed.

Lemma digitsPrefix_decimal (s : jsstring) (acc : Z) (seen : bool) :
  forallb isDecimalDigit s = true -> (seen = true \/ s <> []) ->
  digitsPrefix 10 s acc seen
  = Some (fold_left (fun a c => a * 10 + (c - 48)) s acc).
Proof.
  revert acc seen. induction s as [|c s IH]; intros acc seen Hall Hseen.
  - destruct Hseen as [->|H]; [reflexivity | contradiction].
  - simpl in Hall. apply andb_true_iff in Hall as [Hc Hs].
    simpl. rewrite (digit_radix10 c Hc). apply IH; auto.
Qed.

Lemma digitsAll_decimal (s : jsstring) (acc : Z) (seen : bool) :
  forallb isDecimalDigit s = true -> (seen = true \/ s <> []) ->
  digitsAll 10 s acc seen
  = Some (fold_left (fun a c => a * 10 + (c - 48)) s acc).
Proof.
  revert acc seen. induction s as [|c s IH]; intros acc seen Hall Hseen.
  - destruct Hseen as [->|H]; [reflexivity | contradiction].
  - simpl in Hall. apply andb_true_iff in Hall as [Hc Hs].
    simpl. rewrite (digit_radix10 c Hc). apply IH; auto.
Qed.

Lemma trimStart_decimal (s : jsstring) :
  forallb isDecimalDigit s = true -> trimStart s = s.
Proof.
  destruct s as [|c s]; [reflexivity|]. simpl. intros H.
  apply andb_true_iff in H as [Hc _].
  now rewrite (digit_not_whitespace c Hc).
Qed.

Lemma forallb_rev {A} (f : A -> bool) (l : list A) :
  forallb f (rev l) = forallb f l.
Proof.
  induction l as [|x l IH]; [reflexivity|].
  simpl. rewrite forallb_app, IH. simpl.
  rewrite andb_true_r. apply andb_comm.
Qed.

Lemma trim_decimal (s : jsstring) :
  forallb isDecimalDigit s = true -> trim s = s.
Proof.
  intros H. unfold trim, trimEnd.
  rewrite (trimStart_decimal s H), trimStart_decimal, rev_involutive;
    [reflexivity|].
  now rewrite forallb_rev.
Qed.

Lemma ofInt_zero : ofInt 0 = S754_zero false.
Proof. reflexivity. Qed.

(** On a string of decimal digits [parseInt] is the Number value of the
    integer it spells. *)
Lemma parseInt_decimal (s : jsstring) :
  decimalString s -> parseInt s = ofInt (decimalValue s).
Proof.
  intros [Hne Hall]. unfold parseInt.
  rewrite (trimStart_decimal s Hall).
  destruct s as [|c r]; [contradiction|].
  pose proof Hall as Hall'. simpl in Hall'.
  apply andb_true_iff in Hall' as [Hc Hr].
  destruct (digit_not_sign c Hc) as [-> ->].
  assert (Hpre : digitsPrefix 10 (c :: r) 0 false
                 = Some (decimalValue (c :: r)))
    by (apply digitsPrefix_decimal; [exact Hall | right; discriminate]).
  assert (Hend : match digitsPrefix 10 (c :: r) 0 false with
                 | Some n => if n =? 0 then S754_zero false else ofInt n
                 | None => NaN
                 end = ofInt (decimalValue (c :: r))).
  { rewrite Hpre.
    destruct (decimalValue (c :: r) =? 0) eqn:E; [|reflexivity].
    apply Z.eqb_eq in E. now rewrite E, ofInt_zero. }
  destruct r as [|x r0]; [exact Hend|].
  simpl in Hr. apply andb_true_iff in Hr as [Hx _].
  rewrite (digit_no_prefix c x Hx). exact Hend.
Qed.

(** On a string of decimal digits [BigInt] is the integer it spells. *)
Lemma stringToBigInt_decimal (s : jsstring) :
  decimalString s -> stringToBigInt s = Some (decimalValue s).
Proof.
  intros [Hne Hall]. unfold stringToBigInt.
  rewrite (trim_decimal s Hall).
  destruct s as [|c r]; [contradiction|].
  pose proof Hall as Hall'. simpl in Hall'.
  apply andb_true_iff in Hall' as [Hc Hr].
  assert (Hs : signedDecimal (c :: r) = Some (decimalValue (c :: r))).
  { unfold signedDecimal. destruct (digit_not_sign c Hc) as [-> ->].
    apply digitsAll_decimal; [exact Hall | right; discriminate]. }
  destruct r as [|x r0]; [exact Hs|].
  simpl in Hr. apply andb_true_iff in Hr as [Hx _].
  now rewrite (digit_no_prefix c x Hx).
Qed.

(** ** Comparison of numbers *)

Lemma lt_irrefl (x : number) : lt x x = false.
Proof.
  unfold lt, SFltb, SFcompare.
  destruct x as [s|s| |s m e]; try reflexivity.
  - destruct s; reflexivity.
  - rewrite Z.compare_refl.
    assert (Pos.compare_cont Eq m m = Eq) as -> by apply Pos.compare_cont_refl.
    destruct s; reflexivity.
Qed.

(** ** Scaling by 1e6 in binary64 *)

(** The balance check compares two quotients by 1e6.  The lemmas below
    follow the binary64 division on such quotients: the Number value of a
    positive integer below 2^53 is exact; its quotient by 1e6 is a normal
    number within half a unit in the last place; so below 2^33 * 10^6 the
    quotients are ordered as the integers are. *)

Lemma million_eq : million = S754_finite false millionMantissa (-33).
Proof. reflexivity. Qed.

Lemma digits2_size (p : positive) : digits2_pos p = Pos.size p.
Proof. induction p; simpl; congruence. Qed.

Lemma digits_bounds (p : positive) :
  2 ^ (Zpos (digits2_pos p) - 1) <= Zpos p < 2 ^ Zpos (digits2_pos p).
Proof.
  rewrite digits2_size.
  pose proof (Pos.size_gt p) as Hgt. pose proof (Pos.size_le p) as Hle.
  split.
  - assert (H : (2 ^ Pos.size p <= p~0)%positive) by exact Hle.
    apply Pos2Z.pos_le_pos in H. rewrite Pos2Z.inj_pow in H.
    replace (Zpos (Pos.size p)) with (Z.succ (Zpos (Pos.size p) - 1)) in H
      by lia.
    rewrite Z.pow_succ_r in H by lia. lia.
  - apply Pos2Z.pos_lt_pos in Hgt. rewrite Pos2Z.inj_pow in Hgt. exact Hgt.
Qed.

Lemma digits_unique (p : positive) (d : Z) :
  2 ^ (d - 1) <= Zpos p < 2 ^ d -> Zpos (digits2_pos p) = d.
Proof.
  intros [Hlo Hhi]. pose proof (digits_bounds p) as [Blo Bhi].
  assert (Hd : 0 < d).
  { destruct (Z.ltb_spec 0 d); [assumption|].
    exfalso. assert (2 ^ d <= 2 ^ 0) by (apply Z.pow_le_mono_r; lia).
    simpl in *. lia. }
  destruct (Z.lt_trichotomy (Zpos (digits2_pos p)) d) as [H|[H|H]]; [|exact H|].
  - exfalso. assert (2 ^ Zpos (digits2_pos p) <= 2 ^ (d - 1))
      by (apply Z.pow_le_mono_r; lia). lia.
  - exfalso. assert (2 ^ d <= 2 ^ (Zpos (digits2_pos p) - 1))
      by (apply Z.pow_le_mono_r; lia). lia.
Qed.

Lemma fexp_eq (x : Z) : fexp prec emax x = Z.max (x - 53) (-1074).
Proof. reflexivity. Qed.

Lemma binary_round_aux_finish (s : bool) (m e : Z) (l : location) :
  binary_round_aux prec emax s m e l
  = let '(mrs, e') := shr_fexp prec emax m e l in
    finish s (round_nearest_even (shr_m mrs) (loc_of_shr_record mrs)) e'.
Proof.
  unfold binary_round_aux, finish.
  destruct (shr_fexp prec emax m e l) as [mrs e']. reflexivity.
Qed.

Lemma shr_fexp_53 (m : positive) (e : Z) (l : location) :
  Zpos (digits2_pos m) = 53 -> -1074 <= e ->
  shr_fexp prec emax (Zpos m) e l = (shr_record_of_loc (Zpos m) l, e).
Proof.
  intros Hd He. unfold shr_fexp, Zdigits2. rewrite Hd, fexp_eq.
  replace (Z.max (53 + e - 53) (-1074) - e) with 0 by lia.
  reflexivity.
Qed.

Lemma shr_fexp_54 (m : positive) (e : Z) (l : location) :
  Zpos (digits2_pos m) = 54 -> -1075 <= e ->
  shr_fexp prec emax (Zpos m) e l = (shr_1 (shr_record_of_loc (Zpos m) l), e + 1).
Proof.
  intros Hd He. unfold shr_fexp, Zdigits2. rewrite Hd, fexp_eq.
  replace (Z.max (54 + e - 53) (-1074) - e) with 1 by lia.
  reflexivity.
Qed.

Lemma finish_53 (s : bool) (m : positive) (e : Z) :
  Zpos (digits2_pos m) = 53 -> -1074 <= e <= 971 ->
  finish s (Zpos m) e = S754_finite s m e.
Proof.
  intros Hd He. unfold finish. rewrite (shr_fexp_53 m e _ Hd) by lia.
  cbn [shr_record_of_loc shr_m].
  destruct (Z.leb_spec e (emax - prec)) as [_|H]; [reflexivity|].
  unfold emax, prec in H. lia.
Qed.

Lemma finish_carry (s : bool) (e : Z) :
  -1075 <= e <= 970 ->
  finish s (2 ^ 53) e = S754_finite s 4503599627370496 (e + 1).
Proof.
  intros He. unfold finish.
  change (2 ^ 53) with (Zpos 9007199254740992).
  rewrite shr_fexp_54 by (try reflexivity; lia).
  cbn [shr_record_of_loc shr_1 shr_m].
  destruct (Z.leb_spec (e + 1) (emax - prec)) as [_|H]; [reflexivity|].
  unfold emax, prec in H. lia.
Qed.

Lemma iter_xO (p k : positive) :
  Zpos (Pos.iter xO p k) = Zpos p * 2 ^ Zpos k.
Proof.
  induction k as [|k IH] using Pos.peano_ind.
  - simpl. lia.
  - rewrite Pos.iter_succ, Pos2Z.inj_succ, Z.pow_succ_r by lia.
    rewrite Pos2Z.inj_xO, IH. lia.
Qed.

(** The Number value of a positive integer below 2^53 is exact: the
    integer shifted to 53 digits. *)
Lemma ofInt_pos (a d : Z) :
  1 <= d <= 53 -> 2 ^ (d - 1) <= a < 2 ^ d ->
  exists m1 : positive,
    ofInt a = S754_finite false m1 (d - 53) /\
    Zpos m1 = a * 2 ^ (53 - d) /\
    2 ^ 52 <= Zpos m1 < 2 ^ 53.
Proof.
  intros Hd Ha.
  assert (Hpos : 0 < a).
  { assert (0 < 2 ^ (d - 1)) by (apply Z.pow_pos_nonneg; lia). lia. }
  destruct a as [|p|p]; try lia.
  pose proof (digits_unique p d Ha) as Hdig.
  assert (Hm : 2 ^ 52 <= Zpos p * 2 ^ (53 - d) < 2 ^ 53).
  { assert (P1 : 2 ^ 52 = 2 ^ (d - 1) * 2 ^ (53 - d))
      by (rewrite <- Z.pow_add_r by lia; f_equal; lia).
    assert (P2 : 2 ^ 53 = 2 ^ d * 2 ^ (53 - d))
      by (rewrite <- Z.pow_add_r by lia; f_equal; lia).
    assert (0 < 2 ^ (53 - d)) by (apply Z.pow_pos_nonneg; lia).
    rewrite P1, P2. split.
    - apply Z.mul_le_mono_nonneg_r; lia.
    - apply Z.mul_lt_mono_pos_r; lia. }
  unfold ofInt, binary_normalize, binary_round.
  rewrite Hdig, fexp_eq. unfold shl_align.
  replace (Z.max (d + 0 - 53) (-1074)) with (d - 53) by lia.
  replace (d - 53 - 0) with (d - 53) by lia.
  destruct (d - 53) as [|k|k] eqn:Hk; try lia.
  - exists p. assert (Hd53 : d = 53) by lia.
    rewrite Hd53 in Hm, Hdig |- *.
    change (2 ^ (53 - 53)) with 1 in *.
    split; [|split; [lia | lia]].
    rewrite binary_round_aux_finish, (shr_fexp_53 p 0 _ Hdig) by lia.
    cbn [shr_record_of_loc shr_m loc_of_shr_record round_nearest_even].
    apply finish_53; [exact Hdig | lia].
  - exists (Pos.iter xO p k).
    assert (Hk' : 53 - d = Zpos k) by lia.
    rewrite Hk' in *.
    assert (Hval : Zpos (Pos.iter xO p k) = Zpos p * 2 ^ Zpos k)
      by apply iter_xO.
    assert (Hd53 : Zpos (digits2_pos (Pos.iter xO p k)) = 53).
    { apply digits_unique. rewrite Hval. exact Hm. }
    split; [|split; [exact Hval | rewrite Hval; exact Hm]].
    rewrite binary_round_aux_finish, (shr_fexp_53 _ _ _ Hd53) by lia.
    cbn [shr_record_of_loc shr_m loc_of_shr_record round_nearest_even].
    apply finish_53; [exact Hd53 | lia].
Qed.


Lemma record_of_loc (m : Z) (l : location) :
  shr_m (shr_record_of_loc m l) = m /\
  loc_of_shr_record (shr_record_of_loc m l) = l.
Proof.
  destruct l as [|[| |]]; split; reflexivity.
Qed.

Lemma div_core (m1 : positive) (e1 : Z) :
  Zpos (digits2_pos m1) = 53 -> -1000 <= e1 <= 1000 ->
  SFdiv_core_binary prec emax (Zpos m1) e1 (Zpos millionMantissa) (-33)
  = ((Zpos m1 * 2 ^ 53) / Zpos millionMantissa, e1 - 20,
     new_location_even (Zpos millionMantissa) ((Zpos m1 * 2 ^ 53) mod Zpos millionMantissa)).
Proof.
  intros Hd He. unfold SFdiv_core_binary, Zdigits2. rewrite Hd.
  change (Zpos (digits2_pos millionMantissa)) with 53. rewrite fexp_eq.
  replace (Z.min (Z.max (53 + e1 - (53 + -33) - 53) (-1074)) (e1 - -33))
    with (e1 - 20) by lia.
  replace (e1 - -33 - (e1 - 20)) with 53 by lia.
  rewrite Z.shiftl_mul_pow2 by lia.
  unfold Z.div, Z.modulo.
  destruct (Z.div_eucl (Zpos m1 * 2 ^ 53) (Zpos millionMantissa)) as [q r].
  reflexivity.
Qed.

(** Where the rounded mantissa lies, by location. *)
Lemma round_nearest_even_cases (m : Z) (l : location) :
  match l with
  | loc_Exact => round_nearest_even m l = m
  | loc_Inexact Lt => round_nearest_even m l = m
  | loc_Inexact Eq =>
      round_nearest_even m l = m \/ round_nearest_even m l = m + 1
  | loc_Inexact Gt => round_nearest_even m l = m + 1
  end.
Proof.
  destruct l as [|[| |]]; simpl; auto.
  destruct (Z.even m); auto.
Qed.

(** The last stage on a mantissa between 2^52 and 2^53 inclusive. *)
Lemma finish_range (v e : Z) :
  2 ^ 52 <= v <= 2 ^ 53 -> -1000 <= e <= 900 ->
  exists (m : positive) (c : Z),
    finish false v e = S754_finite false m (e + c) /\
    2 ^ 52 <= Zpos m < 2 ^ 53 /\ 0 <= c <= 1 /\ v = Zpos m * 2 ^ c.
Proof.
  intros Hv He.
  destruct (Z.eq_dec v (2 ^ 53)) as [->|Hne].
  - exists 4503599627370496%positive, 1.
    rewrite finish_carry by lia. repeat split; try lia; reflexivity.
  - destruct v as [|p|p]; try (exfalso; change (2 ^ 52) with 4503599627370496 in Hv; lia).
    exists p, 0.
    assert (Hd : Zpos (digits2_pos p) = 53) by (apply digits_unique; lia).
    rewrite (finish_53 false p e Hd) by lia.
    rewrite Z.add_0_r. repeat split; try lia.
Qed.

Lemma shr_1_record (qp : positive) (l : location) :
  exists (h : Z) (bit : bool),
    shr_1 (shr_record_of_loc (Zpos qp) l)
    = {| shr_m := h; shr_r := bit; shr_s := negb (isExact l) |} /\
    Zpos qp = 2 * h + (if bit then 1 else 0) /\ 0 <= h.
Proof.
  destruct qp as [h|h|]; destruct l as [|[| |]]; cbn [shr_record_of_loc shr_1];
    first [exists (Zpos h), true; repeat split; lia
          | exists (Zpos h), false; repeat split; lia
          | exists 0, true; repeat split; lia].
Qed.

(** Rounding the quotient when it has 53 digits. *)
Lemma rne_bound_53 (q r : Z) :
  0 <= r < Zpos millionMantissa ->
  let v := round_nearest_even q (new_location_even (Zpos millionMantissa) r) in
  q <= v <= q + 1 /\
  - Zpos millionMantissa <= 2 * Zpos millionMantissa * v - 2 * (Zpos millionMantissa * q + r) <= Zpos millionMantissa.
Proof.
  intros Hr v. subst v. unfold new_location_even.
  destruct (Z.eqb_spec r 0) as [->|Hr0].
  - cbn [round_nearest_even]. unfold millionMantissa in *. lia.
  - destruct (Z.compare_spec (2 * r) (Zpos millionMantissa)) as [Heq|Hlt|Hgt];
      cbn [round_nearest_even]; [destruct (Z.even q)| |];
      unfold millionMantissa in *; lia.
Qed.

(** Rounding the quotient when it has 54 digits: its low bit is the
    rounding bit. *)
Lemma rne_bound_54 (qp : positive) (r : Z) :
  0 <= r < Zpos millionMantissa ->
  exists h,
    let mrs := shr_1 (shr_record_of_loc (Zpos qp)
                        (new_location_even (Zpos millionMantissa) r)) in
    let v := round_nearest_even (shr_m mrs) (loc_of_shr_record mrs) in
    0 <= h /\ 2 * h <= Zpos qp <= 2 * h + 1 /\ h <= v <= h + 1 /\
    - 2 * Zpos millionMantissa <= 2 * Zpos millionMantissa * (2 * v) - 2 * (Zpos millionMantissa * Zpos qp + r)
    <= 2 * Zpos millionMantissa.
Proof.
  intros Hr.
  destruct (shr_1_record qp (new_location_even (Zpos millionMantissa) r))
    as (h & bit & Hrec & Hq & Hh).
  exists h. rewrite Hrec. cbn [shr_m loc_of_shr_record].
  rewrite Hq. unfold new_location_even.
  destruct (Z.eqb_spec r 0) as [->|Hr0]; cbn [isExact negb];
    [|destruct (2 * r ?= Zpos millionMantissa); cbn [isExact negb]];
    destruct bit; cbn [round_nearest_even];
    try destruct (Z.even h); unfold millionMantissa in *; lia.
Qed.

(** Dividing a 53-digit mantissa by 1e6: the result is a normal number
    within half a unit in the last place of the quotient. *)
Lemma div_million_spec (m1 : positive) (e1 : Z) :
  2 ^ 52 <= Zpos m1 < 2 ^ 53 -> -60 <= e1 <= 0 ->
  exists (m : positive) (dl : Z),
    div (S754_finite false m1 e1) million
    = S754_finite false m (e1 - 20 + dl) /\
    2 ^ 52 <= Zpos m < 2 ^ 53 /\ 0 <= dl <= 2 /\
    (if Zpos m1 <? Zpos millionMantissa
     then - Zpos millionMantissa <= 2 * Zpos millionMantissa * (Zpos m * 2 ^ dl)
                      - 2 * 2 ^ 53 * Zpos m1 <= Zpos millionMantissa
     else - 2 * Zpos millionMantissa <= 2 * Zpos millionMantissa * (Zpos m * 2 ^ dl)
                          - 2 * 2 ^ 53 * Zpos m1 <= 2 * Zpos millionMantissa).
Proof.
  intros Hm He.
  assert (Hd : Zpos (digits2_pos m1) = 53) by (apply digits_unique; lia).
  unfold div. rewrite million_eq. unfold SFdiv.
  rewrite (div_core m1 e1 Hd) by lia. cbn [xorb].
  rewrite binary_round_aux_finish.
  pose proof (Z.div_mod (Zpos m1 * 2 ^ 53) (Zpos millionMantissa) ltac:(discriminate)) as HN.
  pose proof (Z.mod_pos_bound (Zpos m1 * 2 ^ 53) (Zpos millionMantissa) ltac:(reflexivity))
    as Hr.
  set (q := (Zpos m1 * 2 ^ 53) / Zpos millionMantissa) in *.
  set (r := (Zpos m1 * 2 ^ 53) mod Zpos millionMantissa) in *.
  clearbody q r.
  change (2 ^ 53) with 9007199254740992 in *.
  change (2 ^ 52) with 4503599627370496 in *.
  assert (Hq : 4503599627370496 <= q < 18014398509481984)
    by (unfold millionMantissa in *; lia).
  destruct q as [|qp|qp]; try lia.
  destruct (Z.ltb_spec (Zpos qp) 9007199254740992) as [Hlt|Hge].
  - assert (Hdq : Zpos (digits2_pos qp) = 53)
      by (apply digits_unique;
          change (2 ^ (53 - 1)) with 4503599627370496;
          change (2 ^ 53) with 9007199254740992; lia).
    rewrite (shr_fexp_53 qp _ _ Hdq) by lia.
    destruct (record_of_loc (Zpos qp) (new_location_even (Zpos millionMantissa) r))
      as [-> ->].
    destruct (rne_bound_53 (Zpos qp) r Hr) as [Hv Hb].
    set (v := round_nearest_even (Zpos qp) (new_location_even (Zpos millionMantissa) r)) in *.
    clearbody v.
    destruct (finish_range v (e1 - 20)) as (m & c & Hfin & Hmr & Hc & Hvm);
      [change (2 ^ 52) with 4503599627370496;
       change (2 ^ 53) with 9007199254740992; lia | lia |].
    exists m, c. rewrite Hfin.
    change (2 ^ 52) with 4503599627370496 in Hmr.
    change (2 ^ 53) with 9007199254740992 in Hmr.
    split; [reflexivity|]. split; [exact Hmr|]. split; [lia|].
    destruct (Z.ltb_spec (Zpos m1) (Zpos millionMantissa)) as [_|Hbad];
      [|exfalso; unfold millionMantissa in *; lia].
    rewrite <- Hvm. unfold millionMantissa in *. lia.
  - assert (Hdq : Zpos (digits2_pos qp) = 54)
      by (apply digits_unique;
          change (2 ^ (54 - 1)) with 9007199254740992;
          change (2 ^ 54) with 18014398509481984; lia).
    rewrite (shr_fexp_54 qp _ _ Hdq) by lia.
    destruct (rne_bound_54 qp r Hr) as (h & Hh & Hqh & Hv & Hb).
    set (mrs := shr_1 (shr_record_of_loc (Zpos qp)
                         (new_location_even (Zpos millionMantissa) r))) in *.
    set (v := round_nearest_even (shr_m mrs) (loc_of_shr_record mrs)) in *.
    clearbody v. clear mrs.
    destruct (finish_range v (e1 - 20 + 1)) as (m & c & Hfin & Hmr & Hc & Hvm);
      [change (2 ^ 52) with 4503599627370496;
       change (2 ^ 53) with 9007199254740992; lia | lia |].
    exists m, (1 + c). rewrite Hfin.
    change (2 ^ 52) with 4503599627370496 in Hmr.
    change (2 ^ 53) with 9007199254740992 in Hmr.
    split; [f_equal; lia|]. split; [exact Hmr|]. split; [lia|].
    assert (Hpow : Zpos m * 2 ^ (1 + c) = 2 * v).
    { rewrite Z.pow_add_r by lia. change (2 ^ 1) with 2. lia. }
    rewrite Hpow.
    destruct (Z.ltb_spec (Zpos m1) (Zpos millionMantissa)) as [Hbad|_];
      unfold millionMantissa in *; lia.
Qed.


Lemma lt_finite (ma mb : positive) (ea eb : Z) :
  lt (S754_finite false ma ea) (S754_finite false mb eb) = true <->
  ea < eb \/ (ea = eb /\ Zpos ma < Zpos mb).
Proof.
  unfold lt, SFltb, SFcompare.
  destruct (Z.compare_spec ea eb) as [Heq|Hlt|Hgt].
  - change (Pos.compare_cont Eq ma mb) with (Pos.compare ma mb).
    destruct (Pos.compare_spec ma mb) as [H|H|H]; split;
      try discriminate; try (intros _; right; split; [assumption | lia]);
      intros [H1|[_ H1]]; try lia; reflexivity.
  - split; [intros _; left; exact Hlt | reflexivity].
  - split; [discriminate | intros [H|[H _]]; lia].
Qed.

Lemma SFcompare_antisym (x y : number) :
  SFcompare y x = option_map CompOpp (SFcompare x y).
Proof.
  destruct x as [sx|sx| |sx mx ex]; destruct y as [sy|sy| |sy my ey];
    try destruct sx; try destruct sy; try reflexivity;
    cbn [SFcompare option_map]; f_equal;
    rewrite (Z.compare_antisym ex ey);
    destruct (ex ?= ey); cbn [CompOpp]; try reflexivity;
    change (Pos.compare_cont Eq my mx) with (Pos.compare my mx);
    change (Pos.compare_cont Eq mx my) with (Pos.compare mx my);
    rewrite (Pos.compare_antisym mx my);
    destruct (Pos.compare mx my); reflexivity.
Qed.

Lemma lt_asym (x y : number) : lt x y = true -> lt y x = false.
Proof.
  unfold lt, SFltb. rewrite (SFcompare_antisym x y).
  destruct (SFcompare x y) as [[| |]|]; try discriminate. reflexivity.
Qed.

(** Digits of a positive integer. *)
Lemma digits_of (a : Z) :
  0 < a -> 2 ^ (Z.log2 a + 1 - 1) <= a < 2 ^ (Z.log2 a + 1).
Proof.
  intros Ha. pose proof (Z.log2_spec a Ha) as H.
  replace (Z.log2 a + 1 - 1) with (Z.log2 a) by lia.
  replace (Z.log2 a + 1) with (Z.succ (Z.log2 a)) by lia. exact H.
Qed.

Lemma scaled_lt_pos (a b : Z) :
  1 <= a -> a < b -> b < Zpos millionMantissa ->
  lt (div (ofInt a) million) (div (ofInt b) million) = true.
Proof.
  intros Ha Hab Hb.
  set (da := Z.log2 a + 1). set (db := Z.log2 b + 1).
  assert (Hda : 2 ^ (da - 1) <= a < 2 ^ da) by (apply digits_of; lia).
  assert (Hdb : 2 ^ (db - 1) <= b < 2 ^ db) by (apply digits_of; lia).
  assert (Hla : 0 <= Z.log2 a) by apply Z.log2_nonneg.
  assert (Hle : Z.log2 a <= Z.log2 b) by (apply Z.log2_le_mono; lia).
  assert (Hlb : Z.log2 b < 53).
  { apply Z.log2_lt_pow2; [lia|].
    change (2 ^ 53) with 9007199254740992. unfold millionMantissa in Hb. lia. }
  assert (Rda : 1 <= da <= 53) by (unfold da; lia).
  assert (Rdb : 1 <= db <= 53) by (unfold db; lia).
  assert (Hk : 0 <= db - da) by (unfold da, db; lia).
  clearbody da db.
  destruct (ofInt_pos a da Rda Hda) as (m1a & -> & Hm1a & Rm1a).
  destruct (ofInt_pos b db Rdb Hdb) as (m1b & -> & Hm1b & Rm1b).
  destruct (div_million_spec m1a (da - 53) Rm1a ltac:(lia))
    as (ma & dla & -> & Rma & Rdla & Ba).
  destruct (div_million_spec m1b (db - 53) Rm1b ltac:(lia))
    as (mb & dlb & -> & Rmb & Rdlb & Bb).
  apply lt_finite.
  destruct (Z.le_gt_cases 3 (db - da)) as [Hk3|Hk2]; [left; lia|].
  set (Q := 2 ^ (53 - db)) in *.
  assert (HQ : 1 <= Q).
  { assert (0 < Q) by (apply Z.pow_pos_nonneg; lia). lia. }
  assert (HQ1 : db = 53 /\ Q = 1 \/ 2 <= Q).
  { destruct (Z.eq_dec db 53) as [E|E].
    - left. split; [exact E|]. unfold Q. rewrite E. reflexivity.
    - right. unfold Q.
      replace (53 - db) with (Z.succ (53 - db - 1)) by lia.
      rewrite Z.pow_succ_r by lia.
      assert (0 < 2 ^ (53 - db - 1)) by (apply Z.pow_pos_nonneg; lia).
      lia. }
  assert (HK : exists K, 2 ^ (53 - da) = K * Q /\
                         (db - da = 0 /\ K = 1 \/ db - da = 1 /\ K = 2
                          \/ db - da = 2 /\ K = 4)).
  { exists (2 ^ (db - da)). split.
    - unfold Q. rewrite <- Z.pow_add_r by lia. f_equal. lia.
    - assert (Hc : db - da = 0 \/ db - da = 1 \/ db - da = 2) by lia.
      destruct Hc as [E|[E|E]]; rewrite E; auto. }
  destruct HK as (K & HKQ & HKc).
  rewrite HKQ in Hm1a.
  assert (Hgap : K * Q <= K * Zpos m1b - Zpos m1a).
  { rewrite Hm1a, Hm1b.
    replace (K * (b * Q) - a * (K * Q)) with ((K * Q) * (b - a)) by ring.
    assert (0 <= K * Q) by (destruct HKc as [[_ ->]|[[_ ->]|[_ ->]]]; lia).
    rewrite <- (Z.mul_1_r (K * Q)) at 1.
    apply Z.mul_le_mono_nonneg_l; lia. }
  assert (HbM : db = 53 -> Zpos m1b < Zpos millionMantissa).
  { intros E. rewrite Hm1b. unfold Q. rewrite E. simpl. lia. }
  clearbody Q. clear Hm1a Hm1b HKQ Hda Hdb.
  change (2 ^ 52) with 4503599627370496 in *.
  change (2 ^ 53) with 9007199254740992 in *.
  assert (Ca : dla = 0 \/ dla = 1 \/ dla = 2) by lia.
  assert (Cb : dlb = 0 \/ dlb = 1 \/ dlb = 2) by lia.
  destruct (Z.ltb_spec (Zpos m1a) (Zpos millionMantissa)) as [Ua|Ua];
    destruct (Z.ltb_spec (Zpos m1b) (Zpos millionMantissa)) as [Ub|Ub];
    destruct Ca as [ -> | [ -> | -> ] ]; destruct Cb as [ -> | [ -> | -> ] ];
    change (2 ^ 0) with 1 in *; change (2 ^ 1) with 2 in *;
    change (2 ^ 2) with 4 in *;
    destruct HKc as [[Ek ->]|[[Ek ->]|[Ek ->]]];
    unfold millionMantissa in *; lia.
Qed.

Lemma decimalValue_nonneg_acc (s : jsstring) (acc : Z) :
  forallb isDecimalDigit s = true -> 0 <= acc ->
  0 <= fold_left (fun a c => a * 10 + (c - 48)) s acc.
Proof.
  revert acc. induction s as [|c s IH]; intros acc Hall Hacc; [exact Hacc|].
  simpl in Hall. apply andb_true_iff in Hall as [Hc Hs].
  apply digit_range in Hc. simpl. apply IH; [exact Hs | lia].
Qed.

Lemma decimalValue_nonneg (s : jsstring) :
  decimalString s -> 0 <= decimalValue s.
Proof.
  intros [_ Hall]. apply decimalValue_nonneg_acc; [exact Hall | lia].
Qed.

(** Below 2^33 * 10^6 the scaled doubles are ordered as the integers. *)
Lemma scaled_lt (a b : Z) :
  0 <= a -> a < b -> b < Zpos millionMantissa ->
  lt (div (ofInt a) million) (div (ofInt b) million) = true.
Proof.
  intros Ha Hab Hb.
  destruct (Z.eq_dec a 0) as [->|Hne];
    [|apply scaled_lt_pos; lia].
  set (db := Z.log2 b + 1).
  assert (Hdb : 2 ^ (db - 1) <= b < 2 ^ db) by (apply digits_of; lia).
  assert (Hlb : Z.log2 b < 53).
  { apply Z.log2_lt_pow2; [lia|].
    change (2 ^ 53) with 9007199254740992. unfold millionMantissa in Hb. lia. }
  assert (Rdb : 1 <= db <= 53)
    by (pose proof (Z.log2_nonneg b); unfold db; lia).
  clearbody db.
  destruct (ofInt_pos b db Rdb Hdb) as (m1b & -> & _ & Rm1b).
  destruct (div_million_spec m1b (db - 53) Rm1b ltac:(lia))
    as (mb & dlb & -> & _).
  reflexivity.
Qed.

Lemma scaled_lt_iff (a b : Z) :
  0 <= a < Zpos millionMantissa -> 0 <= b < Zpos millionMantissa ->
  lt (div (ofInt a) million) (div (ofInt b) million) = true <-> a < b.
Proof.
  intros Ha Hb. split.
  - intros H. destruct (Z.lt_trichotomy a b) as [Hlt|[Heq|Hgt]];
      [exact Hlt | |].
    + subst b. rewrite lt_irrefl in H. discriminate.
    + assert (Hba : lt (div (ofInt b) million) (div (ofInt a) million) = true)
        by (apply scaled_lt; lia).
      apply lt_asym in Hba. congruence.
  - intros H. apply scaled_lt; lia.
Qed.

Section PaymentFacts.
Variable sdk : Sdk.
Variable connection : Connection.
Variable kp : Keypair.

Lemma unsignedTransaction_inv (c : X402Challenge) (m : TransactionMessage) :
  unsignedTransaction sdk connection kp c = Ok m ->
  exists a rest p,
    accepts c = Some (Some a :: rest) /\ parseChallenge c = Ok p /\
    createPayment_message sdk connection kp p = Ok m.
Proof.
  unfold unsignedTransaction. intros H.
  apply bind_Ok in H as (p & Hp & Hm).
  unfold parseChallenge in Hp.
  destruct (accepts c) as [[|[a|] rest]|] eqn:Hacc; try discriminate.
  exists a, rest, p. repeat split; [|exact Hm].
  unfold parseChallenge. now rewrite Hacc.
Qed.

Lemma createPayment_inv (c : X402Challenge) (proof : PaymentProof) :
  createPayment sdk connection kp c = Ok proof ->
  exists p m signed h,
    parseChallenge c = Ok p /\
    createPayment_message sdk connection kp p = Ok m /\
    signAndSerialize sdk kp m = Some signed /\
    encodeHeader (paymentPayload p (Base64.encode signed)) = Ok h /\
    proof = {| header := h; transactionHash := str "pending-settlement" |}.
Proof.
  unfold createPayment. intros H.
  apply bind_Ok in H as (p & Hp & H).
  apply bind_Ok in H as (m & Hm & H).
  apply bind_Ok in H as (signed & Hs & H).
  apply bind_Ok in H as (h & Hh & H).
  apply orThrow_Ok in Hs.
  exists p, m, signed, h. repeat split; congruence.
Qed.

End PaymentFacts.

(** ** Instruction order *)

(** C1, as stated, fails: for a plain 0.5 USDC challenge, with payer and
    payee on the curve, the message built by [createPayment] does not
    start with the priority-fee instruction. *)
Lemma C1_counterexample :
  Fixture.isOnCurve (publicKey Fixture.payer) = true /\
  Fixture.isOnCurve (Fixture.keyOf Fixture.payee) = true /\
  exists m,
    unsignedTransaction Fixture.sdk (Fixture.connection 500000) Fixture.payer
      (Fixture.challenge [Fixture.accept "exact" "500000" Fixture.usdc None])
    = Ok m /\
    map instructionKind (instructions m)
    <> [PriorityFee; ComputeLimit; AssetTransfer].
Proof.
  split; [vm_compute; reflexivity|].
  split; [vm_compute; reflexivity|].
  exists_value. cbn [instructions map instructionKind]. discriminate.
Qed.

(** C1 (amended): whenever [createPayment] gets as far as building the
    transaction, the message holds exactly three instructions, in the
    fixed order compute-unit limit (100000 units), priority fee (compute
    unit price of 1 micro-lamport), asset transfer, whatever the field
    values. *)
Theorem C1_instruction_order :
  forall sdk connection kp c m,
    unsignedTransaction sdk connection kp c = Ok m ->
    (exists src dst amt,
        instructions m
        = [SetComputeUnitLimit 100000; SetComputeUnitPrice 1;
           TransferChecked src USDC_DEVNET_MINT dst (publicKey kp) amt 6 []
             TOKEN_PROGRAM_ID]) /\
    map instructionKind (instructions m)
    = [ComputeLimit; PriorityFee; AssetTransfer].
Proof.
  intros sdk connection kp c m H.
  apply unsignedTransaction_inv in H as (a & rest & p & _ & _ & H).
  apply createPayment_message_inv in H as (_ & src & payee & dst & raw & amt
    & fee & amount & bh & _ & _ & _ & _ & _ & _ & _ & _ & ->).
  split; [exists src, dst, amount|]; reflexivity.
Qed.

Lemma C1_instruction_order_witness :
  exists m,
    unsignedTransaction Fixture.sdk (Fixture.connection 500000) Fixture.payer
      (Fixture.challenge [Fixture.accept "exact" "500000" Fixture.usdc None])
    = Ok m /\
    map instructionKind (instructions m)
    = [ComputeLimit; PriorityFee; AssetTransfer].
Proof.
  exists_value.
  apply (C1_instruction_order Fixture.sdk (Fixture.connection 500000)
           Fixture.payer
           (Fixture.challenge
              [Fixture.accept "exact" "500000" Fixture.usdc None])).
  vm_compute. reflexivity.
Defined.

(** ** Malformed challenges *)

(** C3, as stated, fails: a challenge with no protocol version whose only
    option lacks every field parses without error. *)
Lemma C3_counterexample :
  x402Version {| x402Version := None; error := None;
                 accepts := Some [Some Fixture.blank] |} = None /\
  missingRequiredField Fixture.blank = true /\
  parseChallenge {| x402Version := None; error := None;
                    accepts := Some [Some Fixture.blank] |}
  <> Throw MalformedChallenge.
Proof.
  repeat split. simpl. discriminate.
Qed.

(** C3 (amended): [parseChallenge] fails with MalformedChallenge whenever
    the option list is empty.  An absent protocol version, or an option
    without payee address, amount, asset or scheme, is no reason for
    failure: as soon as the list starts with an option parsing succeeds,
    and version and fields are passed on as they are, absent or not. *)
Theorem C3_malformed_challenge :
  forall c,
    (accepts c = Some [] -> parseChallenge c = Throw MalformedChallenge) /\
    (forall a rest,
        accepts c = Some (Some a :: rest) ->
        exists p, parseChallenge c = Ok p /\
                  Parsed.x402Version p = x402Version c /\
                  Parsed.payTo p = Accept.payTo a /\
                  Parsed.amountRaw p = Accept.maxAmountRequired a /\
                  Parsed.asset p = Accept.asset a /\
                  Parsed.scheme p = Accept.scheme a).
Proof.
  intros c. unfold parseChallenge. split.
  - intros ->. reflexivity.
  - intros a rest ->.
    eexists. split; [reflexivity|]. simpl. repeat split.
Qed.

Lemma C3_malformed_challenge_witness :
  parseChallenge (Fixture.challenge []) = Throw MalformedChallenge /\
  exists p,
    parseChallenge {| x402Version := None; error := None;
                      accepts := Some [Some Fixture.blank] |} = Ok p /\
    Parsed.x402Version p = None /\ Parsed.scheme p = None.
Proof.
  split.
  - apply (proj1 (C3_malformed_challenge (Fixture.challenge []))).
    reflexivity.
  - destruct (proj2 (C3_malformed_challenge
                       {| x402Version := None; error := None;
                          accepts := Some [Some Fixture.blank] |})
                Fixture.blank [] eq_refl)
      as (p & Hp & Hv & _ & _ & _ & Hs).
    exists p. split; [exact Hp|]. split; [exact Hv | exact Hs].
Defined.

(** X20: [parseChallenge] throws "No payment option in x402 challenge"
    exactly when [accepts] is there and its element 0 is missing or falsy
    ([null] for one), and a TypeError exactly when [accepts] is not
    there; it throws nothing else, and what comes after element 0 plays
    no part. *)
Theorem no_payment_option_iff :
  forall c,
    (parseChallenge c = Throw MalformedChallenge <->
     exists l, accepts c = Some l /\ noFirstOption l) /\
    (parseChallenge c = Throw TypeError <-> accepts c = None) /\
    (forall e,
        parseChallenge c = Throw e -> e = MalformedChallenge \/ e = TypeError) /\
    (forall first rest rest',
        accepts c = Some (first :: rest) ->
        parseChallenge (withAccepts c (first :: rest')) = parseChallenge c).
Proof.
  intros c. unfold parseChallenge. split; [|split; [|split]].
  - destruct (accepts c) as [[|[a|] rest]|].
    + split; intros _. exists []. split; [reflexivity | exact I].
      reflexivity.
    + split; [discriminate | intros (l & [= <-] & [])].
    + split; intros _. exists (None :: rest). split; [reflexivity | exact I].
      reflexivity.
    + split; [discriminate | intros (l & [=] & _)].
  - destruct (accepts c) as [[|[a|] rest]|]; split;
      try discriminate; reflexivity.
  - intros e. destruct (accepts c) as [[|[a|] rest]|]; intros [= <-]; auto.
  - intros first rest rest' ->. destruct first; reflexivity.
Qed.

(** A list that starts with [null] has no payment option, whatever
    follows; a challenge without [accepts] cannot be read. *)
Lemma no_payment_option_iff_witness :
  parseChallenge {| x402Version := Some 1; error := None;
                    accepts := Some [None; Some Fixture.blank] |}
  = Throw MalformedChallenge /\
  parseChallenge {| x402Version := Some 1; error := None; accepts := None |}
  = Throw TypeError.
Proof.
  split.
  - apply (proj2 (proj1 (no_payment_option_iff
                           {| x402Version := Some 1; error := None;
                              accepts := Some [None; Some Fixture.blank] |}))).
    exists [None; Some Fixture.blank]. split; [reflexivity | exact I].
  - apply (proj2 (proj1 (proj2 (no_payment_option_iff
                                  {| x402Version := Some 1; error := None;
                                     accepts := None |})))).
    reflexivity.
Defined.

(** ** Signing *)

(** C4: [sign] returns the same bytes for any two messages, and these
    bytes are the key pair's secret key itself. *)
Theorem C4_sign_returns_secret_key :
  forall (w : AgentWallet) (message1 message2 : list Z),
    sign w message1 = sign w message2 /\
    sign w message1 = secretKey (getKeypair w).
Proof.
  intros w message1 message2. split; reflexivity.
Qed.

(** ** Token accounts *)

(** C8, as stated, fails: for a challenge whose option names the wrapped
    SOL mint as its asset, with payer and payee on the curve, the token
    accounts of the transfer are not the ones derived from (owner, that
    asset). *)
Lemma C8_counterexample :
  Fixture.isOnCurve (publicKey Fixture.payer) = true /\
  Fixture.isOnCurve (Fixture.keyOf Fixture.payee) = true /\
  exists m,
    unsignedTransaction Fixture.sdk (Fixture.connection 500000) Fixture.payer
      (Fixture.challenge
         [Fixture.accept "exact" "500000" Fixture.wrappedSol None]) = Ok m /\
    exists src dst,
      tokenAccounts m = Some (src, dst) /\
      getAssociatedTokenAddress Fixture.sdk (Fixture.keyOf Fixture.wrappedSol)
        (publicKey Fixture.payer) <> Some src /\
      getAssociatedTokenAddress Fixture.sdk (Fixture.keyOf Fixture.wrappedSol)
        (Fixture.keyOf Fixture.payee) <> Some dst.
Proof.
  split; [vm_compute; reflexivity|].
  split; [vm_compute; reflexivity|].
  exists_value.
  eexists. eexists.
  split; [cbn [tokenAccounts instructions]; reflexivity|].
  split; vm_compute; intros [=].
Qed.

(** C8 (amended): the token accounts of payer and payee are the
    associated token addresses of (the fixed USDC devnet mint, owner); the
    asset identifier of the selected option takes no part: replacing it
    leaves the built transaction unchanged. *)
Theorem C8_token_accounts :
  forall sdk connection kp c,
    (forall m,
        unsignedTransaction sdk connection kp c = Ok m ->
        exists a rest payee src dst,
          accepts c = Some (Some a :: rest) /\
          newPublicKey (Accept.payTo a) = Ok payee /\
          getAssociatedTokenAddress sdk USDC_DEVNET_MINT (publicKey kp)
          = Some src /\
          getAssociatedTokenAddress sdk USDC_DEVNET_MINT payee = Some dst /\
          tokenAccounts m = Some (src, dst)) /\
    (forall a rest asset',
        unsignedTransaction sdk connection kp
          (withAccepts c (Some (withAsset a asset') :: rest))
        = unsignedTransaction sdk connection kp
            (withAccepts c (Some a :: rest))).
Proof.
  intros sdk connection kp c. split.
  - intros m H.
    apply unsignedTransaction_inv in H as (a & rest & p & Hacc & Hp & H).
    destruct (parseChallenge_first c a rest Hacc)
      as (p' & Hp' & HpayTo & _).
    assert (p' = p) by congruence. subst p'.
    apply createPayment_message_inv in H as (_ & src & payee & dst & raw & amt
      & fee & amount & bh & Hsrc & Hpayee & Hdst & _ & _ & _ & _ & _ & ->).
    exists a, rest, payee, src, dst.
    rewrite <- HpayTo. repeat split; assumption.
  - intros a rest asset'. reflexivity.
Qed.

Lemma C8_token_accounts_witness :
  exists m,
    unsignedTransaction Fixture.sdk (Fixture.connection 500000) Fixture.payer
      (Fixture.challenge
         [Fixture.accept "exact" "500000" Fixture.wrappedSol None]) = Ok m /\
    exists a rest payee src dst,
      accepts (Fixture.challenge
                 [Fixture.accept "exact" "500000" Fixture.wrappedSol None])
      = Some (Some a :: rest) /\
      newPublicKey (Accept.payTo a) = Ok payee /\
      getAssociatedTokenAddress Fixture.sdk USDC_DEVNET_MINT
        (publicKey Fixture.payer) = Some src /\
      getAssociatedTokenAddress Fixture.sdk USDC_DEVNET_MINT payee
      = Some dst /\
      tokenAccounts m = Some (src, dst).
Proof.
  exists_value.
  apply (proj1 (C8_token_accounts Fixture.sdk (Fixture.connection 500000)
                  Fixture.payer
                  (Fixture.challenge
                     [Fixture.accept "exact" "500000" Fixture.wrappedSol
                        None]))).
  vm_compute. reflexivity.
Defined.

(** An owner off the curve has no token account: with such a payee the
    payment stops where the recipient's account is derived. *)
Example off_curve_payee :
  unsignedTransaction Fixture.sdk (Fixture.connection 500000) Fixture.payer
    {| x402Version := Some 1;
       error := None;
       accepts :=
         Some [Some {| Accept.scheme := Some (str "exact");
                       Accept.network := Some (str "solana-devnet");
                       Accept.maxAmountRequired := Some (str "500000");
                       Accept.resource := None;
                       Accept.description := None;
                       Accept.mimeType := None;
                       Accept.payTo := Some (str Fixture.offCurve);
                       Accept.maxTimeoutSeconds := Some 60;
                       Accept.asset := Some (str Fixture.usdc);
                       Accept.extra := None |}] |}
  = Throw TokenOwnerOffCurveError.
Proof.
  vm_compute. reflexivity.
Qed.

(** ** Fee payer *)

Lemma withExtra_parsed (c : X402Challenge) (a : Accept.t)
  (rest : list (option Accept.t)) (e : option Accept.Extra) (p : Parsed.t) :
  accepts c = Some (Some a :: rest) ->
  parseChallenge c = Ok p ->
  parseChallenge (withAccepts c (Some (withExtra a e) :: rest))
  = Ok {| Parsed.payTo := Parsed.payTo p;
          Parsed.amount := Parsed.amount p;
          Parsed.amountRaw := Parsed.amountRaw p;
          Parsed.network := Parsed.network p;
          Parsed.asset := Parsed.asset p;
          Parsed.resource := Parsed.resource p;
          Parsed.scheme := Parsed.scheme p;
          Parsed.maxTimeoutSeconds := Parsed.maxTimeoutSeconds p;
          Parsed.x402Version := Parsed.x402Version p;
          Parsed.feePayer := match e with
                             | Some x => Accept.feePayer x
                             | None => None
                             end |}.
Proof.
  intros Hacc. unfold parseChallenge. rewrite Hacc. intros [= <-].
  reflexivity.
Qed.

(** The message depends on the fee payer of the option through [payerKey]
    only: with another fee payer that can be read, the same message is
    built for the key it names. *)
Lemma createPayment_message_feePayer (sdk : Sdk) (connection : Connection)
  (kp : Keypair) (p p' : Parsed.t) (m : TransactionMessage) (k : PublicKey) :
  createPayment_message sdk connection kp p = Ok m ->
  Parsed.payTo p' = Parsed.payTo p ->
  Parsed.amount p' = Parsed.amount p ->
  Parsed.amountRaw p' = Parsed.amountRaw p ->
  (if truthy (Parsed.feePayer p')
   then newPublicKey (Parsed.feePayer p') = Ok k
   else k = publicKey kp) ->
  createPayment_message sdk connection kp p'
  = Ok {| payerKey := k;
          recentBlockhash := recentBlockhash m;
          instructions := instructions m |}.
Proof.
  intros H HpayTo Hamount Hraw Hfee.
  apply createPayment_message_inv in H as (Hlt & src & payee & dst & raw & amt
    & fee & amount & bh & Hsrc & Hpayee & Hdst & Hr & Hbig & _ & Hu & Hbh & ->).
  unfold createPayment_message, createTransferCheckedInstruction,
    getUsdcTokenAccount.
  rewrite Hamount, Hlt, Hsrc, HpayTo, Hpayee. cbn [orThrow bind].
  rewrite Hdst, Hraw, Hr, Hbig. cbn [orThrow bind].
  destruct (truthy (Parsed.feePayer p')).
  - rewrite Hfee. cbn [bind]. rewrite Hu, Hbh. reflexivity.
  - subst k. cbn [bind]. rewrite Hu, Hbh. reflexivity.
Qed.

(** C9: the fee payer of the transaction is the key named by the selected
    option's fee payer when it carries one (a non-empty string); when the
    option has none (no [extra], no [feePayer], or an empty one) it is the
    payer's own public key.  The default is taken: a challenge for which
    the transaction is built still has it built, with the payer's own key
    as fee payer, when its fee payer is taken away; and it has it built
    for any other key that a fee payer put in its place names. *)
Theorem C9_fee_payer :
  forall sdk connection kp c a rest m,
    accepts c = Some (Some a :: rest) ->
    unsignedTransaction sdk connection kp c = Ok m ->
    match optionFeePayer a with
    | Some (u :: s) => newPublicKey (Some (u :: s)) = Ok (payerKey m)
    | _ => payerKey m = publicKey kp
    end /\
    (forall e,
        suppliesNone e ->
        unsignedTransaction sdk connection kp
          (withAccepts c (Some (withExtra a e) :: rest))
        = Ok {| payerKey := publicKey kp;
                recentBlockhash := recentBlockhash m;
                instructions := instructions m |}) /\
    (forall u s k,
        newPublicKey (Some (u :: s)) = Ok k ->
        unsignedTransaction sdk connection kp
          (withAccepts c
             (Some (withExtra a (Some {| Accept.feePayer := Some (u :: s) |}))
                :: rest))
        = Ok {| payerKey := k;
                recentBlockhash := recentBlockhash m;
                instructions := instructions m |}).
Proof.
  intros sdk connection kp c a rest m Hacc H.
  apply unsignedTransaction_inv in H as (a' & rest' & p & Hacc' & Hp & H).
  destruct (parseChallenge_first c a rest Hacc)
    as (p' & Hp' & _ & _ & _ & _ & _ & _ & Hfee).
  assert (p' = p) by congruence. subst p'.
  split; [|split].
  - apply createPayment_message_inv in H as (_ & src & payee & dst & raw & amt
      & fee & amount & bh & _ & _ & _ & _ & _ & Hf & _ & _ & ->).
    rewrite Hfee in Hf. simpl.
    destruct (optionFeePayer a) as [[|u s]|]; simpl in Hf; assumption.
  - intros e He. unfold unsignedTransaction.
    rewrite (withExtra_parsed c a rest e p Hacc Hp). cbn [bind].
    apply (createPayment_message_feePayer sdk connection kp p _ m);
      try reflexivity; try exact H.
    cbn [Parsed.feePayer].
    destruct He as [->|[->| ->]]; reflexivity.
  - intros u s k Hk. unfold unsignedTransaction.
    rewrite (withExtra_parsed c a rest _ p Hacc Hp). cbn [bind].
    apply (createPayment_message_feePayer sdk connection kp p _ m);
      try reflexivity; try exact H.
    cbn [Parsed.feePayer Accept.feePayer truthy]. exact Hk.
Qed.

Lemma C9_fee_payer_witness :
  exists m,
    unsignedTransaction Fixture.sdk (Fixture.connection 500000) Fixture.payer
      (Fixture.challenge
         [Fixture.accept "exact" "500000" Fixture.usdc
            (Some Fixture.facilitator)]) = Ok m /\
    (newPublicKey (Some (str Fixture.facilitator)) = Ok (payerKey m) /\
     payerKey m <> publicKey Fixture.payer) /\
    unsignedTransaction Fixture.sdk (Fixture.connection 500000) Fixture.payer
      (withAccepts
         (Fixture.challenge
            [Fixture.accept "exact" "500000" Fixture.usdc
               (Some Fixture.facilitator)])
         [Some (withExtra
                  (Fixture.accept "exact" "500000" Fixture.usdc
                     (Some Fixture.facilitator)) None)])
    = Ok {| payerKey := publicKey Fixture.payer;
            recentBlockhash := recentBlockhash m;
            instructions := instructions m |}.
Proof.
  exists_value.
  split.
  - split; [|vm_compute; discriminate].
    refine (proj1 (C9_fee_payer Fixture.sdk (Fixture.connection 500000)
                     Fixture.payer
                     (Fixture.challenge
                        [Fixture.accept "exact" "500000" Fixture.usdc
                           (Some Fixture.facilitator)])
                     (Fixture.accept "exact" "500000" Fixture.usdc
                        (Some Fixture.facilitator)) [] _ eq_refl _)).
    vm_compute. reflexivity.
  - refine (proj1 (proj2 (C9_fee_payer Fixture.sdk
                            (Fixture.connection 500000) Fixture.payer
                            (Fixture.challenge
                               [Fixture.accept "exact" "500000" Fixture.usdc
                                  (Some Fixture.facilitator)])
                            (Fixture.accept "exact" "500000" Fixture.usdc
                               (Some Fixture.facilitator)) [] _ eq_refl _))
              None _).
    + vm_compute. reflexivity.
    + left. reflexivity.
Defined.

(** The two cases on the fixture: a facilitator named by the option, and
    no fee payer at all. *)
Example fee_payer_cases :
  (exists m,
      unsignedTransaction Fixture.sdk (Fixture.connection 500000)
        Fixture.payer
        (Fixture.challenge
           [Fixture.accept "exact" "500000" Fixture.usdc
              (Some Fixture.facilitator)]) = Ok m /\
      payerKey m = Fixture.keyOf Fixture.facilitator) /\
  (exists m,
      unsignedTransaction Fixture.sdk (Fixture.connection 500000)
        Fixture.payer
        (Fixture.challenge
           [Fixture.accept "exact" "500000" Fixture.usdc None]) = Ok m /\
      payerKey m = publicKey Fixture.payer).
Proof.
  split; exists_value; vm_compute; reflexivity.
Qed.

(** ** Balance check *)

(** C2, as stated, fails: with 8589934592000001 base units on the token
    account and 8589934592000002 required, the balance is strictly less
    than the required amount, yet [createPayment] does not stop with
    InsufficientFunds: both values scale to the same double. *)
Lemma C2_counterexample :
  baseUnits Fixture.sdk (Fixture.connection 8589934592000001)
    (publicKey Fixture.payer) = 8589934592000001 /\
  stringToBigInt (str "8589934592000002") = Some 8589934592000002 /\
  8589934592000001 < 8589934592000002 /\
  createPayment Fixture.sdk (Fixture.connection 8589934592000001)
    Fixture.payer
    (Fixture.challenge
       [Fixture.accept "exact" "8589934592000002" Fixture.usdc None])
  <> Throw InsufficientFunds.
Proof.
  split; [vm_compute; reflexivity|].
  split; [vm_compute; reflexivity|].
  split; [lia|].
  vm_compute. discriminate.
Qed.

Lemma getUsdcBalance_baseUnits (sdk : Sdk) (connection : Connection)
  (owner : PublicKey) :
  getUsdcBalance sdk connection owner
  = div (ofInt (baseUnits sdk connection owner)) million.
Proof.
  unfold getUsdcBalance, getUsdcTokenAccount, baseUnits.
  destruct (getAssociatedTokenAddress sdk USDC_DEVNET_MINT owner) as [acct|];
    [|reflexivity].
  simpl. destruct (getAccount connection acct); reflexivity.
Qed.

(** C2 (amended): [createPayment] stops with InsufficientFunds exactly
    when the challenge has a first option and the balance, as the double
    [amount / 1e6] (zero when the token account cannot be read), is
    strictly less than the double [parseInt(maxAmountRequired) / 1e6].
    For a required amount written in decimal digits: when the account
    holds exactly the required number of base units the check passes; and
    when balance and required amount are both below 2^33 * 10^6 base
    units, InsufficientFunds is raised if and only if the balance is
    strictly less than the required amount. *)
Theorem C2_insufficient_funds :
  forall sdk connection kp c,
    (createPayment sdk connection kp c = Throw InsufficientFunds <->
     exists a rest,
       accepts c = Some (Some a :: rest) /\
       lt (getUsdcBalance sdk connection (publicKey kp))
          (div (parseIntOf (Accept.maxAmountRequired a)) (ofInt 1000000))
       = true) /\
    (forall a rest s,
        accepts c = Some (Some a :: rest) ->
        Accept.maxAmountRequired a = Some s ->
        decimalString s ->
        (baseUnits sdk connection (publicKey kp) = decimalValue s ->
         createPayment sdk connection kp c <> Throw InsufficientFunds) /\
        (0 <= baseUnits sdk connection (publicKey kp) < exactLimit ->
         decimalValue s < exactLimit ->
         (createPayment sdk connection kp c = Throw InsufficientFunds <->
          baseUnits sdk connection (publicKey kp) < decimalValue s))).
Proof.
  intros sdk connection kp c.
  assert (Hiff :
    createPayment sdk connection kp c = Throw InsufficientFunds <->
    exists a rest,
      accepts c = Some (Some a :: rest) /\
      lt (getUsdcBalance sdk connection (publicKey kp))
         (div (parseIntOf (Accept.maxAmountRequired a)) (ofInt 1000000))
      = true).
  { rewrite createPayment_insufficient. unfold unsignedTransaction.
    unfold parseChallenge.
    destruct (accepts c) as [[|[a|] rest]|]; cbn [bind].
    - split; [discriminate | intros (a & rest & [=] & _)].
    - rewrite createPayment_message_insufficient. cbn [Parsed.amount].
      split.
      + intros H. exists a, rest. split; [reflexivity | exact H].
      + intros (a' & rest' & [= <- <-] & H). exact H.
    - split; [discriminate | intros (a & rest' & [=] & _)].
    - split; [discriminate | intros (a & rest & [=] & _)]. }
  split; [exact Hiff|].
  intros a rest s Hacc Hs Hdec.
  assert (Hdecide :
    createPayment sdk connection kp c = Throw InsufficientFunds <->
    lt (div (ofInt (baseUnits sdk connection (publicKey kp))) million)
       (div (ofInt (decimalValue s)) million) = true).
  { rewrite Hiff. rewrite getUsdcBalance_baseUnits. split.
    - intros (a' & rest' & Hacc' & Hlt).
      rewrite Hacc in Hacc'. injection Hacc' as <- <-.
      rewrite Hs in Hlt. simpl in Hlt.
      rewrite (parseInt_decimal s Hdec) in Hlt. exact Hlt.
    - intros Hlt. exists a, rest. split; [exact Hacc|].
      rewrite Hs. simpl. rewrite (parseInt_decimal s Hdec). exact Hlt. }
  split.
  - intros Heq Hthrow. apply Hdecide in Hthrow.
    rewrite Heq, lt_irrefl in Hthrow. discriminate.
  - intros Hbal Hreq. rewrite Hdecide.
    apply scaled_lt_iff; [exact Hbal|].
    split; [apply decimalValue_nonneg, Hdec | exact Hreq].
Qed.

Lemma C2_insufficient_funds_witness :
  decimalString (str "500000") /\
  (createPayment Fixture.sdk (Fixture.connection 400000) Fixture.payer
     (Fixture.challenge [Fixture.accept "exact" "500000" Fixture.usdc None])
   = Throw InsufficientFunds <->
   baseUnits Fixture.sdk (Fixture.connection 400000) (publicKey Fixture.payer)
   < decimalValue (str "500000")).
Proof.
  assert (Hd : decimalString (str "500000"))
    by (split; [discriminate | reflexivity]).
  split; [exact Hd|].
  apply (proj2 (proj2 (C2_insufficient_funds Fixture.sdk
                         (Fixture.connection 400000) Fixture.payer
                         (Fixture.challenge
                            [Fixture.accept "exact" "500000" Fixture.usdc
                               None]))
                  (Fixture.accept "exact" "500000" Fixture.usdc None) []
                  (str "500000") eq_refl eq_refl Hd)).
  - vm_compute. split; [discriminate | reflexivity].
  - vm_compute. reflexivity.
Defined.

(** The scenario of the design: 500000 base units required, 0.4 USDC on
    the account. *)
Example insufficient_funds_scenario :
  createPayment Fixture.sdk (Fixture.connection 400000) Fixture.payer
    (Fixture.challenge [Fixture.accept "exact" "500000" Fixture.usdc None])
  = Throw InsufficientFunds.
Proof.
  vm_compute. reflexivity.
Qed.

(** The boundary: exactly 500000 base units on the account, and the
    payment is built. *)
Example exact_balance_scenario :
  match createPayment Fixture.sdk (Fixture.connection 500000) Fixture.payer
          (Fixture.challenge
             [Fixture.accept "exact" "500000" Fixture.usdc None]) with
  | Ok proof => transactionHash proof
  | Throw _ => []
  end = str "pending-settlement".
Proof.
  vm_compute. reflexivity.
Qed.

(** ** Transfer amount and scaling of the check *)

(** C10, as stated, fails: for the decimal string of 2^64 and an account
    holding 2^64 - 1 base units the balance check passes, and the
    transfer instruction carries 2^60, not the integer of the string. *)
Lemma C10_counterexample :
  decimalString (str "18446744073709551616") /\
  decimalValue (str "18446744073709551616") = 2 ^ 64 /\
  exists m,
    unsignedTransaction Fixture.sdk (Fixture.connection (2 ^ 64 - 1))
      Fixture.payer
      (Fixture.challenge
         [Fixture.accept "exact" "18446744073709551616" Fixture.usdc None])
    = Ok m /\
    (exists src dst,
        nth_error (instructions m) 2
        = Some (TransferChecked src USDC_DEVNET_MINT dst
                  (publicKey Fixture.payer) (2 ^ 60) 6 [] TOKEN_PROGRAM_ID)) /\
    forall src dst,
      nth_error (instructions m) 2
      <> Some (TransferChecked src USDC_DEVNET_MINT dst
                 (publicKey Fixture.payer)
                 (decimalValue (str "18446744073709551616")) 6 []
                 TOKEN_PROGRAM_ID).
Proof.
  split; [split; [discriminate | reflexivity]|].
  split; [vm_compute; reflexivity|].
  exists_value. split.
  - eexists. eexists. vm_compute. reflexivity.
  - intros src dst. vm_compute. intros H. discriminate H.
Qed.

(** C10 (amended): when [maxAmountRequired] is a string of decimal digits
    spelling an integer [n] below 2^64, the transfer instruction carries
    exactly [n] (with 6 decimals).  The balance check compares, as
    doubles, the balance in base units divided by 1000000 with [n]
    divided by 1000000: InsufficientFunds is raised exactly when the
    first is less, which for a balance and an [n] below 2^33 * 10^6 is
    exactly when the balance is less than [n].  The option's asset
    changes nothing. *)
Theorem C10_exact_amount_scaled_check :
  forall sdk connection kp c a rest s,
    accepts c = Some (Some a :: rest) ->
    Accept.maxAmountRequired a = Some s ->
    decimalString s ->
    (decimalValue s < 2 ^ 64 ->
     forall m,
       unsignedTransaction sdk connection kp c = Ok m ->
       exists src dst,
         nth_error (instructions m) 2
         = Some (TransferChecked src USDC_DEVNET_MINT dst (publicKey kp)
                   (decimalValue s) 6 [] TOKEN_PROGRAM_ID)) /\
    (createPayment sdk connection kp c = Throw InsufficientFunds <->
     lt (div (ofInt (baseUnits sdk connection (publicKey kp)))
           (ofInt 1000000))
        (div (ofInt (decimalValue s)) (ofInt 1000000)) = true) /\
    (0 <= baseUnits sdk connection (publicKey kp) < exactLimit ->
     decimalValue s < exactLimit ->
     (createPayment sdk connection kp c = Throw InsufficientFunds <->
      baseUnits sdk connection (publicKey kp) < decimalValue s)) /\
    (forall asset',
        createPayment sdk connection kp
          (withAccepts c (Some (withAsset a asset') :: rest))
        = createPayment sdk connection kp c).
Proof.
  intros sdk connection kp c a rest s Hacc Hs Hdec.
  destruct (parseChallenge_first c a rest Hacc)
    as (p & Hp & _ & Hamount & Hraw & _).
  assert (Hcheck :
    createPayment sdk connection kp c = Throw InsufficientFunds <->
    lt (div (ofInt (baseUnits sdk connection (publicKey kp)))
          (ofInt 1000000))
       (div (ofInt (decimalValue s)) (ofInt 1000000)) = true).
  { rewrite createPayment_insufficient. unfold unsignedTransaction.
    rewrite Hp. simpl. rewrite createPayment_message_insufficient.
    rewrite Hamount, Hs. simpl. rewrite (parseInt_decimal s Hdec).
    rewrite getUsdcBalance_baseUnits. reflexivity. }
  split; [|split; [exact Hcheck|split]].
  - intros Hsmall m H.
    apply unsignedTransaction_inv in H as (a' & rest' & p' & _ & Hp' & H).
    assert (p' = p) by congruence. subst p'.
    apply createPayment_message_inv in H as (_ & src & payee & dst & raw & amt
      & fee & amount & bh & _ & _ & _ & Hr & Hbig & _ & Hamt & _ & ->).
    rewrite Hraw, Hs in Hr. injection Hr as <-.
    rewrite (stringToBigInt_decimal s Hdec) in Hbig. injection Hbig as <-.
    rewrite u64_small in Hamt
      by (split; [apply decimalValue_nonneg, Hdec | exact Hsmall]).
    injection Hamt as <-.
    exists src, dst. reflexivity.
  - intros Hbal Hreq. rewrite Hcheck.
    apply scaled_lt_iff; [exact Hbal|].
    split; [apply decimalValue_nonneg, Hdec | exact Hreq].
  - intros asset'. destruct c as [v e acc]. simpl in Hacc. subst acc.
    reflexivity.
Qed.

(** On the fixture: 500000 is carried as it is; 400000 base units do not
    cover 500000; and 8589934592000001 base units pass the check for
    8589934592000002, the two being the same double once divided. *)
Lemma C10_exact_amount_scaled_check_witness :
  decimalString (str "500000") /\
  (exists m,
      unsignedTransaction Fixture.sdk (Fixture.connection 500000)
        Fixture.payer
        (Fixture.challenge
           [Fixture.accept "exact" "500000" Fixture.usdc None])
      = Ok m /\
      exists src dst,
        nth_error (instructions m) 2
        = Some (TransferChecked src USDC_DEVNET_MINT dst
                  (publicKey Fixture.payer) (decimalValue (str "500000")) 6
                  [] TOKEN_PROGRAM_ID)) /\
  createPayment Fixture.sdk (Fixture.connection 400000) Fixture.payer
    (Fixture.challenge [Fixture.accept "exact" "500000" Fixture.usdc None])
  = Throw InsufficientFunds /\
  createPayment Fixture.sdk (Fixture.connection 8589934592000001)
    Fixture.payer
    (Fixture.challenge
       [Fixture.accept "exact" "8589934592000002" Fixture.usdc None])
  <> Throw InsufficientFunds.
Proof.
  assert (Hd : decimalString (str "500000"))
    by (split; [discriminate | reflexivity]).
  assert (Hd' : decimalString (str "8589934592000002"))
    by (split; [discriminate | reflexivity]).
  split; [exact Hd|]. split; [|split].
  - exists_value.
    apply (proj1 (C10_exact_amount_scaled_check Fixture.sdk
                    (Fixture.connection 500000) Fixture.payer
                    (Fixture.challenge
                       [Fixture.accept "exact" "500000" Fixture.usdc None])
                    (Fixture.accept "exact" "500000" Fixture.usdc None) []
                    (str "500000") eq_refl eq_refl Hd)).
    + vm_compute. reflexivity.
    + vm_compute. reflexivity.
  - apply (proj1 (proj2 (C10_exact_amount_scaled_check Fixture.sdk
                           (Fixture.connection 400000) Fixture.payer
                           (Fixture.challenge
                              [Fixture.accept "exact" "500000" Fixture.usdc
                                 None])
                           (Fixture.accept "exact" "500000" Fixture.usdc None)
                           [] (str "500000") eq_refl eq_refl Hd))).
    vm_compute. reflexivity.
  - intros H.
    apply (proj1 (proj2 (C10_exact_amount_scaled_check Fixture.sdk
                           (Fixture.connection 8589934592000001)
                           Fixture.payer
                           (Fixture.challenge
                              [Fixture.accept "exact" "8589934592000002"
                                 Fixture.usdc None])
                           (Fixture.accept "exact" "8589934592000002"
                              Fixture.usdc None)
                           [] (str "8589934592000002") eq_refl eq_refl Hd')))
      in H.
    vm_compute in H. discriminate H.
Defined.

(** ** Purchase flow *)

(** C7, as stated, fails.  A first purchase request answered with status
    200 and a body that is no JSON does not complete the attempt: reading
    the body throws before the status is looked at.  And a status that is
    neither 200 nor 402 ends the attempt with the line for an unexpected
    response and no error at all. *)
Lemma C7_counterexample :
  purchaseImage Fixture.sdk (Fixture.connection 500000)
    (clientOf Scenario.Json Scenario.asImageInfo Scenario.asChallenge
       Scenario.asPurchaseResult
       (Scenario.answering
          {| Http.status := 200; Http.json := Throw SyntaxError |})
       (Scenario.config None))
    Fixture.wallet Fixture.agent 1
  = ({| success := false; txHash := None |}, Fixture.agent,
     [GetImageInfo 1; InitiatePurchase 1; LogPurchaseFailed SyntaxError]) /\
  purchaseImage Fixture.sdk (Fixture.connection 500000)
    (clientOf Scenario.Json Scenario.asImageInfo Scenario.asChallenge
       Scenario.asPurchaseResult
       (Scenario.answering
          {| Http.status := 500;
             Http.json := Ok (Scenario.ChallengeBody Scenario.challenge) |})
       (Scenario.config None))
    Fixture.wallet Fixture.agent 1
  = ({| success := false; txHash := None |}, Fixture.agent,
     [GetImageInfo 1; InitiatePurchase 1; LogUnexpectedResponse 500]).
Proof.
  split; vm_compute; reflexivity.
Qed.

(** C7 (amended): the attempt fails when the image details cannot be had
    or read, and when the first purchase request throws, which it does on
    a body that is no JSON whatever the status.  Once that request has
    returned a status and a body: with 200 the attempt completes, is
    counted, and no payment proof is made; with 402 the body goes to
    [createPayment], whose error ends the attempt as failed, and whose
    proof is sent back; any other status ends the attempt as failed with
    the line for an unexpected response.  When the request carrying the
    proof throws, the attempt fails and the outcome, and with it the
    record pushed on [purchasedImages], keeps the proof's transaction
    hash.  When it returns, "PURCHASE COMPLETE!" is printed; a reply
    with image and creator completes the attempt, which is counted, and
    one without ends it as failed, the hash kept. *)
Theorem C7_transition_table :
  forall sdk connection client wallet a imageId,
    let run := purchaseImage sdk connection client wallet a imageId in
    let failed e log :=
      ({| success := false; txHash := None |}, a,
       log ++ [LogPurchaseFailed e]) in
    let start := [GetImageInfo imageId; InitiatePurchase imageId] in
    (forall e,
        getImageInfo client imageId = Throw e ->
        run = failed e [GetImageInfo imageId]) /\
    (forall info,
        getImageInfo client imageId = Ok info ->
        (isNone (Reply.info_image info) || isNone (Reply.info_purchase info)
         = true ->
         run = failed TypeError [GetImageInfo imageId]) /\
        (isNone (Reply.info_image info) || isNone (Reply.info_purchase info)
         = false ->
         (forall e,
             initiatePurchase client imageId = Throw e ->
             run = failed e start) /\
         (forall status data,
             initiatePurchase client imageId = Ok (status, data) ->
             (status = 200 ->
              run = ({| success := true; txHash := None |}, countPurchase a,
                     start ++ [LogNoPaymentNeeded])) /\
             (status <> 200 -> status <> 402 ->
              run = ({| success := false; txHash := None |}, a,
                     start ++ [LogUnexpectedResponse status])) /\
             (status = 402 ->
              let paying :=
                start ++ [LogChallengeReceived; CreatePayment data] in
              (forall e,
                  createPayment sdk connection (getKeypair wallet) data
                  = Throw e ->
                  run = failed e paying) /\
              (forall proof,
                  createPayment sdk connection (getKeypair wallet) data
                  = Ok proof ->
                  let sent :=
                    paying ++ [CompletePurchase imageId (header proof)] in
                  let rejected log :=
                    ({| success := false;
                        txHash := Some (transactionHash proof) |}, a, log) in
                  (forall e,
                      completePurchase client imageId (header proof)
                      = Throw e ->
                      run = rejected (sent ++ [LogPurchaseFailed e]) /\
                      forall title,
                        purchasedImages
                          (fst (purchaseAndRecord sdk connection client
                                  wallet a imageId title))
                        = purchasedImages a ++
                            [{| rec_id := imageId; rec_title := title;
                                rec_success := false;
                                rec_txHash :=
                                  Some (transactionHash proof) |}]) /\
                  (forall result,
                      completePurchase client imageId (header proof)
                      = Ok result ->
                      (isNone (Reply.result_image result)
                       || isNone (Reply.result_creator result) = false ->
                       run = ({| success := true;
                                 txHash := Some (transactionHash proof) |},
                              countPurchase a,
                              sent ++ [LogPurchaseComplete])) /\
                      (isNone (Reply.result_image result)
                       || isNone (Reply.result_creator result) = true ->
                       run = rejected
                               (sent ++ [LogPurchaseComplete;
                                         LogPurchaseFailed TypeError])))))))).
Proof.
  intros sdk connection client wallet a imageId run failed start.
  subst run failed start. unfold purchaseAndRecord, purchaseImage.
  split.
  { intros e He. rewrite He. reflexivity. }
  intros info Hinfo. rewrite Hinfo. cbn [bind]. unfold readImageInfo.
  destruct (Reply.info_image info) as [image|],
    (Reply.info_purchase info) as [purchase|];
    (split; [intros Hread; try discriminate Hread; reflexivity|]);
    intros Hread; try discriminate Hread.
  split.
  { intros e He. rewrite He. reflexivity. }
  intros status data Hinit. rewrite Hinit.
  split; [intros ->; reflexivity|].
  split.
  { intros H200 H402. apply Z.eqb_neq in H200, H402.
    rewrite H200, H402. reflexivity. }
  intros ->. cbn [Z.eqb Pos.eqb]. cbv zeta.
  split.
  { intros e He. rewrite He. reflexivity. }
  intros proof Hproof. rewrite Hproof.
  split.
  { intros e He. rewrite He. rewrite <- !app_assoc.
    split; [reflexivity|]. intros title. reflexivity. }
  intros result Hresult. rewrite Hresult. unfold readPurchaseResult.
  destruct (Reply.result_image result) as [image'|],
    (Reply.result_creator result) as [creator|];
    (split; intros Hres; try discriminate Hres);
    rewrite <- !app_assoc; reflexivity.
Qed.

(** The rows on the fixture, from a challenge for 500000 base units that
    the payer can cover: a settlement that is rejected keeps the hash of
    the proof, in the outcome and in the record; one that is accepted
    counts the purchase; one answered with something else than a purchase
    prints "PURCHASE COMPLETE!" and fails; 200 needs no payment; 500 is
    unexpected. *)
Lemma C7_transition_table_witness :
  exists proof,
    createPayment Fixture.sdk (Fixture.connection 500000) Fixture.payer
      Scenario.challenge = Ok proof /\
    let run client :=
      purchaseImage Fixture.sdk (Fixture.connection 500000) client
        Fixture.wallet Fixture.agent 1 in
    let sent :=
      [GetImageInfo 1; InitiatePurchase 1; LogChallengeReceived;
       CreatePayment Scenario.challenge; CompletePurchase 1 (header proof)] in
    let kept := Some (transactionHash proof) in
    (run (Fixture.client 402 Scenario.challenge false)
     = ({| success := false; txHash := kept |}, Fixture.agent,
        sent ++ [LogPurchaseFailed HttpError]) /\
     forall title,
       purchasedImages
         (fst (purchaseAndRecord Fixture.sdk (Fixture.connection 500000)
                 (Fixture.client 402 Scenario.challenge false)
                 Fixture.wallet Fixture.agent 1 title))
       = [{| rec_id := 1; rec_title := title; rec_success := false;
             rec_txHash := kept |}]) /\
    run (Fixture.client 402 Scenario.challenge true)
    = ({| success := true; txHash := kept |}, countPurchase Fixture.agent,
       sent ++ [LogPurchaseComplete]) /\
    run (Fixture.answering 402 Scenario.challenge (Ok Fixture.unreadable))
    = ({| success := false; txHash := kept |}, Fixture.agent,
       sent ++ [LogPurchaseComplete; LogPurchaseFailed TypeError]) /\
    run (Fixture.client 200 Scenario.challenge false)
    = ({| success := true; txHash := None |}, countPurchase Fixture.agent,
       [GetImageInfo 1; InitiatePurchase 1; LogNoPaymentNeeded]) /\
    run (Fixture.client 500 Scenario.challenge false)
    = ({| success := false; txHash := None |}, Fixture.agent,
       [GetImageInfo 1; InitiatePurchase 1; LogUnexpectedResponse 500]).
Proof.
  exists_value. cbv zeta.
  match goal with
  | |- context [header ?p] => set (proof := p)
  end.
  assert (Hproof :
    createPayment Fixture.sdk (Fixture.connection 500000)
      (getKeypair Fixture.wallet) Scenario.challenge = Ok proof)
    by (vm_compute; reflexivity).
  assert (Hat : forall status settlement,
    let client := Fixture.answering status Scenario.challenge settlement in
    _) by
    (intros status settlement client;
     exact (proj2 (proj2 (proj2 (C7_transition_table Fixture.sdk
                                   (Fixture.connection 500000) client
                                   Fixture.wallet Fixture.agent 1)
                            _ eq_refl)
                     eq_refl)
              status Scenario.challenge eq_refl)).
  cbv zeta in Hat.
  split; [|split; [|split; [|split]]].
  - exact (proj1 (proj2 (proj2 (proj2 (Hat 402 (Throw HttpError))) eq_refl)
                    proof Hproof)
             HttpError eq_refl).
  - exact (proj1 (proj2 (proj2 (proj2 (proj2 (Hat 402 (Ok Fixture.delivered)))
                                  eq_refl)
                           proof Hproof)
                    Fixture.delivered eq_refl)
             eq_refl).
  - exact (proj2 (proj2 (proj2 (proj2 (proj2 (Hat 402 (Ok Fixture.unreadable)))
                                  eq_refl)
                           proof Hproof)
                    Fixture.unreadable eq_refl)
             eq_refl).
  - exact (proj1 (Hat 200 (Throw HttpError)) eq_refl).
  - refine (proj1 (proj2 (Hat 500 (Throw HttpError))) _ _); discriminate.
Defined.

(** The payment proof of the fixture carries the placeholder for a
    hash. *)
Example purchase_rows :
  fst (fst (purchaseImage Fixture.sdk (Fixture.connection 500000)
              (Fixture.client 402
                 (Fixture.challenge
                    [Fixture.accept "exact" "500000" Fixture.usdc None])
                 false)
              Fixture.wallet Fixture.agent 1))
  = {| success := false; txHash := Some (str "pending-settlement") |} /\
  fst (purchaseImage Fixture.sdk (Fixture.connection 500000)
         (Fixture.client 402
            (Fixture.challenge
               [Fixture.accept "exact" "500000" Fixture.usdc None])
            true)
         Fixture.wallet Fixture.agent 1)
  = ({| success := true; txHash := Some (str "pending-settlement") |},
     countPurchase Fixture.agent) /\
  fst (purchaseImage Fixture.sdk (Fixture.connection 400000)
         (Fixture.client 402
            (Fixture.challenge
               [Fixture.accept "exact" "500000" Fixture.usdc None])
            true)
         Fixture.wallet Fixture.agent 1)
  = ({| success := false; txHash := None |}, Fixture.agent).
Proof.
  split; [|split]; vm_compute; reflexivity.
Qed.

(** ** Encoding round trips *)

(** Decide a comparison on integers where it stands in the goal. *)
Ltac decide_Zb :=
  repeat match goal with
    | |- context [?a <? ?b] =>
        destruct (Z.ltb_spec a b);
        try (exfalso; Z.div_mod_to_equations; lia)
    | |- context [?a <=? ?b] =>
        destruct (Z.leb_spec a b);
        try (exfalso; Z.div_mod_to_equations; lia)
    | |- context [?a =? ?b] =>
        destruct (Z.eqb_spec a b);
        try (exfalso; Z.div_mod_to_equations; lia)
    end.

(** *** Base64 *)

Section Base64Facts.
Import Base64.

Lemma sextets_ok : forallb sextetOk (seq 0 64) = true.
Proof. vm_compute. reflexivity. Qed.

Lemma base64_index_char (i : Z) :
  0 <= i < 64 -> index (char i) = Some i /\ (char i =? pad) = false.
Proof.
  intros Hi.
  pose proof (proj1 (forallb_forall sextetOk (seq 0 64)) sextets_ok
                (Z.to_nat i)) as H.
  assert (Hin : In (Z.to_nat i) (seq 0 64)) by (apply in_seq; lia).
  specialize (H Hin). unfold sextetOk in H.
  rewrite Z2Nat.id in H by lia.
  destruct (index (char i)) as [j|]; [|discriminate].
  apply andb_true_iff in H as [Hj Hp].
  apply Z.eqb_eq in Hj. subst j.
  split; [reflexivity|]. now apply negb_true_iff in Hp.
Qed.

Lemma base64_decode_quad (a b c : Z) (r : jsstring) :
  byte a -> byte b -> byte c ->
  decode (char (a / 4) :: char ((a mod 4) * 16 + b / 16)
            :: char ((b mod 16) * 4 + c / 64) :: char (c mod 64) :: r)
  = Utf8.consOpt [a; b; c] (decode r).
Proof.
  unfold byte. intros Ha Hb Hc.
  assert (H0 : 0 <= a / 4 < 64) by (Z.div_mod_to_equations; lia).
  assert (H1 : 0 <= (a mod 4) * 16 + b / 16 < 64)
    by (Z.div_mod_to_equations; lia).
  assert (H2 : 0 <= (b mod 16) * 4 + c / 64 < 64)
    by (Z.div_mod_to_equations; lia).
  assert (H3 : 0 <= c mod 64 < 64) by (Z.div_mod_to_equations; lia).
  destruct (base64_index_char _ H0) as [I0 _].
  destruct (base64_index_char _ H1) as [I1 _].
  destruct (base64_index_char _ H2) as [I2 P2].
  destruct (base64_index_char _ H3) as [I3 P3].
  cbn [decode]. rewrite I0, I1, P2, I2, P3, I3.
  f_equal. f_equal; [|f_equal; [|f_equal]];
    Z.div_mod_to_equations; lia.
Qed.

Lemma base64_roundtrip_upto (n : nat) (bs : list Z) :
  (List.length bs <= n)%nat -> Forall byte bs ->
  decode (encode bs) = Some bs.
Proof.
  revert bs. induction n as [|n IH]; intros bs Hlen Hall.
  - destruct bs; [reflexivity | simpl in Hlen; lia].
  - destruct bs as [|a [|b [|c r]]]; [reflexivity| | |].
    + apply Forall_cons_iff in Hall as [Ha _]. unfold byte in Ha.
      assert (H0 : 0 <= a / 4 < 64) by (Z.div_mod_to_equations; lia).
      assert (H1 : 0 <= (a mod 4) * 16 < 64)
        by (Z.div_mod_to_equations; lia).
      destruct (base64_index_char _ H0) as [I0 _].
      destruct (base64_index_char _ H1) as [I1 _].
      cbn [encode decode]. rewrite I0, I1. rewrite !Z.eqb_refl.
      f_equal. f_equal. Z.div_mod_to_equations; lia.
    + apply Forall_cons_iff in Hall as [Ha Hall].
      apply Forall_cons_iff in Hall as [Hb _]. unfold byte in Ha, Hb.
      assert (H0 : 0 <= a / 4 < 64) by (Z.div_mod_to_equations; lia).
      assert (H1 : 0 <= (a mod 4) * 16 + b / 16 < 64)
        by (Z.div_mod_to_equations; lia).
      assert (H2 : 0 <= (b mod 16) * 4 < 64)
        by (Z.div_mod_to_equations; lia).
      destruct (base64_index_char _ H0) as [I0 _].
      destruct (base64_index_char _ H1) as [I1 _].
      destruct (base64_index_char _ H2) as [I2 P2].
      cbn [encode decode]. rewrite I0, I1, P2, I2. rewrite Z.eqb_refl.
      f_equal. f_equal; [|f_equal]; Z.div_mod_to_equations; lia.
    + apply Forall_cons_iff in Hall as [Ha Hall].
      apply Forall_cons_iff in Hall as [Hb Hall].
      apply Forall_cons_iff in Hall as [Hc Hall].
      cbn [encode]. rewrite (base64_decode_quad a b c _ Ha Hb Hc).
      rewrite IH; [reflexivity | simpl in Hlen; lia | exact Hall].
Qed.

(** Decoding the base64 text of a byte string gives the bytes back. *)
Lemma base64_roundtrip (bs : list Z) :
  Forall byte bs -> decode (encode bs) = Some bs.
Proof.
  apply (base64_roundtrip_upto (List.length bs)). lia.
Qed.

End Base64Facts.

(** *** UTF-8 *)

Lemma not_surrogate (c : Z) :
  isSurrogate c = false -> c < 55296 \/ 57343 < c.
Proof.
  unfold isSurrogate. intros H.
  apply andb_false_iff in H as [H|H]; apply Z.leb_gt in H; lia.
Qed.

Lemma high_surrogate (c : Z) :
  isHighSurrogate c = true -> 55296 <= c <= 56319.
Proof.
  unfold isHighSurrogate. intros H.
  apply andb_true_iff in H as [H1 H2]. apply Z.leb_le in H1, H2. lia.
Qed.

Lemma low_surrogate (c : Z) :
  isLowSurrogate c = true -> 56320 <= c <= 57343.
Proof.
  unfold isLowSurrogate. intros H.
  apply andb_true_iff in H as [H1 H2]. apply Z.leb_le in H1, H2. lia.
Qed.

(** One step of the decoder. *)
Lemma utf8_decode_step (b0 : Z) (r0 : list Z) :
  Utf8.decode (b0 :: r0) =
  if (0 <=? b0) && (b0 <? 128) then Utf8.consOpt [b0] (Utf8.decode r0)
  else if (192 <=? b0) && (b0 <? 224) then
    match r0 with
    | b1 :: r1 =>
        let cp := (b0 - 192) * 64 + (b1 - 128) in
        if Utf8.isContinuation b1 && (128 <=? cp)
        then Utf8.consOpt [cp] (Utf8.decode r1) else None
    | _ => None
    end
  else if (224 <=? b0) && (b0 <? 240) then
    match r0 with
    | b1 :: b2 :: r2 =>
        let cp := (b0 - 224) * 4096 + (b1 - 128) * 64 + (b2 - 128) in
        if Utf8.isContinuation b1 && Utf8.isContinuation b2 && (2048 <=? cp)
           && negb (isSurrogate cp)
        then Utf8.consOpt [cp] (Utf8.decode r2) else None
    | _ => None
    end
  else if (240 <=? b0) && (b0 <? 248) then
    match r0 with
    | b1 :: b2 :: b3 :: r3 =>
        let cp := (b0 - 240) * 262144 + (b1 - 128) * 4096
                  + (b2 - 128) * 64 + (b3 - 128) in
        if Utf8.isContinuation b1 && Utf8.isContinuation b2
           && Utf8.isContinuation b3
           && (65536 <=? cp) && (cp <=? 1114111)
        then Utf8.consOpt [55296 + (cp - 65536) / 1024;
                           56320 + (cp - 65536) mod 1024] (Utf8.decode r3)
        else None
    | _ => None
    end
  else None.
Proof.
  reflexivity.
Qed.

Lemma utf8_decode_1 (b : Z) (r : list Z) :
  0 <= b < 128 ->
  Utf8.decode (b :: r) = Utf8.consOpt [b] (Utf8.decode r).
Proof.
  intros H. rewrite utf8_decode_step. decide_Zb. reflexivity.
Qed.

Lemma utf8_decode_2 (b0 b1 : Z) (r : list Z) :
  192 <= b0 < 224 -> 128 <= b1 < 192 ->
  128 <= (b0 - 192) * 64 + (b1 - 128) ->
  Utf8.decode (b0 :: b1 :: r)
  = Utf8.consOpt [(b0 - 192) * 64 + (b1 - 128)] (Utf8.decode r).
Proof.
  intros H0 H1 Hcp. rewrite utf8_decode_step. cbv zeta.
  unfold Utf8.isContinuation. decide_Zb. reflexivity.
Qed.

Lemma utf8_decode_3 (b0 b1 b2 : Z) (r : list Z) :
  224 <= b0 < 240 -> 128 <= b1 < 192 -> 128 <= b2 < 192 ->
  2048 <= (b0 - 224) * 4096 + (b1 - 128) * 64 + (b2 - 128) ->
  isSurrogate ((b0 - 224) * 4096 + (b1 - 128) * 64 + (b2 - 128)) = false ->
  Utf8.decode (b0 :: b1 :: b2 :: r)
  = Utf8.consOpt [(b0 - 224) * 4096 + (b1 - 128) * 64 + (b2 - 128)]
      (Utf8.decode r).
Proof.
  intros H0 H1 H2 Hcp Hs. rewrite utf8_decode_step. cbv zeta.
  rewrite Hs. unfold Utf8.isContinuation. decide_Zb. reflexivity.
Qed.

Lemma utf8_decode_4 (b0 b1 b2 b3 : Z) (r : list Z) :
  240 <= b0 < 248 -> 128 <= b1 < 192 -> 128 <= b2 < 192 -> 128 <= b3 < 192 ->
  65536 <= (b0 - 240) * 262144 + (b1 - 128) * 4096 + (b2 - 128) * 64
           + (b3 - 128) <= 1114111 ->
  Utf8.decode (b0 :: b1 :: b2 :: b3 :: r)
  = Utf8.consOpt
      [55296 + ((b0 - 240) * 262144 + (b1 - 128) * 4096 + (b2 - 128) * 64
                + (b3 - 128) - 65536) / 1024;
       56320 + ((b0 - 240) * 262144 + (b1 - 128) * 4096 + (b2 - 128) * 64
                + (b3 - 128) - 65536) mod 1024]
      (Utf8.decode r).
Proof.
  intros H0 H1 H2 H3 Hcp. rewrite utf8_decode_step. cbv zeta.
  unfold Utf8.isContinuation. decide_Zb. reflexivity.
Qed.

(** Decoding the UTF-8 bytes of a well-formed string gives it back. *)
Lemma utf8_roundtrip (s : jsstring) :
  WellFormed s -> Utf8.decode (Utf8.encode s) = Some s.
Proof.
  induction 1 as [|c s Hc Hsur _ IH|h l s Hh Hl _ IH].
  - reflexivity.
  - unfold code_unit in Hc. pose proof (not_surrogate c Hsur) as Hns.
    cbn [Utf8.encode]. unfold isHighSurrogate, isLowSurrogate.
    destruct (Z.ltb_spec c 128).
    + rewrite utf8_decode_1 by lia. rewrite IH. reflexivity.
    + destruct (Z.ltb_spec c 2048).
      * rewrite utf8_decode_2 by (Z.div_mod_to_equations; lia).
        rewrite IH. cbn [Utf8.consOpt app]. f_equal. f_equal.
        Z.div_mod_to_equations; lia.
      * assert (Hcp : (224 + c / 4096 - 224) * 4096
                      + (128 + (c / 64) mod 64 - 128) * 64
                      + (128 + c mod 64 - 128) = c)
          by (Z.div_mod_to_equations; lia).
        assert (Hdec : Utf8.decode
                         ((224 + c / 4096) :: (128 + (c / 64) mod 64)
                            :: (128 + c mod 64) :: Utf8.encode s)
                       = Some (c :: s)).
        { rewrite utf8_decode_3;
            try (Z.div_mod_to_equations; lia).
          - rewrite IH, Hcp. reflexivity.
          - rewrite Hcp. exact Hsur. }
        decide_Zb; cbn [andb]; exact Hdec.
  - apply high_surrogate in Hh. apply low_surrogate in Hl.
    cbn [Utf8.encode]. unfold isHighSurrogate, isLowSurrogate.
    decide_Zb. cbn [andb].
    rewrite utf8_decode_4 by (Z.div_mod_to_equations; lia).
    rewrite IH. cbn [Utf8.consOpt app]. f_equal.
    f_equal; [|f_equal]; Z.div_mod_to_equations; lia.
Qed.

Lemma utf8_encode_bytes (s : jsstring) :
  WellFormed s -> Forall byte (Utf8.encode s).
Proof.
  induction 1 as [|c s Hc Hsur _ IH|h l s Hh Hl _ IH].
  - constructor.
  - unfold code_unit in Hc. pose proof (not_surrogate c Hsur) as Hns.
    cbn [Utf8.encode]. unfold isHighSurrogate, isLowSurrogate.
    decide_Zb; cbn [andb];
      repeat (apply Forall_cons;
              [unfold byte; Z.div_mod_to_equations; lia|]);
      exact IH.
  - apply high_surrogate in Hh. apply low_surrogate in Hl.
    cbn [Utf8.encode]. unfold isHighSurrogate, isLowSurrogate.
    decide_Zb. cbn [andb].
    repeat (apply Forall_cons;
            [unfold byte; Z.div_mod_to_equations; lia|]).
    exact IH.
Qed.

(** *** Well-formed strings *)

Lemma wf_app (a b : jsstring) :
  WellFormed a -> WellFormed b -> WellFormed (a ++ b).
Proof.
  induction 1 as [|c s Hc Hs _ IH|h l s Hh Hl _ IH]; intros Hb; simpl.
  - assumption.
  - apply wf_unit; auto.
  - apply wf_pair; auto.
Qed.

Lemma wf_ascii (s : jsstring) : Forall ascii7 s -> WellFormed s.
Proof.
  induction 1 as [|c s Hc _ IH]; [constructor|].
  unfold ascii7 in Hc. apply wf_unit; [unfold code_unit; lia | | exact IH].
  unfold isSurrogate. decide_Zb. reflexivity.
Qed.

Lemma hexDigit_ascii (d : Z) : 0 <= d < 16 -> ascii7 (JSON.hexDigit d).
Proof.
  unfold JSON.hexDigit, ascii7. intros H. decide_Zb; lia.
Qed.

Lemma escapeU_ascii (c : Z) : code_unit c -> Forall ascii7 (JSON.escapeU c).
Proof.
  unfold code_unit. intros H. unfold JSON.escapeU.
  repeat (apply Forall_cons;
          [first [apply hexDigit_ascii; Z.div_mod_to_equations; lia
                 | unfold ascii7; lia]|]).
  constructor.
Qed.

Lemma shortEscape_ascii (c e : Z) : JSON.shortEscape c = Some e -> ascii7 e.
Proof.
  unfold JSON.shortEscape, ascii7.
  repeat match goal with
         | |- context [if ?b then _ else _] => destruct b
         end; intros [= <-]; lia.
Qed.

Lemma wf_quoteBody_upto (n : nat) (s : jsstring) :
  (List.length s <= n)%nat -> Forall code_unit s ->
  WellFormed (JSON.quoteBody s).
Proof.
  revert s. induction n as [|n IH]; intros s Hlen Hall.
  - destruct s; [constructor | simpl in Hlen; lia].
  - destruct s as [|c s]; [constructor|].
    apply Forall_cons_iff in Hall as [Hc Hall]. simpl in Hlen.
    assert (IHs : WellFormed (JSON.quoteBody s)) by (apply IH; [lia | exact Hall]).
    cbn [JSON.quoteBody].
    destruct (JSON.shortEscape c) as [e|] eqn:He.
    { apply (wf_app [92; e]); [|exact IHs].
      apply wf_ascii.
      apply Forall_cons; [unfold ascii7; lia|].
      apply Forall_cons; [exact (shortEscape_ascii c e He) | constructor]. }
    destruct (c <? 32).
    { apply wf_app; [apply wf_ascii, escapeU_ascii, Hc | exact IHs]. }
    destruct (isHighSurrogate c) eqn:Hh.
    { destruct s as [|d s2]; [apply wf_ascii, escapeU_ascii, Hc|].
      destruct (isLowSurrogate d) eqn:Hl.
      - apply wf_pair; [exact Hh | exact Hl |].
        apply Forall_cons_iff in Hall as [_ Hall]. simpl in Hlen.
        apply IH; [lia | exact Hall].
      - apply wf_app; [apply wf_ascii, escapeU_ascii, Hc | exact IHs]. }
    destruct (isLowSurrogate c) eqn:Hl.
    { apply wf_app; [apply wf_ascii, escapeU_ascii, Hc | exact IHs]. }
    apply wf_unit; [exact Hc | | exact IHs].
    unfold isSurrogate, isHighSurrogate, isLowSurrogate in *.
    unfold code_unit in Hc.
    destruct (Z.leb_spec 55296 c); destruct (Z.leb_spec c 57343);
      try reflexivity.
    exfalso.
    destruct (Z.leb_spec c 56319); destruct (Z.leb_spec 56320 c);
      simpl in Hh, Hl; try discriminate; lia.
Qed.

Lemma wf_quoteBody (s : jsstring) :
  Forall code_unit s -> WellFormed (JSON.quoteBody s).
Proof.
  apply (wf_quoteBody_upto (List.length s)). lia.
Qed.

Lemma uintToString_ascii (u : Decimal.uint) :
  Forall ascii7 (JSON.uintToString u).
Proof.
  induction u; simpl; constructor; try assumption; unfold ascii7; lia.
Qed.

Lemma numberToString_ascii (n : Z) : Forall ascii7 (JSON.numberToString n).
Proof.
  unfold JSON.numberToString.
  destruct (Z.to_int n); [apply uintToString_ascii|].
  constructor; [unfold ascii7; lia | apply uintToString_ascii].
Qed.

(** *** JSON text of the envelope *)

Lemma stringify_envelopeWith (k1 k2 k3 k4 k5 : jsstring) (v : Z)
  (s n t : jsstring) :
  JSON.stringify (envelopeWith k1 k2 k3 k4 k5 v s n t)
  = Some (envelopeTextWith k1 k2 k3 k4 k5 v s n t).
Proof.
  unfold envelopeWith, envelopeTextWith, memberText, stringText.
  cbn [JSON.stringify flat_map JSON.joinComma app fst snd].
  unfold JSON.quote.
  repeat (rewrite <- ?app_assoc; cbn [app]).
  reflexivity.
Qed.

Lemma stringify_envelope (v : Z) (s n t : jsstring) :
  JSON.stringify (envelope v s n t) = Some (envelopeText v s n t).
Proof.
  apply stringify_envelopeWith.
Qed.

(** *** Parsing what [stringify] wrote *)

Lemma hexValue_hexDigit (d : Z) :
  0 <= d < 16 -> JSON.hexValue (JSON.hexDigit d) = Some d.
Proof.
  intros H. unfold JSON.hexValue, JSON.hexDigit.
  destruct (Z.ltb_spec d 10); decide_Zb; cbn [andb]; f_equal; lia.
Qed.

Lemma hex4_escape (c : Z) :
  code_unit c ->
  JSON.hex4 (JSON.hexDigit (c / 4096)) (JSON.hexDigit ((c / 256) mod 16))
    (JSON.hexDigit ((c / 16) mod 16)) (JSON.hexDigit (c mod 16)) = Some c.
Proof.
  unfold code_unit. intros H. unfold JSON.hex4.
  rewrite !hexValue_hexDigit by (Z.div_mod_to_equations; lia).
  f_equal. Z.div_mod_to_equations; lia.
Qed.

Lemma shortEscape_unescape (c e : Z) :
  JSON.shortEscape c = Some e ->
  (e =? 117) = false /\ JSON.unescape e = Some c.
Proof.
  unfold JSON.shortEscape. intros H.
  repeat match type of H with
         | context [?a =? ?b] => destruct (Z.eqb_spec a b)
         end; try discriminate; injection H as <-; subst c; split;
    reflexivity.
Qed.

Lemma shortEscape_None (c : Z) :
  JSON.shortEscape c = None -> c <> 34 /\ c <> 92.
Proof.
  unfold JSON.shortEscape.
  repeat match goal with
         | |- context [?a =? ?b] => destruct (Z.eqb_spec a b)
         end; intros [=]; lia.
Qed.

(** One step of the string parser. *)
Lemma parseStringBody_step (c : Z) (r : jsstring) :
  JSON.parseStringBody (c :: r) =
  if c =? 34 then Some ([], r)
  else if c =? 92 then
    match r with
    | e :: r' =>
        if e =? 117 then
          match r' with
          | h1 :: h2 :: h3 :: h4 :: r'' =>
              match JSON.hex4 h1 h2 h3 h4 with
              | Some u => JSON.consFst u (JSON.parseStringBody r'')
              | None => None
              end
          | _ => None
          end
        else
          match JSON.unescape e with
          | Some u => JSON.consFst u (JSON.parseStringBody r')
          | None => None
          end
    | [] => None
    end
  else if c <? 32 then None
  else JSON.consFst c (JSON.parseStringBody r).
Proof.
  reflexivity.
Qed.

Lemma parseStringBody_raw (c : Z) (r : jsstring) :
  32 <= c -> c <> 34 -> c <> 92 ->
  JSON.parseStringBody (c :: r) = JSON.consFst c (JSON.parseStringBody r).
Proof.
  intros H1 H2 H3. rewrite parseStringBody_step. decide_Zb. reflexivity.
Qed.

Lemma parseStringBody_short (c e : Z) (r : jsstring) :
  JSON.shortEscape c = Some e ->
  JSON.parseStringBody (92 :: e :: r)
  = JSON.consFst c (JSON.parseStringBody r).
Proof.
  intros H. rewrite parseStringBody_step. cbn [Z.eqb Pos.eqb].
  destruct (shortEscape_unescape c e H) as [H117 Hun].
  rewrite H117, Hun. reflexivity.
Qed.

Lemma parseStringBody_escapeU (c : Z) (r : jsstring) :
  code_unit c ->
  JSON.parseStringBody (JSON.escapeU c ++ r)
  = JSON.consFst c (JSON.parseStringBody r).
Proof.
  intros H. unfold JSON.escapeU. cbn [app].
  rewrite parseStringBody_step. cbn [Z.eqb Pos.eqb].
  rewrite (hex4_escape c H). reflexivity.
Qed.

Lemma parseStringBody_quote_upto (k : nat) (s rest : jsstring) :
  (List.length s <= k)%nat -> Forall code_unit s ->
  JSON.parseStringBody (JSON.quoteBody s ++ 34 :: rest) = Some (s, rest).
Proof.
  revert s. induction k as [|k IH]; intros s Hlen Hall.
  - destruct s; [reflexivity | simpl in Hlen; lia].
  - destruct s as [|c s]; [reflexivity|].
    apply Forall_cons_iff in Hall as [Hc Hall]. simpl in Hlen.
    assert (IHs : JSON.parseStringBody (JSON.quoteBody s ++ 34 :: rest)
                  = Some (s, rest)) by (apply IH; [lia | exact Hall]).
    cbn [JSON.quoteBody].
    destruct (JSON.shortEscape c) as [e|] eqn:He.
    { cbn [app]. rewrite (parseStringBody_short c e _ He), IHs. reflexivity. }
    apply shortEscape_None in He as [H34 H92].
    destruct (Z.ltb_spec c 32).
    { rewrite <- app_assoc, (parseStringBody_escapeU c _ Hc), IHs.
      reflexivity. }
    destruct (isHighSurrogate c) eqn:Hh.
    { destruct s as [|d s2].
      - rewrite (parseStringBody_escapeU c _ Hc). reflexivity.
      - destruct (isLowSurrogate d) eqn:Hl.
        + apply low_surrogate in Hl.
          apply Forall_cons_iff in Hall as [_ Hall]. simpl in Hlen.
          cbn [app].
          rewrite (parseStringBody_raw c) by lia.
          rewrite (parseStringBody_raw d) by lia.
          rewrite IH by (try lia; exact Hall). reflexivity.
        + rewrite <- app_assoc, (parseStringBody_escapeU c _ Hc), IHs.
          reflexivity. }
    destruct (isLowSurrogate c) eqn:Hl.
    { rewrite <- app_assoc, (parseStringBody_escapeU c _ Hc), IHs.
      reflexivity. }
    cbn [app]. rewrite (parseStringBody_raw c) by lia. rewrite IHs.
    reflexivity.
Qed.

(** The string parser reads back what QuoteJSONString wrote. *)
Lemma parseStringBody_quote (s rest : jsstring) :
  Forall code_unit s ->
  JSON.parseStringBody (JSON.quoteBody s ++ 34 :: rest) = Some (s, rest).
Proof.
  apply (parseStringBody_quote_upto (List.length s)). lia.
Qed.

Lemma decimalDigit_uint (u : Decimal.uint) (c : Z) (rest : jsstring) :
  JSON.decimalDigit c = None ->
  JSON.parseDigits (JSON.uintToString u ++ c :: rest) = (u, c :: rest).
Proof.
  intros Hc. induction u; simpl; try rewrite IHu; try reflexivity.
  now rewrite Hc.
Qed.

Lemma nzhead_not_D0 (d d' : Decimal.uint) :
  Decimal.nzhead d <> Decimal.D0 d'.
Proof.
  induction d; simpl; try discriminate. exact IHd.
Qed.

Lemma intPart_unorm (u : Decimal.uint) :
  Decimal.unorm u = u -> JSON.intPart u = true.
Proof.
  unfold Decimal.unorm. intros H.
  destruct (Decimal.nzhead u) eqn:Hn; subst u; try reflexivity.
  exfalso. exact (nzhead_not_D0 _ _ Hn).
Qed.

Lemma intPart_nzhead (u : Decimal.uint) :
  Decimal.nzhead u = u -> u <> Decimal.Nil -> JSON.intPart u = true.
Proof.
  intros H Hnil. destruct u; try reflexivity; [contradiction|].
  exfalso. exact (nzhead_not_D0 _ _ H).
Qed.

(** The digits [Z.to_int] writes form the integer part of a JSON number. *)
Lemma to_int_intPart (v : Z) :
  match Z.to_int v with
  | Decimal.Pos u => JSON.intPart u = true
  | Decimal.Neg u => JSON.intPart u = true
  end.
Proof.
  pose proof (DecimalZ.to_of (Z.to_int v)) as H.
  rewrite DecimalZ.of_to in H.
  destruct (Z.to_int v) as [u|u]; simpl in H.
  - injection H as H. apply intPart_unorm. congruence.
  - destruct (Decimal.nzhead u) eqn:Hn; try discriminate;
      injection H as H; subst u;
      (apply intPart_nzhead; [exact Hn | discriminate]).
Qed.

Lemma uintToString_head (u : Decimal.uint) :
  JSON.intPart u = true ->
  exists d tail, JSON.uintToString u = d :: tail /\ 48 <= d <= 57.
Proof.
  destruct u; simpl; intros H; try discriminate;
    eexists; eexists; (split; [reflexivity | lia]).
Qed.

(** The number parser reads back what Number::toString wrote, when a
    comma or a closing brace follows. *)
Lemma parseNumber_print (v c : Z) (rest : jsstring) :
  c = 44 \/ c = 125 ->
  JSON.parseNumber (JSON.numberToString v ++ c :: rest) = Some (v, c :: rest).
Proof.
  intros Hc.
  assert (Hd : JSON.decimalDigit c = None) by (destruct Hc; subst; reflexivity).
  assert (Hf : JSON.startsFraction (c :: rest) = false)
    by (destruct Hc; subst; reflexivity).
  pose proof (to_int_intPart v) as Hint.
  pose proof (DecimalZ.of_to v) as Hof.
  unfold JSON.numberToString, JSON.parseNumber.
  destruct (Z.to_int v) as [u|u].
  - destruct (uintToString_head u Hint) as (d & tail & Hu & Hrange).
    rewrite Hu. cbn [app].
    destruct (Z.eqb_spec d 45); [lia|].
    change (d :: tail ++ c :: rest) with ((d :: tail) ++ c :: rest).
    rewrite <- Hu, (decimalDigit_uint u c rest Hd), Hint, Hf, Hof.
    reflexivity.
  - cbn [app Z.eqb Pos.eqb].
    rewrite (decimalDigit_uint u c rest Hd), Hint, Hf, Hof.
    reflexivity.
Qed.

Lemma numberToString_head (v : Z) :
  exists d tail,
    JSON.numberToString v = d :: tail /\ (d = 45 \/ 48 <= d <= 57).
Proof.
  pose proof (to_int_intPart v) as Hint.
  unfold JSON.numberToString.
  destruct (Z.to_int v) as [u|u].
  - destruct (uintToString_head u Hint) as (d & tail & Hu & Hrange).
    exists d, tail. auto.
  - eexists. eexists. split; [reflexivity | left; reflexivity].
Qed.

(** One step of the value parser on a character that is not white
    space. *)
Lemma parseValue_step (f : nat) (c : Z) (r : jsstring) :
  JSON.isJsonWs c = false ->
  JSON.parseValue (S f) (c :: r) =
  if c =? 123 then
    match JSON.skipWs r with
    | 125 :: r' => Some (JSON.JObject [], r')
    | _ => JSON.parseMembers f r []
    end
  else if c =? 91 then
    match JSON.skipWs r with
    | 93 :: r' => Some (JSON.JArray [], r')
    | _ => JSON.parseElements f r []
    end
  else if c =? 34 then
    match JSON.parseStringBody r with
    | Some (t, rest) => Some (JSON.JString t, rest)
    | None => None
    end
  else if c =? 116 then
    option_map (pair (JSON.JBool true)) (JSON.dropPrefix (str "rue") r)
  else if c =? 102 then
    option_map (pair (JSON.JBool false)) (JSON.dropPrefix (str "alse") r)
  else if c =? 110 then
    option_map (pair JSON.JNull) (JSON.dropPrefix (str "ull") r)
  else
    match JSON.parseNumber (c :: r) with
    | Some (n, rest) => Some (JSON.JNumber n, rest)
    | None => None
    end.
Proof.
  intros H. cbn [JSON.parseValue JSON.skipWs]. rewrite H. reflexivity.
Qed.

Lemma parseValue_number (f : nat) (v c : Z) (rest : jsstring) :
  c = 44 \/ c = 125 ->
  JSON.parseValue (S f) (JSON.numberToString v ++ c :: rest)
  = Some (JSON.JNumber v, c :: rest).
Proof.
  intros Hc.
  pose proof (parseNumber_print v c rest Hc) as Hp.
  destruct (numberToString_head v) as (d & tail & Hn & Hd).
  rewrite Hn in *. cbn [app] in *.
  rewrite parseValue_step
    by (unfold JSON.isJsonWs; destruct Hd; decide_Zb; reflexivity).
  destruct Hd; decide_Zb; rewrite Hp; reflexivity.
Qed.

Lemma parseValue_string (f : nat) (s rest : jsstring) :
  Forall code_unit s ->
  JSON.parseValue (S f) (stringText s rest) = Some (JSON.JString s, rest).
Proof.
  intros Hs. unfold stringText.
  rewrite parseValue_step by reflexivity. cbn [Z.eqb Pos.eqb].
  rewrite (parseStringBody_quote s rest Hs). reflexivity.
Qed.

(** One step of the member parser. *)
Lemma parseMembers_step (f : nat) (r : jsstring)
  (acc : list (jsstring * JSON.JSValue)) :
  JSON.parseMembers (S f) (34 :: r) acc =
  match JSON.parseStringBody r with
  | Some (k, r1) =>
      match JSON.skipWs r1 with
      | 58 :: r2 =>
          match JSON.parseValue f r2 with
          | Some (v, r3) =>
              match JSON.skipWs r3 with
              | 44 :: r4 => JSON.parseMembers f r4 (JSON.setProperty acc k v)
              | 125 :: r4 =>
                  Some (JSON.JObject (JSON.setProperty acc k v), r4)
              | _ => None
              end
          | None => None
          end
      | _ => None
      end
  | None => None
  end.
Proof.
  reflexivity.
Qed.

(** A member followed by a comma: the parser records it and goes on. *)
Lemma parseMembers_comma (f : nat) (k X rest : jsstring) (v : JSON.JSValue)
  (acc : list (jsstring * JSON.JSValue)) :
  Forall code_unit k ->
  JSON.parseValue f X = Some (v, 44 :: rest) ->
  JSON.parseMembers (S f) (memberText k X) acc
  = JSON.parseMembers f rest (JSON.setProperty acc k v).
Proof.
  intros Hk Hv. unfold memberText.
  rewrite parseMembers_step, (parseStringBody_quote k _ Hk).
  cbn [JSON.skipWs JSON.isJsonWs Z.eqb Pos.eqb orb].
  rewrite Hv. reflexivity.
Qed.

(** A member followed by the closing brace: the object is complete. *)
Lemma parseMembers_close (f : nat) (k X rest : jsstring) (v : JSON.JSValue)
  (acc : list (jsstring * JSON.JSValue)) :
  Forall code_unit k ->
  JSON.parseValue f X = Some (v, 125 :: rest) ->
  JSON.parseMembers (S f) (memberText k X) acc
  = Some (JSON.JObject (JSON.setProperty acc k v), rest).
Proof.
  intros Hk Hv. unfold memberText.
  rewrite parseMembers_step, (parseStringBody_quote k _ Hk).
  cbn [JSON.skipWs JSON.isJsonWs Z.eqb Pos.eqb orb].
  rewrite Hv. reflexivity.
Qed.

(** An opening brace followed by a member. *)
Lemma parseValue_object (f : nat) (k X : jsstring) :
  JSON.parseValue (S f) (123 :: memberText k X)
  = JSON.parseMembers f (memberText k X) [].
Proof.
  reflexivity.
Qed.

Section EnvelopeParse.
Variables k1 k2 k3 k4 k5 : jsstring.
Hypothesis Hk1 : Forall code_unit k1.
Hypothesis Hk2 : Forall code_unit k2.
Hypothesis Hk3 : Forall code_unit k3.
Hypothesis Hk4 : Forall code_unit k4.
Hypothesis Hk5 : Forall code_unit k5.
Hypothesis H12 : eqb_list k1 k2 = false.
Hypothesis H13 : eqb_list k1 k3 = false.
Hypothesis H14 : eqb_list k1 k4 = false.
Hypothesis H23 : eqb_list k2 k3 = false.
Hypothesis H24 : eqb_list k2 k4 = false.
Hypothesis H34 : eqb_list k3 k4 = false.

(** With enough fuel the parser reads the text of an envelope-shaped
    object back, for pairwise different top-level keys. *)
Lemma parseValue_envelopeWith (f : nat) (v : Z) (s n t : jsstring) :
  Forall code_unit s -> Forall code_unit n -> Forall code_unit t ->
  JSON.parseValue (8 + f) (envelopeTextWith k1 k2 k3 k4 k5 v s n t)
  = Some (envelopeWith k1 k2 k3 k4 k5 v s n t, []).
Proof.
  intros Hs Hn Ht. unfold envelopeTextWith, envelopeWith.
  change (8 + f)%nat with (S (S (S (S (S (S (S (S f)))))))).
  rewrite parseValue_object.
  rewrite (parseMembers_comma _ k1 _ _ (JSON.JNumber v) [] Hk1)
    by (apply parseValue_number; left; reflexivity).
  rewrite (parseMembers_comma _ k2 _ _ (JSON.JString s) _ Hk2)
    by (apply parseValue_string; exact Hs).
  rewrite (parseMembers_comma _ k3 _ _ (JSON.JString n) _ Hk3)
    by (apply parseValue_string; exact Hn).
  rewrite (parseMembers_close _ k4 _ []
             (JSON.JObject [(k5, JSON.JString t)]) _ Hk4).
  - cbn [JSON.setProperty]. rewrite H12. cbn [JSON.setProperty].
    rewrite H13, H23. cbn [JSON.setProperty]. rewrite H14, H24, H34.
    reflexivity.
  - rewrite parseValue_object.
    rewrite (parseMembers_close _ k5 _ [125] (JSON.JString t) [] Hk5)
      by (apply parseValue_string; exact Ht).
    reflexivity.
Qed.

Lemma envelopeTextWith_length (v : Z) (s n t : jsstring) :
  (7 <= List.length (envelopeTextWith k1 k2 k3 k4 k5 v s n t))%nat.
Proof.
  unfold envelopeTextWith, memberText.
  cbn [List.length]. rewrite length_app. cbn [List.length].
  rewrite length_app. cbn [List.length]. rewrite length_app.
  cbn [List.length]. lia.
Qed.

(** [JSON.parse] reads the text of an envelope-shaped object back. *)
Lemma parse_envelopeTextWith (v : Z) (s n t : jsstring) :
  Forall code_unit s -> Forall code_unit n -> Forall code_unit t ->
  JSON.parse (envelopeTextWith k1 k2 k3 k4 k5 v s n t)
  = Some (envelopeWith k1 k2 k3 k4 k5 v s n t).
Proof.
  intros Hs Hn Ht. unfold JSON.parse.
  pose proof (envelopeTextWith_length v s n t) as Hlen.
  assert (Hf : exists f,
             S (List.length (envelopeTextWith k1 k2 k3 k4 k5 v s n t))
             = (8 + f)%nat).
  { exists (List.length (envelopeTextWith k1 k2 k3 k4 k5 v s n t) - 7)%nat.
    lia. }
  destruct Hf as [f ->].
  rewrite (parseValue_envelopeWith f v s n t Hs Hn Ht). reflexivity.
Qed.

End EnvelopeParse.

Lemma str_code_units (s : string) : Forall code_unit (str s).
Proof.
  unfold str. apply Forall_forall. intros c Hin.
  apply in_map_iff in Hin as (a & <- & _).
  unfold code_unit.
  pose proof (N_ascii_bounded a) as Hb. lia.
Qed.

(** [JSON.parse] reads the text of the envelope back. *)
Lemma parse_envelopeText (v : Z) (s n t : jsstring) :
  Forall code_unit s -> Forall code_unit n -> Forall code_unit t ->
  JSON.parse (envelopeText v s n t) = Some (envelope v s n t).
Proof.
  intros Hs Hn Ht.
  apply parse_envelopeTextWith;
    try apply str_code_units; try assumption; reflexivity.
Qed.

(** The JSON text of an envelope is well-formed UTF-16. *)
Lemma wf_envelopeText (v : Z) (s n t : jsstring) :
  Forall code_unit s -> Forall code_unit n -> Forall code_unit t ->
  WellFormed (envelopeText v s n t).
Proof.
  intros Hs Hn Ht.
  assert (Hq : forall c X, ascii7 c -> WellFormed X -> WellFormed (c :: X)).
  { intros c X Hc HX. apply (wf_app [c]); [|exact HX].
    apply wf_ascii. constructor; [exact Hc | constructor]. }
  assert (Hm : forall k X, Forall code_unit k -> WellFormed X ->
                           WellFormed (memberText k X)).
  { intros k X Hk HX. unfold memberText.
    apply Hq; [unfold ascii7; lia|].
    apply wf_app; [apply wf_quoteBody, Hk|].
    apply Hq; [unfold ascii7; lia|]. apply Hq; [unfold ascii7; lia | exact HX]. }
  assert (Hstr : forall k X, Forall code_unit k -> WellFormed X ->
                             WellFormed (stringText k X)).
  { intros k X Hk HX. unfold stringText.
    apply Hq; [unfold ascii7; lia|].
    apply wf_app; [apply wf_quoteBody, Hk|].
    apply Hq; [unfold ascii7; lia | exact HX]. }
  unfold envelopeText, envelopeTextWith.
  apply Hq; [unfold ascii7; lia|].
  apply Hm; [apply str_code_units|].
  apply wf_app; [apply wf_ascii, numberToString_ascii|].
  apply Hq; [unfold ascii7; lia|].
  apply Hm; [apply str_code_units|].
  apply Hstr; [exact Hs|].
  apply Hq; [unfold ascii7; lia|].
  apply Hm; [apply str_code_units|].
  apply Hstr; [exact Hn|].
  apply Hq; [unfold ascii7; lia|].
  apply Hm; [apply str_code_units|].
  apply Hq; [unfold ascii7; lia|].
  apply Hm; [apply str_code_units|].
  apply Hstr; [exact Ht|].
  apply wf_ascii. repeat (apply Forall_cons; [unfold ascii7; lia|]).
  constructor.
Qed.

(** ** Header round trip *)

Lemma base64_char_ascii (i : Z) : ascii7 (Base64.char i).
Proof.
  unfold Base64.char.
  destruct (nth_in_or_default (Z.to_nat i) Base64.alphabet 0) as [Hin| ->];
    [|unfold ascii7; lia].
  assert (Hall : Forall ascii7 Base64.alphabet)
    by (unfold Base64.alphabet;
        repeat (apply Forall_cons; [unfold ascii7; lia|]); constructor).
  exact (proj1 (Forall_forall ascii7 Base64.alphabet) Hall _ Hin).
Qed.

Lemma base64_encode_ascii_upto (n : nat) (bs : list Z) :
  (List.length bs <= n)%nat -> Forall ascii7 (Base64.encode bs).
Proof.
  revert bs. induction n as [|n IH]; intros bs Hlen.
  - destruct bs; [constructor | simpl in Hlen; lia].
  - destruct bs as [|a [|b [|c r]]]; cbn [Base64.encode];
      repeat (apply Forall_cons;
              [first [apply base64_char_ascii
                     | unfold ascii7, Base64.pad; lia]|]);
      try constructor.
    apply IH. simpl in Hlen. lia.
Qed.

(** Base64 text is made of code units. *)
Lemma base64_encode_code_units (bs : list Z) :
  Forall code_unit (Base64.encode bs).
Proof.
  apply Forall_forall. intros c Hin.
  pose proof (proj1 (Forall_forall ascii7 _)
                (base64_encode_ascii_upto (List.length bs) bs (le_n _)) c Hin)
    as Hc.
  unfold ascii7 in Hc. unfold code_unit. lia.
Qed.

(** The header of an envelope, and what decoding it gives. *)
Lemma header_roundtrip (v : Z) (s n t : jsstring) :
  Forall code_unit s -> Forall code_unit n -> Forall code_unit t ->
  encodeHeader (envelope v s n t)
  = Ok (Base64.encode (Utf8.encode (envelopeText v s n t))) /\
  decodeHeader (Base64.encode (Utf8.encode (envelopeText v s n t)))
  = Some (envelope v s n t).
Proof.
  intros Hs Hn Ht. split.
  - unfold encodeHeader. rewrite stringify_envelope. reflexivity.
  - unfold decodeHeader.
    pose proof (wf_envelopeText v s n t Hs Hn Ht) as Hwf.
    rewrite (base64_roundtrip _ (utf8_encode_bytes _ Hwf)).
    rewrite (utf8_roundtrip _ Hwf).
    apply parse_envelopeText; assumption.
Qed.


(** C6: for a well-formed envelope (an integer version, strings for
    scheme, network and transaction) the header is produced, and decoding
    it, base64 then UTF-8 then JSON, gives the envelope back unchanged. *)
Theorem C6_header_roundtrip :
  forall (version : Z) (scheme network transaction : jsstring),
    safeInteger version ->
    codeUnits scheme -> codeUnits network -> codeUnits transaction ->
    exists h,
      encodeHeader (envelope version scheme network transaction) = Ok h /\
      decodeHeader h = Some (envelope version scheme network transaction).
Proof.
  intros v s n t _ Hs Hn Ht. unfold codeUnits in *.
  exists (Base64.encode (Utf8.encode (envelopeText v s n t))).
  exact (header_roundtrip v s n t Hs Hn Ht).
Qed.

Lemma C6_header_roundtrip_witness :
  exists h,
    encodeHeader
      (envelope 1 (str "exact") (str "solana-devnet") (str "AQADAA==")) = Ok h /\
    decodeHeader h
    = Some (envelope 1 (str "exact") (str "solana-devnet") (str "AQADAA==")).
Proof.
  apply C6_header_roundtrip.
  - unfold safeInteger. lia.
  - apply str_code_units.
  - apply str_code_units.
  - apply str_code_units.
Defined.

(** ** First option only *)

(** C5: with at least one option the parser takes option 0 and nothing
    else: the options that follow change neither the parse nor the
    payment, and the envelope in the header carries the scheme and network
    of option 0 (with the challenge's version): it is the one encoded,
    and, when version, scheme and network are present, the one a receiver
    decodes. *)
Theorem C5_first_option_only :
  forall sdk connection kp version err (a : Accept.t)
    (rest rest' : list (option Accept.t)),
    let c := {| x402Version := version; error := err;
                accepts := Some (Some a :: rest) |} in
    let c' := {| x402Version := version; error := err;
                 accepts := Some (Some a :: rest') |} in
    (exists p, parseChallenge c = Ok p /\ parseChallenge c' = Ok p /\
               Parsed.scheme p = Accept.scheme a /\
               Parsed.network p = Accept.network a /\
               Parsed.payTo p = Accept.payTo a /\
               Parsed.amountRaw p = Accept.maxAmountRequired a) /\
    createPayment sdk connection kp c = createPayment sdk connection kp c' /\
    (forall proof,
        createPayment sdk connection kp c = Ok proof ->
        exists transaction,
          encodeHeader
            (JSON.JObject
               [(str "x402Version", optionalNumber version);
                (str "scheme", optionalString (Accept.scheme a));
                (str "network", optionalString (Accept.network a));
                (str "payload",
                 JSON.JObject
                   [(str "transaction", JSON.JString transaction)])])
          = Ok (header proof) /\
          forall v s n,
            version = Some v -> Accept.scheme a = Some s ->
            Accept.network a = Some n -> codeUnits s -> codeUnits n ->
            decodeHeader (header proof) = Some (envelope v s n transaction)).
Proof.
  intros sdk connection kp version err a rest rest' c c'.
  split; [|split].
  - eexists. repeat split.
  - reflexivity.
  - intros proof H.
    apply createPayment_inv in H as (p & m & signed & h & Hp & _ & _ & Hh & ->).
    injection Hp as <-.
    exists (Base64.encode signed). split; [exact Hh|].
    intros v s n -> Hs Hn Hcs Hcn. cbn [header].
    unfold paymentPayload in Hh. cbn [Parsed.x402Version Parsed.scheme
      Parsed.network] in Hh. rewrite Hs, Hn in Hh.
    destruct (header_roundtrip v s n (Base64.encode signed) Hcs Hcn
                (base64_encode_code_units signed)) as [Henc Hdec].
    assert (Heq : h = Base64.encode
                        (Utf8.encode
                           (envelopeText v s n (Base64.encode signed))))
      by (change (encodeHeader (envelope v s n (Base64.encode signed)) = Ok h)
            in Hh; congruence).
    rewrite Heq. exact Hdec.
Qed.

Lemma C5_first_option_only_witness :
  exists proof,
    createPayment Fixture.sdk (Fixture.connection 500000) Fixture.payer
      {| x402Version := Some 1;
         error := None;
         accepts :=
           Some [Some (Fixture.accept "exact" "500000" Fixture.usdc None);
                 Some (Fixture.accept "upto" "7" Fixture.wrappedSol None)] |}
    = Ok proof /\
    exists transaction,
      decodeHeader (header proof)
      = Some (envelope 1 (str "exact") (str "solana-devnet") transaction).
Proof.
  exists_value.
  destruct (proj2 (proj2 (C5_first_option_only Fixture.sdk
                            (Fixture.connection 500000) Fixture.payer
                            (Some 1) None
                            (Fixture.accept "exact" "500000" Fixture.usdc
                               None)
                            [Some (Fixture.accept "upto" "7"
                                     Fixture.wrappedSol None)]
                            [])) _ ltac:(vm_compute; reflexivity))
    as (transaction & _ & Hdec).
  exists transaction.
  apply (Hdec 1 (str "exact") (str "solana-devnet") eq_refl eq_refl eq_refl).
  - apply str_code_units.
  - apply str_code_units.
Defined.

(** The scenario of the design: two options with different schemes; the
    decoded header shows the scheme and network of option 0 only. *)
Example two_options_header :
  match createPayment Fixture.sdk (Fixture.connection 500000) Fixture.payer
          (Fixture.challenge
             [Fixture.accept "exact" "500000" Fixture.usdc None;
              Fixture.accept "upto" "7" Fixture.wrappedSol None]) with
  | Ok proof => decodeHeader (header proof)
  | Throw _ => None
  end
  = Some (envelope 1 (str "exact") (str "solana-devnet") (str "AVwDXA==")).
Proof.
  vm_compute. reflexivity.
Qed.

(** * Properties of the rest of the program *)

(** ** Positional notation *)

Lemma valueOf_snoc (B : Z) (ds : list Z) (d : Z) :
  valueOf B (ds ++ [d]) = valueOf B ds * B + d.
Proof. unfold valueOf. rewrite fold_left_app. reflexivity. Qed.

Lemma digitsFrom_acc (f : nat) (B n : Z) (acc : list Z) :
  Bs58.digitsFrom f B n acc = Bs58.digitsFrom f B n [] ++ acc.
Proof.
  revert n acc. induction f as [|f IH]; intros n acc; [reflexivity|].
  cbn [Bs58.digitsFrom]. destruct (n <=? 0); [reflexivity|].
  rewrite (IH _ (n mod B :: acc)), (IH _ [n mod B]), <- app_assoc.
  reflexivity.
Qed.

Lemma digitsFrom_zero (f : nat) (B n : Z) :
  n <= 0 -> Bs58.digitsFrom f B n [] = [].
Proof.
  intros Hn. destruct f; [reflexivity|]. cbn [Bs58.digitsFrom].
  destruct (Z.leb_spec n 0); [reflexivity | lia].
Qed.

Lemma digitsFrom_step (f : nat) (B n : Z) :
  0 < n ->
  Bs58.digitsFrom (S f) B n [] = Bs58.digitsFrom f B (n / B) [] ++ [n mod B].
Proof.
  intros Hn. cbn [Bs58.digitsFrom].
  destruct (Z.leb_spec n 0); [lia|]. apply digitsFrom_acc.
Qed.

Lemma canonical_positive (B : Z) (ds : list Z) :
  2 <= B -> canonical B ds -> ds <> [] -> 0 < valueOf B ds.
Proof.
  intros HB [Hall Hhd] Hne.
  destruct ds as [|d ds]; [contradiction|]. clear Hne.
  apply Forall_cons_iff in Hall as [Hd Hall].
  unfold valueOf. cbn [fold_left]. replace (0 * B + d) with d by lia.
  assert (Hpos : 0 < d) by lia. clear Hhd Hd.
  revert d Hpos. induction Hall as [|x l Hx _ IH]; intros d Hpos; [exact Hpos|].
  cbn [fold_left]. apply IH. nia.
Qed.

Lemma canonical_prefix (B : Z) (ds : list Z) (d : Z) :
  canonical B (ds ++ [d]) -> canonical B ds /\ 0 <= d < B /\ (ds = [] -> d <> 0).
Proof.
  intros [Hall Hhd]. apply Forall_app in Hall as [Hds Hd].
  apply Forall_cons_iff in Hd as [Hd _].
  split; [split; [exact Hds|]|split; [exact Hd|]].
  - destruct ds; [exact I | exact Hhd].
  - intros ->. exact Hhd.
Qed.

(** The digits of the number a canonical digit string spells are that
    string. *)
Lemma digitsFrom_valueOf (B : Z) (ds : list Z) :
  2 <= B -> canonical B ds ->
  forall f, (List.length ds <= f)%nat ->
            Bs58.digitsFrom f B (valueOf B ds) [] = ds.
Proof.
  intros HB. induction ds as [|d ds IH] using rev_ind; intros Hc f Hlen.
  - apply digitsFrom_zero. unfold valueOf. simpl. lia.
  - apply canonical_prefix in Hc as (Hds & Hd & Hne).
    rewrite length_app in Hlen. simpl in Hlen.
    destruct f as [|f]; [lia|].
    rewrite valueOf_snoc.
    assert (Hv : 0 <= valueOf B ds).
    { destruct ds as [|x l]; [unfold valueOf; simpl; lia|].
      pose proof (canonical_positive B (x :: l) HB Hds ltac:(discriminate)). lia. }
    assert (Hpos : 0 < valueOf B ds * B + d).
    { destruct ds as [|x l].
      - specialize (Hne eq_refl). unfold valueOf. simpl. lia.
      - pose proof (canonical_positive B (x :: l) HB Hds ltac:(discriminate)).
        nia. }
    rewrite digitsFrom_step by exact Hpos.
    replace ((valueOf B ds * B + d) / B) with (valueOf B ds)
      by (apply Z.div_unique with d; lia).
    replace ((valueOf B ds * B + d) mod B) with d
      by (apply Z.mod_unique with (valueOf B ds); lia).
    rewrite (IH Hds f) by lia. reflexivity.
Qed.

Lemma canonical_bounds (B : Z) (ds : list Z) :
  2 <= B -> canonical B ds -> ds <> [] ->
  B ^ (Z.of_nat (List.length ds) - 1) <= valueOf B ds
  < B ^ Z.of_nat (List.length ds).
Proof.
  intros HB. induction ds as [|d ds IH] using rev_ind; intros Hc Hne;
    [contradiction|]. clear Hne.
  apply canonical_prefix in Hc as (Hds & Hd & Hne).
  rewrite valueOf_snoc, length_app. cbn [List.length].
  destruct ds as [|x l].
  - specialize (Hne eq_refl). unfold valueOf.
    cbn [fold_left app List.length Nat.add]. change (Z.of_nat 1) with 1.
    replace (1 - 1) with 0 by lia. rewrite Z.pow_0_r, Z.pow_1_r. lia.
  - specialize (IH Hds ltac:(discriminate)).
    set (L := List.length (x :: l)) in *.
    assert (HL : (1 <= L)%nat) by (unfold L; simpl; lia).
    replace (Z.of_nat (L + 1) - 1) with (Z.succ (Z.of_nat L - 1)) by lia.
    replace (Z.of_nat (L + 1)) with (Z.succ (Z.of_nat L)) by lia.
    rewrite !Z.pow_succ_r by lia.
    assert (0 < B ^ (Z.of_nat L - 1)) by (apply Z.pow_pos_nonneg; lia).
    nia.
Qed.

Lemma pow2_le_pow (B k : Z) : 2 <= B -> 0 <= k -> 2 ^ k <= B ^ k.
Proof. intros HB Hk. apply Z.pow_le_mono_l. lia. Qed.

Lemma digits_valueOf (B : Z) (ds : list Z) :
  2 <= B -> canonical B ds -> Bs58.digits B (valueOf B ds) = ds.
Proof.
  intros HB Hc. unfold Bs58.digits. apply digitsFrom_valueOf; [exact HB | exact Hc|].
  destruct ds as [|x l]; [simpl; lia|].
  pose proof (canonical_bounds B (x :: l) HB Hc ltac:(discriminate)) as [Hlo _].
  pose proof (canonical_positive B (x :: l) HB Hc ltac:(discriminate)) as Hpos.
  set (L := List.length (x :: l)) in *.
  assert (HL : (1 <= L)%nat) by (unfold L; simpl; lia).
  assert (H2 : 2 ^ (Z.of_nat L - 1) <= valueOf B (x :: l)).
  { apply Z.le_trans with (B ^ (Z.of_nat L - 1));
      [apply pow2_le_pow; lia | exact Hlo]. }
  apply Z.log2_le_pow2 in H2; [|lia].
  pose proof (Z.log2_nonneg (valueOf B (x :: l))).
  rewrite <- (Nat2Z.id L). apply Z2Nat.inj_le in H2; try lia.
Qed.

Lemma digitsFrom_spec (B : Z) :
  2 <= B ->
  forall f n, 0 <= n < 2 ^ Z.of_nat f ->
    valueOf B (Bs58.digitsFrom f B n []) = n /\
    canonical B (Bs58.digitsFrom f B n []) /\
    (0 < n -> Bs58.digitsFrom f B n [] <> []).
Proof.
  intros HB. induction f as [|f IH]; intros n Hn.
  - simpl in Hn. assert (n = 0) by lia. subst n.
    repeat split; try constructor; lia.
  - destruct (Z.eq_dec n 0) as [->|Hne].
    + rewrite digitsFrom_zero by lia.
      repeat split; try constructor; lia.
    + rewrite digitsFrom_step by lia.
      rewrite Nat2Z.inj_succ, Z.pow_succ_r in Hn by lia.
      assert (Hq : 0 <= n / B < 2 ^ Z.of_nat f).
      { split; [apply Z.div_pos; lia|].
        apply Z.div_lt_upper_bound; [lia|].
        assert (0 < 2 ^ Z.of_nat f) by (apply Z.pow_pos_nonneg; lia). nia. }
      destruct (IH (n / B) Hq) as (Hv & [Hall Hhd] & Hnn).
      pose proof (Z.mod_pos_bound n B ltac:(lia)) as Hm.
      pose proof (Z.div_mod n B ltac:(lia)) as Hdm.
      split; [rewrite valueOf_snoc, Hv; lia|].
      split; [|intros _; destruct (Bs58.digitsFrom f B (n / B) []); discriminate].
      split; [apply Forall_app; split; [exact Hall | constructor; [lia | constructor]]|].
      destruct (Bs58.digitsFrom f B (n / B) []) as [|x l] eqn:E.
      * cbn [app]. destruct (Z.eq_dec (n / B) 0) as [Hz|Hz].
        -- rewrite Hz in Hdm. lia.
        -- exfalso. apply (Hnn ltac:(lia)). reflexivity.
      * exact Hhd.
Qed.

Lemma digits_spec (B n : Z) :
  2 <= B -> 0 <= n ->
  valueOf B (Bs58.digits B n) = n /\ canonical B (Bs58.digits B n) /\
  (0 < n -> Bs58.digits B n <> []).
Proof.
  intros HB Hn. unfold Bs58.digits. apply digitsFrom_spec; [exact HB|].
  split; [exact Hn|].
  rewrite Nat2Z.inj_succ, Z2Nat.id by apply Z.log2_nonneg.
  destruct (Z.eq_dec n 0) as [->|Hne]; [reflexivity|].
  apply Z.log2_spec. lia.
Qed.

(** ** Base58 text *)

Lemma digits58_ok : forallb digit58Ok (seq 0 58) = true.
Proof. vm_compute. reflexivity. Qed.

Lemma base58_char (d : Z) :
  0 <= d < 58 ->
  Base58.indexOf (Bs58.char d) Base58.alphabet 0 = Some d /\
  ((Bs58.char d =? 49) = (d =? 0)).
Proof.
  intros Hd.
  pose proof (proj1 (forallb_forall digit58Ok (seq 0 58)) digits58_ok
                (Z.to_nat d)) as H.
  assert (Hin : In (Z.to_nat d) (seq 0 58)) by (apply in_seq; lia).
  specialize (H Hin). unfold digit58Ok in H.
  rewrite Z2Nat.id in H by lia.
  destruct (Base58.indexOf (Bs58.char d) Base58.alphabet 0) as [j|];
    [|discriminate].
  apply andb_true_iff in H as [Hj Hone].
  apply Z.eqb_eq in Hj. subst j. split; [reflexivity|].
  apply Bool.eqb_prop in Hone. rewrite Hone.
  destruct (Z.eqb_spec d 0) as [->|Hne]; [reflexivity|].
  apply Nat.eqb_neq. lia.
Qed.

Lemma value_text (ds : list Z) (acc : Z) :
  Forall (fun d => 0 <= d < 58) ds ->
  Base58.value (map Bs58.char ds) acc
  = Some (fold_left (fun a d => a * 58 + d) ds acc).
Proof.
  intros Hall. revert acc.
  induction Hall as [|d ds Hd _ IH]; intros acc; [reflexivity|].
  cbn [map Base58.value fold_left].
  destruct (base58_char d Hd) as [-> _]. apply IH.
Qed.

Lemma value_ones (k : nat) (s : jsstring) :
  Base58.value (repeat 49 k ++ s) 0 = Base58.value s 0.
Proof.
  induction k as [|k IH]; [reflexivity|].
  cbn [repeat app Base58.value].
  change (Base58.indexOf 49 Base58.alphabet 0) with (Some 0).
  exact IH.
Qed.

Lemma leadingOnes_text (k : nat) (ds : list Z) :
  canonical 58 ds ->
  Base58.leadingOnes (repeat 49 k ++ map Bs58.char ds) = Z.of_nat k.
Proof.
  intros [Hall Hhd]. induction k as [|k IH].
  - cbn [repeat app]. destruct ds as [|d ds]; [reflexivity|].
    apply Forall_cons_iff in Hall as [Hd _].
    cbn [map Base58.leadingOnes].
    destruct (base58_char d Hd) as [_ ->].
    destruct (Z.eqb_spec d 0); [contradiction | reflexivity].
  - cbn [repeat app Base58.leadingOnes]. rewrite IH.
    change (49 =? 49) with true. cbv iota. lia.
Qed.

(** A byte string is its leading zeros followed by canonical digits of
    base 256. *)
Lemma strip_zeros (bs : list Z) :
  Forall byte bs ->
  exists bs',
    bs = repeat 0 (Bs58.leadingZeros bs) ++ bs' /\ canonical 256 bs' /\
    Bs58.ofBytes bs = valueOf 256 bs'.
Proof.
  induction 1 as [|b bs Hb Hall IH].
  - exists []. repeat split. constructor.
  - cbn [Bs58.leadingZeros]. destruct (Z.eqb_spec b 0) as [->|Hne].
    + destruct IH as (bs' & Hbs & Hc & Hv). exists bs'.
      cbn [repeat app]. split; [congruence|]. split; [exact Hc|].
      rewrite <- Hv. reflexivity.
    + exists (b :: bs). cbn [repeat app]. split; [reflexivity|].
      split; [|reflexivity]. split; [|exact Hne].
      constructor; [exact Hb | exact Hall].
Qed.

Lemma ofBytes_nonneg (bs : list Z) : Forall byte bs -> 0 <= Bs58.ofBytes bs.
Proof.
  intros Hall. destruct (strip_zeros bs Hall) as (bs' & _ & Hc & ->).
  destruct bs' as [|x l]; [unfold valueOf; simpl; lia|].
  pose proof (canonical_positive 256 (x :: l) ltac:(lia) Hc ltac:(discriminate)).
  lia.
Qed.

(** [bs58.decode] reads back what [bs58.encode] wrote. *)
Lemma bs58_roundtrip (bs : list Z) :
  Forall byte bs -> Bs58.decode (Bs58.encode bs) = Some bs.
Proof.
  intros Hall.
  pose proof (ofBytes_nonneg bs Hall) as Hn.
  destruct (digits_spec 58 (Bs58.ofBytes bs) ltac:(lia) Hn) as (Hv & Hc & _).
  destruct (strip_zeros bs Hall) as (bs' & Hbs & Hc' & Hv').
  unfold Bs58.decode, Bs58.encode.
  rewrite value_ones, (value_text _ 0 (proj1 Hc)).
  fold (valueOf 58 (Bs58.digits 58 (Bs58.ofBytes bs))). rewrite Hv.
  rewrite (leadingOnes_text _ _ Hc), Nat2Z.id.
  rewrite Hv', (digits_valueOf 256 bs' ltac:(lia) Hc'), <- Hbs.
  reflexivity.
Qed.

(** The byte-level decoder agrees with the length and number
    [new PublicKey] reads. *)
Lemma byteLength_digits (n : Z) :
  0 <= n -> Z.of_nat (List.length (Bs58.digits 256 n)) = Base58.byteLength n.
Proof.
  intros Hn. unfold Base58.byteLength.
  destruct (digits_spec 256 n ltac:(lia) Hn) as (Hv & Hc & Hne).
  destruct (Z.leb_spec n 0) as [H0|Hpos].
  - assert (n = 0) by lia. subst n. reflexivity.
  - specialize (Hne Hpos).
    pose proof (canonical_bounds 256 _ ltac:(lia) Hc Hne) as [Hlo Hhi].
    rewrite Hv in Hlo, Hhi.
    set (L := Z.of_nat (List.length (Bs58.digits 256 n))) in *.
    assert (HL : 1 <= L).
    { unfold L. destruct (Bs58.digits 256 n); [contradiction | simpl; lia]. }
    clearbody L.
    change 256 with (2 ^ 8) in Hlo, Hhi.
    rewrite <- Z.pow_mul_r in Hlo, Hhi by lia.
    apply Z.log2_le_pow2 in Hlo; [|lia].
    apply Z.log2_lt_pow2 in Hhi; [|lia].
    assert (Z.log2 n / 8 = L - 1); [|lia].
    symmetry. apply Z.div_unique with (Z.log2 n - 8 * (L - 1)); lia.
Qed.

Lemma indexOf_nonneg (c : Z) (l : list Z) (i d : Z) :
  Base58.indexOf c l i = Some d -> i <= d.
Proof.
  revert i. induction l as [|x l IH]; intros i; [discriminate|].
  cbn [Base58.indexOf]. destruct (x =? c).
  - intros [= <-]. lia.
  - intros H. apply IH in H. lia.
Qed.

Lemma value_nonneg (s : jsstring) (acc n : Z) :
  Base58.value s acc = Some n -> 0 <= acc -> 0 <= n.
Proof.
  revert acc. induction s as [|c s IH]; intros acc.
  - intros [= <-] H. exact H.
  - cbn [Base58.value].
    destruct (Base58.indexOf c Base58.alphabet 0) as [d|] eqn:Hd;
      [|discriminate].
    apply indexOf_nonneg in Hd. intros H Hacc. apply (IH _ H). lia.
Qed.

Lemma leadingOnes_nonneg (s : jsstring) : 0 <= Base58.leadingOnes s.
Proof.
  induction s as [|c s IH]; [simpl; lia|].
  cbn [Base58.leadingOnes]. destruct (c =? 49); lia.
Qed.

Lemma ofBytes_zeros (k : nat) (bs : list Z) :
  Bs58.ofBytes (repeat 0 k ++ bs) = Bs58.ofBytes bs.
Proof.
  induction k as [|k IH]; [reflexivity|]. exact IH.
Qed.

(** The byte-level decoder agrees with the length and the number that
    [new PublicKey] reads. *)
Lemma decode_agrees (s : jsstring) (bs : list Z) :
  Bs58.decode s = Some bs ->
  Base58.decode s = Some (Z.of_nat (List.length bs), Bs58.ofBytes bs).
Proof.
  unfold Bs58.decode, Base58.decode.
  destruct (Base58.value s 0) as [n|] eqn:Hv; [|discriminate].
  intros [= <-].
  pose proof (value_nonneg s 0 n Hv ltac:(lia)) as Hn.
  pose proof (leadingOnes_nonneg s) as Hl.
  destruct (digits_spec 256 n ltac:(lia) Hn) as (Hval & _ & _).
  rewrite length_app, repeat_length, Nat2Z.inj_add, Z2Nat.id by exact Hl.
  rewrite (byteLength_digits n Hn), ofBytes_zeros.
  unfold Bs58.ofBytes. fold (valueOf 256 (Bs58.digits 256 n)). rewrite Hval.
  reflexivity.
Qed.

Lemma toBytes_spec (k : Z) :
  0 <= k < 2 ^ 256 ->
  Forall byte (toBytes k) /\ List.length (toBytes k) = 32%nat /\
  Bs58.ofBytes (toBytes k) = k.
Proof.
  intros Hk. unfold toBytes. cbv zeta.
  destruct (digits_spec 256 k ltac:(lia) (proj1 Hk)) as (Hv & [Hall _] & _).
  pose proof (byteLength_digits k (proj1 Hk)) as Hlen.
  assert (Hle : Base58.byteLength k <= 32).
  { unfold Base58.byteLength. destruct (Z.leb_spec k 0); [lia|].
    assert (Z.log2 k < 256) by (apply Z.log2_lt_pow2; lia).
    assert (Z.log2 k / 8 < 32) by (apply Z.div_lt_upper_bound; lia). lia. }
  split; [|split].
  - apply Forall_app. split.
    + apply Forall_forall. intros x Hx. apply repeat_spec in Hx. subst x.
      unfold byte. lia.
    + exact Hall.
  - rewrite length_app, repeat_length. change (Z.to_nat PUBLIC_KEY_LENGTH) with 32%nat.
    lia.
  - rewrite ofBytes_zeros. exact Hv.
Qed.

(** [new PublicKey] reads back what [toBase58] wrote. *)
Lemma publicKey_roundtrip (k : PublicKey) :
  0 <= k < 2 ^ 256 -> newPublicKey (Some (toBase58 k)) = Ok k.
Proof.
  intros Hk. destruct (toBytes_spec k Hk) as (Hall & Hlen & Hv).
  unfold newPublicKey, toBase58.
  rewrite (decode_agrees _ _ (bs58_roundtrip _ Hall)), Hlen, Hv.
  reflexivity.
Qed.

(** ** One amount, read twice *)

Lemma whitespace_no_digit (c : Z) :
  isWhiteSpace c = true -> digitValue c = None.
Proof.
  unfold isWhiteSpace. cbn [existsb]. intros H.
  repeat (apply orb_true_iff in H as [H|H];
          [apply Z.eqb_eq in H; subst c; reflexivity|]).
  discriminate.
Qed.

Lemma whitespace_no_radixDigit (R c : Z) :
  isWhiteSpace c = true -> radixDigit R c = None.
Proof.
  intros H. unfold radixDigit. rewrite (whitespace_no_digit c H). reflexivity.
Qed.

Lemma trimStart_head (s : jsstring) (c : Z) (r : jsstring) :
  trimStart s = c :: r -> isWhiteSpace c = false.
Proof.
  induction s as [|x s IH]; [discriminate|].
  cbn [trimStart]. destruct (isWhiteSpace x) eqn:Hx; [exact IH|].
  intros [= <- _]. exact Hx.
Qed.

Lemma trimStart_split (s : jsstring) :
  exists w, s = w ++ trimStart s /\ forallb isWhiteSpace w = true.
Proof.
  induction s as [|x s (w & Hs & Hw)]; [exists []; split; reflexivity|].
  cbn [trimStart]. destruct (isWhiteSpace x) eqn:Hx.
  - exists (x :: w). split; [cbn [app]; congruence|].
    cbn [forallb]. rewrite Hx, Hw. reflexivity.
  - exists []. split; reflexivity.
Qed.

Lemma trimEnd_split (t : jsstring) :
  exists w, t = trimEnd t ++ w /\ forallb isWhiteSpace w = true.
Proof.
  destruct (trimStart_split (rev t)) as (w & Ht & Hw).
  exists (rev w). split.
  - unfold trimEnd. rewrite <- rev_app_distr, <- Ht, rev_involutive.
    reflexivity.
  - rewrite forallb_rev. exact Hw.
Qed.

(** What [parseInt] reads is what [trim] leaves, followed by white
    space. *)
Lemma trimStart_trim (s : jsstring) :
  exists w, trimStart s = trim s ++ w /\ forallb isWhiteSpace w = true.
Proof. apply trimEnd_split. Qed.

Lemma whitespace_stops (R : Z) (w : jsstring) :
  forallb isWhiteSpace w = true -> stops R w.
Proof.
  destruct w as [|c w]; [exact (fun _ => I)|]. cbn [forallb stops].
  intros H. apply andb_true_iff in H as [H _].
  exact (whitespace_no_radixDigit R c H).
Qed.

Lemma digitsAll_prefix (R : Z) (s w : jsstring) (acc : Z) (seen : bool) (n : Z) :
  digitsAll R s acc seen = Some n -> stops R w ->
  digitsPrefix R (s ++ w) acc seen = Some n.
Proof.
  revert acc seen. induction s as [|c s IH]; intros acc seen H Hw.
  - cbn [digitsAll] in H. destruct seen; [|discriminate].
    cbn [app]. destruct w as [|x w]; [exact H|].
    cbn [stops] in Hw. cbn [digitsPrefix]. rewrite Hw. exact H.
  - cbn [digitsAll] in H. cbn [app digitsPrefix].
    destruct (radixDigit R c); [|discriminate]. exact (IH _ _ H Hw).
Qed.

Lemma digitsAll_head (R : Z) (s : jsstring) (n : Z) :
  digitsAll R s 0 false = Some n ->
  exists c r d, s = c :: r /\ radixDigit R c = Some d.
Proof.
  destruct s as [|c r]; [discriminate|]. cbn [digitsAll].
  destruct (radixDigit R c) as [d|] eqn:Hd; [|discriminate].
  intros _. exists c, r, d. split; [reflexivity | exact Hd].
Qed.

Lemma radixDigit10_range (c d : Z) :
  radixDigit 10 c = Some d -> 48 <= c <= 57.
Proof.
  unfold radixDigit, digitValue.
  destruct (Z.leb_spec 48 c); destruct (Z.leb_spec c 57); cbn [andb];
    try lia;
    destruct (Z.leb_spec 97 c); destruct (Z.leb_spec c 122); cbn [andb];
    try (destruct (Z.ltb_spec (c - 87) 10); [lia | discriminate]);
    destruct (Z.leb_spec 65 c); destruct (Z.leb_spec c 90); cbn [andb];
    try (destruct (Z.ltb_spec (c - 55) 10); [lia | discriminate]);
    discriminate.
Qed.

(** A decimal literal followed by white space has no [0x] prefix. *)
Lemma decimal_no_hex (ds w : jsstring) (v : Z) (acc : Z) (seen : bool) :
  digitsAll 10 ds acc seen = Some v -> forallb isWhiteSpace w = true ->
  match ds ++ w with
  | c :: x :: r =>
      match prefixRadix c x with
      | Some 16 => (16, r)
      | _ => (10, ds ++ w)
      end
  | _ => (10, ds ++ w)
  end = (10, ds ++ w).
Proof.
  intros Hds Hw.
  destruct (ds ++ w) as [|c [|x r]] eqn:E; try reflexivity.
  destruct (prefixRadix c x) as [R|] eqn:HR; [|reflexivity].
  assert (HR16 : R = 16 -> False).
  { intros ->. unfold prefixRadix in HR.
    destruct (Z.eqb_spec c 48) as [->|]; [|discriminate].
    assert (Hx : x = 120 \/ x = 88).
    { destruct (Z.eqb_spec x 120); [auto|].
      destruct (Z.eqb_spec x 88); [auto|].
      cbn [orb] in HR.
      destruct ((x =? 111) || (x =? 79)); [discriminate|].
      destruct ((x =? 98) || (x =? 66)); discriminate. }
    destruct ds as [|d0 [|d1 ds]].
    - cbn [app] in E. subst w. cbn [forallb] in Hw.
      apply andb_true_iff in Hw as [Hw _]. vm_compute in Hw. discriminate.
    - cbn [app] in E. injection E as _ E. subst w. cbn [forallb] in Hw.
      apply andb_true_iff in Hw as [Hw _].
      destruct Hx; subst x; vm_compute in Hw; discriminate.
    - cbn [app] in E. injection E as -> -> _.
      cbn [digitsAll] in Hds.
      destruct (radixDigit 10 48); [|discriminate].
      destruct (radixDigit 10 x) eqn:Hd; [|discriminate].
      apply radixDigit10_range in Hd. lia. }
  destruct R as [|p|p]; try reflexivity.
  destruct p as [p|p|]; try reflexivity.
  destruct p as [p|p|]; try reflexivity.
  destruct p as [p|p|]; try reflexivity.
  destruct p as [p|p|]; try reflexivity.
  destruct p as [p|p|]; try reflexivity.
  exfalso. apply HR16. reflexivity.
Qed.

Lemma finishParse (sign : bool) (v : Z) :
  0 <= v ->
  (if v =? 0 then S754_zero sign else ofInt (if sign then - v else v))
  = (if (if sign then - v else v) =? 0 then S754_zero sign
     else ofInt (if sign then - v else v)).
Proof.
  intros Hv. destruct sign; [|reflexivity].
  destruct (Z.eqb_spec v 0) as [->|Hne]; [reflexivity|].
  destruct (Z.eqb_spec (- v) 0); [lia | reflexivity].
Qed.

Lemma digitsAll_nonneg (R : Z) (s : jsstring) (acc : Z) (seen : bool) (n : Z) :
  0 <= R -> digitsAll R s acc seen = Some n -> 0 <= acc -> 0 <= n.
Proof.
  intros HR. revert acc seen. induction s as [|c s IH]; intros acc seen.
  - cbn [digitsAll]. destruct seen; [|discriminate]. intros [= <-] H. exact H.
  - cbn [digitsAll]. destruct (radixDigit R c) as [d|] eqn:Hd; [|discriminate].
    intros H Hacc. apply (IH _ _ H).
    assert (0 <= d).
    { unfold radixDigit in Hd. destruct (digitValue c) as [d'|] eqn:Hv;
        [|discriminate].
      destruct (d' <? R); [|discriminate]. injection Hd as <-.
      unfold digitValue in Hv.
      destruct (Z.leb_spec 48 c); destruct (Z.leb_spec c 57); cbn [andb] in Hv;
        try (injection Hv as <-; lia);
        destruct (Z.leb_spec 97 c); destruct (Z.leb_spec c 122);
        cbn [andb] in Hv; try (injection Hv as <-; lia);
        destruct (Z.leb_spec 65 c); destruct (Z.leb_spec c 90);
        cbn [andb] in Hv; try (injection Hv as <-; lia); discriminate. }
    nia.
Qed.

(** The decimal case: an optional sign, digits, then white space. *)
Lemma parseInt_signed (raw u w : jsstring) (n : Z) :
  trimStart raw = u ++ w -> forallb isWhiteSpace w = true ->
  signedDecimal u = Some n ->
  match u with
  | c :: x :: _ => prefixRadix c x = None
  | _ => True
  end ->
  parseInt raw
  = if n =? 0 then S754_zero (match u with c :: _ => c =? 45 | [] => false end)
    else ofInt n.
Proof.
  intros Ht Hw Hs Hp. unfold parseInt. rewrite Ht. cbv zeta.
  unfold jsstring in *.
  destruct u as [|c r]; [discriminate|]. cbn [signedDecimal] in Hs.
  cbn [app].
  destruct (Z.eqb_spec c 45) as [->|H45].
  - destruct (digitsAll 10 r 0 false) as [v|] eqn:Hv; [|discriminate].
    injection Hs as <-. cbv beta iota.
    rewrite (decimal_no_hex r w v 0 false Hv Hw).
    rewrite (digitsAll_prefix 10 r w 0 false v Hv (whitespace_stops 10 w Hw)).
    apply (finishParse true v).
    apply (digitsAll_nonneg 10 r 0 false v); [lia | exact Hv | lia].
  - destruct (Z.eqb_spec c 43) as [->|H43].
    + cbv beta iota. rewrite (decimal_no_hex r w n 0 false Hs Hw).
      rewrite (digitsAll_prefix 10 r w 0 false n Hs (whitespace_stops 10 w Hw)).
      reflexivity.
    + pose proof (decimal_no_hex (c :: r) w n 0 false Hs Hw) as X.
      cbn [app] in X. rewrite X.
      change (c :: r ++ w) with ((c :: r) ++ w).
      rewrite (digitsAll_prefix 10 (c :: r) w 0 false n Hs
                 (whitespace_stops 10 w Hw)).
      reflexivity.
Qed.

(** [parseInt] and [BigInt] on the same string: where [BigInt] reads [n],
    [parseInt] reads the Number value of [n], except on a blank string
    (NaN against [0n]) and on a binary or octal literal (0 against its
    value). *)
Lemma parseInt_of_bigint (raw : jsstring) (n : Z) :
  stringToBigInt raw = Some n -> parseInt raw = checkedNumber raw n.
Proof.
  intros H. destruct (trimStart_trim raw) as (w & Ht & Hw).
  unfold checkedNumber, isBlank, binaryOrOctal, startsWithMinus.
  unfold stringToBigInt in H.
  destruct (trim raw) as [|c [|x r]] eqn:Hu.
  - cbn [app] in Ht. destruct w as [|c w].
    + unfold parseInt. rewrite Ht. reflexivity.
    + exfalso. apply trimStart_head in Ht. cbn [forallb] in Hw.
      rewrite Ht in Hw. discriminate.
  - apply (parseInt_signed raw [c] w n Ht Hw H I).
  - destruct (prefixRadix c x) as [R|] eqn:HR.
    + assert (Hc : c = 48).
      { unfold prefixRadix in HR. destruct (Z.eqb_spec c 48); [assumption|].
        discriminate. }
      subst c.
      assert (HRn : 0 <= R).
      { unfold prefixRadix in HR. cbn [Z.eqb Pos.eqb] in HR.
        destruct ((x =? 120) || (x =? 88)); [injection HR as <-; lia|].
        destruct ((x =? 111) || (x =? 79)); [injection HR as <-; lia|].
        destruct ((x =? 98) || (x =? 66)); [injection HR as <-; lia|].
        discriminate. }
      pose proof (digitsAll_nonneg R r 0 false n HRn H ltac:(lia)) as Hn.
      unfold parseInt. rewrite Ht. cbv zeta. cbn [app Z.eqb Pos.eqb].
      rewrite HR.
      unfold prefixRadix in HR. cbn [Z.eqb Pos.eqb] in HR.
      destruct ((x =? 120) || (x =? 88)) eqn:Hx.
      * injection HR as <-.
        rewrite (digitsAll_prefix 16 r w 0 false n H (whitespace_stops 16 w Hw)).
        reflexivity.
      * assert (Hd : radixDigit 10 x = None).
        { destruct ((x =? 111) || (x =? 79)) eqn:Ho.
          - apply orb_true_iff in Ho as [Ho|Ho]; apply Z.eqb_eq in Ho; subst x;
              reflexivity.
          - destruct ((x =? 98) || (x =? 66)) eqn:Hb; [|discriminate].
            apply orb_true_iff in Hb as [Hb|Hb]; apply Z.eqb_eq in Hb; subst x;
              reflexivity. }
        destruct ((x =? 111) || (x =? 79)).
        -- injection HR as <-. cbn [digitsPrefix].
           change (radixDigit 10 48) with (Some 0). rewrite Hd. reflexivity.
        -- destruct ((x =? 98) || (x =? 66)); [|discriminate].
           injection HR as <-. cbn [digitsPrefix].
           change (radixDigit 10 48) with (Some 0). rewrite Hd. reflexivity.
    + apply (parseInt_signed raw (c :: x :: r) w n Ht Hw H HR).
Qed.

(** X3: whenever the unsigned transaction is built, the amount string
    of option 0 was read twice: by [BigInt], whose result [n] is not
    negative and goes into the transfer, and by [parseInt], whose result
    divided by 1e6 went into the balance check.  The transfer carries [n]
    when [n] is below 2^64, and the number of the leading 16 hexadecimal
    digits of [n] otherwise.  The two readings agree ([parseInt] gives the
    Number value of [n]) except on a blank string, where the check sees
    NaN and so passes on any balance while 0 is transferred, and on a
    binary or octal literal, where the check sees 0 while the literal's
    value is transferred. *)
Theorem amount_checked_and_transferred :
  forall sdk connection kp c m,
    unsignedTransaction sdk connection kp c = Ok m ->
    exists a rest raw n carried p src dst,
      accepts c = Some (Some a :: rest) /\
      Accept.maxAmountRequired a = Some raw /\
      stringToBigInt raw = Some n /\
      0 <= n /\
      (n < 2 ^ 64 -> carried = n) /\
      (2 ^ 64 <= n -> carried = n / 16 ^ (hexLength n - 16)) /\
      nth_error (instructions m) 2
      = Some (TransferChecked src USDC_DEVNET_MINT dst (publicKey kp) carried
                6 [] TOKEN_PROGRAM_ID) /\
      parseChallenge c = Ok p /\
      Parsed.amount p = div (checkedNumber raw n) million /\
      parseInt raw = checkedNumber raw n /\
      (isBlank raw = true -> n = 0).
Proof.
  intros sdk connection kp c m H.
  apply unsignedTransaction_inv in H as (a & rest & p & Hacc & Hp & H).
  destruct (parseChallenge_first c a rest Hacc)
    as (p' & Hp' & _ & Hamount & Hraw & _).
  assert (p' = p) by congruence. subst p'.
  apply createPayment_message_inv in H as (_ & src & payee & dst & raw & amt
    & fee & amount & bh & _ & _ & _ & Hr & Hbig & _ & Hamt & _ & ->).
  rewrite Hraw in Hr.
  apply u64_Ok in Hamt as (Hpos & Hsmall & Hlarge).
  exists a, rest, raw, amt, amount, p, src, dst.
  repeat split; try assumption; try reflexivity.
  - rewrite Hamount, Hr. cbn [parseIntOf].
    rewrite (parseInt_of_bigint raw amt Hbig). reflexivity.
  - apply parseInt_of_bigint, Hbig.
  - intros Hb. unfold isBlank in Hb. unfold stringToBigInt in Hbig.
    destruct (trim raw); [congruence | discriminate].
Qed.

Lemma amount_checked_and_transferred_witness :
  exists m,
    unsignedTransaction Fixture.sdk (Fixture.connection 0) Fixture.payer
      (Fixture.challenge [Fixture.accept "exact" "0b1111" Fixture.usdc None])
    = Ok m /\
    exists a rest raw n carried p src dst,
      accepts (Fixture.challenge
                 [Fixture.accept "exact" "0b1111" Fixture.usdc None])
      = Some (Some a :: rest) /\
      Accept.maxAmountRequired a = Some raw /\
      stringToBigInt raw = Some n /\
      0 <= n /\
      (n < 2 ^ 64 -> carried = n) /\
      (2 ^ 64 <= n -> carried = n / 16 ^ (hexLength n - 16)) /\
      nth_error (instructions m) 2
      = Some (TransferChecked src USDC_DEVNET_MINT dst
                (publicKey Fixture.payer) carried 6 [] TOKEN_PROGRAM_ID) /\
      parseChallenge (Fixture.challenge
                        [Fixture.accept "exact" "0b1111" Fixture.usdc None])
      = Ok p /\
      Parsed.amount p = div (checkedNumber raw n) million /\
      parseInt raw = checkedNumber raw n /\
      (isBlank raw = true -> n = 0).
Proof.
  exists_value.
  apply (amount_checked_and_transferred Fixture.sdk (Fixture.connection 0)
           Fixture.payer).
  vm_compute. reflexivity.
Defined.

(** The two readings on some amount strings.  With nothing on the token
    account, an amount written [0b1111] is paid in full (15 base units),
    one written in binary as 2^64 with a transfer of 2^60, and an empty
    one with a transfer of 0; a negative one is refused when the
    instruction is made. *)
Example amount_readings :
  parseInt (str " 0b1111 ") = S754_zero false /\
  stringToBigInt (str " 0b1111 ") = Some 15 /\
  parseInt (str "  ") = NaN /\ stringToBigInt (str "  ") = Some 0 /\
  parseInt (str "0x1F") = ofInt 31 /\ stringToBigInt (str "0x1F") = Some 31 /\
  parseInt (str "-0") = S754_zero true /\ stringToBigInt (str "-0") = Some 0 /\
  parseInt (str "12abc") = ofInt 12 /\ stringToBigInt (str "12abc") = None /\
  (let transfer amount :=
     Ok (Some (TransferChecked
                 ((USDC_DEVNET_MINT + 31 * publicKey Fixture.payer)
                    mod 2 ^ 256)
                 USDC_DEVNET_MINT
                 ((USDC_DEVNET_MINT + 31 * Fixture.keyOf Fixture.payee)
                    mod 2 ^ 256)
                 (publicKey Fixture.payer) amount 6 [] TOKEN_PROGRAM_ID)) in
   Scenario.transferFor "0b1111" = transfer 15 /\
   Scenario.transferFor
     "0b10000000000000000000000000000000000000000000000000000000000000000"
   = transfer (2 ^ 60) /\
   Scenario.transferFor "" = transfer 0 /\
   Scenario.transferFor "-5" = Throw TypeError).
Proof. vm_compute. repeat split. Qed.

(** X4: the payment proof depends on the challenge through six values
    only: the protocol version and, of option 0, payee, amount, scheme,
    network and fee payer.  Two challenges that agree on these give the
    same result, whatever their resource, description, MIME type,
    timeout, asset, error text and further options are. *)
Theorem payment_reads_six_fields :
  forall sdk connection kp c c' a a' rest rest',
    accepts c = Some (Some a :: rest) -> accepts c' = Some (Some a' :: rest') ->
    x402Version c = x402Version c' ->
    Accept.payTo a = Accept.payTo a' ->
    Accept.maxAmountRequired a = Accept.maxAmountRequired a' ->
    Accept.scheme a = Accept.scheme a' ->
    Accept.network a = Accept.network a' ->
    optionFeePayer a = optionFeePayer a' ->
    createPayment sdk connection kp c = createPayment sdk connection kp c'.
Proof.
  intros sdk connection kp c c' a a' rest rest' Hc Hc' Hv Hp Hm Hs Hn Hf.
  unfold createPayment, parseChallenge. rewrite Hc, Hc'.
  unfold optionFeePayer in Hf.
  cbn [bind]. unfold createPayment_message, paymentPayload.
  cbn [Parsed.payTo Parsed.amount Parsed.amountRaw Parsed.network
       Parsed.scheme Parsed.x402Version Parsed.feePayer].
  rewrite Hv, Hp, Hm, Hs, Hn, Hf. reflexivity.
Qed.

Lemma payment_reads_six_fields_witness :
  createPayment Fixture.sdk (Fixture.connection 500000) Fixture.payer
    (Fixture.challenge [Fixture.accept "exact" "500000" Fixture.usdc None])
  = createPayment Fixture.sdk (Fixture.connection 500000) Fixture.payer
      {| x402Version := Some 1;
         error := None;
         accepts :=
           Some [Some {| Accept.scheme := Some (str "exact");
                         Accept.network := Some (str "solana-devnet");
                         Accept.maxAmountRequired := Some (str "500000");
                         Accept.resource :=
                           Some (str "/api/agent/buy?imageId=2");
                         Accept.description := None;
                         Accept.mimeType := None;
                         Accept.payTo := Some (str Fixture.payee);
                         Accept.maxTimeoutSeconds := Some 0;
                         Accept.asset := Some (str Fixture.wrappedSol);
                         Accept.extra := None |};
                 Some Fixture.blank] |}.
Proof.
  eapply (payment_reads_six_fields Fixture.sdk (Fixture.connection 500000)
            Fixture.payer _ _ _ _ [] [Some Fixture.blank]);
    reflexivity.
Defined.

(** ** The header as text *)

Lemma base64_char_ok (i : Z) :
  0 <= i < 64 -> isBase64Char (Base64.char i) = true.
Proof.
  intros Hi. unfold isBase64Char.
  destruct (base64_index_char i Hi) as [-> _]. reflexivity.
Qed.

Lemma base64_encode_shape_upto (n : nat) (bs : list Z) :
  (List.length bs <= n)%nat -> Forall byte bs ->
  forallb isBase64Char (Base64.encode bs) = true /\
  exists k, List.length (Base64.encode bs) = (4 * k)%nat /\
            (bs <> [] -> (0 < k)%nat).
Proof.
  revert bs. induction n as [|n IH]; intros bs Hlen Hall.
  - destruct bs; [|simpl in Hlen; lia].
    split; [reflexivity|]. exists 0%nat. split; [reflexivity | congruence].
  - destruct bs as [|a [|b [|c r]]].
    + split; [reflexivity|]. exists 0%nat. split; [reflexivity | congruence].
    + apply Forall_cons_iff in Hall as [Ha _]. unfold byte in Ha.
      cbn [Base64.encode forallb].
      rewrite !base64_char_ok by (Z.div_mod_to_equations; lia).
      split; [reflexivity|]. exists 1%nat. split; [reflexivity | lia].
    + apply Forall_cons_iff in Hall as [Ha Hall].
      apply Forall_cons_iff in Hall as [Hb _]. unfold byte in Ha, Hb.
      cbn [Base64.encode forallb].
      rewrite !base64_char_ok by (Z.div_mod_to_equations; lia).
      split; [reflexivity|]. exists 1%nat. split; [reflexivity | lia].
    + apply Forall_cons_iff in Hall as [Ha Hall].
      apply Forall_cons_iff in Hall as [Hb Hall].
      apply Forall_cons_iff in Hall as [Hc Hall].
      unfold byte in Ha, Hb, Hc.
      destruct (IH r ltac:(simpl in Hlen; lia) Hall) as (Hr & k & Hk & _).
      cbn [Base64.encode forallb List.length].
      rewrite !base64_char_ok by (Z.div_mod_to_equations; lia).
      rewrite Hr, Hk. split; [reflexivity|].
      exists (S k). split; [lia | lia].
Qed.

(** Base64 text of a byte string: characters of the alphabet and padding
    only, in groups of four. *)
Lemma base64_encode_shape (bs : list Z) :
  Forall byte bs ->
  forallb isBase64Char (Base64.encode bs) = true /\
  exists k, List.length (Base64.encode bs) = (4 * k)%nat /\
            (bs <> [] -> (0 < k)%nat).
Proof.
  apply (base64_encode_shape_upto (List.length bs)). lia.
Qed.

Lemma wf_cons_ascii (c : Z) (X : jsstring) :
  ascii7 c -> WellFormed X -> WellFormed (c :: X).
Proof.
  intros Hc HX. apply (wf_app [c]); [|exact HX].
  apply wf_ascii. constructor; [exact Hc | constructor].
Qed.

Lemma wf_quote (s : jsstring) :
  Forall code_unit s -> WellFormed (JSON.quote s).
Proof.
  intros Hs. unfold JSON.quote.
  apply wf_cons_ascii; [unfold ascii7; lia|].
  apply wf_app; [apply wf_quoteBody, Hs|].
  apply wf_cons_ascii; [unfold ascii7; lia | constructor].
Qed.

Lemma wf_joinComma (parts : list jsstring) :
  Forall WellFormed parts -> WellFormed (JSON.joinComma parts).
Proof.
  induction 1 as [|p rest Hp Hrest IH]; [constructor|].
  cbn [JSON.joinComma]. destruct rest as [|q rest]; [exact Hp|].
  apply wf_app; [exact Hp|].
  apply wf_cons_ascii; [unfold ascii7; lia | exact IH].
Qed.

(** The text of an object is well formed when its keys are code units and
    the texts of its values are well formed. *)
Lemma wf_object (l : list (jsstring * JSON.JSValue)) (text : jsstring) :
  Forall (fun kx => Forall code_unit (fst kx) /\
                    forall t, JSON.stringify (snd kx) = Some t -> WellFormed t) l ->
  JSON.stringify (JSON.JObject l) = Some text -> WellFormed text.
Proof.
  intros Hall. cbn [JSON.stringify]. intros [= <-].
  apply wf_cons_ascii; [unfold ascii7; lia|].
  apply wf_app; [|apply wf_ascii; constructor; [unfold ascii7; lia | constructor]].
  apply wf_joinComma.
  induction Hall as [|[k x] l [Hk Hx] _ IH]; [constructor|].
  cbn [flat_map fst snd] in *.
  destruct (JSON.stringify x) as [t|]; [|exact IH].
  cbn [app]. constructor; [|exact IH].
  apply wf_cons_ascii; [unfold ascii7; lia|].
  apply wf_app.
  - apply wf_app; [apply wf_quoteBody, Hk|].
    apply wf_cons_ascii; [unfold ascii7; lia | constructor].
  - apply wf_cons_ascii; [unfold ascii7; lia | apply Hx; reflexivity].
Qed.

Lemma wf_paymentPayload (p : Parsed.t) (tx text : jsstring) :
  optionalCodeUnits (Parsed.scheme p) -> optionalCodeUnits (Parsed.network p) ->
  Forall code_unit tx ->
  JSON.stringify (paymentPayload p tx) = Some text -> WellFormed text.
Proof.
  intros Hs Hn Htx. unfold paymentPayload. apply wf_object.
  repeat (apply Forall_cons; [split; [apply str_code_units|]|]);
    [| | | |constructor]; cbn [snd]; intros t Ht.
  - destruct (Parsed.x402Version p); [|discriminate].
    injection Ht as <-. apply wf_ascii, numberToString_ascii.
  - destruct (Parsed.scheme p) as [s|]; [|discriminate].
    injection Ht as <-. apply wf_quote, Hs.
  - destruct (Parsed.network p) as [s|]; [|discriminate].
    injection Ht as <-. apply wf_quote, Hn.
  - revert Ht. apply wf_object.
    apply Forall_cons; [|constructor]. split; [apply str_code_units|].
    cbn [snd]. intros t' [= <-]. apply wf_quote, Htx.
Qed.

Lemma utf8_encode_nonempty (s : jsstring) : s <> [] -> Utf8.encode s <> [].
Proof.
  destruct s as [|c s]; [contradiction|]. intros _. cbn [Utf8.encode].
  destruct (c <? 128); [discriminate|].
  destruct (c <? 2048); [discriminate|].
  destruct (isHighSurrogate c).
  - destruct s as [|d s]; [discriminate|].
    destruct (isLowSurrogate d); discriminate.
  - destruct (isLowSurrogate c); discriminate.
Qed.

(** X5: the payment header [createPayment] returns is never empty, is
    made of the 64 characters of the base64 alphabet and [=] only, and
    comes in groups of four characters, whatever scheme and network
    strings the challenge carries and whatever bytes the signed
    transaction has. *)
Theorem header_is_base64_text :
  forall sdk connection kp c proof,
    createPayment sdk connection kp c = Ok proof ->
    (forall a rest, accepts c = Some (Some a :: rest) ->
                    optionalCodeUnits (Accept.scheme a) /\
                    optionalCodeUnits (Accept.network a)) ->
    forallb isBase64Char (header proof) = true /\
    exists k, (0 < k)%nat /\ List.length (header proof) = (4 * k)%nat.
Proof.
  intros sdk connection kp c proof H Hcu.
  apply createPayment_inv in H as (p & m & signed & h & Hp & Hm & _ & Hh & ->).
  cbn [header].
  assert (Hfields : optionalCodeUnits (Parsed.scheme p) /\
                    optionalCodeUnits (Parsed.network p)).
  { unfold parseChallenge in Hp.
    destruct (accepts c) as [[|[a|] rest]|] eqn:Hacc; try discriminate.
    injection Hp as <-. exact (Hcu a rest eq_refl). }
  destruct Hfields as [Hs Hn].
  unfold encodeHeader in Hh.
  destruct (JSON.stringify (paymentPayload p (Base64.encode signed)))
    as [text|] eqn:Htext; [|discriminate].
  injection Hh as <-.
  pose proof (wf_paymentPayload p _ text Hs Hn
                (base64_encode_code_units signed) Htext) as Hwf.
  assert (Hne : text <> []).
  { unfold paymentPayload in Htext. cbn [JSON.stringify] in Htext.
    injection Htext as <-. discriminate. }
  destruct (base64_encode_shape _ (utf8_encode_bytes text Hwf))
    as (Hchars & k & Hk & Hpos).
  split; [exact Hchars|]. exists k.
  split; [apply Hpos, utf8_encode_nonempty, Hne | exact Hk].
Qed.

Lemma header_is_base64_text_witness :
  exists proof,
    createPayment Fixture.sdk (Fixture.connection 500000) Fixture.payer
      (Fixture.challenge [Fixture.accept "exact" "500000" Fixture.usdc None])
    = Ok proof /\
    forallb isBase64Char (header proof) = true /\
    exists k, (0 < k)%nat /\ List.length (header proof) = (4 * k)%nat.
Proof.
  exists_value.
  apply (header_is_base64_text Fixture.sdk (Fixture.connection 500000)
           Fixture.payer
           (Fixture.challenge
              [Fixture.accept "exact" "500000" Fixture.usdc None])).
  - vm_compute. reflexivity.
  - intros a rest [= <- <-]. split; apply str_code_units.
Defined.

(** ** Integers as numbers *)

Lemma ofInt_one : ofInt 1 = S754_finite false 4503599627370496 (-52).
Proof. reflexivity. Qed.

(** Below 2^53 the Number values of positive integers are ordered as the
    integers are. *)
Lemma ofInt_lt (a b : Z) :
  1 <= a -> a < b -> b < 2 ^ 53 -> lt (ofInt a) (ofInt b) = true.
Proof.
  intros Ha Hab Hb.
  set (da := Z.log2 a + 1). set (db := Z.log2 b + 1).
  assert (Hda : 2 ^ (da - 1) <= a < 2 ^ da) by (apply digits_of; lia).
  assert (Hdb : 2 ^ (db - 1) <= b < 2 ^ db) by (apply digits_of; lia).
  assert (Hla : 0 <= Z.log2 a) by apply Z.log2_nonneg.
  assert (Hle : Z.log2 a <= Z.log2 b) by (apply Z.log2_le_mono; lia).
  assert (Hlb : Z.log2 b < 53) by (apply Z.log2_lt_pow2; lia).
  assert (Rda : 1 <= da <= 53) by (unfold da; lia).
  assert (Rdb : 1 <= db <= 53) by (unfold db; lia).
  assert (Hk : da <= db) by (unfold da, db; lia).
  clearbody da db.
  destruct (ofInt_pos a da Rda Hda) as (ma & -> & Hma & _).
  destruct (ofInt_pos b db Rdb Hdb) as (mb & -> & Hmb & _).
  apply lt_finite.
  destruct (Z.eq_dec da db) as [E|E]; [right | left; lia].
  split; [lia|]. rewrite Hma, Hmb, E.
  apply Z.mul_lt_mono_pos_r; [apply Z.pow_pos_nonneg; lia | exact Hab].
Qed.

Lemma ofInt_lt_iff (a b : Z) :
  1 <= a < 2 ^ 53 -> 1 <= b < 2 ^ 53 ->
  (lt (ofInt a) (ofInt b) = true <-> a < b).
Proof.
  intros Ha Hb. split.
  - intros H. destruct (Z.lt_trichotomy a b) as [Hlt|[Heq|Hgt]];
      [exact Hlt | |].
    + subst b. rewrite lt_irrefl in H. discriminate.
    + assert (Hba : lt (ofInt b) (ofInt a) = true) by (apply ofInt_lt; lia).
      apply lt_asym in Hba. congruence.
  - intros H. apply ofInt_lt; lia.
Qed.

Lemma ofInt_finite (a : Z) :
  1 <= a < 2 ^ 53 ->
  exists (m : positive) (e : Z), ofInt a = S754_finite false m e.
Proof.
  intros Ha.
  assert (Hd : 2 ^ (Z.log2 a + 1 - 1) <= a < 2 ^ (Z.log2 a + 1))
    by (apply digits_of; lia).
  assert (Hl : Z.log2 a < 53) by (apply Z.log2_lt_pow2; lia).
  pose proof (Z.log2_nonneg a).
  destruct (ofInt_pos a (Z.log2 a + 1) ltac:(lia) Hd) as (m & H1 & _).
  eauto.
Qed.

(** The index a small integer denotes is the integer. *)
Lemma toIndex_ofInt (j : Z) :
  0 <= j < 2 ^ 53 -> toIndex (ofInt j) = Some j.
Proof.
  intros Hj. destruct (Z.eq_dec j 0) as [->|Hne]; [reflexivity|].
  set (d := Z.log2 j + 1).
  assert (Hd : 2 ^ (d - 1) <= j < 2 ^ d) by (apply digits_of; lia).
  assert (Hl : Z.log2 j < 53) by (apply Z.log2_lt_pow2; lia).
  pose proof (Z.log2_nonneg j).
  assert (Rd : 1 <= d <= 53) by (unfold d; lia). clearbody d.
  destruct (ofInt_pos j d Rd Hd) as (m & -> & Hm & _).
  cbn [toIndex].
  destruct (Z.leb_spec 0 (d - 53)) as [H0|H0].
  - assert (d = 53) by lia. subst d.
    change (53 - 53) with 0 in *. rewrite Z.pow_0_r in *. f_equal. lia.
  - replace (- (d - 53)) with (53 - d) by lia. rewrite Hm.
    assert (0 < 2 ^ (53 - d)) by (apply Z.pow_pos_nonneg; lia).
    rewrite Z.mod_mul by lia. cbn [Z.eqb].
    rewrite Z.div_mul by lia. reflexivity.
Qed.

Lemma iter_pos_iter {A} (f : A -> A) (p : positive) (x : A) :
  iter_pos f p x = Pos.iter f x p.
Proof.
  revert x. induction p as [p IH|p IH|]; intros x; cbn [iter_pos Pos.iter].
  - rewrite !IH. rewrite <- !Pos.iter_swap. reflexivity.
  - rewrite !IH. reflexivity.
  - reflexivity.
Qed.

(** Shifting out zeros is exact. *)
Lemma shift_out_zeros (M p : positive) :
  iter_pos shr_1 p
    {| shr_m := Zpos (Pos.iter xO M p); shr_r := false; shr_s := false |}
  = {| shr_m := Zpos M; shr_r := false; shr_s := false |}.
Proof.
  rewrite iter_pos_iter.
  induction p as [|p IH] using Pos.peano_ind.
  - reflexivity.
  - rewrite Pos.iter_succ_r, Pos.iter_succ. cbn [shr_1 orb]. exact IH.
Qed.

(** A 53-digit mantissa followed by zeros normalises to itself. *)
Lemma binary_normalize_shifted (M : positive) (k e : Z) :
  Zpos (digits2_pos M) = 53 -> 0 <= k -> -1074 <= e + k <= 971 ->
  binary_normalize prec emax (Zpos M * 2 ^ k) e false
  = S754_finite false M (e + k).
Proof.
  intros HM Hk He.
  destruct k as [|p|p]; [| |lia].
  - rewrite Z.pow_0_r, Z.mul_1_r, Z.add_0_r in *.
    cbn [binary_normalize]. unfold binary_round. rewrite HM, fexp_eq.
    unfold shl_align. replace (Z.max (53 + e - 53) (-1074) - e) with 0 by lia.
    rewrite binary_round_aux_finish, (shr_fexp_53 M e _ HM) by lia.
    cbn [shr_record_of_loc shr_m loc_of_shr_record round_nearest_even].
    apply finish_53; [exact HM | lia].
  - rewrite <- iter_xO. cbn [binary_normalize]. unfold binary_round.
    assert (Hd : Zpos (digits2_pos (Pos.iter xO M p)) = 53 + Zpos p).
    { apply digits_unique. rewrite iter_xO.
      pose proof (digits_bounds M) as HB. rewrite HM in HB.
      replace (53 + Zpos p - 1) with (52 + Zpos p) by lia.
      rewrite !Z.pow_add_r by lia.
      assert (0 < 2 ^ Zpos p) by (apply Z.pow_pos_nonneg; lia).
      change (53 - 1) with 52 in HB. nia. }
    rewrite Hd, fexp_eq. unfold shl_align.
    replace (Z.max (53 + Zpos p + e - 53) (-1074) - e) with (Zpos p) by lia.
    rewrite binary_round_aux_finish.
    unfold shr_fexp, Zdigits2. rewrite Hd, fexp_eq.
    replace (Z.max (53 + Zpos p + e - 53) (-1074) - e) with (Zpos p) by lia.
    cbn [shr_record_of_loc shr]. rewrite shift_out_zeros.
    cbn [shr_m loc_of_shr_record round_nearest_even].
    apply finish_53; [exact HM | lia].
Qed.

(** Taking one off a small positive integer is exact. *)
Lemma ofInt_sub_one (k : Z) :
  1 <= k < 2 ^ 53 -> sub (ofInt k) (ofInt 1) = ofInt (k - 1).
Proof.
  intros Hk.
  set (d := Z.log2 k + 1).
  assert (Hd : 2 ^ (d - 1) <= k < 2 ^ d) by (apply digits_of; lia).
  assert (Hl : Z.log2 k < 53) by (apply Z.log2_lt_pow2; lia).
  pose proof (Z.log2_nonneg k).
  assert (Rd : 1 <= d <= 53) by (unfold d; lia). clearbody d.
  destruct (ofInt_pos k d Rd Hd) as (m & -> & Hm & Rm).
  rewrite ofInt_one. unfold sub. cbn [SFsub cond_Zopp].
  replace (Z.min (d - 53) (-52)) with (-52) by lia.
  assert (Hx : Zpos (fst (shl_align m (d - 53) (-52))) = k * 2 ^ 52).
  { unfold shl_align. destruct (-52 - (d - 53)) as [|p|p] eqn:E; try lia.
    - cbn [fst]. rewrite Hm. replace (53 - d) with 52 by lia. reflexivity.
    - cbn [fst]. rewrite iter_xO, Hm, <- Z.mul_assoc, <- Z.pow_add_r by lia.
      do 2 f_equal. lia. }
  rewrite Hx.
  change (Z.pos (fst (shl_align 4503599627370496 (-52) (-52))))
    with (1 * 2 ^ 52).
  rewrite <- Z.mul_sub_distr_r.
  destruct (Z.eq_dec k 1) as [->|Hne]; [reflexivity|].
  set (j := k - 1). assert (Hj : 1 <= j < 2 ^ 53) by (unfold j; lia).
  clearbody j. clear Hx Hm Rm m Hd Rd d Hl H Hne Hk k.
  set (d := Z.log2 j + 1).
  assert (Hd : 2 ^ (d - 1) <= j < 2 ^ d) by (apply digits_of; lia).
  assert (Hl : Z.log2 j < 53) by (apply Z.log2_lt_pow2; lia).
  pose proof (Z.log2_nonneg j).
  assert (Rd : 1 <= d <= 53) by (unfold d; lia). clearbody d.
  destruct (ofInt_pos j d Rd Hd) as (m & -> & Hm & Rm).
  assert (HM : Zpos (digits2_pos m) = 53) by (apply digits_unique; lia).
  replace (j * 2 ^ 52) with (Zpos m * 2 ^ (d - 1)).
  - rewrite (binary_normalize_shifted m (d - 1) (-52) HM) by lia.
    f_equal. lia.
  - rewrite Hm, <- Z.mul_assoc, <- Z.pow_add_r by lia. do 2 f_equal. lia.
Qed.

(** On a string of decimal digits [parseInt] with radix 10 is the Number
    value of the integer it spells. *)
Lemma parseInt10_decimal (s : jsstring) :
  decimalString s -> parseInt10 s = ofInt (decimalValue s).
Proof.
  intros [Hne Hall]. unfold parseInt10.
  rewrite (trimStart_decimal s Hall).
  destruct s as [|c r]; [contradiction|].
  pose proof Hall as Hall'. simpl in Hall'.
  apply andb_true_iff in Hall' as [Hc Hr].
  destruct (digit_not_sign c Hc) as [-> ->].
  rewrite (digitsPrefix_decimal (c :: r) 0 false Hall)
    by (right; discriminate).
  fold (decimalValue (c :: r)).
  destruct (decimalValue (c :: r) =? 0) eqn:E; [|reflexivity].
  apply Z.eqb_eq in E. now rewrite E, ofInt_zero.
Qed.

(** What the loop of [runInteractive] decides on the Number value of an
    integer between 1 and the length of the list. *)
Lemma selection_in_range {A} (array : list A) (k : Z) :
  1 <= k <= Z.of_nat (List.length array) ->
  Z.of_nat (List.length array) < 2 ^ 53 ->
  isNaN (ofInt k) = false /\
  strictEquals (ofInt k) (ofInt 0) = false /\
  lt (ofInt k) (ofInt 1) = false /\
  lt (ofInt (Z.of_nat (List.length array))) (ofInt k) = false /\
  elementAt array (sub (ofInt k) (ofInt 1))
  = nth_error array (Z.to_nat (k - 1)).
Proof.
  intros Hk Hlen.
  destruct (ofInt_finite k ltac:(lia)) as (m & e & Hfin).
  split; [rewrite Hfin; reflexivity|].
  split; [rewrite Hfin; reflexivity|].
  split; [|split].
  - destruct (lt (ofInt k) (ofInt 1)) eqn:E; [|reflexivity].
    apply ofInt_lt_iff in E; lia.
  - destruct (lt (ofInt (Z.of_nat (List.length array))) (ofInt k)) eqn:E;
      [|reflexivity].
    apply ofInt_lt_iff in E; lia.
  - unfold elementAt. rewrite ofInt_sub_one, toIndex_ofInt by lia.
    reflexivity.
Qed.

(** ** Balances at start-up *)

Lemma hundredth_scaled : literal 1 2 = div (ofInt 10000) million.
Proof. vm_compute. reflexivity. Qed.

Lemma wallet_getUsdcBalance (sdk : Sdk) (connection : Connection)
  (w : AgentWallet) :
  Wallet.getUsdcBalance sdk connection w
  = getUsdcBalance sdk connection (publicKey (getKeypair w)).
Proof.
  unfold Wallet.getUsdcBalance, getUsdcBalance, getUsdcTokenAccount,
    Wallet.publicKeyObj, getKeypair.
  destruct (getAssociatedTokenAddress sdk USDC_DEVNET_MINT
              (publicKey (keypair w))); reflexivity.
Qed.

Lemma lowUsdc_shown (sdk : Sdk) (connection : Connection)
  (lamports : Lamports) (w : AgentWallet) (sol : Z) :
  lamports (Wallet.publicKeyObj w) = Some sol ->
  (In LowUsdc (balanceNotices sdk connection lamports w) <->
   lt (getUsdcBalance sdk connection (publicKey (getKeypair w)))
      (literal 1 2) = true).
Proof.
  intros Hsol. unfold balanceNotices, Wallet.getBalance.
  rewrite Hsol. cbn [orThrow bind]. rewrite wallet_getUsdcBalance.
  rewrite in_app_iff.
  destruct (lt (div (ofInt sol) LAMPORTS_PER_SOL) (literal 1 3));
    destruct (lt (getUsdcBalance sdk connection (publicKey (getKeypair w)))
                (literal 1 2)); cbn [In]; split; intros H;
    try reflexivity; try discriminate; try tauto;
    repeat destruct H as [H|H]; try discriminate; try contradiction.
Qed.

(** ** Requests of the marketplace client *)

Lemma eqb_list_eq (a b : jsstring) : eqb_list a b = true <-> a = b.
Proof.
  revert b. induction a as [|x a IH]; intros [|y b]; cbn [eqb_list];
    try (split; [discriminate | discriminate]); [tauto|].
  rewrite andb_true_iff, Z.eqb_eq, IH. split.
  - intros [-> ->]. reflexivity.
  - intros [= -> ->]. auto.
Qed.

Lemma eqb_list_refl (a : jsstring) : eqb_list a a = true.
Proof. apply eqb_list_eq. reflexivity. Qed.

Lemma eqb_list_neq (a b : jsstring) : eqb_list a b = false <-> a <> b.
Proof.
  rewrite <- eqb_list_eq. destruct (eqb_list a b); split; congruence.
Qed.

Lemma removeTrailingSlash_slash (b : jsstring) :
  Client.removeTrailingSlash (b ++ [47]) = b.
Proof.
  unfold Client.removeTrailingSlash. rewrite rev_app_distr. cbn [rev app].
  change (47 =? 47) with true. cbv iota. apply rev_involutive.
Qed.

Lemma removeTrailingSlash_none (b : jsstring) :
  endsWithSlash b = false -> Client.removeTrailingSlash b = b.
Proof.
  unfold endsWithSlash, Client.removeTrailingSlash.
  destruct (rev b) as [|c r]; [reflexivity|]. intros ->. reflexivity.
Qed.

(** Looking a header up after it was set. *)
Lemma getHeader_setHeader (o : list (jsstring * jsstring)) (k v k' : jsstring) :
  Client.getHeader (Client.setHeader o k v) k'
  = if eqb_list k k' then Some v else Client.getHeader o k'.
Proof.
  unfold Client.getHeader.
  induction o as [|[k0 v0] o IH]; cbn [Client.setHeader find fst option_map snd].
  - destruct (eqb_list k k'); reflexivity.
  - destruct (eqb_list k0 k) eqn:E0; cbn [find fst].
    + apply eqb_list_eq in E0. subst k0.
      destruct (eqb_list k k'); reflexivity.
    + destruct (eqb_list k0 k') eqn:E1; [|exact IH].
      apply eqb_list_eq in E1. subst k0.
      apply eqb_list_neq in E0.
      destruct (eqb_list k k') eqn:E2; [|reflexivity].
      apply eqb_list_eq in E2. congruence.
Qed.

Lemma find_append {A} (f : A -> bool) (l1 l2 : list A) :
  find f (l1 ++ l2)
  = match find f l1 with
    | Some x => Some x
    | None => find f l2
    end.
Proof.
  induction l1 as [|x l1 IH]; [reflexivity|].
  cbn [app find]. destruct (f x); [reflexivity | exact IH].
Qed.

(** Looking a header up in [{...o, ...more}]: the last entry of [more]
    under that name, or else what [o] has. *)
Lemma getHeader_spread (o more : list (jsstring * jsstring)) (k : jsstring) :
  Client.getHeader (Client.spread o more) k
  = match Client.getHeader (rev more) k with
    | Some v => Some v
    | None => Client.getHeader o k
    end.
Proof.
  unfold Client.spread. revert o.
  induction more as [|[k0 v0] more IH]; intros o; [reflexivity|].
  cbn [fold_left fst snd]. rewrite IH, getHeader_setHeader.
  cbn [rev]. unfold Client.getHeader. rewrite find_append.
  destruct (find (fun kv => eqb_list (fst kv) k) (rev more)) as [kv|];
    [reflexivity|].
  cbn [find fst option_map snd]. destruct (eqb_list k0 k); reflexivity.
Qed.

(** ** Command-line arguments *)

Lemma orElse_nonempty (v : option jsstring) (d : jsstring) :
  d <> [] -> orElse v d <> [].
Proof.
  intros Hd. destruct v as [[|c s]|]; cbn [orElse]; try exact Hd. discriminate.
Qed.

Lemma orElse_cases (v : option jsstring) (d : jsstring) :
  (exists c s, v = Some (c :: s) /\ orElse v d = c :: s) \/
  ((v = None \/ v = Some []) /\ orElse v d = d).
Proof.
  destruct v as [[|c s]|]; cbn [orElse]; eauto.
Qed.

Lemma args_head (argv : list jsstring) (u : jsstring) :
  hd_error (args argv) = Some u ->
  In u (skipn 2 argv) /\ startsWith u (str "--") = false.
Proof.
  unfold args. intros H.
  assert (Hin : In u (filter (fun arg => negb (startsWith arg (str "--")))
                        (skipn 2 argv))).
  { destruct (filter _ _) as [|x l]; [discriminate|].
    injection H as ->. left. reflexivity. }
  apply filter_In in Hin as [Hin Hflag].
  split; [exact Hin|]. now apply negb_true_iff in Hflag.
Qed.

Lemma args_skip_flags (node script : jsstring) (flags rest : list jsstring)
  (u : jsstring) :
  Forall (fun arg => startsWith arg (str "--") = true) flags ->
  startsWith u (str "--") = false ->
  hd_error (args (node :: script :: flags ++ u :: rest)) = Some u.
Proof.
  intros Hflags Hu. unfold args. cbn [skipn].
  induction Hflags as [|f flags Hf _ IH]; cbn [app filter].
  - rewrite Hu. reflexivity.
  - rewrite Hf. cbn [negb]. exact IH.
Qed.

Lemma args_flags_only (argv : list jsstring) :
  Forall (fun arg => startsWith arg (str "--") = true) (skipn 2 argv) ->
  hd_error (args argv) = None.
Proof.
  unfold args. intros H.
  induction H as [|f flags Hf _ IH]; [reflexivity|].
  cbn [filter]. rewrite Hf. exact IH.
Qed.

(** ** What one purchase changes *)

Lemma createPayment_hash (sdk : Sdk) (connection : Connection) (kp : Keypair)
  (c : X402Challenge) (proof : PaymentProof) :
  createPayment sdk connection kp c = Ok proof ->
  transactionHash proof = str "pending-settlement".
Proof.
  intros H. apply createPayment_inv in H as (p & m & signed & h & _ & _ & _ & _ & ->).
  reflexivity.
Qed.

(** [purchaseImage] leaves [purchasedImages] alone, counts the purchase
    exactly when it reports success, and reports no transaction hash but
    the placeholder. *)
Lemma purchaseImage_effect (sdk : Sdk) (connection : Connection)
  (client : PinspireClient) (wallet : AgentWallet) (a : PinspireAgent)
  (imageId : Z) (r : PurchaseOutcome) (a' : PinspireAgent) (log : list Event) :
  purchaseImage sdk connection client wallet a imageId = (r, a', log) ->
  purchasedImages a' = purchasedImages a /\
  purchaseCount a' = purchaseCount a + (if success r then 1 else 0) /\
  noRealHash (txHash r) /\ log <> [].
Proof.
  unfold purchaseImage.
  destruct (bind (getImageInfo client imageId) readImageInfo) as [u|e].
  2:{ intros [= <- <- <-]. cbn. repeat split; try lia; [left; reflexivity | discriminate]. }
  destruct (initiatePurchase client imageId) as [[status data]|e].
  2:{ intros [= <- <- <-]. cbn. repeat split; try lia; [left; reflexivity | discriminate]. }
  destruct (status =? 402).
  - destruct (createPayment sdk connection (getKeypair wallet) data)
      as [proof|e] eqn:Hpay.
    2:{ intros [= <- <- <-]. cbn. repeat split; try lia; [left; reflexivity | discriminate]. }
    apply createPayment_hash in Hpay.
    destruct (completePurchase client imageId (header proof)) as [result|e];
      [destruct (readPurchaseResult result) as [u'|e]|];
      intros [= <- <- <-]; cbn; rewrite Hpay;
      repeat split; try lia; try (right; reflexivity);
      discriminate.
  - destruct (status =? 200); intros [= <- <- <-]; cbn;
      repeat split; try lia; try (left; reflexivity); discriminate.
Qed.

Lemma purchaseAndRecord_effect (sdk : Sdk) (connection : Connection)
  (client : PinspireClient) (wallet : AgentWallet) (a : PinspireAgent)
  (imageId : Z) (title : option jsstring) (a' : PinspireAgent)
  (log : list Event) :
  purchaseAndRecord sdk connection client wallet a imageId title = (a', log) ->
  exists r,
    purchasedImages a' = purchasedImages a ++ [r] /\
    purchaseCount a' = purchaseCount a + (if rec_success r then 1 else 0) /\
    rec_id r = imageId /\ rec_title r = title /\ noRealHash (rec_txHash r) /\
    rec_success r = success (fst (fst (purchaseImage sdk connection client
                                         wallet a imageId))) /\
    log = snd (purchaseImage sdk connection client wallet a imageId) /\
    log <> [].
Proof.
  unfold purchaseAndRecord.
  destruct (purchaseImage sdk connection client wallet a imageId)
    as [[r a1] log1] eqn:Hp.
  apply purchaseImage_effect in Hp as (Himgs & Hcount & Hhash & Hlog).
  intros [= <- <-]. eexists. cbn. rewrite Himgs.
  repeat split; try reflexivity; assumption.
Qed.

Lemma successes_app (l1 l2 : list PurchaseRecord) :
  successes (l1 ++ l2) = successes l1 + successes l2.
Proof.
  unfold successes. rewrite filter_app, length_app. lia.
Qed.

Lemma successes_one (r : PurchaseRecord) :
  successes [r] = if rec_success r then 1 else 0.
Proof. unfold successes. cbn. destruct (rec_success r); reflexivity. Qed.

Lemma elementAt_In {A} (array : list A) (x : number) (v : A) :
  elementAt array x = Some v -> In v array.
Proof.
  unfold elementAt. destruct (toIndex x) as [i|]; [|discriminate].
  apply nth_error_In.
Qed.

Section LoopFacts.
Variable sdk : Sdk.
Variable wallet : AgentWallet.
Variable config : AgentConfig.
Variable toLowerCase : jsstring -> jsstring.
Variable world : nat -> World.
Variable images : list ImageItem.

Lemma kept_nothing (confirmations : nat) (a : PinspireAgent) :
  kept images (purchaseLimit config) confirmations a a [].
Proof.
  exists []. rewrite app_nil_r. unfold successes. cbn.
  repeat split; try constructor; lia.
Qed.

Lemma kept_more (c c' : nat) (a a' : PinspireAgent) (log : list Event) :
  (c <= c')%nat ->
  kept images (purchaseLimit config) c a a' log ->
  kept images (purchaseLimit config) c' a a' log.
Proof.
  intros Hc (new & H1 & H2 & H3 & H4 & H5 & H6 & H7 & H8).
  exists new. repeat split; try assumption; try lia; apply H8; assumption.
Qed.

Lemma yes_tail (answer : jsstring) (answers : list jsstring) :
  (List.length (filter (saysYes toLowerCase) answers)
   <= List.length (filter (saysYes toLowerCase) (answer :: answers)))%nat.
Proof.
  cbn [filter]. destruct (saysYes toLowerCase answer); cbn [List.length]; lia.
Qed.

(** What the loop keeps, whatever is answered and whatever ledger and
    marketplace do. *)
Lemma purchaseLoop_keeps (len : nat) :
  forall answers n a a' log e,
    (List.length answers <= len)%nat ->
    purchaseLoop sdk wallet config toLowerCase world images answers n a
    = (a', log, e) ->
    kept images (purchaseLimit config)
      (List.length (filter (saysYes toLowerCase) answers)) a a' log.
Proof.
  induction len as [|len IH]; intros answers n a a' log e Hlen Hrun.
  - destruct answers; [|simpl in Hlen; lia].
    injection Hrun as <- <- <-. apply kept_nothing.
  - destruct answers as [|answer answers1].
    { injection Hrun as <- <- <-. apply kept_nothing. }
    cbn [List.length] in Hlen. cbn [purchaseLoop] in Hrun.
    pose proof (yes_tail answer answers1) as Hy1.
    destruct (isNaN (parseInt10 answer)).
    { apply (kept_more _ _ _ _ _ Hy1), (IH answers1 n a a' log e);
        [lia | exact Hrun]. }
    destruct (strictEquals (parseInt10 answer) (ofInt 0)).
    { injection Hrun as <- <- <-. apply kept_nothing. }
    destruct (lt (parseInt10 answer) (ofInt 1)
              || lt (ofInt (Z.of_nat (List.length images))) (parseInt10 answer)).
    { apply (kept_more _ _ _ _ _ Hy1), (IH answers1 n a a' log e);
        [lia | exact Hrun]. }
    destruct (elementAt images (sub (parseInt10 answer) (ofInt 1)))
      as [selectedImage|] eqn:Hsel.
    2:{ injection Hrun as <- <- <-. apply kept_nothing. }
    apply elementAt_In in Hsel.
    destruct answers1 as [|confirm answers2].
    { injection Hrun as <- <- <-. apply kept_nothing. }
    cbn [List.length] in Hlen.
    pose proof (yes_tail confirm answers2) as Hy2.
    destruct (saysYes toLowerCase confirm) eqn:Hconfirm; cbn [negb] in Hrun.
    2:{ apply (kept_more _ _ _ _ _ (Nat.le_trans _ _ _ Hy2 Hy1)),
          (IH answers2 n a a' log e); [lia | exact Hrun]. }
    destruct (purchaseAndRecord sdk (ledger (world n)) (marketplace (world n))
                wallet a (item_id selectedImage) (item_title selectedImage))
      as [a1 log1] eqn:Hbuy.
    apply purchaseAndRecord_effect in Hbuy
      as (r & Himgs & Hcount & Hid & Htitle & Hhash & _ & _ & Hlog1).
    assert (Hrec : recordOf images r)
      by (exists selectedImage; repeat split; assumption).
    assert (Hone : forall c,
               kept images (purchaseLimit config) (S c) a a1 log1).
    { intros c. exists [r]. rewrite successes_one.
      split; [exact Himgs|]. split; [exact Hcount|].
      split; [constructor; [exact Hrec | constructor]|].
      split; [constructor; [exact Hhash | constructor]|].
      split; [cbn [List.length]; lia|].
      split; [destruct (rec_success r); lia|].
      split; [cbn [List.length]; lia | discriminate]. }
    assert (Hyes : exists c,
               List.length (filter (saysYes toLowerCase)
                              (answer :: confirm :: answers2)) = S c).
    { cbn [filter]. rewrite Hconfirm.
      destruct (saysYes toLowerCase answer); cbn [List.length]; eauto. }
    destruct Hyes as [c Hyes].
    destruct (Z.leb_spec (purchaseLimit config) (purchaseCount a1))
      as [Hfull|Hroom].
    { injection Hrun as <- <- <-. rewrite Hyes. apply Hone. }
    destruct answers2 as [|another answers3].
    { injection Hrun as <- <- <-. rewrite Hyes. apply Hone. }
    cbn [List.length] in Hlen.
    destruct (saysYes toLowerCase another) eqn:Hanother; cbn [negb] in Hrun.
    2:{ injection Hrun as <- <- <-. rewrite Hyes. apply Hone. }
    destruct (purchaseLoop sdk wallet config toLowerCase world images
                answers3 (S n) a1) as [[a2 log2] e2] eqn:Hrest.
    injection Hrun as <- <- <-.
    destruct (IH answers3 (S n) a1 a2 log2 e2 ltac:(lia) Hrest)
      as (new & H1 & H2 & H3 & H4 & H5 & H6 & _ & H7).
    exists (r :: new).
    split; [rewrite H1, Himgs, <- app_assoc; reflexivity|].
    split.
    { rewrite H2, Hcount.
      change (r :: new) with ([r] ++ new).
      rewrite successes_app, successes_one. lia. }
    split; [constructor; assumption|].
    split; [constructor; assumption|].
    split.
    { cbn [filter]. rewrite Hconfirm, Hanother.
      destruct (saysYes toLowerCase answer); cbn [List.length]; lia. }
    split; [intros _; apply H6; exact Hroom|].
    split; [destruct (rec_success r); lia | discriminate].
Qed.

End LoopFacts.

(** ** The wallet's keys as text *)

Lemma encode_nonempty (bs : list Z) :
  Forall byte bs -> bs <> [] -> Bs58.encode bs <> [].
Proof.
  intros Hall Hne Henc.
  pose proof (bs58_roundtrip bs Hall) as H. rewrite Henc in H.
  vm_compute in H. congruence.
Qed.

Lemma loadOrCreateWallet_printed (keys : KeypairSdk) (w : AgentWallet) :
  Forall byte (secretKey (keypair w)) -> secretKey (keypair w) <> [] ->
  loadOrCreateWallet keys (Some (Wallet.privateKeyBase58 w))
  = (kp <- fromSecretKey keys (secretKey (keypair w)) ;;
     Ok {| keypair := kp |}).
Proof.
  intros Hall Hne.
  unfold loadOrCreateWallet, Wallet.new, Wallet.privateKeyBase58.
  pose proof (encode_nonempty _ Hall Hne) as Htext.
  rewrite (bs58_roundtrip _ Hall).
  destruct (Bs58.encode (secretKey (keypair w))) as [|c text];
    [contradiction|].
  cbn [truthy andb List.length].
  destruct (Z.ltb_spec 0 (Z.of_nat (S (List.length text))));
    [reflexivity | lia].
Qed.

(** X1: the text [privateKeyBase58] gives for a wallet decodes to the
    wallet's secret key; with that text in [AGENT_PRIVATE_KEY],
    [loadOrCreateWallet] generates nothing and hands exactly these bytes
    to [Keypair.fromSecretKey]; where that returns the key pair the bytes
    came from, the wallet loaded is the wallet that printed the key. *)
Theorem wallet_key_reload :
  forall (keys : KeypairSdk) (w : AgentWallet),
    Forall byte (secretKey (keypair w)) -> secretKey (keypair w) <> [] ->
    Bs58.decode (Wallet.privateKeyBase58 w) = Some (secretKey (keypair w)) /\
    loadOrCreateWallet keys (Some (Wallet.privateKeyBase58 w))
    = (kp <- fromSecretKey keys (secretKey (keypair w)) ;;
       Ok {| keypair := kp |}) /\
    (fromSecretKey keys (secretKey (keypair w)) = Ok (keypair w) ->
     loadOrCreateWallet keys (Some (Wallet.privateKeyBase58 w)) = Ok w).
Proof.
  intros keys w Hall Hne.
  split; [apply bs58_roundtrip, Hall|].
  split; [apply loadOrCreateWallet_printed; assumption|].
  intros Hkp. rewrite loadOrCreateWallet_printed, Hkp by assumption.
  destruct w. reflexivity.
Qed.

Lemma wallet_key_reload_witness :
  loadOrCreateWallet Scenario.keys
    (Some (Wallet.privateKeyBase58 Fixture.wallet))
  = Ok Fixture.wallet.
Proof.
  apply (proj2 (proj2 (wallet_key_reload Scenario.keys Fixture.wallet
                         ltac:(repeat constructor; unfold byte; lia)
                         ltac:(discriminate)))).
  vm_compute. reflexivity.
Defined.

(** The key text of the fixture's wallet, which is a seed with its
    public key; what an unset or empty variable gives; and two texts that
    are refused, one for a character outside the alphabet, one for
    holding 6 bytes where a key pair has 64. *)
Example wallet_key_texts :
  Wallet.privateKeyBase58 Fixture.wallet
  = str "2AXDGYSE4f2sz7tvMMzyHvUfcoJmxudvdhBcmiUSo6iuCXagjUCKEQF21awZnUGxmwD4m9vGXuC3qieHXJQHAcT" /\
  loadOrCreateWallet Scenario.keys None
  = Ok {| keypair := generate Scenario.keys |} /\
  loadOrCreateWallet Scenario.keys (Some [])
  = Ok {| keypair := generate Scenario.keys |} /\
  loadOrCreateWallet Scenario.keys (Some (str "0OIl"))
  = Throw NonBase58Character /\
  Bs58.decode (str "11BSCXn") = Some [0; 0; 7; 9; 200; 13] /\
  loadOrCreateWallet Scenario.keys (Some (str "11BSCXn"))
  = Throw TransactionError.
Proof.
  vm_compute. repeat split.
Qed.

(** X2: the address the wallet prints ([publicKey], base 58 of the 32
    key bytes) is read back by [new PublicKey] as the wallet's key. *)
Theorem wallet_address_roundtrip :
  forall w : AgentWallet,
    0 <= Wallet.publicKeyObj w < 2 ^ 256 ->
    newPublicKey (Some (Wallet.publicKey w)) = Ok (Wallet.publicKeyObj w) /\
    List.length (toBytes (Wallet.publicKeyObj w)) = 32%nat.
Proof.
  intros w Hk. split.
  - apply publicKey_roundtrip, Hk.
  - apply toBytes_spec, Hk.
Qed.

Lemma wallet_address_roundtrip_witness :
  newPublicKey (Some (Wallet.publicKey Fixture.wallet))
  = Ok (Wallet.publicKeyObj Fixture.wallet) /\
  List.length (toBytes (Wallet.publicKeyObj Fixture.wallet)) = 32%nat.
Proof.
  apply (wallet_address_roundtrip Fixture.wallet).
  vm_compute. split; [discriminate | reflexivity].
Defined.

(** The address of the fixture's payer is the text its key was read
    from. *)
Example wallet_address_text :
  Wallet.publicKey Fixture.wallet
  = str "AKnL4NNf3DGWZJS6cPknBuEGnVsV4A4m5tgebLHaRSZ9".
Proof.
  vm_compute. reflexivity.
Qed.

(** ** Notices at start-up *)

(** X6: when the SOL balance can be read and the USDC token account holds
    fewer than 2^33 * 10^6 base units, [main] prints the low-USDC notice
    exactly when the account holds fewer than 10000 base units (an
    account that cannot be read counts as empty); and when the notice is
    not printed, no challenge asking, in decimal digits, for at most
    10000 base units is turned down for insufficient funds on the same
    ledger state. *)
Theorem low_usdc_notice :
  forall sdk connection lamports (w : AgentWallet) sol,
    lamports (Wallet.publicKeyObj w) = Some sol ->
    0 <= baseUnits sdk connection (publicKey (getKeypair w)) < exactLimit ->
    (In LowUsdc (balanceNotices sdk connection lamports w) <->
     baseUnits sdk connection (publicKey (getKeypair w)) < 10000) /\
    (forall c a rest s,
        ~ In LowUsdc (balanceNotices sdk connection lamports w) ->
        accepts c = Some (Some a :: rest) ->
        Accept.maxAmountRequired a = Some s ->
        decimalString s -> decimalValue s <= 10000 ->
        createPayment sdk connection (getKeypair w) c
        <> Throw InsufficientFunds).
Proof.
  intros sdk connection lamports w sol Hsol Hunits.
  assert (Hiff : In LowUsdc (balanceNotices sdk connection lamports w) <->
                 baseUnits sdk connection (publicKey (getKeypair w)) < 10000).
  { rewrite (lowUsdc_shown sdk connection lamports w sol Hsol).
    rewrite getUsdcBalance_baseUnits, hundredth_scaled.
    apply scaled_lt_iff; [exact Hunits | unfold millionMantissa; lia]. }
  split; [exact Hiff|].
  intros c a rest s Hnone Hacc Hs Hdec Hsmall Hthrow.
  apply Hnone, Hiff.
  apply createPayment_insufficient in Hthrow.
  unfold unsignedTransaction in Hthrow.
  destruct (parseChallenge_first c a rest Hacc)
    as (p & Hp & _ & Hamount & _).
  rewrite Hp in Hthrow. cbn [bind] in Hthrow.
  apply createPayment_message_insufficient in Hthrow.
  rewrite Hamount, Hs in Hthrow. cbn [parseIntOf] in Hthrow.
  rewrite (parseInt_decimal s Hdec), getUsdcBalance_baseUnits in Hthrow.
  apply scaled_lt_iff in Hthrow;
    [lia | exact Hunits |].
  split; [apply decimalValue_nonneg, Hdec | unfold millionMantissa; lia].
Qed.

Lemma low_usdc_notice_witness :
  In LowUsdc (balanceNotices Fixture.sdk (Fixture.connection 9999)
                (fun _ => Some 5000000) Fixture.wallet) <->
  baseUnits Fixture.sdk (Fixture.connection 9999)
    (publicKey (getKeypair Fixture.wallet)) < 10000.
Proof.
  apply (low_usdc_notice Fixture.sdk (Fixture.connection 9999)
           (fun _ => Some 5000000) Fixture.wallet 5000000).
  - reflexivity.
  - vm_compute. split; [discriminate | reflexivity].
Defined.

(** The notices at 9999 and at 10000 base units with 0.005 SOL, and with
    the SOL balance out of reach. *)
Example balance_notices :
  balanceNotices Fixture.sdk (Fixture.connection 9999)
    (fun _ => Some 5000000) Fixture.wallet = [LowUsdc] /\
  balanceNotices Fixture.sdk (Fixture.connection 10000)
    (fun _ => Some 5000000) Fixture.wallet = [] /\
  balanceNotices Fixture.sdk (Fixture.connection 10000)
    (fun _ => Some 999999) Fixture.wallet = [LowSol] /\
  balanceNotices Fixture.sdk (Fixture.connection 0)
    (fun _ => None) Fixture.wallet = [BalanceUnknown] /\
  literal 1 2 = S754_finite false 5764607523034235 (-59) /\
  literal 1 3 = S754_finite false 4611686018427388 (-62).
Proof.
  vm_compute. repeat split.
Qed.

(** ** The marketplace client *)

(** X7: a base URL is stored without its last slash, so that with or
    without one the client is the same and every request goes to the base
    URL followed by the endpoint; only one slash is removed. *)
Theorem trailing_slash_ignored :
  forall (b : jsstring) (agent : option jsstring),
    endsWithSlash b = false ->
    Client.new (b ++ [47]) agent = Client.new b agent /\
    (forall endpoint options,
        Http.url (Client.request (Client.new (b ++ [47]) agent) endpoint options)
        = b ++ endpoint /\
        Http.url (Client.request (Client.new b agent) endpoint options)
        = b ++ endpoint) /\
    Client.baseUrl (Client.new (b ++ [47; 47]) agent) = b ++ [47].
Proof.
  intros b agent Hb. unfold Client.new, Client.request. cbn [Client.baseUrl Http.url].
  rewrite removeTrailingSlash_slash, (removeTrailingSlash_none b Hb).
  split; [reflexivity|]. split; [intros; split; reflexivity|].
  change (b ++ [47; 47]) with (b ++ [47] ++ [47]).
  rewrite app_assoc. apply removeTrailingSlash_slash.
Qed.

Lemma trailing_slash_ignored_witness :
  Client.new (str "http://localhost:3000" ++ [47]) None
  = Client.new (str "http://localhost:3000") None.
Proof.
  apply (trailing_slash_ignored (str "http://localhost:3000") None).
  reflexivity.
Defined.

(** X8: the headers of a request are the two of the client with the
    caller's spread over them: under any name, the caller's last entry
    if there is one, else [application/json] for [Content-Type], the
    agent id for [x-agent-address], and nothing for any other name. *)
Theorem request_headers :
  forall (c : Client.t) (endpoint : jsstring) (options : option RequestInit)
         (name : jsstring),
    Client.getHeader (Http.headers (Client.request c endpoint options)) name
    = match Client.getHeader
              (rev match options with
                   | Some o => match init_headers o with
                               | Some h => h
                               | None => []
                               end
                   | None => []
                   end) name with
      | Some v => Some v
      | None =>
          if eqb_list (str "Content-Type") name
          then Some (str "application/json")
          else if eqb_list (str "x-agent-address") name
               then Some (Client.agentId c)
               else None
      end.
Proof.
  intros c endpoint options name. unfold Client.request. cbn [Http.headers].
  rewrite getHeader_spread.
  destruct (Client.getHeader (rev _) name); [reflexivity|].
  unfold Client.getHeader. cbn [find fst].
  destruct (eqb_list (str "Content-Type") name); [reflexivity|].
  destruct (eqb_list (str "x-agent-address") name); reflexivity.
Qed.

(** The requests of the two purchase calls, as a server that echoes them
    sees them. *)
Example purchase_requests :
  Client.initiatePurchase _ (Scenario.echo 402)
    (Client.new (str "http://localhost:3000/") (Some (str "buyer"))) 12
  = Ok (402,
        {| Http.url := str "http://localhost:3000/api/agent/buy?imageId=12";
           Http.method := Some (str "POST");
           Http.headers := [(str "Content-Type", str "application/json");
                            (str "x-agent-address", str "buyer")] |}) /\
  Client.completePurchase _ (Scenario.echo 200)
    (Client.new (str "http://localhost:3000/") (Some (str "buyer"))) 12
    (str "eyJ4")
  = Ok {| Http.url := str "http://localhost:3000/api/agent/buy?imageId=12";
          Http.method := Some (str "POST");
          Http.headers := [(str "Content-Type", str "application/json");
                           (str "x-agent-address", str "buyer");
                           (str "X-PAYMENT", str "eyJ4")] |} /\
  Client.completePurchase _ (Scenario.echo 402)
    (Client.new (str "http://localhost:3000/") (Some (str "buyer"))) 12
    (str "eyJ4")
  = Throw HttpError /\
  Client.getImageInfo _ (Scenario.echo 404)
    (Client.new (str "http://localhost:3000/") None) 12
  = Throw HttpError.
Proof.
  vm_compute. repeat split.
Qed.

(** ** The command line *)

(** X9: the configuration [main] builds never has an empty API URL or an
    empty agent id, and allows 10 purchases.  The URL is the first
    argument after the script name that does not start with [--], if
    there is one and it is not empty; else the [PINSPIRE_API_URL] of the
    environment, if it is set and not empty; else
    [http://localhost:3000]: an argument starting with [--] is never
    taken for the URL, wherever it stands.  The agent id is the
    [AGENT_ID] of the environment, if it is set and not empty, else
    [autonomous-buyer-v1]. *)
Theorem agent_config_from_command_line :
  forall (argv : list jsstring) (env : Env),
    let isFlag arg := startsWith arg (str "--") = true in
    apiUrl (agentConfig argv env) <> [] /\
    agentId (agentConfig argv env) <> [] /\
    purchaseLimit (agentConfig argv env) = 10 /\
    ((In (apiUrl (agentConfig argv env)) (skipn 2 argv) /\
      startsWith (apiUrl (agentConfig argv env)) (str "--") = false) \/
     PINSPIRE_API_URL env = Some (apiUrl (agentConfig argv env)) \/
     apiUrl (agentConfig argv env) = str "http://localhost:3000") /\
    (forall node script flags u rest,
        argv = node :: script :: flags ++ u :: rest ->
        Forall isFlag flags ->
        startsWith u (str "--") = false -> u <> [] ->
        apiUrl (agentConfig argv env) = u) /\
    (Forall isFlag (skipn 2 argv) \/
     (exists node script flags rest,
         argv = node :: script :: flags ++ [] :: rest /\
         Forall isFlag flags) ->
     (forall v,
         PINSPIRE_API_URL env = Some v -> v <> [] ->
         apiUrl (agentConfig argv env) = v) /\
     (PINSPIRE_API_URL env = None \/ PINSPIRE_API_URL env = Some [] ->
      apiUrl (agentConfig argv env) = str "http://localhost:3000")) /\
    (forall v,
        AGENT_ID env = Some v -> v <> [] ->
        agentId (agentConfig argv env) = v) /\
    (AGENT_ID env = None \/ AGENT_ID env = Some [] ->
     agentId (agentConfig argv env) = str "autonomous-buyer-v1").
Proof.
  intros argv env isFlag. subst isFlag. unfold agentConfig.
  cbn [apiUrl agentId].
  split; [apply orElse_nonempty, orElse_nonempty; discriminate|].
  split; [apply orElse_nonempty; discriminate|].
  split; [reflexivity|]. split; [|split; [|split; [|split]]].
  - destruct (orElse_cases (hd_error (args argv))
                (orElse (PINSPIRE_API_URL env) (str "http://localhost:3000")))
      as [(c & s & Hhd & ->)|[_ ->]].
    + left. apply args_head, Hhd.
    + right.
      destruct (orElse_cases (PINSPIRE_API_URL env)
                  (str "http://localhost:3000"))
        as [(c & s & Henv & ->)|[_ ->]]; [left; exact Henv | right; reflexivity].
  - intros node script flags u rest -> Hflags Hu Hne.
    rewrite (args_skip_flags node script flags rest u Hflags Hu).
    destruct u; [contradiction | reflexivity].
  - intros Hargv.
    assert (Hnone : forall d, orElse (hd_error (args argv)) d = d).
    { intros d. destruct Hargv as [Hflags|(node & script & flags & rest & -> & Hflags)].
      - rewrite (args_flags_only argv Hflags). reflexivity.
      - assert (Hhd : hd_error (args (node :: script :: flags ++ [] :: rest))
                      = Some [])
          by exact (args_skip_flags node script flags rest [] Hflags eq_refl).
        rewrite Hhd. reflexivity. }
    rewrite Hnone. split.
    + intros v -> Hv. destruct v; [contradiction | reflexivity].
    + intros [->| ->]; reflexivity.
  - intros v -> Hv. destruct v; [contradiction | reflexivity].
  - intros [->| ->]; reflexivity.
Qed.

(** On four command lines: the URL is the argument behind a flag; with
    flags only, or with an empty argument first, it is that of the
    environment, where the agent id comes from too; with nothing set,
    both are the defaults. *)
Lemma agent_config_from_command_line_witness :
  let env url id :=
    {| AGENT_PRIVATE_KEY := None; PINSPIRE_API_URL := url; AGENT_ID := id |} in
  apiUrl (agentConfig
            [str "node"; str "index.js"; str "--auto";
             str "http://pinspire.test"; str "extra"]
            (env (Some (str "http://env.test")) None))
  = str "http://pinspire.test" /\
  agentConfig [str "node"; str "index.js"; str "--auto"]
    (env (Some (str "http://env.test")) (Some (str "me")))
  = {| apiUrl := str "http://env.test"; agentId := str "me";
       maxPurchases := Some 10 |} /\
  apiUrl (agentConfig
            [str "node"; str "index.js"; str "--auto"; [];
             str "http://late.test"]
            (env (Some (str "http://env.test")) None))
  = str "http://env.test" /\
  agentConfig [str "node"] (env (Some []) None)
  = {| apiUrl := str "http://localhost:3000";
       agentId := str "autonomous-buyer-v1";
       maxPurchases := Some 10 |}.
Proof.
  intros env.
  assert (Hauto : Forall (fun arg => startsWith arg (str "--") = true)
                    [str "--auto"]) by (repeat constructor).
  split; [|split; [|split]].
  - apply (proj1 (proj2 (proj2 (proj2 (proj2
             (agent_config_from_command_line
                [str "node"; str "index.js"; str "--auto";
                 str "http://pinspire.test"; str "extra"]
                (env (Some (str "http://env.test")) None))))))
           (str "node") (str "index.js") [str "--auto"]
           (str "http://pinspire.test") [str "extra"]).
    + reflexivity.
    + exact Hauto.
    + reflexivity.
    + discriminate.
  - pose proof (agent_config_from_command_line
                  [str "node"; str "index.js"; str "--auto"]
                  (env (Some (str "http://env.test")) (Some (str "me"))))
      as (_ & _ & _ & _ & _ & Hurl & Hid & _).
    cbv zeta in Hurl.
    destruct (Hurl (or_introl Hauto)) as [Hset _].
    specialize (Hset (str "http://env.test") eq_refl ltac:(discriminate)).
    specialize (Hid (str "me") eq_refl ltac:(discriminate)).
    unfold agentConfig in *. cbn [apiUrl agentId] in Hset, Hid.
    rewrite Hset, Hid. reflexivity.
  - pose proof (agent_config_from_command_line
                  [str "node"; str "index.js"; str "--auto"; [];
                   str "http://late.test"]
                  (env (Some (str "http://env.test")) None))
      as (_ & _ & _ & _ & _ & Hurl & _).
    cbv zeta in Hurl.
    refine (proj1 (Hurl (or_intror _)) (str "http://env.test") eq_refl _);
      [|discriminate].
    exists (str "node"), (str "index.js"), [str "--auto"],
      [str "http://late.test"].
    split; [reflexivity | exact Hauto].
  - pose proof (agent_config_from_command_line [str "node"]
                  (env (Some []) None))
      as (_ & _ & _ & _ & _ & Hurl & _ & Hid).
    cbv zeta in Hurl.
    assert (Hflags : Forall (fun arg => startsWith arg (str "--") = true)
                       (skipn 2 [str "node"])) by constructor.
    destruct (Hurl (or_introl Hflags)) as [_ Hunset].
    specialize (Hunset (or_intror eq_refl)).
    specialize (Hid (or_introl eq_refl)).
    unfold agentConfig in *. cbn [apiUrl agentId] in Hunset, Hid.
    rewrite Hunset, Hid. reflexivity.
Defined.

(** The configuration on some command lines. *)
Example agent_configs :
  agentConfig [str "node"; str "index.js"; str "--auto"]
    {| AGENT_PRIVATE_KEY := None; PINSPIRE_API_URL := Some [];
       AGENT_ID := Some (str "me") |}
  = {| apiUrl := str "http://localhost:3000"; agentId := str "me";
       maxPurchases := Some 10 |} /\
  autoMode [str "node"; str "index.js"; str "--auto"] = true /\
  autoMode [str "node"; str "index.js"; str "--automatic"] = false /\
  apiUrl (agentConfig [str "node"; str "index.js"; []; str "http://late"]
            {| AGENT_PRIVATE_KEY := None;
               PINSPIRE_API_URL := Some (str "http://env.test");
               AGENT_ID := None |})
  = str "http://env.test".
Proof.
  vm_compute. repeat split.
Qed.

(** ** The two ways to run *)

(** X10: for every marketplace and ledger, [purchaseImage] leaves
    [purchasedImages] as it was, adds one to [purchaseCount] exactly when
    it reports success, reports as transaction hash nothing or the
    placeholder [pending-settlement], and starts by asking for the image
    details. *)
Theorem purchase_counts_success :
  forall sdk connection client wallet (a : PinspireAgent) (imageId : Z),
    let bought := purchaseImage sdk connection client wallet a imageId in
    purchasedImages (snd (fst bought)) = purchasedImages a /\
    purchaseCount (snd (fst bought))
    = purchaseCount a + (if success (fst (fst bought)) then 1 else 0) /\
    noRealHash (txHash (fst (fst bought))) /\
    exists more, snd bought = GetImageInfo imageId :: more.
Proof.
  intros sdk connection client wallet a imageId bought.
  destruct bought as [[r a'] log] eqn:Hb. subst bought.
  destruct (purchaseImage_effect _ _ _ _ _ _ _ _ _ Hb) as (H1 & H2 & H3 & _).
  cbn [fst snd]. repeat split; try assumption.
  revert Hb. unfold purchaseImage.
  destruct (bind (getImageInfo client imageId) readImageInfo) as [u|e];
    [|intros [= _ _ <-]; eexists; reflexivity].
  destruct (initiatePurchase client imageId) as [[status data]|e];
    [|intros [= _ _ <-]; eexists; reflexivity].
  destruct (status =? 402).
  - destruct (createPayment sdk connection (getKeypair wallet) data)
      as [proof|e]; [|intros [= _ _ <-]; eexists; reflexivity].
    destruct (completePurchase client imageId (header proof)) as [result|e];
      [destruct (readPurchaseResult result)|];
      intros [= _ _ <-]; eexists; reflexivity.
  - destruct (status =? 200); intros [= _ _ <-]; eexists; reflexivity.
Qed.

Section RunFacts.
Variable sdk : Sdk.
Variable wallet : AgentWallet.
Variable config : AgentConfig.
Variable discovery : Discovery.
Variable toLowerCase : jsstring -> jsstring.
Variable world : nat -> World.

(** How [runInteractive] ends: before the loop, with nothing changed, or
    as the loop over the browsed list does. *)
Lemma runInteractive_inv (answers : list jsstring) (a a' : PinspireAgent)
  (log : list Event) (e : Ending) :
  runInteractive sdk wallet config discovery toLowerCase world answers a
  = (a', log, e) ->
  (a' = a /\ log = [] /\ forall s, e <> Finished s) \/
  exists result items le,
    browseImages discovery = Ok result /\ images result = Some items /\
    purchaseLoop sdk wallet config toLowerCase world items answers 0 a
    = (a', log, le) /\
    e = match le with
        | LoopDone => Finished (printSummary a')
        | LoopAwaitingInput => AwaitingInput
        | LoopThrown err => Thrown err
        end.
Proof.
  unfold runInteractive.
  destruct (discoverMarketplace discovery);
    [|intros [= <- <- <-]; left; repeat split; discriminate].
  destruct (nothingToBuy (browseAvailableImages discovery));
    [intros [= <- <- <-]; left; repeat split; discriminate|].
  unfold browseAvailableImages.
  destruct (browseImages discovery) as [result|err] eqn:Hb;
    [|intros [= <- <- <-]; left; repeat split; discriminate].
  destruct (images result) as [items|] eqn:Hi;
    [|intros [= <- <- <-]; left; repeat split; discriminate].
  destruct result as [total imgs]. cbn [images] in Hi. subst imgs.
  destruct (purchaseLoop sdk wallet config toLowerCase world items answers 0 a)
    as [[a1 log1] le] eqn:Hloop.
  intros H. right. exists {| totalImages := total; images := Some items |}, items, le.
  destruct le; injection H as <- <- <-; repeat split; assumption.
Qed.

End RunFacts.

Lemma filter_partition {A} (f : A -> bool) (l : list A) :
  (List.length l
   = List.length (filter f l) + List.length (filter (fun x => negb (f x)) l))%nat.
Proof.
  induction l as [|x l IH]; [reflexivity|].
  cbn [filter]. destruct (f x); cbn [negb List.length]; lia.
Qed.

(** X11: an interactive run only appends to [purchasedImages], and
    [purchaseCount] grows by the number of records appended that say
    success.  The summary printed at the end counts the records:
    attempted is successful plus failed; for an agent that starts with no
    record and a count of 0, the successful purchases it prints are the
    [purchaseCount]. *)
Theorem interactive_accounting :
  forall sdk wallet config discovery toLowerCase world answers
         (a a' : PinspireAgent) log e,
    runInteractive sdk wallet config discovery toLowerCase world answers a
    = (a', log, e) ->
    (exists new,
        purchasedImages a' = purchasedImages a ++ new /\
        purchaseCount a' = purchaseCount a + successes new) /\
    (forall s,
        e = Finished s ->
        attempted s = List.length (purchasedImages a') /\
        attempted s = (successful s + failed s)%nat /\
        (purchasedImages a = [] -> purchaseCount a = 0 ->
         Z.of_nat (successful s) = purchaseCount a')).
Proof.
  intros sdk wallet config discovery toLowerCase world answers a a' log e H.
  apply runInteractive_inv in H
    as [(-> & -> & Hnot)|(result & items & le & _ & _ & Hloop & ->)].
  - split.
    + exists []. rewrite app_nil_r. unfold successes. cbn. split; [reflexivity | lia].
    + intros s Hs. exfalso. exact (Hnot s Hs).
  - destruct (purchaseLoop_keeps sdk wallet config toLowerCase world items
                (List.length answers) answers 0 a a' log le (le_n _) Hloop)
      as (new & Himgs & Hcount & _).
    split; [exists new; split; assumption|].
    intros s Hs. destruct le; try discriminate. injection Hs as <-.
    unfold printSummary. cbn [attempted successful failed].
    split; [reflexivity|]. split; [apply filter_partition|].
    intros Hnil Hzero. rewrite Hcount, Hzero, Himgs, Hnil. reflexivity.
Qed.

Lemma interactive_accounting_witness :
  let run :=
    runInteractive Fixture.sdk Fixture.wallet (Scenario.config None)
      Scenario.discovery Scenario.toLowerCase Scenario.world
      [str "2"; str "y"; str "y"; str "3"; str "YES"; str "n"]
      Fixture.agent in
  snd run = Finished {| attempted := 2; successful := 1; failed := 1 |} /\
  purchaseCount (fst (fst run)) = 1 /\
  (exists new,
      purchasedImages (fst (fst run)) = purchasedImages Fixture.agent ++ new /\
      purchaseCount (fst (fst run))
      = purchaseCount Fixture.agent + successes new).
Proof.
  intros run.
  split; [vm_compute; reflexivity|]. split; [vm_compute; reflexivity|].
  apply (proj1 (interactive_accounting Fixture.sdk Fixture.wallet
                  (Scenario.config None) Scenario.discovery
                  Scenario.toLowerCase Scenario.world
                  [str "2"; str "y"; str "y"; str "3"; str "YES"; str "n"]
                  Fixture.agent (fst (fst run)) (snd (fst run)) (snd run)
                  ltac:(vm_compute; reflexivity))).
Defined.

(** X12: the limit on purchases, [maxPurchases] or 10 when that is absent
    or 0, bounds the successful purchases: an interactive run that starts
    below the limit never takes [purchaseCount] above it; failed
    attempts do not count.  A run that starts at or above the limit (as
    with a negative [maxPurchases]) stops after its first attempt. *)
Theorem interactive_limit :
  forall sdk wallet config discovery toLowerCase world answers
         (a a' : PinspireAgent) log e,
    runInteractive sdk wallet config discovery toLowerCase world answers a
    = (a', log, e) ->
    (purchaseCount a < purchaseLimit config ->
     purchaseCount a' <= purchaseLimit config) /\
    (purchaseLimit config <= purchaseCount a ->
     exists new,
       purchasedImages a' = purchasedImages a ++ new /\
       (List.length new <= 1)%nat) /\
    (maxPurchases config = None \/ maxPurchases config = Some 0 ->
     purchaseLimit config = 10).
Proof.
  intros sdk wallet config discovery toLowerCase world answers a a' log e H.
  split; [|split].
  - intros Hlt. apply runInteractive_inv in H
      as [(-> & _)|(result & items & le & _ & _ & Hloop & _)]; [lia|].
    destruct (purchaseLoop_keeps sdk wallet config toLowerCase world items
                (List.length answers) answers 0 a a' log le (le_n _) Hloop)
      as (new & _ & _ & _ & _ & _ & Hlim & _).
    exact (Hlim Hlt).
  - intros Hge. apply runInteractive_inv in H
      as [(-> & _)|(result & items & le & _ & _ & Hloop & _)].
    + exists []. rewrite app_nil_r. split; [reflexivity | cbn; lia].
    + destruct (purchaseLoop_keeps sdk wallet config toLowerCase world items
                  (List.length answers) answers 0 a a' log le (le_n _) Hloop)
        as (new & Himgs & _ & _ & _ & _ & _ & Hfull & _).
      exists new. split; [exact Himgs | exact (Hfull Hge)].
  - unfold purchaseLimit. intros [-> | ->]; reflexivity.
Qed.

Lemma interactive_limit_witness :
  let run :=
    runInteractive Fixture.sdk Fixture.wallet (Scenario.config (Some 1))
      Scenario.discovery Scenario.toLowerCase Scenario.world
      [str "2"; str "y"; str "y"; str "3"; str "YES"; str "n"]
      Fixture.agent in
  List.length (purchasedImages (fst (fst run))) = 1%nat /\
  purchaseCount (fst (fst run)) <= purchaseLimit (Scenario.config (Some 1)).
Proof.
  intros run. split; [vm_compute; reflexivity|].
  apply (proj1 (interactive_limit Fixture.sdk Fixture.wallet
                  (Scenario.config (Some 1)) Scenario.discovery
                  Scenario.toLowerCase Scenario.world
                  [str "2"; str "y"; str "y"; str "3"; str "YES"; str "n"]
                  Fixture.agent (fst (fst run)) (snd (fst run)) (snd run)
                  ltac:(vm_compute; reflexivity))).
  vm_compute. reflexivity.
Defined.

(** Limits on the scenario, where only the first purchase is settled:
    with a limit of 2 the failed second attempt does not end the run and
    a third is made; with a limit of -1 the run ends after the first. *)
Example purchase_limits :
  map rec_success
    (purchasedImages
       (fst (fst (runInteractive Fixture.sdk Fixture.wallet
                    (Scenario.config (Some 2)) Scenario.discovery
                    Scenario.toLowerCase Scenario.world
                    [str "1"; str "y"; str "y"; str "2"; str "y"; str "y";
                     str "3"; str "y"; str "n"]
                    Fixture.agent)))) = [true; false; false] /\
  map rec_id
    (purchasedImages
       (fst (fst (runInteractive Fixture.sdk Fixture.wallet
                    (Scenario.config (Some (-1))) Scenario.discovery
                    Scenario.toLowerCase Scenario.world
                    [str "1"; str "y"; str "y"; str "2"; str "y"; str "n"]
                    Fixture.agent)))) = [11].
Proof.
  vm_compute. repeat split.
Qed.

(** X13: every record an interactive run appends carries the id and the
    title of one entry of the list the marketplace sent for browsing, and
    as transaction hash nothing or the placeholder [pending-settlement]:
    no image outside the list is bought, and no hash of a settled
    transaction is ever recorded. *)
Theorem interactive_buys_listed_images :
  forall sdk wallet config discovery toLowerCase world answers
         (a a' : PinspireAgent) log e,
    runInteractive sdk wallet config discovery toLowerCase world answers a
    = (a', log, e) ->
    exists new,
      purchasedImages a' = purchasedImages a ++ new /\
      Forall (fun r =>
                noRealHash (rec_txHash r) /\
                exists result items,
                  browseImages discovery = Ok result /\
                  images result = Some items /\ recordOf items r) new.
Proof.
  intros sdk wallet config discovery toLowerCase world answers a a' log e H.
  apply runInteractive_inv in H
    as [(-> & _)|(result & items & le & Hb & Hi & Hloop & _)].
  - exists []. rewrite app_nil_r. split; [reflexivity | constructor].
  - destruct (purchaseLoop_keeps sdk wallet config toLowerCase world items
                (List.length answers) answers 0 a a' log le (le_n _) Hloop)
      as (new & Himgs & _ & Hrec & Hhash & _).
    exists new. split; [exact Himgs|].
    rewrite Forall_forall in *. intros r Hr.
    split; [apply Hhash, Hr|].
    exists result, items. repeat split; try assumption. apply Hrec, Hr.
Qed.

Lemma interactive_buys_listed_images_witness :
  let run :=
    runInteractive Fixture.sdk Fixture.wallet (Scenario.config None)
      Scenario.discovery Scenario.toLowerCase Scenario.world
      [str "7"; str "2"; str "y"; str "y"; str "3"; str "YES"; str "n"]
      Fixture.agent in
  map rec_id (purchasedImages (fst (fst run))) = [12; 13] /\
  exists new,
    purchasedImages (fst (fst run)) = purchasedImages Fixture.agent ++ new /\
    Forall (fun r =>
              noRealHash (rec_txHash r) /\
              exists result items,
                browseImages Scenario.discovery = Ok result /\
                images result = Some items /\ recordOf items r) new.
Proof.
  intros run. split; [vm_compute; reflexivity|].
  apply (interactive_buys_listed_images Fixture.sdk Fixture.wallet
           (Scenario.config None) Scenario.discovery
           Scenario.toLowerCase Scenario.world
           [str "7"; str "2"; str "y"; str "y"; str "3"; str "YES"; str "n"]
           Fixture.agent (fst (fst run)) (snd (fst run)) (snd run)
           ltac:(vm_compute; reflexivity)).
Defined.

(** X14: an interactive run makes no more purchase attempts than it got
    answers that, in lower case, are [y] or [yes]; with no such answer it
    sends nothing and leaves the agent as it was. *)
Theorem interactive_needs_confirmation :
  forall sdk wallet config discovery toLowerCase world answers
         (a a' : PinspireAgent) log e,
    runInteractive sdk wallet config discovery toLowerCase world answers a
    = (a', log, e) ->
    (exists new,
        purchasedImages a' = purchasedImages a ++ new /\
        (List.length new
         <= List.length (filter (saysYes toLowerCase) answers))%nat) /\
    (forallb (fun answer => negb (saysYes toLowerCase answer)) answers = true ->
     a' = a /\ log = []).
Proof.
  intros sdk wallet config discovery toLowerCase world answers a a' log e H.
  apply runInteractive_inv in H
    as [(-> & -> & _)|(result & items & le & _ & _ & Hloop & _)].
  - split; [|intros _; split; reflexivity].
    exists []. rewrite app_nil_r. split; [reflexivity | cbn; lia].
  - destruct (purchaseLoop_keeps sdk wallet config toLowerCase world items
                (List.length answers) answers 0 a a' log le (le_n _) Hloop)
      as (new & Himgs & _ & _ & _ & Hyes & _ & _ & Hnil).
    split; [exists new; split; assumption|].
    intros Hno.
    assert (Hnone : filter (saysYes toLowerCase) answers = []).
    { clear -Hno. induction answers as [|x l IH]; [reflexivity|].
      cbn [forallb] in Hno. apply andb_true_iff in Hno as [Hx Hl].
      cbn [filter]. apply negb_true_iff in Hx. rewrite Hx. exact (IH Hl). }
    rewrite Hnone in Hyes. cbn [List.length] in Hyes.
    destruct new; [|cbn [List.length] in Hyes; lia].
    destruct (Hnil eq_refl) as [-> ->]. split; reflexivity.
Qed.

Lemma interactive_needs_confirmation_witness :
  let run :=
    runInteractive Fixture.sdk Fixture.wallet (Scenario.config None)
      Scenario.discovery Scenario.toLowerCase Scenario.world
      [str "2"; str "no"; str "1"; str "yep"; str "0"]
      Fixture.agent in
  snd run = Finished {| attempted := 0; successful := 0; failed := 0 |} /\
  fst (fst run) = Fixture.agent /\ snd (fst run) = [].
Proof.
  intros run. split; [vm_compute; reflexivity|].
  apply (proj2 (interactive_needs_confirmation Fixture.sdk Fixture.wallet
                  (Scenario.config None) Scenario.discovery
                  Scenario.toLowerCase Scenario.world
                  [str "2"; str "no"; str "1"; str "yep"; str "0"]
                  Fixture.agent (fst (fst run)) (snd (fst run)) (snd run)
                  ltac:(vm_compute; reflexivity))).
  vm_compute. reflexivity.
Defined.

(** X15: in the purchase loop, an answer in decimal digits that spells a
    number [k] between 1 and the length of the list, followed by a
    confirmation, buys the [k]-th image of the list: the next record
    pushed on [purchasedImages] has the id and title of that entry and
    the outcome [purchaseImage] reports for its id, and the events of
    that purchase come first. *)
Theorem interactive_selection :
  forall sdk wallet config toLowerCase world (items : list ImageItem)
         (s confirm : jsstring) (rest : list jsstring) (n : nat)
         (a : PinspireAgent) (image : ImageItem),
    decimalString s ->
    1 <= decimalValue s <= Z.of_nat (List.length items) ->
    Z.of_nat (List.length items) < 2 ^ 53 ->
    nth_error items (Z.to_nat (decimalValue s - 1)) = Some image ->
    saysYes toLowerCase confirm = true ->
    let bought :=
      purchaseImage sdk (ledger (world n)) (marketplace (world n)) wallet a
        (item_id image) in
    exists a' log e more later,
      purchaseLoop sdk wallet config toLowerCase world items
        (s :: confirm :: rest) n a = (a', log, e) /\
      purchasedImages a'
      = purchasedImages a
        ++ {| rec_id := item_id image;
              rec_title := item_title image;
              rec_success := success (fst (fst bought));
              rec_txHash := txHash (fst (fst bought)) |} :: more /\
      log = snd bought ++ later.
Proof.
  intros sdk wallet config toLowerCase world items s confirm rest n a image
    Hdec Hk Hlen Hnth Hyes bought.
  destruct (selection_in_range items (decimalValue s) Hk Hlen)
    as (HnotNaN & Hnot0 & Hlow & Hhigh & Hget).
  cbn [purchaseLoop]. rewrite (parseInt10_decimal s Hdec).
  rewrite HnotNaN, Hnot0, Hlow, Hhigh, Hget, Hnth, Hyes.
  cbn [orb negb].
  unfold purchaseAndRecord. fold bought.
  destruct bought as [[r a1] log1] eqn:Hb. subst bought. cbn [fst snd].
  destruct (purchaseImage_effect _ _ _ _ _ _ _ _ _ Hb) as (Himgs & _).
  cbn [purchaseCount].
  set (rec := {| rec_id := item_id image; rec_title := item_title image;
                 rec_success := success r; rec_txHash := txHash r |}).
  set (a2 := {| purchaseCount := purchaseCount a1;
                purchasedImages := purchasedImages a1 ++ [rec] |}).
  assert (Ha2 : purchasedImages a2 = purchasedImages a ++ [rec])
    by (unfold a2; cbn [purchasedImages]; rewrite Himgs; reflexivity).
  destruct (purchaseLimit config <=? purchaseCount a1).
  { exists a2, log1, LoopDone, [], [].
    rewrite app_nil_r. repeat split; assumption. }
  destruct rest as [|another rest'].
  { exists a2, log1, LoopAwaitingInput, [], [].
    rewrite app_nil_r. repeat split; assumption. }
  destruct (saysYes toLowerCase another); cbn [negb].
  2:{ exists a2, log1, LoopDone, [], [].
      rewrite app_nil_r. repeat split; assumption. }
  destruct (purchaseLoop sdk wallet config toLowerCase world items rest'
              (S n) a2) as [[a3 log3] e3] eqn:Hrest.
  destruct (purchaseLoop_keeps sdk wallet config toLowerCase world items
              (List.length rest') rest' (S n) a2 a3 log3 e3 (le_n _) Hrest)
    as (new & Himgs3 & _).
  exists a3, (log1 ++ log3), e3, new, log3.
  split; [reflexivity|]. split; [|reflexivity].
  rewrite Himgs3, Ha2, <- app_assoc. reflexivity.
Qed.

Lemma interactive_selection_witness :
  exists a' log e more later,
    purchaseLoop Fixture.sdk Fixture.wallet (Scenario.config None)
      Scenario.toLowerCase Scenario.world Scenario.items
      (str "2" :: str "Y" :: [str "n"]) 0 Fixture.agent = (a', log, e) /\
    purchasedImages a'
    = purchasedImages Fixture.agent
      ++ {| rec_id := 12;
            rec_title := Some (str "Harbour");
            rec_success :=
              success (fst (fst (purchaseImage Fixture.sdk
                                   (ledger (Scenario.world 0))
                                   (marketplace (Scenario.world 0))
                                   Fixture.wallet Fixture.agent 12)));
            rec_txHash :=
              txHash (fst (fst (purchaseImage Fixture.sdk
                                  (ledger (Scenario.world 0))
                                  (marketplace (Scenario.world 0))
                                  Fixture.wallet Fixture.agent 12))) |}
         :: more /\
    log = snd (purchaseImage Fixture.sdk (ledger (Scenario.world 0))
                 (marketplace (Scenario.world 0)) Fixture.wallet
                 Fixture.agent 12) ++ later.
Proof.
  apply (interactive_selection Fixture.sdk Fixture.wallet
           (Scenario.config None) Scenario.toLowerCase Scenario.world
           Scenario.items (str "2") (str "Y") [str "n"] 0%nat Fixture.agent
           {| item_id := 12; item_title := Some (str "Harbour") |}).
  - split; [discriminate | reflexivity].
  - vm_compute. split; discriminate.
  - vm_compute. reflexivity.
  - reflexivity.
  - reflexivity.
Defined.

(** What the loop makes of some answers: a number out of range and a
    word are asked again, [0x2] is read as 0 and ends the loop, and [2.9]
    selects the second image. *)
Example menu_answers :
  map rec_id
    (purchasedImages
       (fst (fst (purchaseLoop Fixture.sdk Fixture.wallet
                    (Scenario.config None) Scenario.toLowerCase
                    Scenario.world Scenario.items
                    [str "4"; str "two"; str " 2.9"; str "yes"; str "n"]
                    0 Fixture.agent)))) = [12] /\
  purchaseLoop Fixture.sdk Fixture.wallet (Scenario.config None)
    Scenario.toLowerCase Scenario.world Scenario.items
    [str "0x2"; str "y"] 0 Fixture.agent = (Fixture.agent, [], LoopDone) /\
  purchaseLoop Fixture.sdk Fixture.wallet (Scenario.config None)
    Scenario.toLowerCase Scenario.world Scenario.items
    [str "-1"; str "1"] 0 Fixture.agent
  = (Fixture.agent, [], LoopAwaitingInput).
Proof.
  vm_compute. repeat split.
Qed.

(** X16: [run], the mode without questions, buys at most once, and only
    the first image of the browsed list; it pushes nothing on
    [purchasedImages], so that the summary it prints counts as attempted
    what was recorded before the run (nothing, for a new agent) even when
    the purchase was made and counted. *)
Theorem auto_run_keeps_no_history :
  forall sdk wallet discovery (world : World) (a a' : PinspireAgent) log e,
    run sdk wallet discovery world a = (a', log, e) ->
    purchasedImages a' = purchasedImages a /\
    purchaseCount a <= purchaseCount a' <= purchaseCount a + 1 /\
    (forall s, e = Finished s ->
               s = printSummary a' /\
               attempted s = List.length (purchasedImages a)) /\
    (log <> [] ->
     exists result target others,
       browseImages discovery = Ok result /\
       images result = Some (target :: others) /\
       (a', log)
       = (snd (fst (purchaseImage sdk (ledger world) (marketplace world)
                      wallet a (item_id target))),
          snd (purchaseImage sdk (ledger world) (marketplace world) wallet a
                 (item_id target)))).
Proof.
  intros sdk wallet discovery world a a' log e. unfold run.
  assert (Hsame : a' = a -> log = [] ->
                  (forall s, e <> Finished s) ->
                  purchasedImages a' = purchasedImages a /\
                  purchaseCount a <= purchaseCount a' <= purchaseCount a + 1 /\
                  (forall s, e = Finished s ->
                             s = printSummary a' /\
                             attempted s = List.length (purchasedImages a)) /\
                  (log <> [] ->
                   exists result target others,
                     browseImages discovery = Ok result /\
                     images result = Some (target :: others) /\
                     (a', log)
                     = (snd (fst (purchaseImage sdk (ledger world)
                                    (marketplace world) wallet a
                                    (item_id target))),
                        snd (purchaseImage sdk (ledger world)
                               (marketplace world) wallet a
                               (item_id target))))).
  { intros -> -> Hnot. split; [reflexivity|]. split; [lia|].
    split; [intros s Hs; exfalso; exact (Hnot s Hs) | congruence]. }
  destruct (discoverMarketplace discovery);
    [|intros [= <- <- <-]; apply Hsame; try reflexivity; discriminate].
  destruct (nothingToBuy (browseAvailableImages discovery));
    [intros [= <- <- <-]; apply Hsame; try reflexivity; discriminate|].
  unfold browseAvailableImages.
  destruct (browseImages discovery) as [result|err] eqn:Hb;
    [|intros [= <- <- <-]; apply Hsame; try reflexivity; discriminate].
  destruct (images result) as [items|] eqn:Hi;
    [|intros [= <- <- <-]; apply Hsame; try reflexivity; discriminate].
  destruct result as [total imgs]. cbn [images] in Hi. subst imgs.
  destruct items as [|target others];
    [intros [= <- <- <-]; apply Hsame; try reflexivity; discriminate|].
  destruct (purchaseImage sdk (ledger world) (marketplace world) wallet a
              (item_id target)) as [[r a1] log1] eqn:Hbuy.
  intros [= <- <- <-].
  destruct (purchaseImage_effect _ _ _ _ _ _ _ _ _ Hbuy) as (Himgs & Hcount & _).
  split; [exact Himgs|].
  split; [destruct (success r); lia|].
  split.
  - intros s [= <-]. split; [reflexivity|].
    unfold printSummary. cbn [attempted]. rewrite Himgs. reflexivity.
  - intros _. exists {| totalImages := total; images := Some (target :: others) |},
      target, others.
    rewrite Hbuy. repeat split; reflexivity.
Qed.

Lemma auto_run_keeps_no_history_witness :
  let auto :=
    run Fixture.sdk Fixture.wallet Scenario.discovery (Scenario.world 0)
      Fixture.agent in
  purchaseCount (fst (fst auto)) = 1 /\
  snd auto = Finished {| attempted := 0; successful := 0; failed := 0 |} /\
  purchasedImages (fst (fst auto)) = purchasedImages Fixture.agent.
Proof.
  intros auto.
  split; [vm_compute; reflexivity|]. split; [vm_compute; reflexivity|].
  apply (auto_run_keeps_no_history Fixture.sdk Fixture.wallet
           Scenario.discovery (Scenario.world 0) Fixture.agent
           (fst (fst auto)) (snd (fst auto)) (snd auto)
           ltac:(vm_compute; reflexivity)).
Defined.

(** ** Quotients by an integer in binary64 *)

(** The analysis of the quotients by 1e6 carries over to any divisor with
    a 53-digit mantissa [D]. *)

Section Quotients.
Variable D : positive.
Variable eD : Z.
Hypothesis D_range : 2 ^ 52 <= Zpos D < 2 ^ 53.
Hypothesis D_even : Z.even (Zpos D) = true.
Hypothesis eD_range : -52 <= eD <= 0.

Lemma quotient_core (m1 : positive) (e1 : Z) :
  Zpos (digits2_pos m1) = 53 -> -1000 <= e1 <= 900 ->
  SFdiv_core_binary prec emax (Zpos m1) e1 (Zpos D) eD
  = ((Zpos m1 * 2 ^ 53) / Zpos D, e1 - eD - 53,
     new_location_even (Zpos D) ((Zpos m1 * 2 ^ 53) mod Zpos D)).
Proof.
  intros Hd He.
  assert (HdD : Zpos (digits2_pos D) = 53) by (apply digits_unique; exact D_range).
  unfold SFdiv_core_binary, Zdigits2. rewrite Hd, HdD, fexp_eq.
  replace (Z.min (Z.max (53 + e1 - (53 + eD) - 53) (-1074)) (e1 - eD))
    with (e1 - eD - 53) by lia.
  replace (e1 - eD - (e1 - eD - 53)) with 53 by lia.
  rewrite Z.shiftl_mul_pow2 by lia.
  unfold Z.div, Z.modulo.
  destruct (Z.div_eucl (Zpos m1 * 2 ^ 53) (Zpos D)) as [q r].
  unfold new_location. rewrite D_even. reflexivity.
Qed.

Lemma nearest_53 (q r : Z) :
  0 <= r < Zpos D ->
  let v := round_nearest_even q (new_location_even (Zpos D) r) in
  q <= v <= q + 1 /\
  - Zpos D <= 2 * Zpos D * v - 2 * (Zpos D * q + r) <= Zpos D.
Proof.
  intros Hr v. subst v. unfold new_location_even.
  destruct (Z.eqb_spec r 0) as [->|Hr0].
  - cbn [round_nearest_even]. lia.
  - destruct (Z.compare_spec (2 * r) (Zpos D)) as [Heq|Hlt|Hgt];
      cbn [round_nearest_even]; [destruct (Z.even q)| |]; lia.
Qed.

Lemma nearest_54 (qp : positive) (r : Z) :
  0 <= r < Zpos D ->
  exists h,
    let mrs := shr_1 (shr_record_of_loc (Zpos qp)
                        (new_location_even (Zpos D) r)) in
    let v := round_nearest_even (shr_m mrs) (loc_of_shr_record mrs) in
    0 <= h /\ 2 * h <= Zpos qp <= 2 * h + 1 /\ h <= v <= h + 1 /\
    - 2 * Zpos D <= 2 * Zpos D * (2 * v) - 2 * (Zpos D * Zpos qp + r)
    <= 2 * Zpos D.
Proof.
  intros Hr.
  destruct (shr_1_record qp (new_location_even (Zpos D) r))
    as (h & bit & Hrec & Hq & Hh).
  exists h. rewrite Hrec. cbn [shr_m loc_of_shr_record].
  rewrite Hq. unfold new_location_even.
  destruct (Z.eqb_spec r 0) as [->|Hr0]; cbn [isExact negb];
    [|destruct (2 * r ?= Zpos D); cbn [isExact negb]];
    destruct bit; cbn [round_nearest_even];
    try destruct (Z.even h); lia.
Qed.

(** The quotient of a 53-digit mantissa by the divisor is a normal number
    within half a unit in the last place. *)
Lemma quotient_spec (m1 : positive) (e1 : Z) :
  2 ^ 52 <= Zpos m1 < 2 ^ 53 -> -60 <= e1 <= 0 ->
  exists (m : positive) (dl : Z),
    div (S754_finite false m1 e1) (S754_finite false D eD)
    = S754_finite false m (e1 - eD - 53 + dl) /\
    2 ^ 52 <= Zpos m < 2 ^ 53 /\ 0 <= dl <= 2 /\
    (if Zpos m1 <? Zpos D
     then - Zpos D <= 2 * Zpos D * (Zpos m * 2 ^ dl) - 2 * 2 ^ 53 * Zpos m1
          <= Zpos D
     else - 2 * Zpos D <= 2 * Zpos D * (Zpos m * 2 ^ dl) - 2 * 2 ^ 53 * Zpos m1
          <= 2 * Zpos D).
Proof.
  intros Hm He.
  assert (Hd : Zpos (digits2_pos m1) = 53) by (apply digits_unique; lia).
  unfold div, SFdiv.
  rewrite (quotient_core m1 e1 Hd) by lia. cbn [xorb].
  rewrite binary_round_aux_finish.
  pose proof (Z.div_mod (Zpos m1 * 2 ^ 53) (Zpos D) ltac:(discriminate)) as HN.
  pose proof (Z.mod_pos_bound (Zpos m1 * 2 ^ 53) (Zpos D) ltac:(reflexivity))
    as Hr.
  set (q := (Zpos m1 * 2 ^ 53) / Zpos D) in *.
  set (r := (Zpos m1 * 2 ^ 53) mod Zpos D) in *.
  clearbody q r.
  change (2 ^ 53) with 9007199254740992 in *.
  change (2 ^ 52) with 4503599627370496 in *.
  assert (Hq : 4503599627370496 <= q < 18014398509481984) by nia.
  assert (Hlow : q < 9007199254740992 <-> Zpos m1 < Zpos D) by nia.
  destruct q as [|qp|qp]; try lia.
  destruct (Z.ltb_spec (Zpos qp) 9007199254740992) as [Hlt|Hge].
  - assert (Hdq : Zpos (digits2_pos qp) = 53)
      by (apply digits_unique;
          change (2 ^ (53 - 1)) with 4503599627370496;
          change (2 ^ 53) with 9007199254740992; lia).
    rewrite (shr_fexp_53 qp _ _ Hdq) by lia.
    destruct (record_of_loc (Zpos qp) (new_location_even (Zpos D) r))
      as [-> ->].
    destruct (nearest_53 (Zpos qp) r Hr) as [Hv Hb].
    set (v := round_nearest_even (Zpos qp) (new_location_even (Zpos D) r)) in *.
    clearbody v.
    destruct (finish_range v (e1 - eD - 53)) as (m & c & Hfin & Hmr & Hc & Hvm);
      [change (2 ^ 52) with 4503599627370496;
       change (2 ^ 53) with 9007199254740992; lia | lia |].
    exists m, c. rewrite Hfin.
    change (2 ^ 52) with 4503599627370496 in Hmr.
    change (2 ^ 53) with 9007199254740992 in Hmr.
    split; [reflexivity|]. split; [exact Hmr|]. split; [lia|].
    destruct (Z.ltb_spec (Zpos m1) (Zpos D)) as [_|Hbad]; [|exfalso; lia].
    rewrite <- Hvm. lia.
  - assert (Hdq : Zpos (digits2_pos qp) = 54)
      by (apply digits_unique;
          change (2 ^ (54 - 1)) with 9007199254740992;
          change (2 ^ 54) with 18014398509481984; lia).
    rewrite (shr_fexp_54 qp _ _ Hdq) by lia.
    destruct (nearest_54 qp r Hr) as (h & Hh & Hqh & Hv & Hb).
    set (mrs := shr_1 (shr_record_of_loc (Zpos qp)
                         (new_location_even (Zpos D) r))) in *.
    set (v := round_nearest_even (shr_m mrs) (loc_of_shr_record mrs)) in *.
    clearbody v. clear mrs.
    destruct (finish_range v (e1 - eD - 53 + 1)) as (m & c & Hfin & Hmr & Hc & Hvm);
      [change (2 ^ 52) with 4503599627370496;
       change (2 ^ 53) with 9007199254740992; lia | lia |].
    exists m, (1 + c). rewrite Hfin.
    change (2 ^ 52) with 4503599627370496 in Hmr.
    change (2 ^ 53) with 9007199254740992 in Hmr.
    split; [f_equal; lia|]. split; [exact Hmr|]. split; [lia|].
    assert (Hpow : Zpos m * 2 ^ (1 + c) = 2 * v).
    { rewrite Z.pow_add_r by lia. change (2 ^ 1) with 2. lia. }
    rewrite Hpow.
    destruct (Z.ltb_spec (Zpos m1) (Zpos D)) as [Hbad|_]; lia.
Qed.

Lemma quotient_lt_pos (a b : Z) :
  1 <= a -> a < b -> b < Zpos D ->
  lt (div (ofInt a) (S754_finite false D eD))
     (div (ofInt b) (S754_finite false D eD)) = true.
Proof.
  intros Ha Hab Hb.
  set (da := Z.log2 a + 1). set (db := Z.log2 b + 1).
  assert (Hda : 2 ^ (da - 1) <= a < 2 ^ da) by (apply digits_of; lia).
  assert (Hdb : 2 ^ (db - 1) <= b < 2 ^ db) by (apply digits_of; lia).
  assert (Hla : 0 <= Z.log2 a) by apply Z.log2_nonneg.
  assert (Hle : Z.log2 a <= Z.log2 b) by (apply Z.log2_le_mono; lia).
  assert (Hlb : Z.log2 b < 53) by (apply Z.log2_lt_pow2; lia).
  assert (Rda : 1 <= da <= 53) by (unfold da; lia).
  assert (Rdb : 1 <= db <= 53) by (unfold db; lia).
  assert (Hk : 0 <= db - da) by (unfold da, db; lia).
  clearbody da db.
  destruct (ofInt_pos a da Rda Hda) as (m1a & -> & Hm1a & Rm1a).
  destruct (ofInt_pos b db Rdb Hdb) as (m1b & -> & Hm1b & Rm1b).
  destruct (quotient_spec m1a (da - 53) Rm1a ltac:(lia))
    as (ma & dla & -> & Rma & Rdla & Ba).
  destruct (quotient_spec m1b (db - 53) Rm1b ltac:(lia))
    as (mb & dlb & -> & Rmb & Rdlb & Bb).
  apply lt_finite.
  destruct (Z.le_gt_cases 3 (db - da)) as [Hk3|Hk2]; [left; lia|].
  set (Q := 2 ^ (53 - db)) in *.
  assert (HQ : 1 <= Q).
  { assert (0 < Q) by (apply Z.pow_pos_nonneg; lia). lia. }
  assert (HQ1 : db = 53 /\ Q = 1 \/ 2 <= Q).
  { destruct (Z.eq_dec db 53) as [E|E].
    - left. split; [exact E|]. unfold Q. rewrite E. reflexivity.
    - right. unfold Q.
      replace (53 - db) with (Z.succ (53 - db - 1)) by lia.
      rewrite Z.pow_succ_r by lia.
      assert (0 < 2 ^ (53 - db - 1)) by (apply Z.pow_pos_nonneg; lia).
      lia. }
  assert (HK : exists K, 2 ^ (53 - da) = K * Q /\
                         (db - da = 0 /\ K = 1 \/ db - da = 1 /\ K = 2
                          \/ db - da = 2 /\ K = 4)).
  { exists (2 ^ (db - da)). split.
    - unfold Q. rewrite <- Z.pow_add_r by lia. f_equal. lia.
    - assert (Hc : db - da = 0 \/ db - da = 1 \/ db - da = 2) by lia.
      destruct Hc as [E|[E|E]]; rewrite E; auto. }
  destruct HK as (K & HKQ & HKc).
  rewrite HKQ in Hm1a.
  assert (Hgap : K * Q <= K * Zpos m1b - Zpos m1a).
  { rewrite Hm1a, Hm1b.
    replace (K * (b * Q) - a * (K * Q)) with ((K * Q) * (b - a)) by ring.
    assert (0 <= K * Q) by (destruct HKc as [[_ ->]|[[_ ->]|[_ ->]]]; lia).
    rewrite <- (Z.mul_1_r (K * Q)) at 1.
    apply Z.mul_le_mono_nonneg_l; lia. }
  assert (HbM : db = 53 -> Zpos m1b < Zpos D).
  { intros E. rewrite Hm1b. unfold Q. rewrite E. simpl. lia. }
  clearbody Q. clear Hm1a Hm1b HKQ Hda Hdb.
  change (2 ^ 52) with 4503599627370496 in *.
  change (2 ^ 53) with 9007199254740992 in *.
  assert (Ca : dla = 0 \/ dla = 1 \/ dla = 2) by lia.
  assert (Cb : dlb = 0 \/ dlb = 1 \/ dlb = 2) by lia.
  assert (Pa : 4503599627370496 * Zpos D <= Zpos ma * Zpos D
               < 9007199254740992 * Zpos D)
    by (split; [apply Z.mul_le_mono_nonneg_r | apply Z.mul_lt_mono_pos_r];
        lia).
  assert (Pb : 4503599627370496 * Zpos D <= Zpos mb * Zpos D
               < 9007199254740992 * Zpos D)
    by (split; [apply Z.mul_le_mono_nonneg_r | apply Z.mul_lt_mono_pos_r];
        lia).
  assert (Pab : Zpos ma < Zpos mb \/ Zpos mb * Zpos D <= Zpos ma * Zpos D).
  { destruct (Z.lt_ge_cases (Zpos ma) (Zpos mb)) as [H|H]; [left; exact H|].
    right. apply Z.mul_le_mono_nonneg_r; lia. }
  destruct (Z.ltb_spec (Zpos m1a) (Zpos D)) as [Ua|Ua];
    destruct (Z.ltb_spec (Zpos m1b) (Zpos D)) as [Ub|Ub];
    destruct Ca as [ -> | [ -> | -> ] ]; destruct Cb as [ -> | [ -> | -> ] ];
    change (2 ^ 0) with 1 in *; change (2 ^ 1) with 2 in *;
    change (2 ^ 2) with 4 in *;
    destruct HKc as [[Ek ->]|[[Ek ->]|[Ek ->]]];
    clear Hla Hle Hlb Ha Hab Hb Rdla Rdlb; lia.
Qed.

(** Below the mantissa of the divisor the quotients are ordered as the
    integers. *)
Lemma quotient_lt (a b : Z) :
  0 <= a -> a < b -> b < Zpos D ->
  lt (div (ofInt a) (S754_finite false D eD))
     (div (ofInt b) (S754_finite false D eD)) = true.
Proof.
  intros Ha Hab Hb.
  destruct (Z.eq_dec a 0) as [->|Hne];
    [|apply quotient_lt_pos; lia].
  set (db := Z.log2 b + 1).
  assert (Hdb : 2 ^ (db - 1) <= b < 2 ^ db) by (apply digits_of; lia).
  assert (Hlb : Z.log2 b < 53) by (apply Z.log2_lt_pow2; lia).
  assert (Rdb : 1 <= db <= 53)
    by (pose proof (Z.log2_nonneg b); unfold db; lia).
  clearbody db.
  destruct (ofInt_pos b db Rdb Hdb) as (m1b & -> & _ & Rm1b).
  destruct (quotient_spec m1b (db - 53) Rm1b ltac:(lia))
    as (mb & dlb & -> & _).
  reflexivity.
Qed.

Lemma quotient_lt_iff (a b : Z) :
  0 <= a < Zpos D -> 0 <= b < Zpos D ->
  lt (div (ofInt a) (S754_finite false D eD))
     (div (ofInt b) (S754_finite false D eD)) = true <-> a < b.
Proof.
  intros Ha Hb. split.
  - intros H. destruct (Z.lt_trichotomy a b) as [Hlt|[Heq|Hgt]];
      [exact Hlt | |].
    + subst b. rewrite lt_irrefl in H. discriminate.
    + assert (Hba : lt (div (ofInt b) (S754_finite false D eD))
                       (div (ofInt a) (S754_finite false D eD)) = true)
        by (apply quotient_lt; lia).
      apply lt_asym in Hba. congruence.
  - intros H. apply quotient_lt; lia.
Qed.

End Quotients.

(** ** The balance in SOL *)

Lemma billion_eq :
  LAMPORTS_PER_SOL = S754_finite false 8388608000000000 (-23).
Proof. reflexivity. Qed.

(** 0.001 is the quotient of 10^6 lamports. *)
Lemma thousandth_scaled :
  literal 1 3 = div (ofInt 1000000) LAMPORTS_PER_SOL.
Proof. vm_compute. reflexivity. Qed.

Lemma lamports_lt_iff (a b : Z) :
  0 <= a < lamportsLimit -> 0 <= b < lamportsLimit ->
  lt (div (ofInt a) LAMPORTS_PER_SOL) (div (ofInt b) LAMPORTS_PER_SOL) = true
  <-> a < b.
Proof.
  intros Ha Hb. rewrite billion_eq.
  apply quotient_lt_iff; try assumption; try reflexivity.
  - change (2 ^ 52) with 4503599627370496.
    change (2 ^ 53) with 9007199254740992. lia.
  - lia.
Qed.

Lemma lowSol_shown (sdk : Sdk) (connection : Connection)
  (lamports : Lamports) (w : AgentWallet) (sol : Z) :
  lamports (Wallet.publicKeyObj w) = Some sol ->
  (In LowSol (balanceNotices sdk connection lamports w) <->
   lt (div (ofInt sol) LAMPORTS_PER_SOL) (literal 1 3) = true).
Proof.
  intros Hsol. unfold balanceNotices, Wallet.getBalance.
  rewrite Hsol. cbn [orThrow bind].
  rewrite in_app_iff.
  destruct (lt (div (ofInt sol) LAMPORTS_PER_SOL) (literal 1 3));
    destruct (lt (Wallet.getUsdcBalance sdk connection w) (literal 1 2));
    cbn [In]; split; intros H;
    try reflexivity; try discriminate; try tauto;
    repeat destruct H as [H|H]; try discriminate; try contradiction.
Qed.

(** X17: when the SOL balance can be read and is below 2^23 * 10^9
    lamports, [main] prints the low-SOL notice exactly when the wallet
    holds fewer than 1000000 lamports, and never the line for a failed
    check; [getSolBalance] of the payment handler gives the same number
    as the wallet's [getBalance], and is below 0.001 in the same case.
    When the SOL balance cannot be read, that line is all that is
    printed: a low USDC balance goes unmentioned. *)
Theorem low_sol_notice :
  forall sdk connection lamports (w : AgentWallet),
    (forall sol,
        lamports (Wallet.publicKeyObj w) = Some sol ->
        0 <= sol < lamportsLimit ->
        (In LowSol (balanceNotices sdk connection lamports w)
         <-> sol < 1000000) /\
        ~ In BalanceUnknown (balanceNotices sdk connection lamports w) /\
        exists x,
          getSolBalance lamports (Wallet.publicKeyObj w) = Ok x /\
          Wallet.getBalance lamports w = Ok x /\
          (lt x (literal 1 3) = true <-> sol < 1000000)) /\
    (lamports (Wallet.publicKeyObj w) = None ->
     balanceNotices sdk connection lamports w = [BalanceUnknown]).
Proof.
  intros sdk connection lamports w. split.
  - intros sol Hsol Hrange.
    assert (Hlt : lt (div (ofInt sol) LAMPORTS_PER_SOL) (literal 1 3) = true
                  <-> sol < 1000000).
    { rewrite thousandth_scaled.
      apply lamports_lt_iff; [exact Hrange | unfold lamportsLimit; lia]. }
    split; [|split].
    + rewrite (lowSol_shown sdk connection lamports w sol Hsol). exact Hlt.
    + unfold balanceNotices, Wallet.getBalance. rewrite Hsol.
      cbn [orThrow bind]. rewrite in_app_iff.
      destruct (lt (div (ofInt sol) LAMPORTS_PER_SOL) (literal 1 3));
        destruct (lt (Wallet.getUsdcBalance sdk connection w) (literal 1 2));
        cbn [In]; intros [H|H]; repeat destruct H as [H|H];
        try discriminate; try contradiction.
    + exists (div (ofInt sol) LAMPORTS_PER_SOL).
      unfold getSolBalance, Wallet.getBalance. rewrite Hsol.
      cbn [orThrow bind]. repeat split; try reflexivity; apply Hlt.
  - intros Hnone. unfold balanceNotices, Wallet.getBalance.
    rewrite Hnone. reflexivity.
Qed.

Lemma low_sol_notice_witness :
  (In LowSol (balanceNotices Fixture.sdk (Fixture.connection 500000)
                (fun _ => Some 999999) Fixture.wallet) <-> 999999 < 1000000) /\
  balanceNotices Fixture.sdk (Fixture.connection 0) (fun _ => None)
    Fixture.wallet = [BalanceUnknown].
Proof.
  split.
  - apply (proj1 (low_sol_notice Fixture.sdk (Fixture.connection 500000)
                    (fun _ => Some 999999) Fixture.wallet) 999999).
    + reflexivity.
    + vm_compute. split; [discriminate | reflexivity].
  - apply (proj2 (low_sol_notice Fixture.sdk (Fixture.connection 0)
                    (fun _ => None) Fixture.wallet)).
    reflexivity.
Defined.

(** The notices around the two thresholds. *)
Example sol_notices :
  balanceNotices Fixture.sdk (Fixture.connection 500000)
    (fun _ => Some 999999) Fixture.wallet = [LowSol] /\
  balanceNotices Fixture.sdk (Fixture.connection 500000)
    (fun _ => Some 1000000) Fixture.wallet = [] /\
  balanceNotices Fixture.sdk (Fixture.connection 0)
    (fun _ => Some 0) Fixture.wallet = [LowSol; LowUsdc].
Proof. vm_compute. repeat split. Qed.

(** ** Purchases over HTTP *)

Lemma requestTo_request (config : AgentConfig) (endpoint : jsstring)
  (method : option jsstring) (payment : option jsstring) :
  requestTo config endpoint method payment
    (Client.request (Client.new (apiUrl config) (Some (agentId config)))
       endpoint
       (Some {| init_method := method;
                init_headers :=
                  match payment with
                  | Some h => Some [(str "X-PAYMENT", h)]
                  | None => None
                  end |})).
Proof.
  unfold requestTo, Client.request, Client.new.
  cbn [Http.url Http.method Http.headers Client.baseUrl Client.agentId
       init_method init_headers].
  destruct payment as [h|]; repeat split; reflexivity.
Qed.

Lemma requestTo_plain (config : AgentConfig) (endpoint : jsstring) :
  requestTo config endpoint None None
    (Client.request (Client.new (apiUrl config) (Some (agentId config)))
       endpoint None).
Proof.
  unfold requestTo, Client.request, Client.new.
  cbn [Http.url Http.method Http.headers Client.baseUrl Client.agentId].
  repeat split; reflexivity.
Qed.
(** What a purchase that reports success has gone through. *)
Lemma acknowledged_requests (J : Type) (asImageInfo : J -> Reply.ImageInfo)
  (asChallenge : J -> X402Challenge)
  (asPurchaseResult : J -> Reply.PurchaseResult)
  (server : Http.Request -> Result (Http.Response J))
  (sdk : Sdk) (connection : Connection) (wallet : AgentWallet)
  (config : AgentConfig) (a : PinspireAgent) (imageId : Z) :
    success (fst (fst (purchaseImage sdk connection
                         (clientOf J asImageInfo asChallenge asPurchaseResult
                            server config)
                         wallet a imageId))) = true ->
    (exists info described,
        requestTo config (infoEndpoint imageId) None None info /\
        server info = Ok described /\ Http.ok described = true) /\
    (exists buy reply,
        requestTo config (buyEndpoint imageId) (Some (str "POST")) None buy /\
        server buy = Ok reply /\
        (Http.status reply = 200 \/
         Http.status reply = 402 /\
         exists body proof pay settled,
           Http.json reply = Ok body /\
           createPayment sdk connection (getKeypair wallet) (asChallenge body)
           = Ok proof /\
           requestTo config (buyEndpoint imageId) (Some (str "POST"))
             (Some (header proof)) pay /\
           server pay = Ok settled /\ Http.ok settled = true /\
           exists result,
             Http.json settled = Ok result /\
             isNone (Reply.result_image (asPurchaseResult result))
             || isNone (Reply.result_creator (asPurchaseResult result))
             = false)).
Proof.
  pose proof (requestTo_plain config (infoEndpoint imageId)) as Rinfo.
  pose proof (requestTo_request config (buyEndpoint imageId)
                (Some (str "POST")) None) as Rbuy.
  unfold purchaseImage, clientOf.
  cbn [getImageInfo initiatePurchase completePurchase].
  unfold Client.getImageInfo, Client.initiatePurchase,
    Client.completePurchase, Client.fetch.
  fold (infoEndpoint imageId). fold (buyEndpoint imageId).
  set (c := Client.new (apiUrl config) (Some (agentId config))) in *.
  destruct (server (Client.request c (infoEndpoint imageId) None))
    as [described|e] eqn:Hinfo; cbn [bind]; [|discriminate].
  destruct (Http.ok described) eqn:Hok; cbn [negb bind]; [|discriminate].
  destruct (Http.json described) as [body0|e]; cbn [bind]; [|discriminate].
  destruct (readImageInfo (asImageInfo body0)); [|discriminate].
  cbn [init_method init_headers] in Rbuy.
  destruct (server (Client.request c (buyEndpoint imageId)
                      (Some {| init_method := Some (str "POST");
                               init_headers := None |})))
    as [reply|e] eqn:Hbuy; cbn [bind]; [|discriminate].
  destruct (Http.json reply) as [body|e] eqn:Hbody; cbn [bind fst snd];
    [|discriminate].
  intros Hsuccess.
  split; [exists (Client.request c (infoEndpoint imageId) None), described;
          repeat split; try apply Rinfo; assumption|].
  eexists. exists reply.
  split; [exact Rbuy|]. split; [exact Hbuy|].
  destruct (Z.eqb_spec (Http.status reply) 402) as [H402|Hnot].
  - right. split; [exact H402|].
    destruct (createPayment sdk connection (getKeypair wallet)
                (asChallenge body)) as [proof|e] eqn:Hpay; [|discriminate].
    pose proof (requestTo_request config (buyEndpoint imageId)
                  (Some (str "POST")) (Some (header proof))) as Rpay.
    cbn [init_method init_headers] in Rpay.
    destruct (server (Client.request c (buyEndpoint imageId)
                        (Some {| init_method := Some (str "POST");
                                 init_headers :=
                                   Some [(str "X-PAYMENT", header proof)] |})))
      as [settled|e] eqn:Hsettle; cbn [bind] in Hsuccess; [|discriminate].
    destruct (Http.ok settled) eqn:Hs; cbn [negb bind] in Hsuccess.
    + destruct (Http.json settled) as [result|e] eqn:Hres;
        cbn [bind] in Hsuccess; [|discriminate].
      exists body, proof. eexists. exists settled.
      split; [exact Hbody|]. split; [exact Hpay|].
      split; [exact Rpay|]. split; [exact Hsettle|]. split; [exact Hs|].
      exists result. split; [exact Hres|].
      unfold readPurchaseResult in Hsuccess.
      destruct (Reply.result_image (asPurchaseResult result)),
        (Reply.result_creator (asPurchaseResult result));
        try discriminate Hsuccess; reflexivity.
    + destruct (Http.json settled); discriminate.
  - left. destruct (Z.eqb_spec (Http.status reply) 200) as [H200|H];
      [exact H200 | discriminate].
Qed.


(** X18: [purchaseImage], through the client the agent builds, reports
    success only if the marketplace acknowledged the purchase: it answered
    the request for the image details with a 2xx status, and the POST to
    the buy endpoint of that image either with status 200, or with status
    402 and a challenge for which [createPayment] made a proof, and then
    answered the POST to the same endpoint that carried the header of
    that proof as [X-PAYMENT] with a 2xx status and a body that has image
    and creator.  Every one of these requests went to the configured URL
    (without its trailing slash) in the name of the configured agent.
    For an id below 2^53 in magnitude the two endpoints end with the id
    in decimal digits. *)
Theorem success_is_acknowledged :
  forall (J : Type) (asImageInfo : J -> Reply.ImageInfo)
         (asChallenge : J -> X402Challenge)
         (asPurchaseResult : J -> Reply.PurchaseResult)
         (server : Http.Request -> Result (Http.Response J))
         sdk connection wallet (config : AgentConfig) (a : PinspireAgent)
         (imageId : Z),
    success (fst (fst (purchaseImage sdk connection
                         (clientOf J asImageInfo asChallenge asPurchaseResult
                            server config)
                         wallet a imageId))) = true ->
    (exists info described,
        requestTo config (infoEndpoint imageId) None None info /\
        server info = Ok described /\ Http.ok described = true) /\
    (exists buy reply,
        requestTo config (buyEndpoint imageId) (Some (str "POST")) None buy /\
        server buy = Ok reply /\
        (Http.status reply = 200 \/
         Http.status reply = 402 /\
         exists body proof pay settled,
           Http.json reply = Ok body /\
           createPayment sdk connection (getKeypair wallet) (asChallenge body)
           = Ok proof /\
           requestTo config (buyEndpoint imageId) (Some (str "POST"))
             (Some (header proof)) pay /\
           server pay = Ok settled /\ Http.ok settled = true /\
           exists result,
             Http.json settled = Ok result /\
             isNone (Reply.result_image (asPurchaseResult result))
             || isNone (Reply.result_creator (asPurchaseResult result))
             = false)) /\
    (safeInteger imageId ->
     infoEndpoint imageId
     = str "/api/agent/info?imageId=" ++ JSON.numberToString imageId /\
     buyEndpoint imageId
     = str "/api/agent/buy?imageId=" ++ JSON.numberToString imageId).
Proof.
  intros J asImageInfo asChallenge asPurchaseResult server sdk connection
    wallet config a imageId Hsuccess.
  destruct (acknowledged_requests J asImageInfo asChallenge asPurchaseResult
              server sdk connection wallet config a imageId Hsuccess)
    as [Hinfo Hbuy].
  split; [exact Hinfo|]. split; [exact Hbuy|].
  unfold safeInteger, infoEndpoint, buyEndpoint, Number.toString.
  intros Hid.
  destruct (Z.ltb_spec (Z.abs imageId) (2 ^ 53)); [|lia].
  split; reflexivity.
Qed.

Lemma success_is_acknowledged_witness :
  success (fst (fst (purchaseImage Fixture.sdk (Fixture.connection 900000)
                       (clientOf Scenario.Json Scenario.asImageInfo
                          Scenario.asChallenge Scenario.asPurchaseResult
                          Scenario.server (Scenario.config None))
                       Fixture.wallet Fixture.agent 12))) = true /\
  (exists buy reply,
      requestTo (Scenario.config None) (buyEndpoint 12)
        (Some (str "POST")) None buy /\
      Scenario.server buy = Ok reply /\
      (Http.status reply = 200 \/
       Http.status reply = 402 /\
       exists body proof pay settled,
         Http.json reply = Ok body /\
         createPayment Fixture.sdk (Fixture.connection 900000)
           (getKeypair Fixture.wallet) (Scenario.asChallenge body)
         = Ok proof /\
         requestTo (Scenario.config None) (buyEndpoint 12)
           (Some (str "POST")) (Some (header proof)) pay /\
         Scenario.server pay = Ok settled /\ Http.ok settled = true /\
         exists result,
           Http.json settled = Ok result /\
           isNone (Reply.result_image (Scenario.asPurchaseResult result))
           || isNone (Reply.result_creator (Scenario.asPurchaseResult result))
           = false)) /\
  infoEndpoint 12 = str "/api/agent/info?imageId=12" /\
  buyEndpoint 12 = str "/api/agent/buy?imageId=12".
Proof.
  assert (Hsuccess :
    success (fst (fst (purchaseImage Fixture.sdk (Fixture.connection 900000)
                         (clientOf Scenario.Json Scenario.asImageInfo
                            Scenario.asChallenge Scenario.asPurchaseResult
                            Scenario.server (Scenario.config None))
                         Fixture.wallet Fixture.agent 12))) = true)
    by (vm_compute; reflexivity).
  split; [exact Hsuccess|].
  destruct (success_is_acknowledged Scenario.Json Scenario.asImageInfo
              Scenario.asChallenge Scenario.asPurchaseResult Scenario.server
              Fixture.sdk (Fixture.connection 900000) Fixture.wallet
              (Scenario.config None) Fixture.agent 12 Hsuccess)
    as (_ & Hbuy & Htext).
  split; [exact Hbuy|].
  apply Htext. unfold safeInteger. lia.
Defined.

(** The endpoints for ids that a Number holds with an exponent, or with
    zeros for the digits it does not hold; and a settlement answered with
    something else than a purchase is no success. *)
Example endpoint_texts :
  infoEndpoint (10 ^ 21) = str "/api/agent/info?imageId=1e+21" /\
  buyEndpoint (2 ^ 64) = str "/api/agent/buy?imageId=18446744073709552000" /\
  buyEndpoint (2 ^ 53 + 1) = str "/api/agent/buy?imageId=9007199254740992" /\
  buyEndpoint (- 5) = str "/api/agent/buy?imageId=-5" /\
  buyEndpoint (- (123456789 * 10 ^ 20))
  = str "/api/agent/buy?imageId=-1.23456789e+28" /\
  success (fst (fst (purchaseImage Fixture.sdk (Fixture.connection 900000)
                       (clientOf Scenario.Json Scenario.asImageInfo
                          Scenario.asChallenge Scenario.asPurchaseResult
                          (Scenario.answering
                             {| Http.status := 402;
                                Http.json :=
                                  Ok (Scenario.ChallengeBody
                                        Scenario.challenge) |})
                          (Scenario.config None))
                       Fixture.wallet Fixture.agent 12))) = false.
Proof.
  vm_compute. repeat split.
Qed.

(** ** Integers of any size as numbers *)

Lemma shr_1_half (r : shr_record) :
  0 <= shr_m r -> shr_m (shr_1 r) = shr_m r / 2.
Proof.
  destruct r as [m b s]. cbn [shr_m]. intros Hm.
  rewrite <- Z.div2_div.
  destruct m as [|[q|q|]|q]; try reflexivity. lia.
Qed.

(** Shifting right by [p] digits divides the mantissa by 2^p. *)
Lemma shr_iter_half (p : positive) (r : shr_record) :
  0 <= shr_m r -> shr_m (iter_pos shr_1 p r) = shr_m r / 2 ^ Zpos p.
Proof.
  intros Hm. rewrite iter_pos_iter.
  induction p as [|p IH] using Pos.peano_ind.
  - cbn [Pos.iter]. rewrite shr_1_half by exact Hm. reflexivity.
  - rewrite Pos.iter_succ, shr_1_half.
    + rewrite IH, Pos2Z.inj_succ, Z.pow_succ_r by lia.
      rewrite Z.div_div by (try apply Z.pow_pos_nonneg; lia).
      f_equal. lia.
    + rewrite IH. apply Z.div_pos; [exact Hm | apply Z.pow_pos_nonneg; lia].
Qed.

(** The last stage on a mantissa between 2^52 and 2^53: a number of the
    sign given, or the infinity of that sign. *)
Lemma finish_shape (s : bool) (v e : Z) :
  2 ^ 52 <= v <= 2 ^ 53 -> -1074 <= e ->
  (exists (m : positive) (c : Z),
      finish s v e = S754_finite s m (e + c) /\ 0 <= c <= 1) \/
  finish s v e = S754_infinity s.
Proof.
  intros Hv He. unfold finish.
  destruct (Z.eq_dec v (2 ^ 53)) as [->|Hne].
  - change (2 ^ 53) with (Zpos 9007199254740992).
    rewrite shr_fexp_54 by (try reflexivity; lia).
    cbn [shr_record_of_loc shr_1 shr_m].
    destruct (e + 1 <=? emax - prec); [left|right; reflexivity].
    exists 4503599627370496%positive, 1. split; [reflexivity | lia].
  - destruct v as [|p|p];
      try (exfalso; change (2 ^ 52) with 4503599627370496 in Hv; lia).
    assert (Hd : Zpos (digits2_pos p) = 53) by (apply digits_unique; lia).
    rewrite (shr_fexp_53 p e _ Hd) by lia.
    cbn [shr_record_of_loc shr_m].
    destruct (e <=? emax - prec); [left|right; reflexivity].
    exists p, 0. rewrite Z.add_0_r. split; [reflexivity | lia].
Qed.

(** The Number value of a non-zero integer has the sign of the integer:
    it is a number with an exponent of at least 1 from 2^53 on, or an
    infinity. *)
Lemma round_shape (s : bool) (p : positive) :
  (exists (m : positive) (e : Z),
      binary_round prec emax s p 0 = S754_finite s m e /\
      (2 ^ 53 <= Zpos p -> 1 <= e)) \/
  binary_round prec emax s p 0 = S754_infinity s.
Proof.
  pose proof (digits_bounds p) as Hb.
  set (d := Zpos (digits2_pos p)) in *.
  assert (Hd1 : 1 <= d) by (unfold d; lia).
  unfold binary_round. fold d. rewrite fexp_eq. unfold shl_align.
  destruct (Z.le_gt_cases d 53) as [Hs|Hbig].
  - (* at most 53 digits: the integer is exact *)
    left.
    assert (Hno : 2 ^ 53 <= Zpos p -> False).
    { intros H. assert (2 ^ d <= 2 ^ 53) by (apply Z.pow_le_mono_r; lia).
      lia. }
    replace (Z.max (d + 0 - 53) (-1074) - 0) with (d - 53) by lia.
    assert (Hm : 2 ^ 52 <= Zpos p * 2 ^ (53 - d) < 2 ^ 53).
    { assert (P1 : 2 ^ 52 = 2 ^ (d - 1) * 2 ^ (53 - d))
        by (rewrite <- Z.pow_add_r by lia; f_equal; lia).
      assert (P2 : 2 ^ 53 = 2 ^ d * 2 ^ (53 - d))
        by (rewrite <- Z.pow_add_r by lia; f_equal; lia).
      assert (0 < 2 ^ (53 - d)) by (apply Z.pow_pos_nonneg; lia).
      rewrite P1, P2. split.
      - apply Z.mul_le_mono_nonneg_r; lia.
      - apply Z.mul_lt_mono_pos_r; lia. }
    destruct (d - 53) as [|k|k] eqn:Hk; try lia.
    + assert (Hd53 : Zpos (digits2_pos p) = 53) by (fold d; lia).
      exists p, 0. split; [|intros H; contradiction (Hno H)].
      rewrite binary_round_aux_finish, (shr_fexp_53 p 0 _ Hd53) by lia.
      cbn [shr_record_of_loc shr_m loc_of_shr_record round_nearest_even].
      apply finish_53; [exact Hd53 | lia].
    + assert (Hk' : 53 - d = Zpos k) by lia.
      rewrite Hk' in Hm.
      assert (Hd53 : Zpos (digits2_pos (Pos.iter xO p k)) = 53)
        by (apply digits_unique; rewrite iter_xO; exact Hm).
      exists (Pos.iter xO p k), (Z.max (d + 0 - 53) (-1074)).
      split; [|intros H; contradiction (Hno H)].
      rewrite binary_round_aux_finish, (shr_fexp_53 _ _ _ Hd53) by lia.
      cbn [shr_record_of_loc shr_m loc_of_shr_record round_nearest_even].
      apply finish_53; [exact Hd53 | lia].
  - (* more than 53 digits: the integer is rounded *)
    replace (Z.max (d + 0 - 53) (-1074) - 0) with (d - 53) by lia.
    destruct (d - 53) as [|k|k] eqn:Hk; try lia.
    rewrite binary_round_aux_finish.
    unfold shr_fexp, Zdigits2. fold d. rewrite fexp_eq.
    replace (Z.max (d + 0 - 53) (-1074) - 0) with (Zpos k) by lia.
    cbn [shr_record_of_loc shr].
    set (r := iter_pos shr_1 k
                {| shr_m := Zpos p; shr_r := false; shr_s := false |}).
    assert (Hr : shr_m r = Zpos p / 2 ^ Zpos k)
      by (unfold r; rewrite shr_iter_half; cbn [shr_m]; [reflexivity | lia]).
    assert (Hq : 2 ^ 52 <= shr_m r < 2 ^ 53).
    { rewrite Hr.
      assert (0 < 2 ^ Zpos k) by (apply Z.pow_pos_nonneg; lia).
      assert (P1 : 2 ^ (d - 1) = 2 ^ 52 * 2 ^ Zpos k)
        by (rewrite <- Z.pow_add_r by lia; f_equal; lia).
      assert (P2 : 2 ^ d = 2 ^ 53 * 2 ^ Zpos k)
        by (rewrite <- Z.pow_add_r by lia; f_equal; lia).
      split.
      - apply Z.div_le_lower_bound; lia.
      - apply Z.div_lt_upper_bound; lia. }
    pose proof (round_nearest_even_cases (shr_m r) (loc_of_shr_record r))
      as Hrne.
    set (v := round_nearest_even (shr_m r) (loc_of_shr_record r)) in *.
    assert (Hv : 2 ^ 52 <= v <= 2 ^ 53)
      by (destruct (loc_of_shr_record r) as [|[| |]]; lia).
    destruct (finish_shape s v (0 + Zpos k) Hv ltac:(lia))
      as [(m & c & Hfin & Hc)|Hinf]; [left|right; exact Hinf].
    exists m, (0 + Zpos k + c). split; [exact Hfin | lia].
Qed.

Lemma ofInt_negative (z : Z) : z < 0 -> lt (ofInt z) (ofInt 1) = true.
Proof.
  intros Hz. destruct z as [|p|p]; try lia.
  unfold ofInt at 1. cbn [binary_normalize].
  destruct (round_shape true p) as [(m & e & -> & _)| ->]; reflexivity.
Qed.

(** An integer above a length is above it as a number, however large it
    is. *)
Lemma ofInt_above (len z : Z) :
  0 <= len < 2 ^ 53 -> len < z -> lt (ofInt len) (ofInt z) = true.
Proof.
  intros Hlen Hz.
  destruct (Z.lt_ge_cases z (2 ^ 53)) as [Hsmall|Hbig].
  - destruct (Z.eq_dec len 0) as [->|Hne]; [|apply ofInt_lt; lia].
    destruct (ofInt_finite z ltac:(lia)) as (m & e & ->). reflexivity.
  - destruct z as [|p|p]; try lia.
    unfold ofInt at 2. cbn [binary_normalize].
    destruct (Z.eq_dec len 0) as [->|Hne].
    + destruct (round_shape false p) as [(m & e & -> & _)| ->]; reflexivity.
    + set (d := Z.log2 len + 1).
      assert (Hd : 2 ^ (d - 1) <= len < 2 ^ d) by (apply digits_of; lia).
      assert (Hl : Z.log2 len < 53) by (apply Z.log2_lt_pow2; lia).
      pose proof (Z.log2_nonneg len).
      assert (Rd : 1 <= d <= 53) by (unfold d; lia). clearbody d.
      destruct (ofInt_pos len d Rd Hd) as (ml & -> & _).
      destruct (round_shape false p) as [(m & e & -> & He)| ->];
        [|reflexivity].
      apply lt_finite. left. specialize (He Hbig). lia.
Qed.

(** ** Answers to the menu *)

(** What [parseInt] with radix 10 can give: NaN, a zero, or the Number
    value of a non-zero integer. *)
Lemma parseInt10_shape (s : jsstring) :
  parseInt10 s = NaN \/
  (exists sign, parseInt10 s = S754_zero sign) \/
  (exists z, z <> 0 /\ parseInt10 s = ofInt z).
Proof.
  unfold parseInt10.
  destruct (match trimStart s with
            | [] => (false, trimStart s)
            | c :: r =>
                if c =? 45 then (true, r)
                else if c =? 43 then (false, r) else (false, trimStart s)
            end) as [sign S1].
  destruct (digitsPrefix 10 S1 0 false) as [n|]; [|left; reflexivity].
  destruct (Z.eqb_spec n 0) as [->|Hn]; right; [left; eauto|].
  right. exists (if sign then - n else n).
  split; [destruct sign; lia | reflexivity].
Qed.

(** A selection that passes the three tests of the loop denotes an entry
    of the list. *)
Lemma selection_found {A} (array : list A) (x : number) :
  Z.of_nat (List.length array) < 2 ^ 53 ->
  (x = NaN \/ (exists sign, x = S754_zero sign) \/
   (exists z, z <> 0 /\ x = ofInt z)) ->
  isNaN x = false -> strictEquals x (ofInt 0) = false ->
  lt x (ofInt 1) || lt (ofInt (Z.of_nat (List.length array))) x = false ->
  exists item, elementAt array (sub x (ofInt 1)) = Some item.
Proof.
  intros Hlen [->|[[sign ->]|(z & Hz & ->)]] Hnan Hzero Hrange.
  - discriminate.
  - destruct sign; discriminate.
  - apply orb_false_iff in Hrange as [Hlow Hhigh].
    assert (H1 : 1 <= z).
    { destruct (Z.lt_ge_cases z 0) as [Hneg|Hpos]; [|lia].
      rewrite (ofInt_negative z Hneg) in Hlow. discriminate. }
    assert (H2 : z <= Z.of_nat (List.length array)).
    { destruct (Z.le_gt_cases z (Z.of_nat (List.length array)))
        as [Hle|Hgt]; [exact Hle|].
      rewrite (ofInt_above _ z) in Hhigh by lia. discriminate. }
    destruct (selection_in_range array z ltac:(lia) Hlen)
      as (_ & _ & _ & _ & ->).
    destruct (nth_error array (Z.to_nat (z - 1))) as [item|] eqn:E;
      [eauto|].
    apply nth_error_None in E. lia.
Qed.

(** ** Runs that throw *)

Section LoopEnds.
Variable sdk : Sdk.
Variable wallet : AgentWallet.
Variable config : AgentConfig.
Variable toLowerCase : jsstring -> jsstring.
Variable world : nat -> World.
Variable images : list ImageItem.
Hypothesis images_length : Z.of_nat (List.length images) < 2 ^ 53.

(** The purchase loop does not throw, whatever is answered. *)
Lemma purchaseLoop_no_throw (len : nat) :
  forall answers n a a' log e err,
    (List.length answers <= len)%nat ->
    purchaseLoop sdk wallet config toLowerCase world images answers n a
    = (a', log, e) ->
    e <> LoopThrown err.
Proof.
  induction len as [|len IH]; intros answers n a a' log e err Hlen Hrun.
  - destruct answers; [|simpl in Hlen; lia].
    injection Hrun as <- <- <-. discriminate.
  - destruct answers as [|answer answers1].
    { injection Hrun as <- <- <-. discriminate. }
    cbn [List.length] in Hlen. cbn [purchaseLoop] in Hrun.
    destruct (isNaN (parseInt10 answer)) eqn:Hnan.
    { apply (IH answers1 n a a' log e); [lia | exact Hrun]. }
    destruct (strictEquals (parseInt10 answer) (ofInt 0)) eqn:Hzero.
    { injection Hrun as <- <- <-. discriminate. }
    destruct (lt (parseInt10 answer) (ofInt 1)
              || lt (ofInt (Z.of_nat (List.length images))) (parseInt10 answer))
      eqn:Hrange.
    { apply (IH answers1 n a a' log e); [lia | exact Hrun]. }
    destruct (selection_found images (parseInt10 answer) images_length
                (parseInt10_shape answer) Hnan Hzero Hrange)
      as [selectedImage Hsel].
    rewrite Hsel in Hrun.
    destruct answers1 as [|confirm answers2].
    { injection Hrun as <- <- <-. discriminate. }
    cbn [List.length] in Hlen.
    destruct (saysYes toLowerCase confirm); cbn [negb] in Hrun.
    2:{ apply (IH answers2 n a a' log e); [lia | exact Hrun]. }
    destruct (purchaseAndRecord sdk (ledger (world n)) (marketplace (world n))
                wallet a (item_id selectedImage) (item_title selectedImage))
      as [a1 log1].
    destruct (purchaseLimit config <=? purchaseCount a1).
    { injection Hrun as <- <- <-. discriminate. }
    destruct answers2 as [|another answers3].
    { injection Hrun as <- <- <-. discriminate. }
    cbn [List.length] in Hlen.
    destruct (saysYes toLowerCase another); cbn [negb] in Hrun.
    2:{ injection Hrun as <- <- <-. discriminate. }
    destruct (purchaseLoop sdk wallet config toLowerCase world images
                answers3 (S n) a1) as [[a2 log2] e2] eqn:Hrest.
    injection Hrun as <- <- <-.
    apply (IH answers3 (S n) a1 a2 log2 e2); [lia | exact Hrest].
Qed.

End LoopEnds.

(** X19: neither way to run throws once the marketplace has been
    discovered and a purchase can start.  An interactive run, whatever is
    answered and whatever ledger and marketplace do during the purchases,
    throws only when the marketplace information could not be had; the
    run without questions throws only then, or when the browsed list is
    empty although [totalImages] is not 0.  In both cases nothing was
    bought and no purchase request was sent. *)
Theorem runs_throw_before_purchases :
  forall sdk wallet config discovery toLowerCase,
    Z.of_nat (List.length (listed discovery)) < 2 ^ 53 ->
    (forall world answers a a' log err,
        runInteractive sdk wallet config discovery toLowerCase world answers a
        = (a', log, Thrown err) ->
        discoverMarketplace discovery = Throw err /\ a' = a /\ log = []) /\
    (forall world a a' log err,
        run sdk wallet discovery world a = (a', log, Thrown err) ->
        (discoverMarketplace discovery = Throw err \/
         err = TypeError /\ listed discovery = [] /\
         nothingToBuy (browseAvailableImages discovery) = false) /\
        a' = a /\ log = []).
Proof.
  intros sdk wallet config discovery toLowerCase Hlen. split.
  - intros world answers a a' log err. unfold runInteractive.
    destruct (discoverMarketplace discovery) as [u|e0].
    2:{ intros H. injection H as <- <- <-. auto. }
    unfold listed in Hlen.
    destruct (browseAvailableImages discovery) as [[total [items|]]|] eqn:Hb;
      cbn [nothingToBuy totalImages]; [| |discriminate].
    + destruct (match total with Some n => n =? 0 | None => false end);
        [discriminate|].
      destruct (purchaseLoop sdk wallet config toLowerCase world items
                  answers 0 a) as [[a1 log1] e1] eqn:Hloop.
      pose proof (purchaseLoop_no_throw sdk wallet config toLowerCase world
                    items Hlen (List.length answers) answers 0 a a1 log1 e1)
        as Hno.
      destruct e1 as [| |e1]; try discriminate.
      exfalso. apply (Hno e1); [lia | exact Hloop | reflexivity].
    + exfalso. unfold browseAvailableImages in Hb.
      destruct (browseImages discovery) as [result|]; [|discriminate Hb].
      destruct (images result) eqn:E; [|discriminate Hb].
      injection Hb as Hb. rewrite Hb in E. cbn [images] in E. discriminate E.
  - intros world a a' log err. unfold run.
    destruct (discoverMarketplace discovery) as [u|e0].
    2:{ intros H. injection H as <- <- <-. auto. }
    destruct (nothingToBuy (browseAvailableImages discovery)) eqn:Hnb;
      [discriminate|].
    unfold listed.
    destruct (browseAvailableImages discovery)
      as [[total [[|targetImage others]|]]|].
    + intros H. injection H as <- <- <-. auto.
    + destruct (purchaseImage sdk (ledger world) (marketplace world) wallet a
                  (item_id targetImage)) as [[outcome a1] log1].
      discriminate.
    + intros H. injection H as <- <- <-. auto.
    + discriminate.
Qed.
Lemma runs_throw_before_purchases_witness :
  let r :=
    runInteractive Fixture.sdk Fixture.wallet (Scenario.config None)
      Scenario.unreachable Scenario.toLowerCase Scenario.world
      [str "1"; str "y"] Fixture.agent in
  snd r = Thrown HttpError /\
  discoverMarketplace Scenario.unreachable = Throw HttpError /\
  fst (fst r) = Fixture.agent /\ snd (fst r) = [].
Proof.
  split; [vm_compute; reflexivity|].
  apply (proj1 (runs_throw_before_purchases Fixture.sdk Fixture.wallet
                  (Scenario.config None) Scenario.unreachable
                  Scenario.toLowerCase ltac:(vm_compute; reflexivity))
           Scenario.world [str "1"; str "y"] Fixture.agent).
  vm_compute. reflexivity.
Defined.

(** Answers that are no selection are asked for again; a purchase that
    fails does not end the run. *)
Example odd_answers :
  let r :=
    runInteractive Fixture.sdk Fixture.wallet (Scenario.config None)
      Scenario.discovery Scenario.toLowerCase Scenario.world
      [str "x"; str "-3"; str "99999999999999999999999"; str "4"; str "1.9";
       str "y"; str "y"; str " 2"; str "y"; str "no"]
      Fixture.agent in
  snd r = Finished {| attempted := 2; successful := 1; failed := 1 |} /\
  map rec_id (purchasedImages (fst (fst r))) = [11; 12].
Proof. vm_compute. split; reflexivity. Qed.
